(* ===== verification/_CoqProject ===== *)
-Q . S2P
Prelude.v
Decimal.v
Utils.v
Logging.v
Sync.v
TxContainer.v
MsgIDs.v
AdminCommand.v
CommandObjects.v
TableEvents.v
SamBuffer.v
SamProtocol.v
SamTests.v
Table.v
TableFacts.v
Snapshot.v
TableProps.v
ReadBuffer.v
Client.v
Delivery.v
LegacyIO.v
LegacyProps.v
LegacyReader.v
Reactor.v
ReactorProps.v
ReactorLoop.v
ReactorOutput.v
RunQueue.v
ReactorLife.v
ReactorEnd.v
ReactorRest.v
Monitor.v
MonitorView.v
Session.v
Hostile.v
AdminInterface.v
Interface.v
ServerSocket.v
SelfDelete.v
Facade.v
AdminTool.v
Messages.v
TableMessages.v
CommandLine.v
SlowConsumer.v
EndToEnd.v
Wakeups.v
HostileServer.v
ExampleServer.v
Replica.v
