(* ===== verification/Prelude.v ===== *)
(** Verification of exio, a C++ library with which a program offers
    administration commands, monitoring tables and alerts over TCP, and of its
    command line client [admin].

    * The program

    A message ([txMessage], a tree of named fields and containers) is encoded
    into a SAM frame ([SAMProtocol] over a [SamBuffer]) and queued on a
    connection ([Client]).  One event loop ([Reactor]) reads and writes the
    sockets; worker threads take clients with input off a run queue and call
    the connection's callback, an [AdminSession], which decodes the bytes and
    hands each message to its listener.  On the server the listener is
    [AdminInterfaceImpl]: it keeps the registry of sessions, answers requests
    with built-in or application commands, and owns the [Monitor], a set of
    tables ([DataTable]).  A table turns each change into events, and events
    into messages for its subscribers; a new subscriber first gets a
    description and a snapshot in batches that fit a SAM frame.  In the client
    program the listener is [AdminListener], which prints the replies.  A
    server thread ([AdminServerSocket]) accepts connections and makes a session
    for each; applications use all of it through [AdminInterface].

    * The files

    - [Prelude]: exceptions and the [result] monad, machine integers
      ([size_t], [int32] wrap at their width), the state-and-output monad
      [eff] of stateful operations that can throw, ordered iteration of maps,
      tactics, hint and rewrite databases, shared lemmas.
    - [Decimal], [Utils]: number printing and parsing of the C and C++
      libraries; [utils.cc].
    - [Logging]: [AppSvc.cc], [AppSvc.h], [Logger.h] (levels and log lines).
    - [Sync]: mutexes, locks, atomics and thread handles of [libcpp11].
    - [TxContainer], [MsgIDs]: [txItem], [txField], [txContainer], [qname],
      [txMessage], [MessageFormatter] of [sam.h] and [sam.cc]; [MsgIDs.h].
      Pointers to items are positions in the owner's item list.
    - [SamBuffer], [SamProtocol]: [SamBuffer.cc] with the class of buffers and
      its laws; encoder, size calculation and decoder of [sam.cc].  The decoder
      works on offsets into the readable memory, of which a prefix is data, so
      that reads outside the data are visible.
    - [AdminCommand], [CommandObjects]: [AdminCommand.cc] (requests, replies,
      [TableBuilder]; the command objects and the targets they own).
    - [TableEvents], [Table]: [TableEvents.cc], [TableSerialiser.cc],
      [Table.cc]; [TableFacts], [Snapshot], [TableProps]: their theory.
    - [Monitor], [MonitorView]: [Monitor.cc]; the view of a remote session.
    - [ReadBuffer], [Client], [Delivery]: [ReactorReadBuffer], [Client.cc];
      the stream of messages over a connection.
    - [LegacyIO], [LegacyProps], [LegacyReader]: [AdminIO.h] and [AdminIO.cc]
      of [old/], the earlier connection with a reader and a writer thread, as a
      transition system; what it sends and how it ends; what it reads and
      hands to its listener.
    - [Reactor], [ReactorProps]: [Reactor.cc] and the run state of
      [ReactorClient], as a transition system over threads; [ReactorLoop]: a
      round of the loop as it is written, and the end of the destructor;
      [ReactorOutput], [Wakeups]: output queued while the loop waits, and that
      the server notifies the loop of it; [RunQueue]: the run queue with its
      mutex and condition variable ([condition_variable.cc]); [ReactorLife], [ReactorEnd]: the constructor
      and the destructor, which is one more thread, and why it comes to an end;
      [ReactorRest]: loop and workers come to rest when nothing more arrives.
    - [Session]: [AdminSession.cc]; the instance [session_callback] makes a
      session the callback of a connection.
    - [Hostile]: a connection whose peer may send anything, and which listeners
      survive it.
    - [AdminInterface], [Interface]: [AdminInterfaceImpl.cc]; its properties;
      [HostileServer]: the interface against any peer.
    - [ServerSocket]: [AdminServerSocket.cc], the accept thread.
    - [Facade]: [AdminInterface.cc], the calls of an application.
    - [AdminTool], [CommandLine]: [src/admin.cc]: listener and messages;
      options, connecting, exit codes.
    - [Messages], [TableMessages]: which messages the protocol carries, by how
      they are built; [EndToEnd]: the tool and the library in conversation;
      [Replica]: the tables of an application rebuilt at the other end of a
      connection.
    - [SamTests], [SelfDelete], [SlowConsumer], [ExampleServer]: the programs
      under [test/]: [sam_tests.cc], [client_deletes_itself.cc],
      [slow_consumer.cc] and [example.cc].

    * How code is modelled

    A C++ object is a record with the members' names; a member function is a
    function on it with the same name (prefixed where two classes share one).
    Exceptions are values of [exn]; [undefined_behaviour] marks evaluations
    C++ gives no meaning to.  An operation of a table, the monitor or the
    interface is an [eff]: it returns the new state, what it sends, and a
    value or an exception, with the state also when it throws.  Member
    functions that hold a lock throughout are atomic; [Reactor] has one step
    for each critical section or call, and lets the threads interleave freely;
    [RunQueue] has the lock operations of the run queue as steps of their own.
    The operating system (results of [read], [send], [poll], the clock, host
    names, thread identifiers) and the commands an application registers are
    arguments.  Where components meet there are type classes: [SamBuffer] and
    [SamBufferLaws] between encoder and buffer, [ClientCallback] and
    [SamCallback] between connection and session, [SessionListener] and
    [SessionListenerLaws] between session and interface or tool;
    [WakingCallback] and [WakingListener] state that what is queued is
    notified; [Enduring]
    states what a callback promises against arbitrary input, and [Sturdy] what
    a listener promises so that its session keeps that.

    * What is proved

    - Messages: the container operations keep the name indexes exact; writing
      and reading by qualified name agree; [merge] combines; command objects
      copy as values.
    - Protocol: an encoded message decodes to itself followed by any bytes; the
      encoder writes exactly the wire form into every lawful buffer, and the
      growing buffer is lawful; the size calculation is a bound; the decoder
      ends on all inputs, consumes at most what it is given, and waits while a
      message is incomplete.
    - Connections: bytes sent and queued are the bytes accepted, in order; a
      graceful close sends everything first; the queue drains while the kernel
      takes bytes and stays shut once shut; every inbound message is delivered
      exactly once and in order for every cutting of the stream into reads.
    - Threads: in every reachable state a client is held by one worker, not
      deleted while queued or held, never left with unprocessed input that no
      thread will look at, nor with unsent output of which [poll] does not know,
      and known to the event loop or in a notification that wakes it.  The loop as written, with its poll set and descriptor
      map, is a run of these steps; so is the run queue with its mutex and
      condition variable, in which no wake-up is missed and on which all
      workers end at shutdown.  The constructor succeeds or leaves what is said;
      the destructor takes everything down in a safe order and comes to its end
      from every state the threads can be in, unless a worker has a client with
      which it does not finish.  When nothing more arrives, loop and workers
      serve all clients within a bounded number of steps and then sleep.  Locks
      and thread handles refuse misuse.
    - Any peer: whatever bytes arrive and however the connection ends, a session
      of the server ends with a value or runs into one of the flaws listed; the
      same for the tool, the slow consumer and the example application, and a
      callback that deletes itself is deleted once.
    - Tables: the indexes stay exact under all operations; updates, deletion
      and clearing do what they say; a subscriber that applies the messages has
      the table's contents; snapshots end, fit the frame and rebuild the table;
      the same for all tables of the monitor and sessions that join at any
      time; an application reads back what it wrote.
    - Interface: all operations keep the session registry consistent; a
      connection finds a slot iff there is one; closed sessions are released;
      every request gets one answer with its number; the accept thread makes a
      session for every connection or closes it.
    - Tool: the command line is understood wherever the options stand; the
      first address that answers is used; the request is read back as given;
      and end to end a list command typed at the terminal shows the names the
      server holds, however the bytes travel.
    - Replica: whatever an application does to its tables, whoever reads the
      connection of a session that has logged on gets messages that rebuild
      them exactly, through monitor, interface, session, encoder, queue,
      socket, read buffer and decoder.
    - Legacy connection: in every interleaving the socket is closed once and
      used only before, output is sent in order, messages are delivered in
      order, and a requested stop completes, after which the object may be
      deleted.
    - Flaws of the code, as theorems about it: the decoder's read after the
      data, the removed row that is not named, the row that is not announced,
      the subscription that survives, the unchecked session number, the poll
      failure that is not reported, the arguments taken for options, clients
      left at the end of the reactor, the reply that uses the notification queue
      after it was deleted, the worker that spins when the buffer cannot grow,
      the thread function that gets a pointer nobody has set; in the legacy
      connection the read after the close, the descriptor too large for
      [select], the thread left by a failed constructor, the error that is lost.

    * Fuel and bounds

    [scan], [decode_loop] and [decode_msglen] get one unit per byte of the data
    ([decode_total] shows that they never run out); [feed] one per byte
    available, since each round consumes at least one; [snapshot_loop] the
    number of rows plus the halvings of the batch size ([snapshot_terminates]);
    [collect_args] one per argument and one more, because a missing argument
    throws.  [handle_output], [accept_loop] and [connect_loop] recur on the
    system's answers.  [find_slot] runs the [SESSION_REG_SIZE] rounds of the
    source.  Counters are at the width of
    the source; where a theorem needs a counter not to wrap, the bound is a
    hypothesis in bytes or items.

    * What is not modelled

    The build files and the macros of the tests' [Logger.h], which no program
    includes.  Socket options and the identifiers of the reactor's threads,
    which are only reported.  A call on a client and the notification it makes
    are one step of [Reactor].  The floating-point prices of the example are arguments, and what programs write
    to the console is modelled where it is their result.  In [EndToEnd] and
    [Replica] one session talks and the clock of the interface stands still
    within an event; [Replica] considers the calls whose changes are announced
    (not the deletion of rows, whose message lacks the row).  In [Hostile] and
    [HostileServer] a peer sends less than 2 GB, and other threads do not clean
    up the session that is followed.  Memory allocation is taken to succeed. *)

From stdpp Require Export base list strings gmap sorting.
From Stdlib Require Export ZArith Ascii Lia.

(** Strings are [std::string] (any bytes, NUL included); [const char*] regions
    and [std::vector<char>] are lists of characters. *)
Declare Scope exio_scope.
Delimit Scope exio_scope with exio.

Abbreviation bytes := (list ascii).
Abbreviation str := String.list_ascii_of_string.
Abbreviation unstr := String.string_of_list_ascii.

(** * Exceptions

    What a C++ function of the library can end with besides a value.  The
    constructor [undefined_behaviour] is not an exception: it marks an
    evaluation for which C++ gives no meaning (an access outside an object, a
    dereference of an erased iterator).  [out_of_fuel] is never a result of
    the code; each fuelled loop comes with a lemma that it is not reached. *)
Inductive exn : Type :=
| runtime_error (what : string)
| out_of_range (what : string)
| AdminError (code : Z) (what : string)
| undefined_behaviour (what : string)
| out_of_fuel.

#[global] Instance exn_eq_dec : EqDecision exn.
Proof. solve_decision. Defined.

(** [std::exception::what()]. *)
Definition exn_what (e : exn) : string :=
  match e with
  | runtime_error s | out_of_range s | AdminError _ s => s
  | undefined_behaviour s => s
  | out_of_fuel => "out of fuel"
  end.

Inductive result (A : Type) : Type :=
| Ok (a : A)
| Throw (e : exn).
Arguments Ok {A} a.
Arguments Throw {A} e.

#[global] Instance result_eq_dec `{EqDecision A} : EqDecision (result A).
Proof. solve_decision. Defined.

#[global] Instance result_ret : MRet result := fun A a => Ok a.
#[global] Instance result_bind : MBind result := fun A B f m =>
  match m with Ok a => f a | Throw e => Throw e end.
#[global] Instance result_fmap : FMap result := fun A B f m =>
  match m with Ok a => Ok (f a) | Throw e => Throw e end.

Definition is_ok {A} (m : result A) : bool :=
  match m with Ok _ => true | Throw _ => false end.

Lemma result_bind_Ok {A B} (m : result A) (f : A -> result B) b :
  m ≫= f = Ok b <-> exists a, m = Ok a /\ f a = Ok b.
Proof.
  destruct m as [a|e]; simpl; split.
  - eauto.
  - by intros (? & [= <-] & ?).
  - done.
  - by intros (? & ? & ?).
Qed.

Lemma result_bind_assoc {A B C} (m : result A) (f : A -> result B) (g : B -> result C) :
  (m ≫= f) ≫= g = m ≫= (fun a => f a ≫= g).
Proof. by destruct m. Qed.

(** * Machine integers

    [size_t] and [uint64_t] are 64 bits wide (the LP64 model the sources'
    [__LP64__] branch selects), [unsigned int] and [int] 32 bits. *)
Definition wrap (w : Z) (z : Z) : Z := (z mod 2 ^ w)%Z.
Definition size_t (z : Z) : Z := wrap 64 z.
Definition unsigned_int (z : Z) : Z := wrap 32 z.
(** Two's complement value of the low 32 bits. *)
Definition int32 (z : Z) : Z :=
  let u := wrap 32 z in if (u <? 2 ^ 31)%Z then u else (u - 2 ^ 32)%Z.

Lemma wrap_small w z : (0 <= z < 2 ^ w)%Z -> wrap w z = z.
Proof. intros. unfold wrap. by apply Z.mod_small. Qed.

Lemma wrap_bounds w z : (0 <= w)%Z -> (0 <= wrap w z < 2 ^ w)%Z.
Proof. intros. unfold wrap. apply Z.mod_pos_bound. lia. Qed.

Lemma size_t_small z : (0 <= z < 2 ^ 64)%Z -> size_t z = z.
Proof. apply wrap_small. Qed.

Lemma unsigned_int_small z : (0 <= z < 2 ^ 32)%Z -> unsigned_int z = z.
Proof. apply wrap_small. Qed.

Lemma int32_small z : (- 2 ^ 31 <= z < 2 ^ 31)%Z -> int32 z = z.
Proof.
  intros H. unfold int32, wrap. destruct (decide (0 <= z)%Z) as [Hz|Hz].
  - rewrite Z.mod_small by lia. destruct (Z.ltb_spec z (2 ^ 31)); lia.
  - assert (z mod 2 ^ 32 = z + 2 ^ 32)%Z as ->.
    { symmetry. apply (Z.mod_unique_pos _ _ (-1)); lia. }
    destruct (Z.ltb_spec (z + 2 ^ 32) (2 ^ 31)); lia.
Qed.

(** * Strings and bytes *)

Definition newline : string := String "010"%char EmptyString.

Lemma str_unstr l : str (unstr l) = l.
Proof. apply String.list_ascii_of_string_of_list_ascii. Qed.

Lemma unstr_str s : unstr (str s) = s.
Proof. apply String.string_of_list_ascii_of_string. Qed.

Lemma str_app s t : str (s +:+ t) = str s ++ str t.
Proof. induction s as [|a s IH]; [done|]. cbn. by rewrite <-IH. Qed.

Lemma unstr_app k l : unstr (k ++ l) = unstr k +:+ unstr l.
Proof. induction k as [|a k IH]; [done|]. cbn. by rewrite IH. Qed.

Lemma length_str s : length (str s) = String.length s.
Proof. induction s; simpl; auto. Qed.

Lemma str_inj s t : str s = str t -> s = t.
Proof. intros H. by rewrite <-(unstr_str s), H, unstr_str. Qed.

(** * Reading through a pointer

    [peek buf p] is [*p] for a pointer [p] into the region [buf]. *)
Definition peek (buf : bytes) (p : nat) : result ascii :=
  match buf !! p with
  | Some c => Ok c
  | None => Throw (undefined_behaviour "read outside the buffer")
  end.

Lemma peek_Ok buf p c : peek buf p = Ok c <-> buf !! p = Some c.
Proof. unfold peek. destruct (buf !! p); naive_solver. Qed.

Lemma peek_app_r k l p : length k <= p -> peek (k ++ l) p = peek l (p - length k).
Proof. intros. unfold peek. by rewrite lookup_app_r. Qed.

Lemma peek_middle k c l : peek (k ++ c :: l) (length k) = Ok c.
Proof. apply peek_Ok. by apply list_lookup_middle. Qed.

(** * Copying into a buffer

    [memcpy off src buf] is [memcpy(buf + off, src, length src)]. *)
Definition memcpy (off : Z) (src : bytes) (buf : bytes) : result bytes :=
  if (0 <=? off)%Z && (off + Z.of_nat (length src) <=? Z.of_nat (length buf))%Z then
    Ok (take (Z.to_nat off) buf ++ src ++ drop (Z.to_nat off + length src) buf)
  else Throw (undefined_behaviour "write outside the buffer").

Lemma memcpy_middle k old new rest : length old = length new ->
  memcpy (Z.of_nat (length k)) new (k ++ old ++ rest) = Ok (k ++ new ++ rest).
Proof.
  intros Hl. unfold memcpy. rewrite !length_app.
  destruct (Z.leb_spec 0 (Z.of_nat (length k))); [|lia]. cbn [andb].
  destruct (Z.leb_spec (Z.of_nat (length k) + Z.of_nat (length new))
    (Z.of_nat (length k + (length old + length rest)))); [|lia].
  rewrite Nat2Z.id, take_app_length. rewrite (app_assoc k old).
  by rewrite drop_app_length' by (rewrite length_app; lia).
Qed.

(** * Ordered iteration over a [std::map] keyed by strings

    A [std::map<std::string, A>] is a [gmap string A]; a [for] loop over its
    iterators visits the entries in increasing key order ([std::less], that
    is [std::string::compare], is the byte-wise lexicographic [String.le]). *)
Definition entry_le {A} (x y : string * A) : Prop := String.le x.1 y.1.

#[global] Instance entry_le_dec {A} : RelDecision (@entry_le A).
Proof. intros x y. unfold entry_le. apply _. Defined.

Definition map_iter {A} (m : gmap string A) : list (string * A) :=
  merge_sort entry_le (map_to_list m).

#[global] Instance entry_le_total {A} : Total (@entry_le A).
Proof. intros x y. unfold entry_le. apply (total String.le). Qed.

#[global] Instance entry_le_trans {A} : Transitive (@entry_le A).
Proof. intros x y z. unfold entry_le. by transitivity (y.1). Qed.

Section map_iter.
Context {A : Type}.
Implicit Types (m : gmap string A) (k : string) (v : A).

Lemma map_iter_perm m : map_iter m ≡ₚ map_to_list m.
Proof. apply merge_sort_Permutation. Qed.

Lemma elem_of_map_iter m k v : (k, v) ∈ map_iter m <-> m !! k = Some v.
Proof. rewrite map_iter_perm. apply elem_of_map_to_list. Qed.

Lemma map_iter_NoDup_fst m : NoDup (map_iter m).*1.
Proof. rewrite map_iter_perm. apply NoDup_fst_map_to_list. Qed.

Lemma map_iter_sorted m : StronglySorted entry_le (map_iter m).
Proof. apply StronglySorted_merge_sort; apply _. Qed.

Lemma map_iter_empty : map_iter (∅ : gmap string A) = [].
Proof.
  unfold map_iter. by rewrite map_to_list_empty.
Qed.

Lemma list_to_map_map_iter m : list_to_map (map_iter m) = m.
Proof.
  rewrite <-(list_to_map_to_list m) at 2.
  apply list_to_map_proper; [apply map_iter_NoDup_fst|apply map_iter_perm].
Qed.

Lemma map_iter_fst_elem m k : k ∈ (map_iter m).*1 <-> is_Some (m !! k).
Proof.
  rewrite list_elem_of_fmap. split.
  - intros ([k' v] & -> & Hin). apply elem_of_map_iter in Hin. eauto.
  - intros [v Hv]. exists (k, v). split; [done|]. by apply elem_of_map_iter.
Qed.

(** The iteration order is determined by the entries. *)
Lemma map_iter_unique m (l : list (string * A)) :
  StronglySorted entry_le l -> l ≡ₚ map_to_list m -> map_iter m = l.
Proof.
  intros Hs Hp. apply (StronglySorted_unique_strong entry_le); [|apply map_iter_sorted|done|].
  - intros [k1 v1] [k2 v2] H1 H2 Hle Hge. unfold entry_le in *; simpl in *.
    assert (k1 = k2) as -> by (by apply (anti_symm String.le)).
    rewrite elem_of_map_iter in H1. rewrite Hp, elem_of_map_to_list in H2. congruence.
  - by rewrite map_iter_perm, Hp.
Qed.
End map_iter.

(** * Proof automation *)

Create HintDb exio.
Create Rewrite HintDb exio.
#[export] Hint Rewrite str_unstr unstr_str str_app length_str : exio.
#[export] Hint Rewrite @length_app @length_cons @length_nil : exio.

(** Splits every [match] or [if] of the goal or of the hypotheses on its
    scrutinee and simplifies. *)
Ltac crush_match :=
  repeat (case_match; simplify_eq/=; try done).

(** Inverts a chain of monadic binds that ended in [Ok]. *)
Ltac inv_ok :=
  repeat match goal with
  | H : Ok _ = Ok _ |- _ => injection H as H; subst
  | H : Throw _ = Ok _ |- _ => discriminate H
  | H : Ok _ = Throw _ |- _ => discriminate H
  | H : mbind _ _ = Ok _ |- _ =>
      let a := fresh "a" in let E := fresh "E" in
      apply result_bind_Ok in H; destruct H as (a & E & H)
  end.

(** Runs a chain of binds whose steps are known to end in [Ok]. *)
Ltac run_ok :=
  repeat (match goal with E : ?m = Ok _ |- context [?m] => rewrite E end;
          cbn [mbind mret result_bind result_ret]).

(** Proves a closed decidable proposition by evaluating its decision. *)
Ltac decide_now :=
  match goal with |- ?P => refine (bool_decide_eq_true_1 P _); vm_compute; reflexivity end.

(** * Effects

    Code that reads and writes a state [S], produces outputs [W] and may
    throw; the state and the outputs made before an exception remain. *)
Definition eff (W S A : Type) : Type := S -> S * list W * result A.

#[global] Instance eff_ret {W S} : MRet (eff W S) := fun A a s => (s, [], Ok a).
#[global] Instance eff_bind {W S} : MBind (eff W S) := fun A B f m s =>
  let '(s, w, r) := m s in
  match r with
  | Ok a => let '(s, w', r') := f a s in (s, w ++ w', r')
  | Throw e => (s, w, Throw e)
  end.

Definition get {W S} : eff W S S := fun s => (s, [], Ok s).
Definition put {W S} (s : S) : eff W S unit := fun _ => (s, [], Ok ()).
Definition modify {W S} (f : S -> S) : eff W S unit := fun s => (f s, [], Ok ()).
Definition emit {W S} (w : W) : eff W S unit := fun s => (s, [w], Ok ()).
Definition throw {W S A} (e : exn) : eff W S A := fun s => (s, [], Throw e).
(** A computation without effects. *)
Definition of_result {W S A} (r : result A) : eff W S A := fun s => (s, [], r).

Fixpoint for_each {W S A} (f : A -> eff W S unit) (l : list A) : eff W S unit :=
  match l with
  | [] => mret ()
  | a :: l => f a;; for_each f l
  end.

(** [try { m } catch (const std::exception&) { ... }] with a handler that only
    logs: what was done before the exception remains. *)
Definition catch_std {W S} (m : eff W S unit) : eff W S unit := fun s =>
  let '(s, w, r) := m s in
  (s, w, match r with
         | Throw (undefined_behaviour _ as e) | Throw (out_of_fuel as e) => Throw e
         | _ => Ok ()
         end).

(** Running a bind whose first part is known. *)
Lemma eff_bind_ok {W S A B} (m : eff W S A) (f : A -> eff W S B) s s1 o1 a :
  m s = (s1, o1, Ok a) -> (m ≫= f) s = let '(s2, o2, r) := f a s1 in (s2, o1 ++ o2, r).
Proof. intros E. unfold mbind, eff_bind. by rewrite E. Qed.

Lemma eff_bind_quiet {W S A B} (m : eff W S A) (f : A -> eff W S B) s s1 a :
  m s = (s1, [], Ok a) -> (m ≫= f) s = f a s1.
Proof. intros E. rewrite (eff_bind_ok _ _ _ _ _ _ E). by destruct (f a s1) as [[s2 o2] r]. Qed.

Lemma eff_bind_throw {W S A B} (m : eff W S A) (f : A -> eff W S B) s s1 o1 e :
  m s = (s1, o1, Throw e) -> (m ≫= f) s = (s1, o1, Throw e).
Proof. intros E. unfold mbind, eff_bind. by rewrite E. Qed.
