(* ===== verification/Decimal.v ===== *)
(** Decimal text: the parts of the C and C++ libraries the sources use to
    print and read numbers ([operator<<] on integers, [snprintf] with [%zu],
    [%lu], [%d] and [%02d], [isdigit], [atoi]), with their round trips. *)

From S2P Require Import Prelude.

Local Open Scope Z_scope.

(** * Characters *)

Definition char_code (c : ascii) : Z := Z.of_N (N_of_ascii c).

(** [isdigit(3)] in the C locale. *)
Definition isdigit (c : ascii) : bool := (48 <=? char_code c) && (char_code c <=? 57).

(** [*p bitand 0x0F]. *)
Definition low_nibble (c : ascii) : Z := Z.land (char_code c) 15.

Definition digit_char (d : Z) : ascii := ascii_of_N (Z.to_N (48 + d)).

(** * Printing *)

(** Decimal digits of [n], most significant first. *)
Fixpoint dec_fuel (fuel : nat) (n : Z) : bytes :=
  match fuel with
  | O => []
  | S f => (if n / 10 =? 0 then [] else dec_fuel f (n / 10)) ++ [digit_char (n mod 10)]
  end.

Definition dec (n : Z) : bytes := dec_fuel (S (Z.to_nat (Z.log2 n))) n.

(** [os << n], [%zu], [%lu] for an unsigned [n]. *)
Definition print_unsigned (n : Z) : string := unstr (dec n).

(** [os << i], [%d] for a signed [i]. *)
Definition print_signed (i : Z) : string :=
  if i <? 0 then "-" +:+ print_unsigned (- i) else print_unsigned i.

(** [%02d] and [setw(2)] with [setfill('0')]. *)
Definition print_02d (i : Z) : string :=
  let s := print_signed i in
  if (String.length s <? 2)%nat then "0" +:+ s else s.

(** * Reading *)

Fixpoint digits_value (acc : Z) (l : bytes) : Z :=
  match l with
  | c :: l' => if isdigit c then digits_value (acc * 10 + low_nibble c) l' else acc
  | [] => acc
  end.

Fixpoint skip_space (l : bytes) : bytes :=
  match l with
  | c :: l' => if Ascii.is_space c then skip_space l' else l
  | [] => []
  end.

(** [strtol(s, NULL, 10)]: saturates at the bounds of [long]. *)
Definition strtol (s : string) : Z :=
  let l := skip_space (str s) in
  let v := match l with
           | c :: l' => if ascii_dec c "-" then - digits_value 0 l'
                        else if ascii_dec c "+" then digits_value 0 l'
                        else digits_value 0 l
           | [] => 0
           end in
  Z.max (- 2 ^ 63) (Z.min v (2 ^ 63 - 1)).

(** [atoi(s)], which glibc defines as [(int) strtol(s, NULL, 10)]. *)
Definition atoi (s : string) : Z := int32 (strtol s).

(** * Facts *)

Lemma digit_char_spec d : 0 <= d < 10 ->
  isdigit (digit_char d) = true /\ low_nibble (digit_char d) = d /\
  Ascii.is_space (digit_char d) = false /\
  digit_char d <> "-"%char /\ digit_char d <> "+"%char.
Proof.
  intros H.
  assert (d = 0 \/ d = 1 \/ d = 2 \/ d = 3 \/ d = 4 \/ d = 5 \/ d = 6 \/ d = 7 \/ d = 8 \/ d = 9)
    as Hd by lia.
  destruct Hd as [->|[->|[->|[->|[->|[->|[->|[->|[->| ->]]]]]]]]]; vm_compute; done.
Qed.

(** [d] is the number of decimal digits of [n]. *)
Definition ndigits (n : Z) (d : nat) : Prop :=
  (1 <= d)%nat /\ 0 <= n < 10 ^ Z.of_nat d /\ (d = 1%nat \/ 10 ^ (Z.of_nat d - 1) <= n).

Lemma ndigits_le m n d e : m <= n -> ndigits m d -> ndigits n e -> (d <= e)%nat.
Proof.
  intros Hmn (Hd & Hm & Hd') (He & Hn & He').
  destruct (le_lt_dec d e) as [|Hlt]; [done|]. exfalso.
  destruct Hd' as [->|Hd']; [lia|].
  assert (10 ^ Z.of_nat e <= 10 ^ (Z.of_nat d - 1)) by (apply Z.pow_le_mono_r; lia). lia.
Qed.

Lemma ndigits_unique n d e : ndigits n d -> ndigits n e -> d = e.
Proof.
  intros H1 H2. pose proof (ndigits_le n n d e). pose proof (ndigits_le n n e d).
  specialize (H ltac:(lia) H1 H2). specialize (H0 ltac:(lia) H2 H1). lia.
Qed.

Lemma digits_value_app_digits acc l c : Forall (fun c => isdigit c = true) l -> isdigit c = true ->
  digits_value acc (l ++ [c]) = digits_value acc l * 10 + low_nibble c.
Proof.
  intros Hl Hc. revert acc. induction Hl as [|a l Ha Hl IH]; intros acc; simpl.
  - by rewrite Hc.
  - by rewrite Ha, IH.
Qed.

Lemma dec_fuel_spec fuel n : 0 <= n < 10 ^ Z.of_nat fuel -> (0 < fuel)%nat ->
  Forall (fun c => isdigit c = true) (dec_fuel fuel n) /\
  digits_value 0 (dec_fuel fuel n) = n /\
  ndigits n (length (dec_fuel fuel n)).
Proof.
  revert n. induction fuel as [|f IH]; intros n Hn Hf; [lia|]. cbn [dec_fuel].
  pose proof (Z.mod_pos_bound n 10 ltac:(lia)) as Hm.
  pose proof (Z.div_mod n 10 ltac:(lia)) as Hdm.
  destruct (digit_char_spec (n mod 10) Hm) as (Hdig & Hval & _).
  destruct (Z.eqb_spec (n / 10) 0) as [Hz|Hz].
  - cbn [app length digits_value]. rewrite Hdig, Hval. repeat split; [by repeat constructor|lia..|].
    left; lia.
  - assert (0 <= n / 10) by (apply Z.div_pos; lia).
    rewrite Nat2Z.inj_succ, Z.pow_succ_r in Hn by lia.
    destruct f as [|f]; [change (10 ^ Z.of_nat 0) with 1 in Hn; lia|].
    destruct (IH (n / 10)) as (Hall & Hv & Hnd & Hb & Hlow); [|lia|].
    { split; [lia|]. apply Z.div_lt_upper_bound; lia. }
    rewrite digits_value_app_digits, Hv, Hval by done.
    rewrite length_app. cbn [length]. repeat split; [|lia| lia|lia| |].
    + apply Forall_app; split; [done|by repeat constructor].
    + rewrite Nat2Z.inj_add, Z.pow_add_r by lia. change (10 ^ Z.of_nat 1) with 10. lia.
    + right. replace (Z.of_nat (length (dec_fuel (S f) (n / 10)) + 1) - 1)
        with (Z.of_nat (length (dec_fuel (S f) (n / 10)) - 1) + 1) by lia.
      rewrite Z.pow_add_r, Z.pow_1_r by lia.
      destruct Hlow as [Hl|Hl]; [rewrite Hl; simpl; lia|].
      rewrite Nat2Z.inj_sub by lia. change (Z.of_nat 1) with 1. nia.
Qed.

Lemma dec_fuel_enough n : 0 <= n -> n < 10 ^ Z.of_nat (S (Z.to_nat (Z.log2 n))).
Proof.
  intros Hn. rewrite Nat2Z.inj_succ, Z2Nat.id by apply Z.log2_nonneg.
  destruct (Z.eq_dec n 0) as [->|Hn0]; [done|].
  pose proof (Z.log2_spec n ltac:(lia)) as [_ H].
  assert (2 ^ Z.succ (Z.log2 n) <= 10 ^ Z.succ (Z.log2 n)) by (apply Z.pow_le_mono_l; lia).
  lia.
Qed.

Lemma dec_spec n : 0 <= n ->
  Forall (fun c => isdigit c = true) (dec n) /\ digits_value 0 (dec n) = n /\
  ndigits n (length (dec n)).
Proof. intros. apply dec_fuel_spec; [split; [done|by apply dec_fuel_enough]|lia]. Qed.

Lemma dec_digits n : 0 <= n -> Forall (fun c => isdigit c = true) (dec n).
Proof. intros. by apply dec_spec. Qed.

Lemma dec_value n : 0 <= n -> digits_value 0 (dec n) = n.
Proof. intros. by apply dec_spec. Qed.

Lemma dec_ndigits n : 0 <= n -> ndigits n (length (dec n)).
Proof. intros. by apply dec_spec. Qed.

Lemma dec_inj m n : 0 <= m -> 0 <= n -> dec m = dec n -> m = n.
Proof. intros Hm Hn H. by rewrite <-(dec_value m), <-(dec_value n), H. Qed.

Lemma print_unsigned_inj m n : 0 <= m -> 0 <= n -> print_unsigned m = print_unsigned n -> m = n.
Proof.
  intros Hm Hn H. apply dec_inj; [done..|]. unfold print_unsigned in H.
  by rewrite <-(str_unstr (dec m)), H, str_unstr.
Qed.

Lemma isdigit_not_space c : isdigit c = true ->
  Ascii.is_space c = false /\ c <> "-"%char /\ c <> "+"%char.
Proof.
  intros H. destruct c as [[] [] [] [] [] [] [] []]; try discriminate H; done.
Qed.

(** Reading back a printed number. *)
Lemma strtol_print n : 0 <= n < 2 ^ 63 -> strtol (print_unsigned n) = n.
Proof.
  intros Hn. unfold strtol, print_unsigned. rewrite str_unstr.
  destruct (dec_spec n ltac:(lia)) as (Hall & Hv & Hd & _).
  destruct (dec n) as [|c l]; [simpl in Hd; lia|].
  destruct (isdigit_not_space c) as (Hs & Hm & Hp); [by inversion Hall|].
  cbn [skip_space]. rewrite Hs.
  destruct (ascii_dec c "-") as [|_]; [done|]. destruct (ascii_dec c "+") as [|_]; [done|].
  rewrite Hv. lia.
Qed.

Lemma atoi_print n : 0 <= n < 2 ^ 31 -> atoi (print_unsigned n) = n.
Proof.
  intros Hn. unfold atoi. rewrite strtol_print by lia. apply int32_small. lia.
Qed.

Lemma length_dec_le n d : 0 <= n < 10 ^ Z.of_nat d -> (1 <= d)%nat -> (length (dec n) <= d)%nat.
Proof.
  intros Hn Hd. destruct (dec_ndigits n ltac:(lia)) as (H1 & H2 & H3).
  destruct (le_lt_dec (length (dec n)) d) as [|Hlt]; [done|]. exfalso.
  destruct H3 as [H3|H3]; [lia|].
  assert (10 ^ Z.of_nat d <= 10 ^ (Z.of_nat (length (dec n)) - 1)) by (apply Z.pow_le_mono_r; lia).
  lia.
Qed.

#[export] Hint Resolve dec_digits dec_ndigits : exio.
