(* ===== verification/Utils.v ===== *)
(** The string helpers of [utils.cc]: tokenising, integer and time stamp
    printing. *)

From S2P Require Import Prelude Decimal.

(** * [tokenize] *)

(** [strchr(src, delim)]: the text before the first [delim] and, when there
    is one, the text after it. *)
Fixpoint strchr_split (delim : ascii) (src : bytes) : bytes * option bytes :=
  match src with
  | [] => ([], None)
  | c :: src' =>
      if ascii_dec c delim then ([], Some src')
      else let '(tok, rest) := strchr_split delim src' in (c :: tok, rest)
  end.

(** The [while(true)] loop; [src] holds the characters up to the NUL. *)
Fixpoint tokenize_loop (fuel : nat) (delim : ascii) (want_empty_tokens : bool)
    (src : bytes) : list string :=
  match fuel with
  | O => []
  | S fuel' =>
      let '(tok, rest) := strchr_split delim src in
      (if want_empty_tokens || (0 <? length tok)%nat then [unstr tok] else []) ++
      match rest with
      | Some src' => tokenize_loop fuel' delim want_empty_tokens src'
      | None => []
      end
  end.

(** The characters of a [const char*] before its terminating NUL. *)
Fixpoint c_str (l : bytes) : bytes :=
  match l with
  | [] => []
  | c :: l' => if ascii_dec c "000" then [] else c :: c_str l'
  end.

(** [tokenize(src, delim, want_empty_tokens)]; [None] is a NULL [src]. *)
Definition tokenize (src : option string) (delim : ascii) (want_empty_tokens : bool) : list string :=
  match src with
  | None => []
  | Some s =>
      let text := c_str (str s) in
      if bool_decide (text = []) then []
      else tokenize_loop (S (length text)) delim want_empty_tokens text
  end.

(** [to_str(int)]: the argument is converted to [int] at the call. *)
Definition to_str (i : Z) : string := print_signed (int32 i).

(** * Time stamps

    [struct tm] as [localtime_r] fills it; the time zone data base is outside
    the program, so the broken-down time is an argument. *)
Record tm := Tm { tm_year : Z; tm_mon : Z; tm_mday : Z; tm_hour : Z; tm_min : Z; tm_sec : Z }.

Definition datetimestamp (t : tm) : string :=
  print_signed (tm_year t + 1900) +:+ "/" +:+ print_02d (tm_mon t + 1) +:+ "/" +:+
  print_02d (tm_mday t) +:+ "-" +:+ print_02d (tm_hour t) +:+ ":" +:+
  print_02d (tm_min t) +:+ ":" +:+ print_02d (tm_sec t).

(** * Facts about [tokenize] *)

Lemma strchr_split_spec delim src tok rest : strchr_split delim src = (tok, rest) ->
  (delim ∉ tok) /\ src = tok ++ (match rest with Some r => delim :: r | None => [] end).
Proof.
  revert tok rest. induction src as [|c src IH]; intros tok rest H.
  { injection H as <- <-. set_solver. }
  simpl in H. destruct (ascii_dec c delim) as [->|Hne]; [injection H as <- <-; set_solver|].
  destruct (strchr_split delim src) as [tok' rest'] eqn:E. injection H as <- <-.
  destruct (IH _ _ eq_refl) as [Hn ->]. split; [set_solver|done].
Qed.

Lemma strchr_split_no_delim delim src : delim ∉ src -> strchr_split delim src = (src, None).
Proof.
  induction src as [|c src IH]; intros Hn; [done|]. simpl.
  destruct (ascii_dec c delim) as [->|]; [set_solver|]. by rewrite IH by set_solver.
Qed.

Lemma strchr_split_delim delim tok rest : delim ∉ tok ->
  strchr_split delim (tok ++ delim :: rest) = (tok, Some rest).
Proof.
  induction tok as [|c tok IH]; intros Hn; simpl.
  - by destruct (ascii_dec delim delim).
  - destruct (ascii_dec c delim) as [->|]; [set_solver|]. by rewrite IH by set_solver.
Qed.

(** The texts [toks] separated by [delim]. *)
Fixpoint join (delim : ascii) (toks : list string) : bytes :=
  match toks with
  | [] => []
  | [t] => str t
  | t :: toks' => str t ++ delim :: join delim toks'
  end.

Lemma tokenize_loop_join fuel delim src : length src < fuel ->
  join delim (tokenize_loop fuel delim true src) = src /\
  Forall (fun t => delim ∉ str t) (tokenize_loop fuel delim true src) /\
  tokenize_loop fuel delim true src <> [].
Proof.
  revert src. induction fuel as [|fuel IH]; intros src Hl; [lia|]. cbn [tokenize_loop].
  destruct (strchr_split delim src) as [tok rest] eqn:E.
  apply strchr_split_spec in E as [Hn ->]. cbn [orb app].
  destruct rest as [rest|].
  - rewrite length_app in Hl. simpl in Hl. destruct (IH rest ltac:(lia)) as (Hj & Hall & Hne).
    destruct (tokenize_loop fuel delim true rest) as [|t ts] eqn:Et; [done|].
    split; [cbn [join]; rewrite str_unstr; f_equal; f_equal; exact Hj|].
    split; [constructor; [by rewrite str_unstr|done]|done].
  - rewrite app_nil_r. cbn [join]. rewrite str_unstr.
    split; [done|]. split; [|done]. repeat constructor. by rewrite str_unstr.
Qed.

Lemma tokenize_loop_filter fuel delim src :
  tokenize_loop fuel delim false src =
  filter (fun t => t <> EmptyString) (tokenize_loop fuel delim true src).
Proof.
  revert src. induction fuel as [|fuel IH]; intros src; [done|]. cbn [tokenize_loop].
  destruct (strchr_split delim src) as [tok rest]. cbn [orb].
  rewrite list.filter_app. f_equal.
  - rewrite filter_cons. destruct tok as [|c tok]; simpl.
    + done.
    + done.
  - by destruct rest.
Qed.

(** Tokenising a separated text gives the tokens back. *)
Lemma tokenize_loop_of_join fuel delim toks : toks <> [] -> length (join delim toks) < fuel ->
  Forall (fun t => delim ∉ str t) toks -> tokenize_loop fuel delim true (join delim toks) = toks.
Proof.
  revert toks. induction fuel as [|fuel IH]; intros toks Hne Hl Hall; [lia|].
  destruct toks as [|t [|t' toks]]; [done| |]; inversion Hall as [|?? Ht Hts]; subst.
  - cbn [tokenize_loop join]. rewrite strchr_split_no_delim by done. cbn [orb app].
    by rewrite unstr_str.
  - change (join delim (t :: t' :: toks)) with (str t ++ delim :: join delim (t' :: toks)) in *.
    cbn [tokenize_loop]. rewrite strchr_split_delim by done. cbn [orb app].
    rewrite unstr_str. f_equal. apply IH; [done| |done].
    rewrite length_app, length_cons in Hl. lia.
Qed.

Lemma c_str_no_nul l : "000"%char ∉ l -> c_str l = l.
Proof.
  induction l as [|c l IH]; intros Hn; [done|]. simpl.
  destruct (ascii_dec c "000") as [->|]; [set_solver|]. by rewrite IH by set_solver.
Qed.

Lemma join_app_elem delim toks c : c ∈ join delim toks -> c = delim \/ exists t, t ∈ toks /\ c ∈ str t.
Proof.
  induction toks as [|t [|t' toks] IH]; intros Hc.
  - set_solver.
  - right. exists t. split; [set_solver|done].
  - change (join delim (t :: t' :: toks)) with (str t ++ delim :: join delim (t' :: toks)) in Hc.
    apply elem_of_app in Hc as [Hc|Hc]; [right; exists t; set_solver|].
    apply elem_of_cons in Hc as [->|Hc]; [by left|].
    destruct (IH Hc) as [|(u & ? & ?)]; [by left|]. right. exists u. set_solver.
Qed.

(** * Properties *)

(** Tokenising with empty tokens kept loses nothing: the tokens, joined
    with the delimiter, are the text, and no token contains the delimiter. *)
Theorem tokenize_join (s : string) (delim : ascii) :
  "000"%char ∉ str s -> s <> EmptyString ->
  join delim (tokenize (Some s) delim true) = str s /\
  Forall (fun t => delim ∉ str t) (tokenize (Some s) delim true).
Proof.
  intros Hn Hs. unfold tokenize. rewrite c_str_no_nul by done.
  rewrite bool_decide_false by (intros H; by apply (str_inj s EmptyString) in H).
  destruct (tokenize_loop_join (S (length (str s))) delim (str s)) as (? & ? & _); [lia|done].
Qed.

Lemma tokenize_join_witness :
  join ","%char (tokenize (Some "a,,b") ","%char true) = str "a,,b" /\
  Forall (fun t => ","%char ∉ str t) (tokenize (Some "a,,b") ","%char true).
Proof.
  apply tokenize_join; [|done]. decide_now.
Defined.
