(* ===== verification/Logging.v ===== *)
(** Logging and application services: [Config], [LogService], [ConsoleLogger]
    and [AppSvc] of [AppSvc.h] and [AppSvc.cc], and the macros of [Logger.h].

    A log service is its level filter and its four output functions; the null
    service and the base class [LogService], which ignores everything, are
    values of the same type.  What a console logger writes is an output, with
    the stream it goes to; the time, the time zone and the thread number are
    arguments. *)

From S2P Require Import Prelude Decimal Utils.

Local Open Scope Z_scope.

(** * Configuration *)

Definition EXIO_NO_SERVER : Z := -1.

Record Config := MkConfig { cf_serviceid : string; cf_server_port : Z }.

(** * Levels *)

Definition eAll : Z := 0.
Definition eDebug : Z := 1.
Definition eInfo : Z := 2.
Definition eWarn : Z := 3.
Definition eError : Z := 4.
Definition eNone : Z := 255.

Inductive StreamType := eStdout | eStderr.

Inductive severity := Debug | Info | Warn | Error.

Definition severity_level (l : severity) : Z :=
  match l with Debug => eDebug | Info => eInfo | Warn => eWarn | Error => eError end.
Definition severity_name (l : severity) : string :=
  match l with Debug => "DEBUG" | Info => "INFO" | Warn => "WARN" | Error => "ERROR" end.

(** * Services *)

(** The virtual functions of a service with outputs [O]: [want_debug()] and
    the like, and [debug(msg, file, line)] and the like. *)
Record LogService (O : Type) := MkLogService {
  want : severity -> bool;
  log_message : severity -> string -> string -> Z -> list O }.
Arguments MkLogService {O} want log_message.
Arguments want {O} l s : rename.
Arguments log_message {O} l s msg file ln : rename.

(** The base class. *)
Definition LogService_base {O} : LogService O := MkLogService (fun _ => false) (fun _ _ _ _ => []).

(** [_DEBUG_], [_INFO_], [_WARN_] and [_ERROR_]: [None] is a null pointer. *)
Definition LOG {O} (svc : option (LogService O)) (l : severity) (text file : string) (ln : Z) : list O :=
  match svc with
  | None => []
  | Some svc => if want svc l then log_message svc l ("exio: " +:+ text) file ln else []
  end.

(** * [ConsoleLogger] *)

Record ConsoleLogger := MkConsoleLogger { cl_stream : StreamType; cl_incsource : bool; cl_level : Z }.

Definition new_ConsoleLogger (stream : StreamType) (level : Z) (incsource : bool) : ConsoleLogger :=
  MkConsoleLogger stream incsource level.

Definition want_debug (c : ConsoleLogger) : bool := cl_level c <=? eDebug.
Definition want_info (c : ConsoleLogger) : bool := cl_level c <=? eInfo.
Definition want_warn (c : ConsoleLogger) : bool := cl_level c <=? eWarn.
Definition want_error (c : ConsoleLogger) : bool := cl_level c <=? eError.

(** [%0<width>d] and [%0<width>lu] for numbers that are not negative. *)
Definition print_0d (width : nat) (i : Z) : bytes :=
  let d := dec i in replicate (width - length d) "0"%char ++ d.

(** [snprintf] into a buffer of [size] bytes, one of them for the NUL. *)
Definition snprintf (size : nat) (text : bytes) : bytes := take (size - 1) text.

Section console.
(** [SYS_gettid], [gettimeofday] and [localtime_r]. *)
Context (tid : Z) (tv_usec : Z) (parts : tm).

Definition timestamp_text : bytes :=
  print_0d 2 (tm_year parts + 1900) ++ str "/" ++ print_0d 2 (tm_mon parts + 1) ++ str "/" ++
  print_0d 2 (tm_mday parts) ++ str "-" ++ print_0d 2 (tm_hour parts) ++ str ":" ++
  print_0d 2 (tm_min parts) ++ str ":" ++ print_0d 2 (tm_sec parts) ++ str "." ++
  print_0d 6 tv_usec ++ str " ".

(** The line that [dolog] builds, before it is written under the mutex. *)
Definition dolog (c : ConsoleLogger) (level s file : string) (ln : Z) : StreamType * bytes :=
  (cl_stream c,
   snprintf 30 timestamp_text ++ str "[" ++ str (print_signed tid) ++ str "] " ++
   (if cl_incsource c then str "(" ++ str file ++ str ":" ++ str (print_signed ln) ++ str ") " else []) ++
   str level ++ str " " ++ str s ++ ["010"%char]).

Definition ConsoleLogger_debug (c : ConsoleLogger) := dolog c "DEBUG".
Definition ConsoleLogger_info (c : ConsoleLogger) := dolog c "INFO".
Definition ConsoleLogger_warn (c : ConsoleLogger) := dolog c "WARN".
Definition ConsoleLogger_error (c : ConsoleLogger) := dolog c "ERROR".

(** The logger as a service. *)
Definition console_service (c : ConsoleLogger) : LogService (StreamType * bytes) :=
  MkLogService
    (fun l => match l with
              | Debug => want_debug c | Info => want_info c | Warn => want_warn c | Error => want_error c
              end)
    (fun l msg file ln =>
       [match l with
        | Debug => ConsoleLogger_debug c msg file ln
        | Info => ConsoleLogger_info c msg file ln
        | Warn => ConsoleLogger_warn c msg file ln
        | Error => ConsoleLogger_error c msg file ln
        end]).

End console.

(** * [AppSvc] *)

Record AppSvc (O : Type) := MkAppSvc { m_config : Config; m_logsvc : option (LogService O) }.
Arguments MkAppSvc {O} m_config m_logsvc.
Arguments m_config {O} a : rename.
Arguments m_logsvc {O} a : rename.

Definition conf {O} (a : AppSvc O) : Config := m_config a.
Definition log {O} (a : AppSvc O) : option (LogService O) := m_logsvc a.

(** * What is logged *)

Lemma length_print_0d w i : 0 <= i < 10 ^ Z.of_nat w -> (1 <= w)%nat -> length (print_0d w i) = w.
Proof.
  intros Hi Hw. unfold print_0d. rewrite length_app, length_replicate.
  pose proof (length_dec_le i w Hi Hw). lia.
Qed.

(** The parts [localtime_r] gives, for a year of four digits. *)
Definition calendar (t : tm) : Prop :=
  0 <= tm_year t + 1900 < 10000 /\ 0 <= tm_mon t < 12 /\ 1 <= tm_mday t <= 31 /\
  0 <= tm_hour t < 24 /\ 0 <= tm_min t < 60 /\ 0 <= tm_sec t <= 60.

(** The time stamp is not cut off by its 30 byte buffer. *)
Lemma timestamp_fits tv_usec parts : calendar parts -> 0 <= tv_usec < 1000000 ->
  snprintf 30 (timestamp_text tv_usec parts) = timestamp_text tv_usec parts.
Proof.
  intros (Hy & Hmo & Hd & Hh & Hmi & Hs) Hu. unfold snprintf. rewrite take_ge; [done|].
  unfold timestamp_text. rewrite !length_app.
  assert (length (print_0d 2 (tm_year parts + 1900)) <= 4)%nat as Hyl.
  { unfold print_0d. rewrite length_app, length_replicate.
    pose proof (length_dec_le (tm_year parts + 1900) 4 ltac:(lia) ltac:(lia)). lia. }
  rewrite (length_print_0d 2 (tm_mon parts + 1)), (length_print_0d 2 (tm_mday parts)),
    (length_print_0d 2 (tm_hour parts)), (length_print_0d 2 (tm_min parts)),
    (length_print_0d 2 (tm_sec parts)), (length_print_0d 6 tv_usec) by lia.
  unfold str. cbn [length String.list_ascii_of_string]. lia.
Qed.

(** The console logger writes the calls its level lets through, each as one
    complete line that ends with the text logged, and nothing for the others. *)
Theorem console_log_line tid tv_usec parts c l text file ln :
  calendar parts -> 0 <= tv_usec < 1000000 ->
  LOG (Some (console_service tid tv_usec parts c)) l text file ln =
    if cl_level c <=? severity_level l then
      [(cl_stream c, timestamp_text tv_usec parts ++ str "[" ++ str (print_signed tid) ++ str "] " ++
         (if cl_incsource c then str "(" ++ str file ++ str ":" ++ str (print_signed ln) ++ str ") " else []) ++
         str (severity_name l) ++ str " exio: " ++ str text ++ ["010"%char])]
    else [].
Proof.
  intros Hp Hu. unfold LOG.
  destruct l; cbn [want log_message console_service severity_level severity_name];
    unfold want_debug, want_info, want_warn, want_error, ConsoleLogger_debug, ConsoleLogger_info,
      ConsoleLogger_warn, ConsoleLogger_error, dolog;
    rewrite (timestamp_fits _ _ Hp Hu), str_app, <-!app_assoc; done.
Qed.
