(* ===== verification/Sync.v ===== *)
(** The thread library [libcpp11]: [mutex], [recursive_mutex], [lock_guard] and
    [unique_lock] of [mutex.h] and [mutex.cc], [thread] of [thread.h] and
    [thread.cc], [atomic_bool] of [atomic.h].

    The pthread calls behave as POSIX documents them: a mutex has an owner and,
    if it is recursive, a count; locking a mutex another thread owns blocks;
    unlocking a normal mutex one does not own is undefined.  The error numbers
    of calls that depend on resources are arguments.  Condition variables are
    in RunQueue.v, with the queue that uses one. *)

From S2P Require Import Prelude Decimal Utils.

Local Open Scope Z_scope.

Definition EPERM : Z := 1.
Definition EAGAIN : Z := 11.
Definition EINVAL : Z := 22.

(** A call that may wait. *)
Inductive call (A : Type) := Returns (a : A) | Blocks.
Arguments Returns {A} a.
Arguments Blocks {A}.

(** * Mutexes *)

Inductive mutex_type := PTHREAD_MUTEX_DEFAULT | PTHREAD_MUTEX_RECURSIVE.

#[global] Instance mutex_type_eq_dec : EqDecision mutex_type.
Proof. solve_decision. Defined.

(** [pthread_mutex_t]: the owner, by thread number, and how often it holds it. *)
Record mutex := Mutex { mx_type : mutex_type; mx_owner : option (Z * Z) }.

(** The most locks a recursive mutex counts. *)
Definition MAX_RECURSION : Z := 2 ^ 32 - 1.

Definition pthread_mutex_lock (t : Z) (m : mutex) : call (Z * mutex) :=
  match mx_owner m with
  | None => Returns (0, Mutex (mx_type m) (Some (t, 1)))
  | Some (o, n) =>
      if bool_decide (o = t /\ mx_type m = PTHREAD_MUTEX_RECURSIVE) then
        if n =? MAX_RECURSION then Returns (EAGAIN, m)
        else Returns (0, Mutex (mx_type m) (Some (t, n + 1)))
      else Blocks
  end.

Definition pthread_mutex_unlock (t : Z) (m : mutex) : result (Z * mutex) :=
  match mx_owner m with
  | Some (o, n) =>
      if bool_decide (o = t) then
        Ok (0, Mutex (mx_type m) (if n =? 1 then None else Some (t, n - 1)))
      else
        match mx_type m with
        | PTHREAD_MUTEX_DEFAULT => Throw (undefined_behaviour "unlock of a mutex of another thread")
        | PTHREAD_MUTEX_RECURSIVE => Ok (EPERM, m)
        end
  | None =>
      match mx_type m with
      | PTHREAD_MUTEX_DEFAULT => Throw (undefined_behaviour "unlock of a mutex that is not locked")
      | PTHREAD_MUTEX_RECURSIVE => Ok (EPERM, m)
      end
  end.

(** The constructors, with the answers of [pthread_mutex_init] and of the
    functions for attributes. *)
Definition new_mutex (e_init : Z) : result mutex :=
  if negb (e_init =? 0) then Throw (runtime_error "pthread_mutex_init failed")
  else Ok (Mutex PTHREAD_MUTEX_DEFAULT None).

Definition new_recursive_mutex (e_attr e_settype e_init e_destroy : Z) : result mutex :=
  if negb (e_attr =? 0) then Throw (runtime_error "pthread_mutexattr_init failed")
  else if negb (e_settype =? 0) then
    Throw (runtime_error "pthread_mutexattr_settype(PTHREAD_MUTEX_RECURSIVE) failed")
  else if negb (e_init =? 0) then Throw (runtime_error "pthread_mutex_init failed")
  else if negb (e_destroy =? 0) then Throw (runtime_error "pthread_mutexattr_destroy failed")
  else Ok (Mutex PTHREAD_MUTEX_RECURSIVE None).

(** The destructors; destroying a locked mutex is undefined. *)
Definition destroy_mutex (e_destroy : Z) (m : mutex) : result unit :=
  match mx_owner m with
  | Some _ => Throw (undefined_behaviour "mutex destroyed while it is locked")
  | None => if negb (e_destroy =? 0) then Throw (runtime_error "pthread_mutex_destroy failed") else Ok ()
  end.

(** [lock] and [unlock], the same for both kinds. *)
Definition lock (t : Z) (m : mutex) : call (result mutex) :=
  match pthread_mutex_lock t m with
  | Blocks => Blocks
  | Returns (e, m) =>
      Returns (if negb (e =? 0) then Throw (runtime_error "pthread_mutex_lock failed") else Ok m)
  end.

Definition unlock (t : Z) (m : mutex) : result mutex :=
  '(e, m) ← pthread_mutex_unlock t m;
  if negb (e =? 0) then Throw (runtime_error "pthread_mutex_unlock failed") else Ok m.

(** The member functions of [recursive_mutex] make the same calls. *)
Definition destroy_recursive_mutex (e_destroy : Z) (m : mutex) : result unit := destroy_mutex e_destroy m.
Definition recursive_lock (t : Z) (m : mutex) : call (result mutex) := lock t m.
Definition recursive_unlock (t : Z) (m : mutex) : result mutex := unlock t m.

(** * Guards *)

Definition lock_guard_new (t : Z) (m : mutex) : call (result mutex) := lock t m.
Definition lock_guard_delete (t : Z) (m : mutex) : result mutex := unlock t m.

(** A [unique_lock] of the mutex it refers to, if any. *)
Record unique_lock := MkUniqueLock { ul_device : bool; ul_owns : bool }.

Definition unique_lock_default : unique_lock := MkUniqueLock false false.

Definition unique_lock_lock (t : Z) (u : unique_lock) (m : mutex) : call (result (unique_lock * mutex)) :=
  if negb (ul_device u) then Returns (Throw (runtime_error "no mutex available"))
  else if ul_owns u then Returns (Throw (runtime_error "deadlock would occur"))
  else
    match lock t m with
    | Blocks => Blocks
    | Returns (Throw e) => Returns (Throw e)
    | Returns (Ok m) => Returns (Ok (MkUniqueLock true true, m))
    end.

Definition unique_lock_unlock (t : Z) (u : unique_lock) (m : mutex) : result (unique_lock * mutex) :=
  if negb (ul_owns u) then Throw (runtime_error "lock not owned")
  else if ul_device u then m ← unlock t m; Ok (MkUniqueLock true false, m)
  else Ok (u, m).

(** The constructor from a mutex, and the destructor. *)
Definition unique_lock_new (t : Z) (m : mutex) : call (result (unique_lock * mutex)) :=
  unique_lock_lock t (MkUniqueLock true false) m.
Definition unique_lock_delete (t : Z) (u : unique_lock) (m : mutex) : result mutex :=
  if ul_owns u then '(_, m) ← unique_lock_unlock t u m; Ok m else Ok m.

Definition owns_lock (u : unique_lock) : bool := ul_owns u.

(** * [atomic_bool] *)

Record atomic_bool := MkAtomicBool { ab_value : bool; ab_mutex : mutex }.

Definition new_atomic_bool (b : bool) : atomic_bool := MkAtomicBool b (Mutex PTHREAD_MUTEX_DEFAULT None).

(** [operator=] and [operator bool], each a critical section. *)
Definition atomic_store (t : Z) (b : bool) (a : atomic_bool) : call (result (bool * atomic_bool)) :=
  match lock_guard_new t (ab_mutex a) with
  | Blocks => Blocks
  | Returns (Throw e) => Returns (Throw e)
  | Returns (Ok m) => Returns (m ← lock_guard_delete t m; Ok (b, MkAtomicBool b m))
  end.
Definition atomic_load (t : Z) (a : atomic_bool) : call (result (bool * atomic_bool)) :=
  match lock_guard_new t (ab_mutex a) with
  | Blocks => Blocks
  | Returns (Throw e) => Returns (Throw e)
  | Returns (Ok m) => Returns (m ← lock_guard_delete t m; Ok (ab_value a, MkAtomicBool (ab_value a) m))
  end.

(** * Threads *)

(** A [thread] is its [_M_id]; 0 is [id()], no thread. *)
Record thread := Thread { th_id : Z }.

Definition joinable (th : thread) : bool := negb (th_id th =? 0).

(** [start_thread], with the answers of [pthread_attr_init],
    [pthread_attr_setdetachstate] and [pthread_create], and the id of the
    thread made. *)
Definition start_thread (e_attr e_state e_create id : Z) : result thread :=
  if negb (e_attr =? 0) then Throw (runtime_error "pthread_attr_init failed")
  else if negb (e_state =? 0) then Throw (runtime_error "pthread_attr_setdetatchstate failed")
  else if negb (e_create =? 0) then
    Throw (runtime_error ("pthread_create failed, returned " +:+ print_signed e_create))
  else Ok (Thread id).

(** [e]: what [pthread_detach] or [pthread_join] returns. *)
Definition detach (e : Z) (th : thread) : result thread :=
  let e := if joinable th then e else EINVAL in
  if negb (e =? 0) then Throw (runtime_error "thread::detach failed") else Ok (Thread 0).

Definition join_thread (e : Z) (th : thread) : result thread :=
  let e := if joinable th then e else EINVAL in
  if negb (e =? 0) then Throw (runtime_error ("pthread_join failed, returned " +:+ print_signed e))
  else Ok (Thread 0).

(** The destructor, and the end of a thread's routine: whether the process is
    terminated. *)
Definition delete_thread (th : thread) : bool := joinable th.
Definition execute_native_thread_routine (run : result unit) : bool :=
  match run with Ok _ => false | Throw _ => true end.

(** ** What a thread runs *)

Section routine.
Context {W : Type}.

(** [_Impl_base] and its derived classes, over a world [W]: a member function
    and its object, a member function with an argument, a free function.  A
    pointer member that no constructor has set is [None]. *)
Inductive Impl_base :=
| MemberImpl (pmf : Z -> W -> W * result unit) (obj : Z)
| MemberImplUser (pmf : Z -> Z -> W -> W * result unit) (obj arg1 : Z)
| FuncImpl (pf : Z -> W -> W * result unit) (m_arg : option Z).

Definition M_run (impl : Impl_base) (w : W) : W * result unit :=
  match impl with
  | MemberImpl pmf obj => pmf obj w
  | MemberImplUser pmf obj arg1 => pmf obj arg1 w
  | FuncImpl pf (Some m_arg) => pf m_arg w
  | FuncImpl _ None => (w, Throw (undefined_behaviour "indeterminate pointer"))
  end.

(** The constructor of [_FuncImpl]: its parameter has the name of the member,
    which it leaves unset. *)
Definition new_FuncImpl (pf : Z -> W -> W * result unit) (m_arg : Z) : Impl_base := FuncImpl pf None.

(** The three constructors of [thread]. *)
Definition thread_function pf (arg : Z) e_attr e_state e_create id : result (thread * Impl_base) :=
  th ← start_thread e_attr e_state e_create id; Ok (th, new_FuncImpl pf arg).
Definition thread_member pmf (obj : Z) e_attr e_state e_create id : result (thread * Impl_base) :=
  th ← start_thread e_attr e_state e_create id; Ok (th, MemberImpl pmf obj).
Definition thread_member_user pmf (obj user : Z) e_attr e_state e_create id : result (thread * Impl_base) :=
  th ← start_thread e_attr e_state e_create id; Ok (th, MemberImplUser pmf obj user).

(** A thread made from a member function runs it on its object. *)
Lemma thread_member_runs pmf obj user a b c id th impl w :
  thread_member pmf obj a b c id = Ok (th, impl) \/ thread_member_user (fun o _ => pmf o) obj user a b c id = Ok (th, impl) ->
  M_run impl w = pmf obj w /\ th_id th = id.
Proof.
  unfold thread_member, thread_member_user, start_thread. intros [E|E];
    (apply result_bind_Ok in E as (t & E & [= <- <-])); by repeat case_match; simplify_eq.
Qed.

(** One made from a function calls it with a pointer nobody has set. *)
Lemma thread_function_argument_lost pf arg a b c id th impl w :
  thread_function pf arg a b c id = Ok (th, impl) -> M_run impl w = (w, Throw (undefined_behaviour "indeterminate pointer")).
Proof. unfold thread_function. by intros (t & _ & [= _ <-])%result_bind_Ok. Qed.

End routine.

(** * A lock in use *)

(** What happens to a mutex while thread [t] has a [unique_lock] on it: calls
    of [t], and of other threads that unlock only what they have locked.  A
    call that blocks changes nothing until it is tried again. *)
Inductive lock_event :=
| ELock | EUnlock
| EOther_lock (t' : Z) | EOther_unlock (t' : Z).

Definition lock_step (t : Z) (ev : lock_event) (um : unique_lock * mutex) : unique_lock * mutex * result unit :=
  let '(u, m) := um in
  match ev with
  | ELock =>
      match unique_lock_lock t u m with
      | Blocks => (u, m, Ok ())
      | Returns (Ok (u, m)) => (u, m, Ok ())
      | Returns (Throw e) => (u, m, Throw e)
      end
  | EUnlock =>
      match unique_lock_unlock t u m with
      | Ok (u, m) => (u, m, Ok ())
      | Throw e => (u, m, Throw e)
      end
  | EOther_lock t' => match lock t' m with Returns (Ok m) => (u, m, Ok ()) | _ => (u, m, Ok ()) end
  | EOther_unlock t' =>
      if bool_decide (fst <$> mx_owner m = Some t') then
        match unlock t' m with Ok m => (u, m, Ok ()) | Throw e => (u, m, Throw e) end
      else (u, m, Ok ())
  end.

Definition lock_steps (t : Z) (evs : list lock_event) (um : unique_lock * mutex) : unique_lock * mutex :=
  foldl (fun um ev => (lock_step t ev um).1) um evs.

Definition others (t : Z) (ev : lock_event) : Prop :=
  match ev with EOther_lock t' | EOther_unlock t' => t' <> t | _ => True end.

(** The lock knows whether its thread owns the mutex. *)
Definition lock_inv (t : Z) (um : unique_lock * mutex) : Prop :=
  ul_device um.1 = true /\ mx_type um.2 = PTHREAD_MUTEX_DEFAULT /\
  (ul_owns um.1 = true <-> mx_owner um.2 = Some (t, 1)) /\
  (ul_owns um.1 = false -> forall n, mx_owner um.2 <> Some (t, n)) /\
  (forall o n, mx_owner um.2 = Some (o, n) -> n = 1).

(** Calls on a normal mutex, by its owner. *)
Lemma lock_default t m : mx_type m = PTHREAD_MUTEX_DEFAULT ->
  lock t m = match mx_owner m with
             | None => Returns (Ok (Mutex PTHREAD_MUTEX_DEFAULT (Some (t, 1)))) | Some _ => Blocks end.
Proof.
  intros Ht. unfold lock, pthread_mutex_lock. destruct (mx_owner m) as [[o n]|]; [|by rewrite Ht].
  rewrite bool_decide_eq_false_2; [done|]. rewrite Ht. naive_solver.
Qed.

Lemma unlock_default t m : mx_type m = PTHREAD_MUTEX_DEFAULT -> mx_owner m = Some (t, 1) ->
  unlock t m = Ok (Mutex PTHREAD_MUTEX_DEFAULT None).
Proof.
  intros Ht Ho. unfold unlock, pthread_mutex_unlock. rewrite Ho, bool_decide_eq_true_2 by done. by rewrite Ht.
Qed.

Lemma lock_step_inv t ev um : others t ev -> lock_inv t um -> lock_inv t (lock_step t ev um).1.
Proof.
  destruct um as [[d ow] m]. intros Hev (Hd & Ht & Hiff & Hno & Hone). cbn [fst snd ul_device ul_owns] in *. subst d.
  assert (forall o, lock_inv t (MkUniqueLock true false, Mutex PTHREAD_MUTEX_DEFAULT o) <->
    (forall n, o <> Some (t, n)) /\ (forall o' n, o = Some (o', n) -> n = 1)) as Hfalse.
  { intros o. unfold lock_inv. cbn. naive_solver. }
  destruct ev as [| |t'|t']; cbn [lock_step others] in *.
  - unfold unique_lock_lock. cbn [ul_device ul_owns negb]. destruct ow; [done|]. rewrite lock_default by done.
    destruct (mx_owner m) as [[o n]|] eqn:Ho; [unfold lock_inv; cbn; naive_solver|].
    unfold lock_inv. cbn. naive_solver.
  - unfold unique_lock_unlock. cbn [ul_device ul_owns negb].
    destruct ow; [|done]. rewrite unlock_default by naive_solver. cbn [mbind result_bind fst]. by apply Hfalse.
  - rewrite lock_default by done. destruct (mx_owner m) as [[o n]|] eqn:Ho; [unfold lock_inv; cbn; naive_solver|].
    destruct ow; [naive_solver|]. apply Hfalse. naive_solver.
  - case_bool_decide as Hb; [|unfold lock_inv; cbn; naive_solver].
    destruct (mx_owner m) as [[o n]|] eqn:Ho; [|done]. injection Hb as ->. rewrite (Hone _ _ eq_refl) in Ho.
    rewrite unlock_default by done. destruct ow; [naive_solver|]. by apply Hfalse.
Qed.

Lemma lock_steps_inv t evs um : Forall (others t) evs -> lock_inv t um -> lock_inv t (lock_steps t evs um).
Proof.
  intros Hall. revert um. induction Hall as [|ev evs Hev Hall IH]; intros um Hi; [done|].
  apply IH. by apply lock_step_inv.
Qed.

(** A [unique_lock] never misuses its mutex: after any sequence of its own
    and other threads' calls it owns the mutex exactly when it says so; a
    second [lock] and an [unlock] without a lock are refused with an exception
    that changes nothing, other calls never fail; and the destructor leaves
    the mutex free if this lock had it and untouched otherwise. *)
Theorem unique_lock_misuse_refused t m evs u' m' :
  mx_type m = PTHREAD_MUTEX_DEFAULT -> mx_owner m = None -> Forall (others t) evs ->
  lock_steps t evs (MkUniqueLock true false, m) = (u', m') ->
  (owns_lock u' = true <-> mx_owner m' = Some (t, 1)) /\
  lock_step t ELock (u', m') =
    (if owns_lock u' then (u', m', Throw (runtime_error "deadlock would occur"))
     else match mx_owner m' with
          | None => (MkUniqueLock true true, Mutex PTHREAD_MUTEX_DEFAULT (Some (t, 1)), Ok ())
          | Some _ => (u', m', Ok ())
          end) /\
  lock_step t EUnlock (u', m') =
    (if owns_lock u' then (MkUniqueLock true false, Mutex PTHREAD_MUTEX_DEFAULT None, Ok ())
     else (u', m', Throw (runtime_error "lock not owned"))) /\
  unique_lock_delete t u' m' = Ok (if owns_lock u' then Mutex PTHREAD_MUTEX_DEFAULT None else m').
Proof.
  intros Ht Ho Hall E.
  assert (lock_inv t (u', m')) as (Hd & Ht' & Hiff & Hno & Hone).
  { rewrite <-E. apply lock_steps_inv; [done|]. unfold lock_inv. cbn. rewrite Ho. naive_solver. }
  destruct u' as [d ow]. cbn [fst snd ul_device ul_owns] in *. subst d.
  unfold owns_lock, lock_step, unique_lock_lock, unique_lock_delete, unique_lock_unlock.
  cbn [ul_device ul_owns negb]. rewrite lock_default by done. split; [done|].
  destruct ow.
  - rewrite unlock_default by naive_solver. done.
  - split; [by destruct (mx_owner m')|done].
Qed.

(** A recursive mutex is free again after as many unlocks as locks. *)
Lemma recursive_lock_unlock t m m' : mx_type m = PTHREAD_MUTEX_RECURSIVE ->
  (forall o n, mx_owner m = Some (o, n) -> 1 <= n) -> recursive_lock t m = Returns (Ok m') ->
  recursive_unlock t m' = Ok m.
Proof.
  intros Ht Hn. unfold recursive_lock, recursive_unlock, lock, pthread_mutex_lock, unlock, pthread_mutex_unlock.
  destruct m as [ty [[o n]|]]; cbn [mx_type mx_owner] in *; subst ty.
  - case_bool_decide as Hb; [|done]. destruct Hb as [-> _]. specialize (Hn t n eq_refl).
    destruct (n =? MAX_RECURSION) eqn:E1; [done|]. intros [= <-].
    cbn [mx_type mx_owner]. rewrite bool_decide_eq_true_2 by done. cbn [mbind result_bind].
    destruct (Z.eqb_spec (n + 1) 1); [lia|]. do 3 f_equal. f_equal. lia.
  - intros [= <-]. cbn [mx_type mx_owner]. by rewrite bool_decide_eq_true_2.
Qed.

(** An [atomic_bool] reads what was last stored, and its mutex is free between
    operations. *)
Lemma atomic_load_store t t' b a : mx_type (ab_mutex a) = PTHREAD_MUTEX_DEFAULT -> mx_owner (ab_mutex a) = None ->
  exists a', atomic_store t b a = Returns (Ok (b, a')) /\ atomic_load t' a' = Returns (Ok (b, a')) /\
    mx_owner (ab_mutex a') = None.
Proof.
  intros Ht Ho. unfold atomic_store, atomic_load, lock_guard_new, lock_guard_delete.
  rewrite lock_default, Ho by done. cbv iota beta. rewrite unlock_default by done.
  eexists. split; [done|]. split; [|done]. cbn [ab_mutex ab_value].
  rewrite lock_default by done. cbn [mx_owner]. by rewrite unlock_default by done.
Qed.

(** * The life of a thread handle *)

Inductive thread_op := TJoin (e : Z) | TDetach (e : Z).

Definition thread_step (op : thread_op) (th : thread) : result thread :=
  match op with TJoin e => join_thread e th | TDetach e => detach e th end.

(** The operations in turn; one that throws leaves the handle as it is.  The
    results say which succeeded. *)
Fixpoint thread_steps (ops : list thread_op) (th : thread) : thread * list bool :=
  match ops with
  | [] => (th, [])
  | op :: ops =>
      match thread_step op th with
      | Ok th => let '(th, rs) := thread_steps ops th in (th, true :: rs)
      | Throw _ => let '(th, rs) := thread_steps ops th in (th, false :: rs)
      end
  end.

Lemma thread_steps_gone ops : thread_steps ops (Thread 0) = (Thread 0, replicate (length ops) false).
Proof. induction ops as [|[e|e] ops IH]; cbn; rewrite ?IH; done. Qed.

(** A thread that was started is joined or detached at most once: whatever
    is called on its handle, in any order, only the first call that the system
    accepts succeeds and all others throw; destroying the handle terminates
    the process exactly when no call has succeeded. *)
Theorem thread_handle_once e_attr e_state e_create id th ops th' rs :
  start_thread e_attr e_state e_create id = Ok th -> id <> 0 -> thread_steps ops th = (th', rs) ->
  (rs = replicate (length ops) false \/ exists k n, rs = replicate k false ++ true :: replicate n false) /\
  (delete_thread th' = true <-> true ∉ rs) /\ (delete_thread th' = false -> th' = Thread 0).
Proof.
  unfold start_thread. intros Hs Hid. repeat case_match; simplify_eq. clear H H0 H1.
  revert th' rs. induction ops as [|op ops IH]; intros th' rs E.
  { injection E as <- <-. split; [by left|]. unfold delete_thread, joinable. cbn.
    rewrite (proj2 (Z.eqb_neq _ _) Hid). split; [|done]. split; [intros _; by apply not_elem_of_nil|done]. }
  assert (thread_step op (Thread id) = Ok (Thread 0) \/ exists e, thread_step op (Thread id) = Throw e) as Hop.
  { destruct op as [e|e]; cbn; unfold join_thread, detach; cbv zeta; case_match; eauto. }
  cbn [thread_steps] in E. destruct Hop as [Hop|[e Hop]]; rewrite Hop in E.
  - rewrite thread_steps_gone in E. injection E as <- <-. split; [right; by exists 0%nat, (length ops)|].
    split; [|done]. split; [done|]. intros Hn. exfalso. apply Hn. by left.
  - destruct (thread_steps ops (Thread id)) as [th1 rs1] eqn:E1. injection E as <- <-.
    destruct (IH _ _ eq_refl) as (Hrs & Hdel & Hz). split; [|split; [|done]].
    + destruct Hrs as [->|(k & n & ->)]; [by left|right]. by exists (S k), n.
    + rewrite Hdel. set_solver.
Qed.

(** * Examples *)

Lemma unique_lock_misuse_refused_witness :
  lock_steps 1 [ELock; EOther_lock 2; EUnlock; EOther_lock 2; ELock]
    (MkUniqueLock true false, Mutex PTHREAD_MUTEX_DEFAULT None) =
    (MkUniqueLock true false, Mutex PTHREAD_MUTEX_DEFAULT (Some (2, 1))) /\
  lock_step 1 EUnlock (MkUniqueLock true false, Mutex PTHREAD_MUTEX_DEFAULT (Some (2, 1))) =
    (MkUniqueLock true false, Mutex PTHREAD_MUTEX_DEFAULT (Some (2, 1)), Throw (runtime_error "lock not owned")).
Proof.
  split; [reflexivity|].
  apply (unique_lock_misuse_refused 1 (Mutex PTHREAD_MUTEX_DEFAULT None)
    [ELock; EOther_lock 2; EUnlock; EOther_lock 2; ELock]).
  - reflexivity.
  - reflexivity.
  - repeat constructor; discriminate.
  - reflexivity.
Defined.

Lemma thread_handle_once_witness :
  thread_steps [TJoin 35; TJoin 0; TDetach 0] (Thread 7) = (Thread 0, [false; true; false]) /\
  (delete_thread (Thread 0) = true <-> true ∉ [false; true; false]).
Proof.
  split; [reflexivity|].
  apply (thread_handle_once 0 0 0 7 (Thread 7) [TJoin 35; TJoin 0; TDetach 0]).
  - reflexivity.
  - discriminate.
  - reflexivity.
Defined.
