(* ===== verification/TxContainer.v ===== *)
(** The message data model of [sam.h] / [sam.cc]: fields, containers, qualified
    names and messages.

    A [txContainer] owns a list of items in insertion order ([m_items]) and
    two maps from names to items ([m_field_map], [m_child_map]).  The maps
    hold pointers; an item is never moved or erased once it is in [m_items],
    so the model represents such a pointer by the item's position.  Code that
    modifies an item through a reference returned by [put_child] is modelled
    by passing the modification to [put_child_with]. *)

From S2P Require Import Prelude Decimal Utils.

(** * Data *)

Record txField := TxField { f_name : string; f_value : string }.

Unset Elimination Schemes.
Inductive txItem : Type :=
| ItemField (f : txField)
| ItemContainer (c : txContainer)
with txContainer : Type :=
| TxContainer (m_name : string) (m_items : list txItem)
    (m_field_map m_child_map : gmap string nat).
Set Elimination Schemes.

Definition m_name (c : txContainer) : string :=
  let 'TxContainer n _ _ _ := c in n.
Definition m_items (c : txContainer) : list txItem :=
  let 'TxContainer _ l _ _ := c in l.
Definition m_field_map (c : txContainer) : gmap string nat :=
  let 'TxContainer _ _ m _ := c in m.
Definition m_child_map (c : txContainer) : gmap string nat :=
  let 'TxContainer _ _ _ m := c in m.

(** [txItem::name()] and [txItem::name(s)]. *)
Definition item_name (i : txItem) : string :=
  match i with ItemField f => f_name f | ItemContainer c => m_name c end.
Definition set_name (s : string) (c : txContainer) : txContainer :=
  TxContainer s (m_items c) (m_field_map c) (m_child_map c).

(** [txContainer()] and [txContainer(name)]. *)
Definition new_container (name : string) : txContainer := TxContainer name [] ∅ ∅.

Definition count_any (c : txContainer) : nat := length (m_items c).
Definition count_field (c : txContainer) : nat := size (m_field_map c).
Definition count_child (c : txContainer) : nat := size (m_child_map c).
Definition empty (c : txContainer) : bool := bool_decide (m_items c = []).

(** * Lookup *)

Definition field_at (c : txContainer) (i : nat) : option txField :=
  match m_items c !! i with Some (ItemField f) => Some f | _ => None end.
Definition child_at (c : txContainer) (i : nat) : option txContainer :=
  match m_items c !! i with Some (ItemContainer d) => Some d | _ => None end.

Definition find_field (c : txContainer) (f : string) : option txField :=
  i ← m_field_map c !! f; field_at c i.
Definition find_child (c : txContainer) (f : string) : option txContainer :=
  i ← m_child_map c !! f; child_at c i.

Definition check_field (c : txContainer) (fieldname val : string) : bool :=
  match find_field c fieldname with
  | Some f => bool_decide (f_value f = val)
  | None => false
  end.

(** * Insertion *)

(** [std::map::insert]: an existing entry is kept. *)
Definition map_insert {A} (k : string) (v : A) (m : gmap string A) : gmap string A :=
  match m !! k with Some _ => m | None => <[k:=v]> m end.

Definition add_internally (item : txItem) (c : txContainer) : txContainer :=
  let pos := length (m_items c) in
  match item with
  | ItemContainer d =>
      TxContainer (m_name c) (m_items c ++ [item]) (m_field_map c)
        (map_insert (m_name d) pos (m_child_map c))
  | ItemField f =>
      TxContainer (m_name c) (m_items c ++ [item])
        (map_insert (f_name f) pos (m_field_map c)) (m_child_map c)
  end.

(** Writing through a pointer to the item at position [i]. *)
Definition alter_item (i : nat) (g : txItem -> txItem) (c : txContainer) : txContainer :=
  TxContainer (m_name c) (alter g i (m_items c)) (m_field_map c) (m_child_map c).
Definition alter_child (i : nat) (g : txContainer -> txContainer) : txContainer -> txContainer :=
  alter_item i (fun it => match it with
                          | ItemContainer d => ItemContainer (g d)
                          | ItemField _ => it
                          end).

Definition put_field (c : txContainer) (fname fvalue : string) : txContainer :=
  match m_field_map c !! fname with
  | Some i => alter_item i (fun it => match it with
                                      | ItemField f => ItemField (TxField (f_name f) fvalue)
                                      | ItemContainer _ => it
                                      end) c
  | None => add_internally (ItemField (TxField fname fvalue)) c
  end.

(** [put_child(name)], then [g] applied through the returned reference. *)
Definition put_child_with (c : txContainer) (f : string)
    (g : txContainer -> txContainer) : txContainer :=
  match m_child_map c !! f with
  | Some i => alter_child i g c
  | None => add_internally (ItemContainer (g (new_container f))) c
  end.
Definition put_child (c : txContainer) (f : string) : txContainer := put_child_with c f id.

(** * Copies

    The copy constructor, [clone()] and [operator=] all rebuild the maps by
    adding clones of the source's items to an empty container. *)
Fixpoint clone_item (i : txItem) : txItem :=
  match i with
  | ItemField f => ItemField f
  | ItemContainer c => ItemContainer (clone c)
  end
with clone (c : txContainer) : txContainer :=
  match c with
  | TxContainer name items _ _ =>
      foldl (fun acc it => add_internally it acc) (new_container name) (map clone_item items)
  end.

(** [clear()]: the children are cleared and every item is deleted. *)
Definition clear (c : txContainer) : txContainer := new_container (m_name c).

(** [operator=]: clear, then copy the name and clones of the items. *)
Definition assign (this rhs : txContainer) : txContainer :=
  foldl (fun acc it => add_internally it acc) (set_name (m_name rhs) (clear this))
    (map clone_item (m_items rhs)).

(** [put_child(const txContainer&)], then [g] through the returned reference. *)
Definition put_child_copy_with (c src : txContainer) (g : txContainer -> txContainer) : txContainer :=
  match m_child_map c !! m_name src with
  | Some i => alter_child i (fun d => g (assign d src)) c
  | None => add_internally (ItemContainer (g (clone src))) c
  end.
Definition put_child_copy (c src : txContainer) : txContainer := put_child_copy_with c src id.

(** [remove(name)].  When a field of that name exists the code erases the
    map entry at iterator [f] and then reads [f->second]; likewise for a
    child.  Both reads are through an erased iterator. *)
Definition remove (c : txContainer) (n : string) : result txContainer :=
  match m_field_map c !! n, m_child_map c !! n with
  | None, None => Ok c
  | _, _ => Throw (undefined_behaviour "erased map iterator dereferenced")
  end.

(** [merge(src)]. *)
Fixpoint merge_item (this : txContainer) (i : txItem) {struct i} : txContainer :=
  match i with
  | ItemContainer d =>
      match m_child_map this !! m_name d with
      | Some pos => alter_child pos (fun c => merge c d) this
      | None => put_child_copy this d
      end
  | ItemField f => put_field this (f_name f) (f_value f)
  end
with merge (this src : txContainer) {struct src} : txContainer :=
  match src with
  | TxContainer _ items _ _ =>
      (fix loop (this : txContainer) (l : list txItem) {struct l} : txContainer :=
         match l with
         | [] => this
         | i :: l' => loop (merge_item this i) l'
         end) this items
  end.

(** * Qualified names *)

Abbreviation qname := (list string).

(** [operator<<(ostream, qname)] and [qname::to_string()]. *)
Fixpoint qname_to_string (q : qname) : string :=
  match q with
  | [] => EmptyString
  | [p] => p
  | p :: q' => p +:+ "." +:+ qname_to_string q'
  end.

(** [qname::parse(src)]. *)
Definition qname_parse (src : option string) : qname := tokenize src "." false.

(** [push] and [operator<<]; [qname_builder] collects the parts one by one. *)
Definition qname_push (p : string) (q : qname) : qname := q ++ [p].
Definition qname_builder (parts : list string) : qname := foldl (fun q p => qname_push p q) [] parts.

(** The last part; an empty qname names the empty string. *)
Definition qname_last (q : qname) : string := List.last q EmptyString.

(** [find_tree_const]: [None] when a part of the path is missing. *)
Fixpoint find_tree_const (current : txContainer) (path : list string) : option txContainer :=
  match path with
  | [] => Some current
  | p :: path' => c ← find_child current p; find_tree_const c path'
  end.

(** [buid_tree], then [g] applied to the container it reaches. *)
Fixpoint buid_tree (path : list string) (g : txContainer -> txContainer)
    (current : txContainer) : txContainer :=
  match path with
  | [] => g current
  | p :: path' => put_child_with current p (buid_tree path' g)
  end.

Definition find_field_qn (c : txContainer) (qn : qname) : option txField :=
  current ← find_tree_const c (removelast qn); find_field current (qname_last qn).
Definition find_child_qn (c : txContainer) (qn : qname) : option txContainer :=
  current ← find_tree_const c (removelast qn); find_child current (qname_last qn).
Definition check_field_qn (c : txContainer) (qn : qname) (val : string) : bool :=
  match find_field_qn c qn with
  | Some f => bool_decide (f_value f = val)
  | None => false
  end.
Definition put_field_qn (c : txContainer) (qn : qname) (value : string) : txContainer :=
  buid_tree (removelast qn) (fun cur => put_field cur (qname_last qn) value) c.
Definition put_child_qn_with (c : txContainer) (qn : qname)
    (g : txContainer -> txContainer) : txContainer :=
  buid_tree (removelast qn) (fun cur => put_child_with cur (qname_last qn) g) c.

(** * Messages *)

(** A message is its root container; its type is the root's name. *)
Record txMessage := TxMessage { m_root : txContainer }.

Definition msg_type (m : txMessage) : string := m_name (m_root m).
Definition new_message (type : string) : txMessage := TxMessage (new_container type).
Definition set_type (s : string) (m : txMessage) : txMessage := TxMessage (set_name s (m_root m)).
Definition reset (m : txMessage) : txMessage :=
  TxMessage (set_name EmptyString (clear (m_root m))).
(** Applying [g] to [root()]. *)
Definition on_root (g : txContainer -> txContainer) (m : txMessage) : txMessage :=
  TxMessage (g (m_root m)).
(** Copying a message copies its root. *)
Definition copy_message (m : txMessage) : txMessage := TxMessage (clone (m_root m)).

(** * [MessageFormatter] *)

Record MessageFormatter := Formatter {
  m_depth : Z; m_indent_str : string; m_inline : bool }.

Definition new_formatter (b : bool) : MessageFormatter := Formatter 0 EmptyString b.

Definition spaces (n : Z) : string := unstr (replicate (Z.to_nat n) " "%char).

Definition fmt_newline (f : MessageFormatter) : string :=
  if m_inline f then EmptyString else unstr ["010"%char].
Definition indent_incr (f : MessageFormatter) : MessageFormatter :=
  if m_inline f then f
  else Formatter (m_depth f + 1) (spaces (2 * (m_depth f + 1))) (m_inline f).
Definition indent_decr (f : MessageFormatter) : MessageFormatter :=
  if m_inline f then f
  else Formatter (m_depth f - 1) (spaces (2 * (m_depth f - 1))) (m_inline f).

(** [format_contents]: the formatter after the call and the text written. *)
Fixpoint format_item (f : MessageFormatter) (i : txItem) {struct i} : MessageFormatter * string :=
  match i with
  | ItemContainer c =>
      let '(f', s) := format_contents f c in
      (f', m_indent_str f +:+ m_name c +:+ "=" +:+ fmt_newline f +:+ m_indent_str f +:+ "[" +:+
           s +:+ fmt_newline f' +:+ m_indent_str f' +:+ "]")
  | ItemField fd => (f, m_indent_str f +:+ f_name fd +:+ "=" +:+ f_value fd)
  end
with format_contents (f : MessageFormatter) (c : txContainer) {struct c} : MessageFormatter * string :=
  match c with
  | TxContainer _ items _ _ =>
      let '(f', s) :=
        (fix loop (f : MessageFormatter) (first : bool) (l : list txItem) {struct l} :=
           match l with
           | [] => (f, EmptyString)
           | i :: l' =>
               let '(f1, s1) := format_item f i in
               let '(f2, s2) := loop f1 false l' in
               (f2, (if first then EmptyString else ", ") +:+ fmt_newline f +:+ s1 +:+ s2)
           end) (indent_incr f) true items in
      (indent_decr f', s)
  end.

Definition format (f : MessageFormatter) (m : txMessage) : MessageFormatter * string :=
  let f0 := Formatter (m_depth f) EmptyString (m_inline f) in
  let '(f', s) := format_contents f0 (m_root m) in
  (f', msg_type m +:+ ":" +:+ fmt_newline f0 +:+ "[" +:+ s +:+ fmt_newline f' +:+ "]").

(** * Induction over containers *)

Definition item_all (P : txContainer -> Prop) (i : txItem) : Prop :=
  match i with ItemField _ => True | ItemContainer c => P c end.

Lemma txContainer_ind (P : txContainer -> Prop)
    (H : forall n items fm cm, Forall (item_all P) items -> P (TxContainer n items fm cm)) :
  forall c, P c.
Proof.
  fix IH 1. intros [n items fm cm]. apply H.
  induction items as [|[f|c] items IHl]; constructor; simpl; auto.
Qed.

Lemma txContainer_eq c d : m_name c = m_name d -> m_items c = m_items d ->
  m_field_map c = m_field_map d -> m_child_map c = m_child_map d -> c = d.
Proof. destruct c, d; simpl; congruence. Qed.

(** * Well-formedness

    [indexed c]: the two maps hold exactly the items of [m_items], each under
    its own name, so that no two fields and no two children share a name. *)
Record indexed (c : txContainer) : Prop := {
  idx_field : forall k i, m_field_map c !! k = Some i ->
    exists f, m_items c !! i = Some (ItemField f) /\ f_name f = k;
  idx_child : forall k i, m_child_map c !! k = Some i ->
    exists d, m_items c !! i = Some (ItemContainer d) /\ m_name d = k;
  idx_field_complete : forall i f, m_items c !! i = Some (ItemField f) ->
    m_field_map c !! f_name f = Some i;
  idx_child_complete : forall i d, m_items c !! i = Some (ItemContainer d) ->
    m_child_map c !! m_name d = Some i }.

Inductive wf (c : txContainer) : Prop :=
| wf_intro : indexed c ->
    (forall i d, m_items c !! i = Some (ItemContainer d) -> wf d) -> wf c.

Lemma wf_indexed c : wf c -> indexed c.
Proof. by destruct 1. Qed.
Lemma wf_child c i d : wf c -> m_items c !! i = Some (ItemContainer d) -> wf d.
Proof. destruct 1. eauto. Qed.
#[export] Hint Resolve wf_indexed : exio.

Lemma wf_new_container n : wf (new_container n).
Proof.
  constructor; [constructor|]; simpl; intros *; rewrite ?lookup_nil, ?lookup_empty; done.
Qed.
#[export] Hint Resolve wf_new_container : exio.

Lemma field_lookup_lt c k i : indexed c -> m_field_map c !! k = Some i -> i < length (m_items c).
Proof. intros Hc Hi. apply (idx_field c Hc) in Hi as (f & Hf & _). by eapply lookup_lt_Some. Qed.
Lemma child_lookup_lt c k i : indexed c -> m_child_map c !! k = Some i -> i < length (m_items c).
Proof. intros Hc Hi. apply (idx_child c Hc) in Hi as (f & Hf & _). by eapply lookup_lt_Some. Qed.

Lemma find_field_Some c k f : indexed c ->
  find_field c k = Some f <->
  exists i, m_field_map c !! k = Some i /\ m_items c !! i = Some (ItemField f).
Proof.
  intros Hc. unfold find_field, field_at. rewrite bind_Some. split.
  - intros (i & Hi & Hf). exists i. split; [done|]. by repeat case_match; simplify_eq.
  - intros (i & Hi & Hf). exists i. by rewrite Hf.
Qed.

Lemma find_child_Some c k d : indexed c ->
  find_child c k = Some d <->
  exists i, m_child_map c !! k = Some i /\ m_items c !! i = Some (ItemContainer d).
Proof.
  intros Hc. unfold find_child, child_at. rewrite bind_Some. split.
  - intros (i & Hi & Hf). exists i. split; [done|]. by repeat case_match; simplify_eq.
  - intros (i & Hi & Hf). exists i. by rewrite Hf.
Qed.

Lemma find_field_name c k f : indexed c -> find_field c k = Some f -> f_name f = k.
Proof.
  intros Hc (i & Hi & Hf)%find_field_Some; [|done].
  apply (idx_field c Hc) in Hi as (f' & Hf' & <-). congruence.
Qed.

Lemma find_child_name c k d : indexed c -> find_child c k = Some d -> m_name d = k.
Proof.
  intros Hc (i & Hi & Hf)%find_child_Some; [|done].
  apply (idx_child c Hc) in Hi as (f' & Hf' & <-). congruence.
Qed.

Lemma find_child_wf c k d : wf c -> find_child c k = Some d -> wf d.
Proof. intros Hc (i & Hi & Hf)%find_child_Some; eauto using wf_child with exio. Qed.

Lemma find_field_None c k : indexed c -> find_field c k = None <-> m_field_map c !! k = None.
Proof.
  intros Hc. unfold find_field. destruct (m_field_map c !! k) as [i|] eqn:Hi; simpl; [|done].
  destruct (idx_field c Hc _ _ Hi) as (f & Hf & _). unfold field_at. by rewrite Hf.
Qed.

Lemma find_child_None c k : indexed c -> find_child c k = None <-> m_child_map c !! k = None.
Proof.
  intros Hc. unfold find_child. destruct (m_child_map c !! k) as [i|] eqn:Hi; simpl; [|done].
  destruct (idx_child c Hc _ _ Hi) as (f & Hf & _). unfold child_at. by rewrite Hf.
Qed.

(** ** Adding an item *)

Definition fresh_in (it : txItem) (c : txContainer) : Prop :=
  match it with
  | ItemField f => m_field_map c !! f_name f = None
  | ItemContainer d => m_child_map c !! m_name d = None
  end.

Lemma map_insert_fresh {A} k (v : A) m : m !! k = None -> map_insert k v m = <[k:=v]> m.
Proof. intros H. unfold map_insert. by rewrite H. Qed.

Lemma m_items_add_internally it c : m_items (add_internally it c) = m_items c ++ [it].
Proof. by destruct it. Qed.
Lemma m_name_add_internally it c : m_name (add_internally it c) = m_name c.
Proof. by destruct it. Qed.

Lemma lookup_snoc_Some {A} (l : list A) x i y :
  (l ++ [x]) !! i = Some y <-> l !! i = Some y \/ (i = length l /\ y = x).
Proof.
  rewrite lookup_app_Some. rewrite list_lookup_singleton_Some. split.
  - intros [|(? & ? & <-)]; [by left|right]. split; [lia|done].
  - intros [|[-> ->]]; [by left|right]. split; [lia|]. split; [lia|done].
Qed.

Lemma indexed_add_internally it c : indexed c -> fresh_in it c -> indexed (add_internally it c).
Proof.
  intros Hc Hf. pose proof (field_lookup_lt c) as Hlf. pose proof (child_lookup_lt c) as Hlc.
  destruct it as [f|d]; simpl in Hf; constructor; cbn [add_internally m_items m_field_map m_child_map];
    rewrite ?map_insert_fresh by done; intros k i.
  - rewrite lookup_insert_Some. intros [[<- <-]|[Hne Hi]].
    + exists f. split; [|done]. by apply list_lookup_middle.
    + destruct (idx_field c Hc _ _ Hi) as (g & Hg & Hn). exists g. split; [|done].
      apply lookup_snoc_Some. by left.
  - intros Hi. destruct (idx_child c Hc _ _ Hi) as (g & Hg & Hn). exists g. split; [|done].
    apply lookup_snoc_Some. by left.
  - rewrite lookup_snoc_Some. intros [Hi|[-> [= ->]]]; [|by rewrite lookup_insert_eq].
    apply (idx_field_complete c Hc) in Hi. rewrite lookup_insert_ne; [done|congruence].
  - rewrite lookup_snoc_Some. intros [Hi|[-> ?]]; [|done]. by apply (idx_child_complete c Hc).
  - intros Hi. destruct (idx_field c Hc _ _ Hi) as (g & Hg & Hn). exists g. split; [|done].
    apply lookup_snoc_Some. by left.
  - rewrite lookup_insert_Some. intros [[<- <-]|[Hne Hi]].
    + exists d. split; [|done]. by apply list_lookup_middle.
    + destruct (idx_child c Hc _ _ Hi) as (g & Hg & Hn). exists g. split; [|done].
      apply lookup_snoc_Some. by left.
  - rewrite lookup_snoc_Some. intros [Hi|[-> ?]]; [|done]. by apply (idx_field_complete c Hc).
  - rewrite lookup_snoc_Some. intros [Hi|[-> [= ->]]]; [|by rewrite lookup_insert_eq].
    apply (idx_child_complete c Hc) in Hi. rewrite lookup_insert_ne; [done|congruence].
Qed.

Lemma wf_add_internally it c : wf c -> fresh_in it c -> item_all wf it -> wf (add_internally it c).
Proof.
  intros Hc Hf Hit. constructor; [apply indexed_add_internally; auto with exio|].
  intros i d. rewrite m_items_add_internally, lookup_snoc_Some. intros [Hi|[-> <-]]; [|done].
  by eapply wf_child.
Qed.

(** ** Writing through a pointer *)

Definition same_key (a b : txItem) : Prop :=
  match a, b with
  | ItemField f, ItemField g => f_name f = f_name g
  | ItemContainer d, ItemContainer e => m_name d = m_name e
  | _, _ => False
  end.

Lemma lookup_alter_item i g c j :
  m_items (alter_item i g c) !! j =
  if decide (i = j) then g <$> m_items c !! j else m_items c !! j.
Proof.
  unfold alter_item; simpl. rewrite list_lookup_alter. by case_decide; simplify_eq.
Qed.

Lemma indexed_alter_item i g c : indexed c ->
  (forall it, m_items c !! i = Some it -> same_key it (g it)) -> indexed (alter_item i g c).
Proof.
  intros Hc Hg.
  constructor; intros k j; rewrite ?lookup_alter_item; cbn [alter_item m_field_map m_child_map];
    [intros Hj; destruct (idx_field c Hc _ _ Hj) as (f & Hf & Hn)
    |intros Hj; destruct (idx_child c Hc _ _ Hj) as (f & Hf & Hn)
    |intros Hj|intros Hj];
    case_decide; simplify_eq; rewrite ?Hf; eauto.
  - apply Hg in Hf. simpl. destruct (g (ItemField f)) as [f'|]; [|done]. eauto.
  - apply Hg in Hf. simpl. destruct (g (ItemContainer f)) as [|f']; [done|]. eauto.
  - apply fmap_Some in Hj as (it & Hit & Heq). specialize (Hg _ Hit). rewrite <-Heq in Hg.
    destruct it as [f|]; [|done]. simpl in Hg. rewrite <-Hg. by apply (idx_field_complete c Hc).
  - by apply (idx_field_complete c Hc).
  - apply fmap_Some in Hj as (it & Hit & Heq). specialize (Hg _ Hit). rewrite <-Heq in Hg.
    destruct it as [|f]; [done|]. simpl in Hg. rewrite <-Hg. by apply (idx_child_complete c Hc).
  - by apply (idx_child_complete c Hc).
Qed.

Lemma wf_alter_child i g c : wf c ->
  (forall d, m_items c !! i = Some (ItemContainer d) -> wf (g d) /\ m_name (g d) = m_name d) ->
  wf (alter_child i g c).
Proof.
  intros Hc Hg. constructor.
  - apply indexed_alter_item; [by apply wf_indexed|]. intros [f|d] Hit; [done|].
    simpl. symmetry. by apply Hg.
  - intros j d. unfold alter_child. rewrite lookup_alter_item. case_decide as Hij; [subst j|].
    + intros (it & Heq & Hit)%fmap_Some. destruct it as [f|e]; [done|].
      injection Hit as ->. by apply Hg.
    + by apply wf_child.
Qed.

Lemma wf_put_field c n v : wf c -> wf (put_field c n v).
Proof.
  intros Hc. unfold put_field. destruct (m_field_map c !! n) as [i|] eqn:Hi.
  - destruct (idx_field c (wf_indexed _ Hc) _ _ Hi) as (f & Hf & Hn). constructor.
    + apply indexed_alter_item; [by apply wf_indexed|]. by intros [f'|d'] Hit.
    + intros j d. rewrite lookup_alter_item. case_decide as Hij; [subst j|].
      * by rewrite Hf.
      * by apply wf_child.
  - by apply wf_add_internally.
Qed.

(** [g] keeps the name and the well-formedness of what it modifies. *)
Definition wf_update (g : txContainer -> txContainer) : Prop :=
  forall d, wf d -> wf (g d) /\ m_name (g d) = m_name d.

Lemma wf_put_child_with c n g : wf c -> wf_update g -> wf (put_child_with c n g).
Proof.
  intros Hc Hg. unfold put_child_with. destruct (m_child_map c !! n) as [i|] eqn:Hi.
  - apply wf_alter_child; [done|]. intros d Hd. apply Hg. by eapply wf_child.
  - destruct (Hg (new_container n)) as [Hw Hn]; [auto with exio|].
    apply wf_add_internally; [done| |done]. simpl. by rewrite Hn.
Qed.

Lemma m_name_put_field c n v : m_name (put_field c n v) = m_name c.
Proof. unfold put_field. case_match; [done|]. by rewrite m_name_add_internally. Qed.
Lemma m_name_put_child_with c n g : m_name (put_child_with c n g) = m_name c.
Proof. unfold put_child_with. by case_match. Qed.

Lemma wf_update_put_field n v : wf_update (fun c => put_field c n v).
Proof. intros c Hc. split; [by apply wf_put_field|apply m_name_put_field]. Qed.
Lemma wf_update_put_child_with n g : wf_update g -> wf_update (fun c => put_child_with c n g).
Proof. intros Hg c Hc. split; [by apply wf_put_child_with|apply m_name_put_child_with]. Qed.
Lemma wf_update_id : wf_update id.
Proof. by intros c. Qed.
Lemma wf_update_compose g h : wf_update g -> wf_update h -> wf_update (fun c => g (h c)).
Proof. intros Hg Hh c [Hc Hn]%Hh. rewrite <-Hn. by apply Hg. Qed.
#[export] Hint Resolve wf_update_put_field wf_update_put_child_with wf_update_id
  wf_update_compose wf_put_field wf_put_child_with : exio.

Lemma wf_update_buid_tree path g : wf_update g -> wf_update (buid_tree path g).
Proof. induction path as [|p path IH]; simpl; intros Hg; [done|]. auto with exio. Qed.

Lemma wf_put_field_qn c qn v : wf c -> wf (put_field_qn c qn v).
Proof. intros Hc. apply wf_update_buid_tree; auto with exio. Qed.

(** ** Reading back what was put *)

Lemma field_at_add c it i : i < length (m_items c) -> field_at (add_internally it c) i = field_at c i.
Proof. intros Hi. unfold field_at. by rewrite m_items_add_internally, lookup_app_l. Qed.
Lemma child_at_add c it i : i < length (m_items c) -> child_at (add_internally it c) i = child_at c i.
Proof. intros Hi. unfold child_at. by rewrite m_items_add_internally, lookup_app_l. Qed.

Lemma find_field_put_field c n v k : indexed c ->
  find_field (put_field c n v) k = if decide (n = k) then Some (TxField n v) else find_field c k.
Proof.
  intros Hc. unfold put_field. destruct (m_field_map c !! n) as [i|] eqn:Hi.
  - destruct (idx_field c Hc _ _ Hi) as (f & Hf & Hn).
    unfold find_field. cbn [alter_item m_field_map]. case_decide; subst.
    + rewrite Hi. cbn [mbind option_bind]. unfold field_at. rewrite lookup_alter_item, Hf.
      by rewrite decide_True by done.
    + destruct (m_field_map c !! k) as [j|] eqn:Hj; [|done]. cbn [mbind option_bind].
      unfold field_at. rewrite lookup_alter_item. rewrite decide_False; [done|].
      intros ->. destruct (idx_field c Hc _ _ Hj) as (g & Hg & Hk). congruence.
  - unfold find_field. cbn [add_internally m_field_map f_name]. rewrite map_insert_fresh by done.
    rewrite lookup_insert. case_decide; subst; simpl.
    + unfold field_at. simpl. by rewrite list_lookup_middle.
    + destruct (m_field_map c !! k) as [j|] eqn:Hj; [|done]. simpl.
      apply (field_at_add c (ItemField _)). by eapply field_lookup_lt.
Qed.

Lemma find_child_put_field c n v k : indexed c ->
  find_child (put_field c n v) k = find_child c k.
Proof.
  intros Hc. unfold put_field. destruct (m_field_map c !! n) as [i|] eqn:Hi.
  - destruct (idx_field c Hc _ _ Hi) as (f & Hf & Hn).
    unfold find_child. cbn [alter_item m_child_map].
    destruct (m_child_map c !! k) as [j|]; [|done]. cbn [mbind option_bind].
    unfold child_at. rewrite lookup_alter_item. case_decide; subst; [by rewrite Hf|done].
  - unfold find_child. cbn [add_internally m_child_map].
    destruct (m_child_map c !! k) as [j|] eqn:Hj; [|done]. cbn [mbind option_bind].
    apply (child_at_add c (ItemField _)). by eapply child_lookup_lt.
Qed.

Lemma find_child_put_child_with c n g k : indexed c ->
  m_name (g (new_container n)) = n ->
  find_child (put_child_with c n g) k =
  if decide (n = k) then Some (g (default (new_container n) (find_child c n))) else find_child c k.
Proof.
  intros Hc Hg. unfold put_child_with. destruct (m_child_map c !! n) as [i|] eqn:Hi.
  - destruct (idx_child c Hc _ _ Hi) as (f & Hf & Hn).
    unfold find_child, alter_child. cbn [alter_item m_child_map]. case_decide; subst.
    + rewrite Hi. cbn [mbind option_bind]. unfold child_at. rewrite lookup_alter_item, Hf.
      by rewrite decide_True by done.
    + destruct (m_child_map c !! k) as [j|] eqn:Hj; [|done]. cbn [mbind option_bind].
      unfold child_at. rewrite lookup_alter_item. rewrite decide_False; [done|].
      intros ->. destruct (idx_child c Hc _ _ Hj) as (g' & Hg' & Hk). congruence.
  - unfold find_child. cbn [add_internally m_child_map]. rewrite Hg.
    rewrite map_insert_fresh by done. rewrite lookup_insert. case_decide; subst; simpl.
    + rewrite Hi. unfold child_at. simpl. by rewrite list_lookup_middle.
    + destruct (m_child_map c !! k) as [j|] eqn:Hj; [|done]. simpl.
      apply (child_at_add c (ItemContainer _)). by eapply child_lookup_lt.
Qed.

Lemma find_field_put_child_with c n g k : indexed c ->
  find_field (put_child_with c n g) k = find_field c k.
Proof.
  intros Hc. unfold put_child_with. destruct (m_child_map c !! n) as [i|] eqn:Hi.
  - destruct (idx_child c Hc _ _ Hi) as (f & Hf & Hn).
    unfold find_field, alter_child. cbn [alter_item m_field_map].
    destruct (m_field_map c !! k) as [j|]; [|done]. cbn [mbind option_bind].
    unfold field_at. rewrite lookup_alter_item. case_decide; subst; [by rewrite Hf|done].
  - unfold find_field. cbn [add_internally m_field_map].
    destruct (m_field_map c !! k) as [j|] eqn:Hj; [|done]. cbn [mbind option_bind].
    apply (field_at_add c (ItemContainer _)). by eapply field_lookup_lt.
Qed.

(** ** Qualified names *)

(** [find_field_qn] on a path and a last name. *)
Definition find_at (c : txContainer) (path : list string) (k : string) : option txField :=
  d ← find_tree_const c path; find_field d k.

Lemma find_at_new n path k : find_at (new_container n) path k = None.
Proof. by destruct path. Qed.

Lemma find_at_buid_tree path k v c path' k' : wf c ->
  find_at (buid_tree path (fun d => put_field d k v) c) path' k' =
  if decide (path = path' /\ k = k') then Some (TxField k v) else find_at c path' k'.
Proof.
  revert c path'. induction path as [|p path IH]; intros c path' Hc; cbn [buid_tree].
  - destruct path' as [|p' path']; unfold find_at; cbn [find_tree_const mbind option_bind].
    + rewrite find_field_put_field by auto with exio.
      repeat case_decide; naive_solver.
    + rewrite find_child_put_field by auto with exio. case_decide; naive_solver.
  - assert (wf_update (buid_tree path (fun d => put_field d k v))) as Hg
      by (apply wf_update_buid_tree; auto with exio).
    destruct path' as [|p' path']; unfold find_at in *; cbn [find_tree_const].
    + cbn [mbind option_bind]. rewrite find_field_put_child_with by auto with exio.
      case_decide; naive_solver.
    + rewrite find_child_put_child_with; [|auto with exio|by apply Hg; auto with exio].
      destruct (decide (p = p')) as [<-|Hp]; [|by rewrite decide_False by naive_solver].
      cbn [mbind option_bind]. destruct (find_child c p) as [d|] eqn:Hd;
        cbn [default from_option mbind option_bind id].
      * rewrite IH by eauto using find_child_wf. repeat case_decide; naive_solver.
      * rewrite IH by auto with exio. change (find_tree_const (new_container p) path'
          ≫= fun d => find_field d k') with (find_at (new_container p) path' k').
        rewrite find_at_new. repeat case_decide; naive_solver.
Qed.

Lemma find_field_qn_put_field_qn c qn v qn' : wf c ->
  find_field_qn (put_field_qn c qn v) qn' =
  if decide (removelast qn = removelast qn' /\ qname_last qn = qname_last qn')
  then Some (TxField (qname_last qn) v) else find_field_qn c qn'.
Proof. intros Hc. apply (find_at_buid_tree (removelast qn) (qname_last qn) v c); done. Qed.

(** The indexes stay exact under name-preserving writes, whatever is below. *)
Lemma indexed_put_field c n v : indexed c -> indexed (put_field c n v).
Proof.
  intros Hc. unfold put_field. destruct (m_field_map c !! n) as [i|] eqn:Hi.
  - apply indexed_alter_item; [done|]. intros it Hit.
    destruct (idx_field c Hc _ _ Hi) as (f & Hf & Hn). rewrite Hit in Hf. injection Hf as ->. simpl. done.
  - by apply indexed_add_internally.
Qed.

Lemma indexed_put_child_with c n g : indexed c -> (forall d, m_name (g d) = m_name d) ->
  indexed (put_child_with c n g).
Proof.
  intros Hc Hg. unfold put_child_with. destruct (m_child_map c !! n) as [i|] eqn:Hi.
  - apply indexed_alter_item; [done|]. intros [f|d] Hit; [done|]. simpl. by rewrite Hg.
  - apply indexed_add_internally; [done|]. simpl. by rewrite Hg.
Qed.

(** ** Rebuilding a container from its items *)

Definition rebuild (name : string) (l : list txItem) : txContainer :=
  foldl (fun acc it => add_internally it acc) (new_container name) l.

Definition same_key_dec : RelDecision same_key.
Proof. intros [f|d] [g|e]; simpl; apply _. Defined.

(** No two items of [l] have the same kind and the same name. *)
Definition uniq_items (l : list txItem) : Prop :=
  forall i j a b, l !! i = Some a -> l !! j = Some b -> same_key a b -> i = j.

Lemma same_key_refl a : same_key a a.
Proof. by destruct a. Qed.
Lemma same_key_sym a b : same_key a b -> same_key b a.
Proof. destruct a, b; simpl; congruence. Qed.

Lemma rebuild_snoc n l it : rebuild n (l ++ [it]) = add_internally it (rebuild n l).
Proof. unfold rebuild. by rewrite foldl_app. Qed.

Lemma m_items_rebuild n l : m_items (rebuild n l) = l.
Proof.
  induction l as [|it l IH] using rev_ind; [done|].
  by rewrite rebuild_snoc, m_items_add_internally, IH.
Qed.
Lemma m_name_rebuild n l : m_name (rebuild n l) = n.
Proof.
  induction l as [|it l IH] using rev_ind; [done|].
  by rewrite rebuild_snoc, m_name_add_internally, IH.
Qed.

Lemma uniq_items_snoc l it :
  uniq_items (l ++ [it]) <-> uniq_items l /\ Forall (fun a => ~ same_key a it) l.
Proof.
  split.
  - intros Hu. split.
    + intros i j a b Ha Hb. apply Hu; apply lookup_snoc_Some; by left.
    + apply Forall_lookup. intros i a Ha Hk.
      assert (i = length l) as -> by
        (eapply Hu; [apply lookup_snoc_Some; by left|apply lookup_snoc_Some; by right|done]).
      apply lookup_lt_Some in Ha. lia.
  - intros [Hu Hall] i j a b. rewrite !lookup_snoc_Some, Forall_lookup in *.
    intros [Ha|[-> ->]] [Hb|[-> ->]] Hk; [by eapply Hu|by destruct (Hall _ _ Ha)| |done].
    by destruct (Hall _ _ Hb); apply same_key_sym.
Qed.

Lemma fresh_in_iff it c : indexed c ->
  fresh_in it c <-> Forall (fun a => ~ same_key a it) (m_items c).
Proof.
  intros Hc. rewrite Forall_lookup. destruct it as [f|d]; simpl; split.
  - intros Hn i [g|] Hg Hk; [|done]. simpl in Hk. apply (idx_field_complete c Hc) in Hg. congruence.
  - intros Hall. destruct (m_field_map c !! f_name f) as [i|] eqn:Hi; [|done].
    destruct (idx_field c Hc _ _ Hi) as (g & Hg & Hk). by destruct (Hall _ _ Hg).
  - intros Hn i [|g] Hg Hk; [done|]. simpl in Hk. apply (idx_child_complete c Hc) in Hg. congruence.
  - intros Hall. destruct (m_child_map c !! m_name d) as [i|] eqn:Hi; [|done].
    destruct (idx_child c Hc _ _ Hi) as (g & Hg & Hk). by destruct (Hall _ _ Hg).
Qed.

Lemma indexed_rebuild n l : uniq_items l -> indexed (rebuild n l).
Proof.
  induction l as [|it l IH] using rev_ind; intros Hu; [apply wf_new_container|].
  apply uniq_items_snoc in Hu as [Hu Hall]. rewrite rebuild_snoc.
  apply indexed_add_internally; [by apply IH|].
  apply fresh_in_iff; [by apply IH|]. by rewrite m_items_rebuild.
Qed.

Lemma indexed_uniq c : indexed c -> uniq_items (m_items c).
Proof.
  intros Hc i j [f|d] [g|e] Ha Hb Hk; simpl in Hk; try done.
  - apply (idx_field_complete c Hc) in Ha, Hb. congruence.
  - apply (idx_child_complete c Hc) in Ha, Hb. congruence.
Qed.

Lemma indexed_maps_unique c d : indexed c -> indexed d -> m_items c = m_items d ->
  m_field_map c = m_field_map d /\ m_child_map c = m_child_map d.
Proof.
  intros Hc Hd Hi. split; apply map_eq; intros k; apply option_eq; intros i; split; intros Hl.
  - apply (idx_field c Hc) in Hl as (f & Hf & <-). rewrite Hi in Hf. by apply idx_field_complete.
  - apply (idx_field d Hd) in Hl as (f & Hf & <-). rewrite <-Hi in Hf. by apply idx_field_complete.
  - apply (idx_child c Hc) in Hl as (f & Hf & <-). rewrite Hi in Hf. by apply idx_child_complete.
  - apply (idx_child d Hd) in Hl as (f & Hf & <-). rewrite <-Hi in Hf. by apply idx_child_complete.
Qed.

Lemma indexed_rebuild_id c : indexed c -> rebuild (m_name c) (m_items c) = c.
Proof.
  intros Hc. pose proof (indexed_rebuild (m_name c) _ (indexed_uniq c Hc)) as Hr.
  destruct (indexed_maps_unique _ _ Hr Hc (m_items_rebuild _ _)) as [H1 H2].
  by apply txContainer_eq; [apply m_name_rebuild|apply m_items_rebuild| |].
Qed.

(** ** Copies *)

Lemma clone_rebuild c : clone c = rebuild (m_name c) (map clone_item (m_items c)).
Proof. by destruct c. Qed.
Lemma assign_clone this rhs : assign this rhs = clone rhs.
Proof. by rewrite clone_rebuild. Qed.

Lemma clone_item_wf c i it : wf c -> m_items c !! i = Some it ->
  item_all (fun d => wf d -> clone d = d) it -> clone_item it = it.
Proof.
  intros Hc Hi. destruct it as [f|d]; [done|]. intros Hd. simpl in *. f_equal.
  apply Hd. by eapply wf_child.
Qed.

(** A copy of a well-formed container is that container. *)
Lemma clone_wf c : wf c -> clone c = c.
Proof.
  induction c as [n items fm cm IH] using txContainer_ind. intros Hc.
  rewrite clone_rebuild. cbn [m_name m_items].
  assert (map clone_item items = items) as ->.
  { apply list_eq. intros i. rewrite list_lookup_fmap.
    destruct (items !! i) as [it|] eqn:Hi; [|done]. simpl. f_equal.
    eapply (clone_item_wf (TxContainer n items fm cm)); [done|done|].
    by eapply (Forall_lookup_1 _ _ _ _ IH). }
  apply (indexed_rebuild_id (TxContainer n items fm cm)). auto with exio.
Qed.

(** ** Merging *)

Lemma merge_foldl this src : merge this src = foldl merge_item this (m_items src).
Proof.
  destruct src as [n items fm cm]. simpl. revert this.
  induction items as [|i items IH]; intros this; simpl; [done|]. apply IH.
Qed.

(** Merging into an empty container of the same name copies. *)
Lemma foldl_merge_new n l : uniq_items l -> Forall (item_all wf) l ->
  foldl merge_item (new_container n) l = rebuild n l.
Proof.
  induction l as [|it l IH] using rev_ind; intros Hu Hw; [done|].
  apply uniq_items_snoc in Hu as [Hu Hall]. apply Forall_app in Hw as [Hw [Hit _]%Forall_cons].
  rewrite foldl_app, rebuild_snoc, IH by done. simpl.
  assert (fresh_in it (rebuild n l)) as Hf.
  { apply fresh_in_iff; [by apply indexed_rebuild|]. by rewrite m_items_rebuild. }
  destruct it as [[k v]|d]; simpl in *.
  - unfold put_field. by rewrite Hf.
  - rewrite Hf. unfold put_child_copy, put_child_copy_with. rewrite Hf. simpl.
    by rewrite clone_wf.
Qed.

Lemma merge_new d : wf d -> merge (new_container (m_name d)) d = d.
Proof.
  intros Hd. rewrite merge_foldl, foldl_merge_new; [apply indexed_rebuild_id; auto with exio
    |apply indexed_uniq; auto with exio|].
  apply Forall_lookup. intros i [f|e] Hi; [done|]. by eapply wf_child.
Qed.

Lemma merge_item_put this it : item_all wf it ->
  merge_item this it =
  match it with
  | ItemField f => put_field this (f_name f) (f_value f)
  | ItemContainer d => put_child_with this (m_name d) (fun c => merge c d)
  end.
Proof.
  destruct it as [f|d]; [done|]. intros Hd. unfold put_child_with.
  change (merge_item this (ItemContainer d)) with
    (match m_child_map this !! m_name d with
     | Some pos => alter_child pos (fun c => merge c d) this
     | None => put_child_copy this d end).
  destruct (m_child_map this !! m_name d) as [i|] eqn:Hi; [done|].
  unfold put_child_copy, put_child_copy_with. rewrite Hi. simpl.
  by rewrite clone_wf, merge_new.
Qed.

Lemma wf_merge_items l : Forall (item_all (fun d => wf d -> wf_update (fun c => merge c d))) l ->
  Forall (item_all wf) l -> wf_update (fun c => foldl merge_item c l).
Proof.
  intros HP Hw. induction l as [|it l IH] using rev_ind; [by intros c|].
  apply Forall_app in HP as [HP [HPit _]%Forall_cons], Hw as [Hw [Hit _]%Forall_cons].
  intros c Hc. rewrite foldl_app. simpl. rewrite merge_item_put by done.
  destruct (IH HP Hw c Hc) as [Hf Hn]. rewrite <-Hn.
  destruct it as [f|d]; [by apply wf_update_put_field|].
  by apply (wf_update_put_child_with (m_name d) (fun c => merge c d)); [apply HPit|].
Qed.

Lemma Forall_items_wf c : wf c -> Forall (item_all wf) (m_items c).
Proof.
  intros Hc. apply Forall_lookup. intros i [f|d] Hi; [done|]. by eapply wf_child.
Qed.

(** Merging keeps containers well formed. *)
Lemma wf_update_merge d : wf d -> wf_update (fun c => merge c d).
Proof.
  induction d as [n items fm cm IH] using txContainer_ind. intros Hd c Hc. rewrite merge_foldl.
  apply wf_merge_items; [done|by apply Forall_items_wf|done].
Qed.

Lemma wf_merge a b : wf a -> wf b -> wf (merge a b).
Proof. intros Ha Hb. by apply wf_update_merge. Qed.

Lemma foldl_merge_lookup a l : wf a -> uniq_items l -> Forall (item_all wf) l ->
  let m := foldl merge_item a l in
  (forall f, ItemField f ∈ l -> find_field m (f_name f) = Some f) /\
  (forall k, (forall f, ItemField f ∈ l -> f_name f <> k) -> find_field m k = find_field a k) /\
  (forall d, ItemContainer d ∈ l -> find_child m (m_name d) =
     Some (merge (default (new_container (m_name d)) (find_child a (m_name d))) d)) /\
  (forall k, (forall d, ItemContainer d ∈ l -> m_name d <> k) -> find_child m k = find_child a k).
Proof.
  intros Ha. induction l as [|it l IH] using rev_ind; intros Hu Hw.
  { simpl. repeat split; intros *; rewrite ?elem_of_nil; done. }
  apply uniq_items_snoc in Hu as [Hu Hall]. apply Forall_app in Hw as [Hw [Hit _]%Forall_cons].
  destruct (IH Hu Hw) as (IH1 & IH2 & IH3 & IH4). cbv zeta.
  rewrite foldl_app. cbn [foldl]. rewrite merge_item_put by done.
  set (m := foldl merge_item a l) in *.
  assert (wf m) as Hm.
  { apply wf_merge_items; [|done|done]. eapply Forall_impl; [exact Hw|].
    intros [f|d]; [done|]. simpl. intros _. apply wf_update_merge. }
  rewrite Forall_forall in Hall. destruct it as [f|d].
  - repeat split; intros *; setoid_rewrite elem_of_app; setoid_rewrite list_elem_of_singleton.
    + rewrite find_field_put_field by auto with exio. intros [Hf|[= ->]].
      * rewrite decide_False; [by apply IH1|]. intros He. by apply (Hall _ Hf).
      * rewrite decide_True by done. by destruct f.
    + intros Hk. rewrite find_field_put_field by auto with exio.
      rewrite decide_False by (apply Hk; by right). apply IH2. intros g Hg. apply Hk. by left.
    + rewrite find_child_put_field by auto with exio. intros [Hf|[=]]. by apply IH3.
    + intros Hk. rewrite find_child_put_field by auto with exio. apply IH4. intros g Hg.
      apply Hk. by left.
  - pose proof (wf_update_merge d Hit) as Hmd.
    assert (m_name (merge (new_container (m_name d)) d) = m_name d) as Hnm
      by (destruct (Hmd (new_container (m_name d))); auto with exio).
    repeat split; intros *; setoid_rewrite elem_of_app; setoid_rewrite list_elem_of_singleton.
    + rewrite find_field_put_child_with by auto with exio. intros [Hf|[=]]. by apply IH1.
    + intros Hk. rewrite find_field_put_child_with by auto with exio. apply IH2. intros g Hg.
      apply Hk. by left.
    + rewrite find_child_put_child_with by auto with exio. intros [Hf|[= ->]].
      * rewrite decide_False; [by apply IH3|]. intros He. by apply (Hall _ Hf).
      * rewrite decide_True by done. do 3 f_equal. apply IH4. intros g Hg He. by apply (Hall _ Hg).
    + intros Hk. rewrite find_child_put_child_with by auto with exio.
      rewrite decide_False by (apply Hk; by right). apply IH4. intros g Hg. apply Hk. by left.
Qed.

Lemma elem_field c f : indexed c ->
  ItemField f ∈ m_items c <-> find_field c (f_name f) = Some f.
Proof.
  intros Hc. rewrite find_field_Some, list_elem_of_lookup by done. split.
  - intros [i Hi]. exists i. split; [by apply idx_field_complete|done].
  - intros (i & _ & Hi). by exists i.
Qed.
Lemma elem_child c d : indexed c ->
  ItemContainer d ∈ m_items c <-> find_child c (m_name d) = Some d.
Proof.
  intros Hc. rewrite find_child_Some, list_elem_of_lookup by done. split.
  - intros [i Hi]. exists i. split; [by apply idx_child_complete|done].
  - intros (i & _ & Hi). by exists i.
Qed.

(** The value of a field after a merge is the source's where it has one; a
    child the source has is the merge of the two children (a missing one
    counting as empty); everything else is untouched. *)
Lemma merge_lookup a b k : wf a -> wf b ->
  find_field (merge a b) k =
    match find_field b k with Some f => Some f | None => find_field a k end /\
  find_child (merge a b) k =
    match find_child b k with
    | Some d => Some (merge (default (new_container k) (find_child a k)) d)
    | None => find_child a k
    end.
Proof.
  intros Ha Hb. rewrite merge_foldl. pose proof (wf_indexed _ Hb) as Hib.
  destruct (foldl_merge_lookup a (m_items b) Ha) as (H1 & H2 & H3 & H4);
    [by apply indexed_uniq|by apply Forall_items_wf|]. split.
  - destruct (find_field b k) as [f|] eqn:Hf.
    + pose proof (find_field_name _ _ _ Hib Hf) as <-. by apply H1, elem_field.
    + apply H2. intros f Hin <-. apply elem_field in Hin; [|done]. congruence.
  - destruct (find_child b k) as [d|] eqn:Hd.
    + pose proof (find_child_name _ _ _ Hib Hd) as <-. by apply H3, elem_child.
    + apply H4. intros d Hin <-. apply elem_child in Hin; [|done]. congruence.
Qed.

Lemma alter_item_id i g c : (forall it, m_items c !! i = Some it -> g it = it) -> alter_item i g c = c.
Proof.
  intros Hg. apply txContainer_eq; [done| |done|done]. apply list_eq. intros j.
  rewrite lookup_alter_item. case_decide; [subst j|done].
  destruct (m_items c !! i) as [it|] eqn:Hi; [|done]. simpl. by rewrite Hg.
Qed.

Lemma put_field_id c f : indexed c -> find_field c (f_name f) = Some f ->
  put_field c (f_name f) (f_value f) = c.
Proof.
  intros Hc (i & Hi & Hf)%find_field_Some; [|done]. unfold put_field. rewrite Hi.
  apply alter_item_id. rewrite Hf. intros ? [= <-]. by destruct f.
Qed.

Lemma put_child_with_id c n d g : indexed c -> find_child c n = Some d -> g d = d ->
  put_child_with c n g = c.
Proof.
  intros Hc (i & Hi & Hf)%find_child_Some Hg; [|done]. unfold put_child_with. rewrite Hi.
  apply alter_item_id. rewrite Hf. intros ? [= <-]. by rewrite Hg.
Qed.

Lemma foldl_fixed {A B} (f : A -> B -> A) a l : Forall (fun b => f a b = a) l -> foldl f a l = a.
Proof. induction 1 as [|b l Hb Hl IH]; simpl; [done|]. by rewrite Hb. Qed.

(** Merging the same source twice is merging it once. *)
Lemma merge_twice a b : wf a -> wf b -> merge (merge a b) b = merge a b.
Proof.
  revert a. induction b as [n items fm cm IH] using txContainer_ind. intros a Ha Hb.
  pose proof (wf_indexed _ Hb) as Hib. pose proof (wf_merge a _ Ha Hb) as Hm.
  rewrite (merge_foldl (merge a _)). apply foldl_fixed. apply Forall_lookup.
  intros i it Hi. assert (it ∈ m_items (TxContainer n items fm cm)) as Hin
    by (by eapply list_elem_of_lookup_2).
  rewrite merge_item_put by (by eapply (Forall_lookup_1 _ _ _ _ (Forall_items_wf _ Hb))).
  destruct it as [f|d].
  - apply put_field_id; [auto with exio|]. apply elem_field in Hin; [|done].
    destruct (merge_lookup a (TxContainer n items fm cm) (f_name f) Ha Hb) as [-> _].
    by rewrite Hin.
  - apply elem_child in Hin as Hfd; [|done].
    destruct (merge_lookup a (TxContainer n items fm cm) (m_name d) Ha Hb) as [_ Hl].
    rewrite Hfd in Hl. eapply put_child_with_id; [auto with exio|exact Hl|].
    assert (item_all (fun b => forall a, wf a -> wf b -> merge (merge a b) b = merge a b)
      (ItemContainer d)) as Hd by (by eapply (Forall_lookup_1 _ _ _ _ IH)).
    apply Hd; [|by apply (find_child_wf _ _ _ Hb Hfd)].
    destruct (find_child a (m_name d)) eqn:Ed; [by apply (find_child_wf _ _ _ Ha Ed)|apply wf_new_container].
Qed.

(** ** Qualified names *)

Lemma qname_to_string_join q : str (qname_to_string q) = join "." q.
Proof.
  induction q as [|p [|p' q] IH]; [done|done|].
  change (qname_to_string (p :: p' :: q)) with (p +:+ "." +:+ qname_to_string (p' :: q)).
  rewrite !str_app, IH. done.
Qed.

(** ** The formatter *)

(** The indentation text agrees with the depth. *)
Definition coherent (f : MessageFormatter) : Prop :=
  m_inline f = true \/ m_indent_str f = spaces (2 * m_depth f).

Lemma indent_decr_incr f : coherent f -> indent_decr (indent_incr f) = f.
Proof.
  unfold indent_decr, indent_incr. destruct f as [d i [|]]; simpl; [done|].
  intros [?|Hi]; [done|]. simpl in Hi. rewrite Z.add_simpl_r. by rewrite Hi.
Qed.

Lemma coherent_incr f : coherent f -> coherent (indent_incr f).
Proof. unfold coherent, indent_incr. destruct f as [d i [|]]; simpl; [by left|by right]. Qed.

Lemma format_contents_restores c f : coherent f -> (format_contents f c).1 = f.
Proof.
  revert f. induction c as [n items fm cm IH] using txContainer_ind. intros f Hf.
  cbn [format_contents].
  match goal with |- context [?l (indent_incr f) true items] => set (loop := l) end.
  assert (forall g first, coherent g -> (loop g first items).1 = g) as Hloop.
  { clear -IH. induction IH as [|it items Hit _ IHl]; intros g first Hg; [done|].
    cbn [loop]. fold loop.
    assert ((format_item g it).1 = g) as Hi.
    { destruct it as [fd|c]; [done|]. cbn [format_item]. specialize (Hit g Hg).
      by destruct (format_contents g c) as [g' s]. }
    destruct (format_item g it) as [g1 s1]. simpl in Hi. subst g1.
    specialize (IHl g false Hg). by destruct (loop g false items) as [g2 s2]. }
  specialize (Hloop (indent_incr f) true (coherent_incr f Hf)).
  destruct (loop (indent_incr f) true items) as [g s]. simpl in *. subst g. by apply indent_decr_incr.
Qed.

(** * Properties *)

(** C37. Every operation that builds or changes a container keeps it well
    formed: the two name indexes stay exact and no name is duplicated. *)
Theorem container_operations_wf (c d : txContainer) (n v : string) (q : qname) :
  wf c -> wf d ->
  wf (put_field c n v) /\ wf (put_child c n) /\ wf (put_child_copy c d) /\
  wf (merge c d) /\ wf (clone c) /\ wf (assign c d) /\ wf (clear c) /\
  wf (put_field_qn c q v) /\ wf (put_child_qn_with c q (fun x => put_field x n v)).
Proof.
  intros Hc Hd. rewrite assign_clone, !clone_wf by done.
  split; [by apply wf_put_field|]. split; [apply (wf_put_child_with c n id Hc wf_update_id)|].
  split.
  { unfold put_child_copy, put_child_copy_with. destruct (m_child_map c !! m_name d) as [i|] eqn:Hi.
    - apply wf_alter_child; [done|]. intros e He. rewrite assign_clone, clone_wf by done.
      split; [done|]. destruct (idx_child c (wf_indexed _ Hc) _ _ Hi) as (e' & He' & Hn).
      rewrite He in He'. injection He' as <-. done.
    - apply wf_add_internally; rewrite ?clone_wf by done; done. }
  split; [by apply wf_merge|]. split; [done|]. split; [done|]. split; [apply wf_new_container|].
  split; [by apply wf_put_field_qn|]. unfold put_child_qn_with.
  apply (wf_update_buid_tree (removelast q)); [|done].
  apply (wf_update_put_child_with _ (fun x => put_field x n v)), wf_update_put_field.
Qed.

(** A message built by the operations, used in the witnesses below. *)
Definition sample_root : txContainer :=
  put_field_qn (put_field_qn (new_container "request") ["head"; "command"] "help")
    ["body"; "args_COUNT"] "0".

Lemma sample_root_wf : wf sample_root.
Proof. apply wf_put_field_qn, wf_put_field_qn, wf_new_container. Qed.

Lemma container_operations_wf_witness :
  wf (merge sample_root (put_field sample_root "x" "y")).
Proof.
  apply (container_operations_wf sample_root (put_field sample_root "x" "y") "x" "y" ["head"]).
  - apply sample_root_wf.
  - apply wf_put_field, sample_root_wf.
Defined.

(** A builder gives the parts in order, and one part more is looked up in what
    the others name. *)
Lemma qname_builder_parts parts : qname_builder parts = parts.
Proof.
  unfold qname_builder, qname_push. enough (forall q, foldl (fun q p => q ++ [p]) q parts = q ++ parts) as H by apply H.
  induction parts as [|p parts IH]; intros q; cbn; [by rewrite app_nil_r|]. by rewrite IH, <-app_assoc.
Qed.

Lemma find_field_qn_push c q p : find_field_qn c (qname_push p q) = (d ← find_tree_const c q; find_field d p).
Proof. unfold find_field_qn, qname_push, qname_last. by rewrite removelast_last, last_last. Qed.

(** [Converters]. *)
Definition fromBool (b : bool) : string := if b then "true" else "false".
Definition toBool (b : string) : bool := bool_decide (b = "true") || bool_decide (b = "TRUE").

Lemma toBool_fromBool b : toBool (fromBool b) = b.
Proof. by destruct b. Qed.

(** Writing a field under a qualified name and reading any qualified name:
    the written one yields the new value, creating the containers on the way,
    every other one yields what it did before. *)
Theorem qname_put_then_find (c : txContainer) (qn qn' : qname) (v : string) :
  wf c -> qn <> [] -> qn' <> [] ->
  find_field_qn (put_field_qn c qn v) qn' =
  if decide (qn = qn') then Some (TxField (qname_last qn) v) else find_field_qn c qn'.
Proof.
  intros Hc Hq Hq'. rewrite find_field_qn_put_field_qn by done.
  assert (removelast qn = removelast qn' /\ qname_last qn = qname_last qn' <-> qn = qn') as Hiff.
  { split; [|by intros ->]. intros [H1 H2]. unfold qname_last in H2.
    by rewrite (app_removelast_last EmptyString Hq), (app_removelast_last EmptyString Hq'), H1, H2. }
  destruct (decide (qn = qn')) as [He|He]; [rewrite decide_True by (by apply Hiff)|
    rewrite decide_False by (by rewrite Hiff)]; done.
Qed.

Lemma qname_put_then_find_witness :
  find_field_qn (put_field_qn sample_root ["head"; "user"] "bob") ["head"; "user"] =
    Some (TxField "user" "bob").
Proof.
  rewrite (qname_put_then_find sample_root ["head"; "user"] ["head"; "user"] "bob");
    [vm_compute; reflexivity|apply sample_root_wf|done|done].
Defined.

(** After [merge], a field has the source's value where the source has
    one; a child the source has is the merge of both children; the rest is
    unchanged; and merging the same source again changes nothing. *)
Theorem merge_combines (a b : txContainer) (k : string) : wf a -> wf b ->
  find_field (merge a b) k =
    match find_field b k with Some f => Some f | None => find_field a k end /\
  find_child (merge a b) k =
    match find_child b k with
    | Some d => Some (merge (default (new_container k) (find_child a k)) d)
    | None => find_child a k
    end /\
  merge (merge a b) b = merge a b.
Proof.
  intros Ha Hb. destruct (merge_lookup a b k Ha Hb) as [H1 H2].
  split; [done|]. split; [done|]. by apply merge_twice.
Qed.

Lemma merge_combines_witness :
  find_child (merge (new_container "x") sample_root) "head" = find_child sample_root "head".
Proof.
  destruct (merge_combines (new_container "x") sample_root "head") as (_ & H & _).
  - apply wf_new_container.
  - apply sample_root_wf.
  - rewrite H. vm_compute. reflexivity.
Defined.

(** A qualified name of non-empty parts without dots is recovered from
    its printed form. *)
Theorem qname_parse_print (q : qname) : q <> [] ->
  Forall (fun p => p <> EmptyString /\ ("."%char ∉ str p) /\ ("000"%char ∉ str p)) q ->
  qname_parse (Some (qname_to_string q)) = q.
Proof.
  intros Hq Hall. unfold qname_parse, tokenize.
  assert (Forall (fun p => "."%char ∉ str p) q) as Hdot by (eapply Forall_impl; [done|]; naive_solver).
  assert ("000"%char ∉ join "." q) as Hnul.
  { intros Hin. apply join_app_elem in Hin as [?|(t & Ht & Hin)]; [done|].
    rewrite Forall_forall in Hall. by apply (Hall t Ht). }
  rewrite qname_to_string_join, c_str_no_nul by done.
  assert (join "." q <> []) as Hne.
  { destruct q as [|p [|p' q]]; [done| |].
    - apply Forall_cons in Hall as [[Hp _] _]. intros He. by apply (str_inj p EmptyString) in He.
    - intros He. apply (f_equal length) in He. cbn [join] in He. rewrite length_app in He. simpl in He. lia. }
  rewrite bool_decide_false by done. rewrite tokenize_loop_filter, tokenize_loop_of_join by (done || lia).
  clear -Hall. induction Hall as [|p q [Hp _] Hall IH]; [done|].
  rewrite filter_cons_True by done. by rewrite IH.
Qed.

Lemma qname_parse_print_witness :
  qname_parse (Some (qname_to_string ["head"; "command"])) = ["head"; "command"].
Proof.
  apply qname_parse_print; [done|].
  repeat constructor; try discriminate; decide_now.
Defined.

(** A formatter is not changed by use: a fresh one, after printing any
    message, prints the next message as a fresh one would. *)
Theorem formatter_reusable (inl : bool) (m m' : txMessage) :
  (format (format (new_formatter inl) m).1 m').2 = (format (new_formatter inl) m').2.
Proof.
  assert (forall m, (format (new_formatter inl) m).1 = new_formatter inl) as Hf.
  { intros m0. unfold format. simpl.
    pose proof (format_contents_restores (m_root m0) (new_formatter inl)) as H.
    change (Formatter 0 EmptyString inl) with (new_formatter inl).
    destruct (format_contents (new_formatter inl) (m_root m0)) as [f s]. simpl in *. apply H.
    right. done. }
  by rewrite Hf.
Qed.
