(* ===== verification/MsgIDs.v ===== *)
(** The identifiers of [MsgIDs.h]: names of message types and fields, the
    qualified names built from them, and the error codes. *)

From S2P Require Import Prelude TxContainer.

Module id.

Definition admin_prefix : string := "admin_".
Definition admincount : string := "admincount".
Definition adminset : string := "adminset".
Definition alert_type : string := "alert_type".
Definition alert_id : string := "alert_id".
Definition args_COUNT : string := "args_COUNT".
Definition args_prefix : string := "args_".
Definition autoclose : string := "autoclose".
Definition body : string := "body".
Definition colname : string := "colname".
Definition columns : string := "columns".
Definition command : string := "command".
Definition dest : string := "dest".
Definition error : string := "error".
Definition head : string := "head".
Definition longhelp : string := "long".
Definition more : string := "more".
Definition msg_prefix : string := "msg_".
Definition msgcount : string := "msgcount".
Definition msgtype : string := "msgtype".
Definition name : string := "name".
Definition noautosub : string := "noautosub".
Definition pending : string := "pending".
Definition reqseqno : string := "reqseqno".
Definition rescode : string := "rescode".
Definition respdata : string := "respdata".
Definition resptype : string := "resptype".
Definition restext : string := "restext".
Definition row_key : string := "RowKey".
Definition row_last : string := "RowLastUpdated".
Definition row_prefix : string := "row_".
Definition rows : string := "rows".
Definition scalarlist : string := "scalarlist".
Definition serviceid : string := "serviceid".
Definition severity : string := "severity".
Definition shorthelp : string := "short".
Definition snapi : string := "snapi".
Definition snapn : string := "snapn".
Definition source : string := "source".
Definition source_type : string := "source_type".
Definition synthetic : string := "synthetic".
Definition table : string := "table".
Definition tablename : string := "tablename".
Definition testrequest : string := "testrequest".
Definition text : string := "text".
Definition user : string := "user".
Definition value : string := "value".
Definition True_ : string := "1".
Definition False_ : string := "0".
Definition admindescr : string := "admindescr".
Definition msg_alert : string := "alert".
Definition msg_bye : string := "bye".
Definition msg_logon : string := "logon".
Definition msg_request : string := "request".
Definition msg_response : string := "response".
Definition tableclear : string := "tableclear".
Definition tabledescr : string := "tabledescr".
Definition tableupdate : string := "tableupdate".
Definition tablerowdel : string := "tablerowdel".
Definition heartbeat : string := "heartbeat".
Definition QN_body_respdata : qname := [body; respdata].
Definition QN_body_resptype : qname := [body; resptype].
Definition QN_body_rows : qname := [body; rows].
Definition QN_columns : qname := [body; columns].
Definition QN_command : qname := [head; command].
Definition QN_head_reqseqno : qname := [head; reqseqno].
Definition QN_head_snapi : qname := [head; snapi].
Definition QN_head_snapn : qname := [head; snapn].
Definition QN_head_user : qname := [head; user].
Definition QN_more : qname := [head; more].
Definition QN_msgtype : qname := [head; msgtype].
Definition QN_noautosub : qname := [head; noautosub].
Definition QN_rescode : qname := [head; rescode].
Definition QN_restext : qname := [head; restext].
Definition QN_serviceid : qname := [head; serviceid].
Definition QN_tablename : qname := [head; tablename].
Definition QN_testrequest : qname := [head; testrequest].
Definition err_unknown : Z := 1%Z.
Definition err_admin_not_found : Z := 2%Z.
Definition err_no_table : Z := 3%Z.
Definition err_bad_command : Z := 4%Z.
Definition err_no_session : Z := 5%Z.

Definition error_code_str (e : Z) : string :=
  if (e =? err_unknown)%Z then "unknown"
  else if (e =? err_admin_not_found)%Z then "admin not found"
  else if (e =? err_no_table)%Z then "table not found"
  else if (e =? err_bad_command)%Z then "bad command"
  else if (e =? err_no_session)%Z then "no session"
  else "unknown error code".

End id.
