(* ===== verification/AdminCommand.v ===== *)
(** Requests, responses and commands: [AdminCommand.h] and [AdminCommand.cc],
    with the argument encoder of the [admin] tool ([add_arguments] of
    [admin.cc]) that produces the requests. *)

From S2P Require Import Prelude Decimal Utils TxContainer MsgIDs.

Local Open Scope Z_scope.

(** * Message content *)

(** [column_attr_style] and [column_attr_command] of the namespace [meta]. *)
Definition column_attr_style (style_name : string) : txContainer :=
  put_field (new_container "style") "style_name" style_name.

Definition column_attr_command (name : string) (args : gmap string string) : txContainer :=
  let container := put_field (new_container "command") "name" name in
  put_child_with container "args" (fun args_container =>
    foldl (fun c kv => put_field c kv.1 kv.2) args_container (map_iter args)).

Definition qn_pending : qname := [id.head; id.pending].

Definition set_pending (p : bool) (msg : txMessage) : txMessage :=
  on_root (fun r => put_field_qn r qn_pending (if p then id.True_ else id.False_)) msg.
Definition has_pending (msg : txMessage) : bool :=
  check_field_qn (m_root msg) qn_pending id.True_.
Definition add_rescode (e : Z) (msg : txMessage) : txMessage :=
  on_root (fun r => put_field_qn r id.QN_rescode (print_signed e)) msg.
Definition add_restext (s : string) (msg : txMessage) : txMessage :=
  on_root (fun r => put_field_qn r id.QN_restext s) msg.

Definition formatreply_string (value : string) (body : txContainer) : txContainer :=
  let body := put_field body id.resptype id.text in
  put_child_with body id.respdata (fun txcData => put_field txcData id.text value).

(** The rows of [formatreply_simplelist], numbered from [rowindex]. *)
Fixpoint simplelist_rows (column : string) (rowindex : Z) (values : list string)
    (tableupdate : txContainer) : txContainer :=
  match values with
  | [] => tableupdate
  | v :: values =>
      let buf := id.row_prefix +:+ print_unsigned rowindex in
      let tableupdate := put_child_with tableupdate buf (fun row =>
        put_field (put_field row id.row_key buf) column v) in
      simplelist_rows column (rowindex + 1) values tableupdate
  end.

Definition formatreply_simplelist (values : list string) (value_column_name : option string)
    (body : txContainer) : txContainer :=
  let body := put_field body id.resptype id.table in
  let body := put_field body id.synthetic id.scalarlist in
  let column := default id.value value_column_name in
  put_child_with body id.respdata (fun respdata =>
    let respdata := put_child (put_child respdata id.tabledescr) id.tableupdate in
    let respdata := put_child_with respdata id.tabledescr (fun tabledescr =>
      put_child_with tabledescr id.columns (fun columns =>
        let columns := put_field columns id.msgcount "1" in
        put_child_with columns (id.msg_prefix +:+ "0") (fun c => put_field c id.colname column))) in
    put_child_with respdata id.tableupdate (fun tableupdate =>
      simplelist_rows column 0 values
        (put_field tableupdate id.rows (print_unsigned (Z.of_nat (length values)))))).

(** * [TableBuilder]

    The builder holds references to two descendants of the body it was made
    from; here it holds the body and reaches them by their path. *)
Record TableBuilder := MkTableBuilder {
  tb_body : txContainer; m_row_count : Z; m_columns : list string }.

Definition qn_tabledescr : qname := [id.respdata; id.tabledescr].
Definition qn_tableupdate : qname := [id.respdata; id.tableupdate].

Definition new_table_builder (body : txContainer) : TableBuilder :=
  let body := put_child_qn_with body qn_tabledescr id in
  let body := put_child_qn_with body qn_tableupdate id in
  MkTableBuilder (put_field body id.resptype id.table) 0 [].

Fixpoint column_msgs (index : Z) (cols : list string) (columns : txContainer) : txContainer :=
  match cols with
  | [] => columns
  | col :: cols =>
      let columns := put_child_with columns (id.msg_prefix +:+ print_unsigned index)
                       (fun c => put_field c id.colname col) in
      column_msgs (index + 1) cols columns
  end.

Definition set_columns (cols : list string) (tb : TableBuilder) : TableBuilder :=
  let body := put_child_qn_with (tb_body tb) qn_tabledescr (fun tabledescr =>
    put_child_with tabledescr id.columns (fun columns =>
      let columns := clear columns in
      let columns := put_field columns id.msgcount (print_unsigned (Z.of_nat (length cols))) in
      column_msgs 0 cols columns)) in
  MkTableBuilder body (m_row_count tb) cols.

Fixpoint row_values (cols values : list string) (row : txContainer) : txContainer :=
  match cols, values with
  | col :: cols, v :: values => row_values cols values (put_field row col v)
  | _, _ => row
  end.

Definition add_row (rowkey : string) (values : list string) (tb : TableBuilder) : TableBuilder :=
  let count := size_t (m_row_count tb + 1) in
  let body := put_child_qn_with (tb_body tb) qn_tableupdate (fun tableupdate =>
    let tableupdate := put_field tableupdate id.rows (print_unsigned count) in
    put_child_with tableupdate (id.row_prefix +:+ print_unsigned (size_t (count - 1))) (fun row =>
      row_values (m_columns tb) values (put_field row id.row_key rowkey))) in
  MkTableBuilder body count (m_columns tb).

(** * [AdminRequest] *)

Record AdminRequest := MkAdminRequest {
  req_msg : txMessage; req_id : Z; req_args : list string;
  req_head : txContainer; req_body : txContainer; req_reqseqno : string }.

Definition arg_name (i : Z) : string := id.args_prefix +:+ print_unsigned i.

(** [for (size_t i = 0; i < argc; ++i)]: stops at the first missing argument. *)
Fixpoint collect_args (fuel : nat) (body : txContainer) (i argc : Z) : result (list string) :=
  if i <? argc then
    match fuel with
    | O => Throw out_of_fuel
    | S fuel =>
        match find_field body (arg_name i) with
        | None => Throw (runtime_error ("missing required field: " +:+ arg_name i))
        | Some f => rest ← collect_args fuel body (i + 1) argc; mret (f_value f :: rest)
        end
    end
  else Ok [].

(** The constructor with [init_args_ptrs]. *)
Definition make_request (msg : txMessage) (sid : Z) : result AdminRequest :=
  let msg := copy_message msg in
  let reqseqno := match find_field_qn (m_root msg) id.QN_head_reqseqno with
                  | Some f => f_value f
                  | None => EmptyString
                  end in
  match find_child (m_root msg) id.head, find_child (m_root msg) id.body with
  | None, _ => Throw (runtime_error ("missing required field: " +:+ id.head))
  | Some _, None => Throw (runtime_error ("missing required field: " +:+ id.body))
  | Some head, Some body =>
      args ← match find_field body id.args_COUNT with
             | Some f_argv =>
                 let argc := size_t (atoi (f_value f_argv)) in
                 collect_args (S (count_field body)) body 0 argc
             | None => Ok []
             end;
      mret (MkAdminRequest msg sid args head body reqseqno)
  end.

Definition find_user (r : AdminRequest) : option txField := find_field (req_head r) id.user.

(** [add_arguments] of [admin.cc]. *)
Fixpoint add_args_from (i : Z) (args : list string) (c : txContainer) : txContainer :=
  match args with
  | [] => c
  | a :: args => add_args_from (i + 1) args (put_field c ("args_" +:+ print_unsigned i) a)
  end.
Definition add_arguments (args : list string) (c : txContainer) : txContainer :=
  add_args_from 0 args (put_field c "args_COUNT" (print_unsigned (Z.of_nat (length args)))).

(** * [AdminResponse] *)

Record AdminResponse := MkAdminResponse { resp_send : bool; resp_msg : txMessage }.

Definition new_response (reqseqno : string) : AdminResponse :=
  let root := put_child (put_child (new_container id.msg_response) id.head) id.body in
  MkAdminResponse true (TxMessage (put_field_qn root id.QN_head_reqseqno reqseqno)).

(** Applying [g] to [resp.body()]. *)
Definition on_body (g : txContainer -> txContainer) (r : AdminResponse) : AdminResponse :=
  MkAdminResponse (resp_send r) (on_root (fun root => put_child_with root id.body g) (resp_msg r)).
Definition on_msg (g : txMessage -> txMessage) (r : AdminResponse) : AdminResponse :=
  MkAdminResponse (resp_send r) (g (resp_msg r)).

(** The copy constructor and [operator=]. *)
Definition copy_response (r : AdminResponse) : AdminResponse :=
  MkAdminResponse (resp_send r)
    (on_root (fun root => put_child (put_child root id.head) id.body) (copy_message (resp_msg r))).

Definition response_success (reqseqno s : string) (code : Z) : AdminResponse :=
  let resp := new_response reqseqno in
  let resp := on_msg (add_rescode code) resp in
  let resp := on_msg (set_pending false) resp in
  on_body (formatreply_string s) resp.

Definition response_error (reqseqno : string) (errorcode : Z) (errorstr : string) : AdminResponse :=
  let resp := new_response reqseqno in
  let resp := on_msg (add_rescode errorcode) resp in
  let resp := on_msg (set_pending false) resp in
  on_body (formatreply_string errorstr) resp.

Definition response_error_code (reqseqno : string) (errorcode : Z) : AdminResponse :=
  response_error reqseqno errorcode ("Admin failed, error code " +:+ print_signed errorcode).

(** * [AdminCommand]

    [Target] is the type of callbacks; a default-constructed command has
    none. *)
Record AdminCommand (Target : Type) := MkAdminCommand {
  ac_name : string; ac_shorthelp : string; ac_longhelp : string;
  ac_target : option Target; ac_attrs : gmap string string }.
Arguments MkAdminCommand {Target}.
Arguments ac_name {Target}.
Arguments ac_shorthelp {Target}.
Arguments ac_longhelp {Target}.
Arguments ac_target {Target}.
Arguments ac_attrs {Target}.

(** [AdminError(code)]. *)
Definition admin_error (code : Z) : exn := AdminError code (id.error_code_str code).

(** * The argument loop terminates *)

Lemma arg_name_inj i j : 0 <= i -> 0 <= j -> arg_name i = arg_name j -> i = j.
Proof.
  intros Hi Hj H. apply print_unsigned_inj; [done..|]. unfold arg_name in H.
  by apply (inj (String.app _)) in H.
Qed.

(** No more arguments are found than the body has fields. *)
Lemma args_found_le body n : (forall i, (i < n)%nat -> is_Some (find_field body (arg_name (Z.of_nat i)))) ->
  (n <= count_field body)%nat.
Proof.
  intros Hf. set (names := (fun i => arg_name (Z.of_nat i)) <$> seq 0 n).
  assert (NoDup names) as Hnd.
  { apply NoDup_fmap_2_strong; [|apply NoDup_seq]. intros x y _ _ He. apply arg_name_inj in He; lia. }
  assert (list_to_set names ⊆ (dom (m_field_map body) : gset string)) as Hsub.
  { intros k. rewrite elem_of_list_to_set, elem_of_dom. unfold names. rewrite list_elem_of_fmap.
    intros (i & -> & Hi%elem_of_seq). destruct (Hf i) as [f Hfi]; [lia|].
    unfold find_field in Hfi. by destruct (m_field_map body !! _). }
  apply subseteq_size in Hsub. rewrite size_list_to_set, size_dom in Hsub by done.
  unfold names in Hsub. by rewrite length_fmap, length_seq in Hsub.
Qed.

Lemma collect_args_fuel body argc fuel n :
  (forall i, (i < n)%nat -> is_Some (find_field body (arg_name (Z.of_nat i)))) ->
  (count_field body < n + fuel)%nat ->
  collect_args fuel body (Z.of_nat n) argc <> Throw out_of_fuel.
Proof.
  revert n. induction fuel as [|fuel IH]; intros n Hn Hf.
  { pose proof (args_found_le body n Hn). lia. }
  cbn [collect_args]. destruct (_ <? argc); [|done].
  destruct (find_field body (arg_name (Z.of_nat n))) as [f|] eqn:E; [|done].
  replace (Z.of_nat n + 1) with (Z.of_nat (S n)) by lia.
  assert (collect_args fuel body (Z.of_nat (S n)) argc <> Throw out_of_fuel) as Hr.
  { apply IH; [|lia]. intros i Hi. destruct (decide (i = n)) as [->|]; [by exists f|].
    apply Hn. lia. }
  destruct (collect_args fuel body _ argc) as [l|e]; [done|]. simpl. congruence.
Qed.

(** * Arguments survive the trip through a message *)

Lemma find_field_add_args i args c k : indexed c -> wf c ->
  (forall j, i <= j < i + Z.of_nat (length args) -> "args_" +:+ print_unsigned j <> k) ->
  find_field (add_args_from i args c) k = find_field c k.
Proof.
  revert i c. induction args as [|a args IH]; intros i c Hi Hc Hk; [done|]. cbn [add_args_from].
  rewrite IH; [|apply wf_indexed; by apply wf_put_field|by apply wf_put_field|].
  - rewrite find_field_put_field, decide_False; [done| |done]. apply Hk. simpl. lia.
  - intros j Hj. apply Hk. simpl. lia.
Qed.

Lemma wf_update_add_args i args : wf_update (add_args_from i args).
Proof.
  revert i. induction args as [|a args IH]; intros i; [apply wf_update_id|]. cbn [add_args_from].
  apply (wf_update_compose (add_args_from (i + 1) args)); [apply IH|apply wf_update_put_field].
Qed.

Lemma wf_update_add_arguments args : wf_update (add_arguments args).
Proof. apply (wf_update_compose (add_args_from 0 args)); [apply wf_update_add_args|apply wf_update_put_field]. Qed.

Lemma find_arg_add_args args i c n a : wf c -> 0 <= i -> args !! n = Some a ->
  exists f, find_field (add_args_from i args c) (arg_name (i + Z.of_nat n)) = Some f /\ f_value f = a.
Proof.
  revert i c n. induction args as [|b args IH]; intros i c n Hc Hi Hn; [done|]. cbn [add_args_from].
  destruct n as [|n]; simpl in Hn.
  - injection Hn as ->. rewrite find_field_add_args; [|apply wf_indexed; by apply wf_put_field|by apply wf_put_field|].
    + rewrite Z.add_0_r, find_field_put_field by auto with exio.
      rewrite decide_True by done. by eexists.
    + intros j Hj He. apply (arg_name_inj j (i + Z.of_nat 0)) in He; lia.
  - replace (i + Z.of_nat (S n)) with ((i + 1) + Z.of_nat n) by lia.
    apply IH; [by apply wf_put_field|lia|done].
Qed.

Lemma collect_args_all body args i fuel :
  (forall n a, args !! n = Some a ->
     exists f, find_field body (arg_name (i + Z.of_nat n)) = Some f /\ f_value f = a) ->
  (length args <= fuel)%nat -> collect_args fuel body i (i + Z.of_nat (length args)) = Ok args.
Proof.
  revert i fuel. induction args as [|a args IH]; intros i fuel Hf Hfuel.
  { destruct fuel; cbn [collect_args length]; destruct (Z.ltb_spec i (i + Z.of_nat 0)); by (lia || done). }
  destruct fuel as [|fuel]; [simpl in Hfuel; lia|]. cbn [collect_args].
  destruct (Z.ltb_spec i (i + Z.of_nat (length (a :: args)))); [|simpl in *; lia].
  destruct (Hf 0%nat a eq_refl) as (f & Hfi & Hv). rewrite Z.add_0_r in Hfi. rewrite Hfi.
  replace (i + Z.of_nat (length (a :: args))) with ((i + 1) + Z.of_nat (length args)) by (simpl; lia).
  rewrite IH; [simpl; by rewrite Hv| |simpl in Hfuel; lia].
  intros n b Hn. destruct (Hf (S n) b Hn) as (g & Hg & Hgv). exists g. split; [|done].
  by replace (i + 1 + Z.of_nat n) with (i + Z.of_nat (S n)) by lia.
Qed.

Lemma args_COUNT_not_arg j : 0 <= j -> "args_" +:+ print_unsigned j <> "args_COUNT".
Proof.
  intros Hj He. change "args_COUNT" with ("args_" +:+ "COUNT") in He.
  apply (inj (String.app _)) in He. apply (f_equal str) in He. unfold print_unsigned in He.
  rewrite str_unstr in He. pose proof (dec_digits j Hj) as Hd. rewrite He in Hd.
  apply Forall_cons in Hd as [Hd _]. done.
Qed.

Lemma body_args body args : wf body -> (Z.of_nat (length args) < 2 ^ 31) ->
  let b := add_arguments args body in
  match find_field b id.args_COUNT with
  | Some f_argv => collect_args (S (count_field b)) b 0 (size_t (atoi (f_value f_argv)))
  | None => Ok []
  end = Ok args.
Proof.
  intros Hb Hl b.
  assert (wf (put_field body "args_COUNT" (print_unsigned (Z.of_nat (length args))))) as Hw
    by (by apply wf_put_field).
  assert (find_field b id.args_COUNT = Some (TxField "args_COUNT" (print_unsigned (Z.of_nat (length args)))))
    as ->.
  { unfold b, add_arguments. rewrite find_field_add_args; [|by apply wf_indexed|done|].
    - rewrite find_field_put_field by auto with exio. by rewrite decide_True.
    - intros j Hj. apply args_COUNT_not_arg. lia. }
  cbn [f_value]. rewrite atoi_print, size_t_small by lia.
  assert (forall n a, args !! n = Some a ->
    exists f, find_field b (arg_name (0 + Z.of_nat n)) = Some f /\ f_value f = a) as Hall.
  { intros n a Hn. by apply find_arg_add_args. }
  apply (collect_args_all b args 0); [done|].
  pose proof (args_found_le b (length args)) as Hle.
  assert (length args <= count_field b)%nat; [|lia]. apply Hle. intros i Hi.
  destruct (lookup_lt_is_Some_2 args i Hi) as [a Ha]. destruct (Hall i a Ha) as (f & Hf & _).
  by exists f.
Qed.

(** A request whose body was filled by [add_arguments] yields exactly those
    arguments, and the body and session it was made from. *)
Lemma make_request_args (args : list string) (sid : Z) (msg : txMessage)
    (head body : txContainer) :
  wf (m_root msg) -> find_child (m_root msg) id.head = Some head ->
  find_child (m_root msg) id.body = Some (add_arguments args body) -> wf body ->
  Z.of_nat (length args) < 2 ^ 31 ->
  exists r, make_request msg sid = Ok r /\ req_args r = args /\
    req_body r = add_arguments args body /\ req_id r = sid.
Proof.
  intros Hw Hh Hb Hbody Hl. unfold make_request, copy_message. cbn [m_root].
  rewrite clone_wf by done. rewrite Hh, Hb.
  pose proof (body_args body args Hbody Hl) as Ha. cbv zeta in Ha.
  destruct (find_field (add_arguments args body) id.args_COUNT) as [f|].
  - rewrite Ha. eexists. split; [reflexivity|]. done.
  - injection Ha as <-. eexists. split; [reflexivity|]. done.
Qed.

(** The constructor throws nothing but its own errors. *)
Lemma make_request_throws msg sid e : make_request msg sid = Throw e -> exists what, e = runtime_error what.
Proof.
  unfold make_request. destruct (find_child _ id.head); [|naive_solver].
  destruct (find_child _ id.body) as [body|]; [|naive_solver].
  destruct (find_field body id.args_COUNT) as [f|]; [|done].
  assert (collect_args (S (count_field body)) body 0 (size_t (atoi (f_value f))) <> Throw out_of_fuel) as Hr.
  { apply (collect_args_fuel body (size_t (atoi (f_value f))) (S (count_field body)) 0); [intros; lia|lia]. }
  assert (forall fuel i argc e, collect_args fuel body i argc = Throw e ->
    e = out_of_fuel \/ exists what, e = runtime_error what) as Ht.
  { clear. induction fuel as [|fuel IH]; intros i argc e; cbn [collect_args]; destruct (i <? argc); try done.
    - intros [= <-]. by left.
    - destruct (find_field body (arg_name i)); [|intros [= <-]; eauto].
      destruct (collect_args fuel body (i + 1) argc) eqn:E; [done|]. intros [= <-]. by eapply IH. }
  destruct (collect_args _ body 0 _) as [l|e'] eqn:E; [done|]. cbn [mbind result_bind]. intros [= ->].
  destruct (Ht _ _ _ _ E) as [->|]; [done|done].
Qed.

Lemma make_request_seqno msg sid r : wf (m_root msg) -> make_request msg sid = Ok r ->
  req_reqseqno r = match find_field_qn (m_root msg) id.QN_head_reqseqno with
                   | Some f => f_value f
                   | None => EmptyString
                   end.
Proof.
  intros Hw. unfold make_request, copy_message. cbn [m_root]. rewrite clone_wf by done.
  destruct (find_child _ id.head); [|done]. destruct (find_child _ id.body) as [body|]; [|done].
  intros E. inv_ok. unfold mret, result_ret in E. by injection E as <-.
Qed.

(** * Properties *)

(** Building a request always ends, for any message, even one whose
    argument count is negative and so becomes a huge unsigned number: the loop
    stops at the first argument the body does not hold. *)
Theorem make_request_terminates (msg : txMessage) (sid : Z) :
  make_request msg sid <> Throw out_of_fuel.
Proof. intros E. by apply make_request_throws in E as [what ?]. Qed.
