(* ===== verification/CommandObjects.v ===== *)
(** [AdminCommand] objects and the targets they own: the constructors, the
    copy constructor, [operator=] and the destructor of [AdminCommand.cc] and
    [AdminCommand.h].

    A command owns a heap object, its [_Target], and copies it with [clone].
    Elsewhere in the development commands are values; here the objects and
    the heap are explicit, and the operations are shown to implement values:
    no target is shared, freed twice or lost. *)

From S2P Require Import Prelude AdminCommand.

Local Open Scope Z_scope.

Section objects.
Context {Target : Type}.

(** Command objects by address, whose [m_target] is an address of the heap;
    the targets by address; the next address [new] returns. *)
Record store := Store { st_objs : gmap Z (AdminCommand Z); st_heap : gmap Z Target; st_next : Z }.

Definition new_target (t : Target) (st : store) : Z * store :=
  (st_next st, Store (st_objs st) (<[st_next st := t]> (st_heap st)) (st_next st + 1)).

(** [delete m_target]; deleting a null pointer does nothing. *)
Definition delete_target (a : option Z) (st : store) : result store :=
  match a with
  | None => Ok st
  | Some a =>
      match st_heap st !! a with
      | Some _ => Ok (Store (st_objs st) (delete a (st_heap st)) (st_next st))
      | None => Throw (undefined_behaviour "delete of a dangling pointer")
      end
  end.

(** [m_target->clone()]. *)
Definition clone_target (a : option Z) (st : store) : result (Z * store) :=
  match a with
  | None => Throw (undefined_behaviour "null target")
  | Some a =>
      match st_heap st !! a with
      | Some t => Ok (new_target t st)
      | None => Throw (undefined_behaviour "dangling target")
      end
  end.

Definition set_command (p : Z) (c : AdminCommand Z) (st : store) : store :=
  Store (<[p := c]> (st_objs st)) (st_heap st) (st_next st).

Definition command_at_address (p : Z) (st : store) : result (AdminCommand Z) :=
  match st_objs st !! p with Some c => Ok c | None => Throw (undefined_behaviour "no command object") end.

(** The constructors; [p] is where the object is made. *)
Definition new_default_command (p : Z) (st : store) : store :=
  set_command p (MkAdminCommand EmptyString EmptyString EmptyString None ∅) st.
Definition new_command (p : Z) (name help longhelp : string) (t : Target) (attrs : gmap string string) (st : store)
    : store :=
  let '(a, st) := new_target t st in
  set_command p (MkAdminCommand name help longhelp (Some a) attrs) st.

(** The copy constructor. *)
Definition copy_command (p q : Z) (st : store) : result store :=
  rhs ← command_at_address q st;
  '(a, st) ← clone_target (ac_target rhs) st;
  Ok (set_command p (MkAdminCommand (ac_name rhs) (ac_shorthelp rhs) (ac_longhelp rhs) (Some a) (ac_attrs rhs)) st).

(** [operator=]: the old target is deleted before the new one is cloned. *)
Definition assign_command (p q : Z) (st : store) : result store :=
  this ← command_at_address p st;
  rhs ← command_at_address q st;
  st ← delete_target (ac_target this) st;
  '(a, st) ← clone_target (ac_target rhs) st;
  Ok (set_command p (MkAdminCommand (ac_name rhs) (ac_shorthelp rhs) (ac_longhelp rhs) (Some a) (ac_attrs rhs)) st).

(** The destructor. *)
Definition destroy_command (p : Z) (st : store) : result store :=
  c ← command_at_address p st;
  st ← delete_target (ac_target c) st;
  Ok (Store (delete p (st_objs st)) (st_heap st) (st_next st)).

(** * Ownership *)

(** Every target is owned by exactly one command. *)
Record owned (st : store) : Prop := Owned {
  ow_live : forall p c a, st_objs st !! p = Some c -> ac_target c = Some a -> is_Some (st_heap st !! a);
  ow_once : forall p q c d a, st_objs st !! p = Some c -> st_objs st !! q = Some d ->
    ac_target c = Some a -> ac_target d = Some a -> p = q;
  ow_all : forall a, is_Some (st_heap st !! a) -> exists p c, st_objs st !! p = Some c /\ ac_target c = Some a;
  ow_next : forall a, is_Some (st_heap st !! a) -> a < st_next st }.

(** The command at an address, as a value. *)
Definition value_of (st : store) (p : Z) : option (AdminCommand Target) :=
  match st_objs st !! p with
  | None => None
  | Some c => Some (MkAdminCommand (ac_name c) (ac_shorthelp c) (ac_longhelp c)
                      (a ← ac_target c; st_heap st !! a) (ac_attrs c))
  end.

Lemma owned_empty : owned (Store ∅ ∅ 1).
Proof. split; intros *; rewrite ?lookup_empty; try done; by intros [? ?]. Qed.

(** Giving the object at [p], which owns nothing, a new target. *)
Lemma own_new st p c t : owned st -> (forall c0, st_objs st !! p = Some c0 -> ac_target c0 = None) ->
  ac_target c = Some (st_next st) ->
  owned (set_command p c (new_target t st).2) /\
  (forall q, q <> p -> value_of (set_command p c (new_target t st).2) q = value_of st q) /\
  value_of (set_command p c (new_target t st).2) p =
    Some (MkAdminCommand (ac_name c) (ac_shorthelp c) (ac_longhelp c) (Some t) (ac_attrs c)).
Proof.
  intros [Hl Ho Ha Hn] Hp Hc. unfold set_command, new_target. cbn [fst snd st_objs st_heap st_next].
  assert (st_heap st !! st_next st = None) as Hfresh.
  { destruct (st_heap st !! st_next st) eqn:E; [|done]. pose proof (Hn _ (mk_is_Some _ _ E)). lia. }
  assert (forall q d a, q <> p -> st_objs st !! q = Some d -> ac_target d = Some a -> a <> st_next st) as Hold.
  { intros q d a _ Hq Hd ->. destruct (Hl q d _ Hq Hd) as [? ?]. congruence. }
  split; [|split].
  - split; cbn [st_objs st_heap st_next].
    + intros q d a [[<- <-]|[Hne Hq]]%lookup_insert_Some Hd.
      * rewrite Hc in Hd. injection Hd as <-. rewrite lookup_insert_eq. by eexists.
      * rewrite lookup_insert_ne by (pose proof (Hold q d a ltac:(congruence) Hq Hd); congruence). by eapply Hl.
    + intros q q' d d' a [[<- <-]|[Hne Hq]]%lookup_insert_Some [[<- <-]|[Hne' Hq']]%lookup_insert_Some Hd Hd'.
      * done.
      * rewrite Hc in Hd. injection Hd as <-. by destruct (Hold q' d' _ ltac:(congruence) Hq' Hd').
      * rewrite Hc in Hd'. injection Hd' as <-. by destruct (Hold q d _ ltac:(congruence) Hq Hd).
      * by eapply Ho.
    + intros a [x [[<- <-]|[Hne Hx]]%lookup_insert_Some].
      * exists p, c. by rewrite lookup_insert_eq.
      * destruct (Ha a (mk_is_Some _ _ Hx)) as (q & d & Hq & Hd). exists q, d.
        rewrite lookup_insert_ne; [done|]. intros ->. rewrite (Hp d Hq) in Hd. done.
    + intros a [x [[<- <-]|[Hne Hx]]%lookup_insert_Some]; [lia|]. pose proof (Hn a (mk_is_Some _ _ Hx)). lia.
  - intros q Hq. unfold value_of. cbn [st_objs st_heap]. rewrite lookup_insert_ne by done.
    destruct (st_objs st !! q) as [d|] eqn:E; [|done]. do 2 f_equal. destruct (ac_target d) as [a|] eqn:Ed; [|done].
    cbn. rewrite lookup_insert_ne; [done|]. pose proof (Hold q d a Hq E Ed). congruence.
  - unfold value_of. cbn [st_objs st_heap]. rewrite lookup_insert_eq, Hc. cbn. by rewrite lookup_insert_eq.
Qed.

(** Deleting the target of the object at [p], and forgetting the object or its
    pointer. *)
Lemma own_delete st p c : owned st -> st_objs st !! p = Some c -> exists st',
  delete_target (ac_target c) st = Ok st' /\ st_objs st' = st_objs st /\ st_next st' = st_next st /\
  (forall a, ac_target c <> Some a -> st_heap st' !! a = st_heap st !! a) /\
  (forall a, ac_target c = Some a -> st_heap st' !! a = None).
Proof.
  intros [Hl _ _ _] Hp. unfold delete_target. destruct (ac_target c) as [a|] eqn:Ec.
  - destruct (Hl p c a Hp Ec) as [t Ht]. rewrite Ht. eexists. split; [done|]. cbn. do 2 (split; [done|]). split.
    + intros b Hb. rewrite lookup_delete_ne by congruence. done.
    + intros b [= <-]. by rewrite lookup_delete_eq.
  - exists st. do 3 (split; [done|]). done.
Qed.

Lemma own_destroy st p c : owned st -> st_objs st !! p = Some c -> exists st',
  destroy_command p st = Ok st' /\ owned st' /\ value_of st' p = None /\ st_next st' = st_next st /\
  st_objs st' = delete p (st_objs st) /\ (forall q, q <> p -> value_of st' q = value_of st q) /\
  (forall a, ac_target c = Some a -> st_heap st' !! a = None).
Proof.
  intros Hw Hp. destruct (own_delete st p c Hw Hp) as (st1 & E & Hobjs & Hnext & Hsame & Hgone).
  destruct Hw as [Hl Ho Ha Hn]. exists (Store (delete p (st_objs st)) (st_heap st1) (st_next st)).
  unfold destroy_command, command_at_address. rewrite Hp. cbn [mbind result_bind]. rewrite E. cbn [mbind result_bind].
  rewrite Hobjs, Hnext. split; [done|].
  assert (forall q d a, q <> p -> st_objs st !! q = Some d -> ac_target d = Some a -> ac_target c <> Some a) as Hother.
  { intros q d a Hne Hq Hd Hc. by destruct (Hne (Ho q p d c a Hq Hp Hd Hc)). }
  split; [|split; [|split; [done|split; [done|split; [|done]]]]].
  - split; cbn [st_objs st_heap st_next].
    + intros q d a [Hne Hq]%lookup_delete_Some Hd. rewrite Hsame by (eapply (Hother q d); [congruence|done|done]). by eapply Hl.
    + intros q q' d d' a [_ Hq]%lookup_delete_Some [_ Hq']%lookup_delete_Some. by eapply Ho.
    + intros a [x Hx]. destruct (decide (ac_target c = Some a)) as [Hc|Hc]; [rewrite (Hgone a Hc) in Hx; done|].
      rewrite Hsame in Hx by done. destruct (Ha a (mk_is_Some _ _ Hx)) as (q & d & Hq & Hd). exists q, d.
      rewrite lookup_delete_ne; [done|]. intros ->. congruence.
    + intros a [x Hx]. destruct (decide (ac_target c = Some a)) as [Hc|Hc]; [rewrite (Hgone a Hc) in Hx; done|].
      rewrite Hsame in Hx by done. by apply Hn.
  - unfold value_of. cbn. by rewrite lookup_delete_eq.
  - intros q Hq. unfold value_of. cbn [st_objs st_heap]. rewrite lookup_delete_ne by done.
    destruct (st_objs st !! q) as [d|] eqn:Eq; [|done]. do 2 f_equal. destruct (ac_target d) as [a|] eqn:Ed; [|done].
    cbn. apply Hsame. by eapply (Hother q d).
Qed.

(** The object and the target behind a value. *)
Lemma value_of_inv st p v : value_of st p = Some v -> exists c, st_objs st !! p = Some c /\
  v = MkAdminCommand (ac_name c) (ac_shorthelp c) (ac_longhelp c) (a ← ac_target c; st_heap st !! a) (ac_attrs c).
Proof. unfold value_of. destruct (st_objs st !! p) as [c|]; [|done]. intros [= <-]. by exists c. Qed.

Lemma value_of_target st p v : value_of st p = Some v -> ac_target v <> None -> exists c a t,
  st_objs st !! p = Some c /\ ac_target c = Some a /\ st_heap st !! a = Some t /\
  v = MkAdminCommand (ac_name c) (ac_shorthelp c) (ac_longhelp c) (Some t) (ac_attrs c).
Proof.
  intros (c & Hc & ->)%value_of_inv Ht. cbn in Ht. destruct (ac_target c) as [a|] eqn:Ea; [|done]. cbn in Ht.
  destruct (st_heap st !! a) as [t|] eqn:Eh; [|done]. exists c, a, t. cbn. by rewrite Eh.
Qed.

Lemma assign_is_destroy_and_new st p q c d a t : owned st -> p <> q -> st_objs st !! p = Some c ->
  st_objs st !! q = Some d -> ac_target d = Some a -> st_heap st !! a = Some t ->
  exists st1, destroy_command p st = Ok st1 /\ st_next st1 = st_next st /\
    assign_command p q st = Ok (set_command p (MkAdminCommand (ac_name d) (ac_shorthelp d) (ac_longhelp d)
      (Some (st_next st)) (ac_attrs d)) (new_target t st1).2).
Proof.
  intros Hw Hpq Hp Hq Ha Ht. destruct (own_delete st p c Hw Hp) as (st1 & E & Hobjs & Hnext & Hsame & _).
  eexists. split; [unfold destroy_command, command_at_address; rewrite Hp; cbn [mbind result_bind]; by rewrite E|].
  split; [done|]. unfold assign_command, command_at_address. rewrite Hp, Hq. cbn [mbind result_bind]. rewrite E.
  cbn [mbind result_bind]. unfold clone_target. rewrite Ha, Hsame, Ht.
  - cbn [new_target mbind result_bind set_command st_objs st_heap st_next snd]. rewrite Hobjs, Hnext.
    unfold set_command. cbn. by rewrite insert_delete_eq.
  - intros Hc. by destruct (Hpq (ow_once st Hw p q c d a Hp Hq Hc Ha)).
Qed.

(** * Properties *)

(** C28. Command objects behave as values.  Copying, assigning between different
    objects and destroying succeed on commands with a target, give the copy
    the value of the original, leave every other command as it was and keep
    each target owned by exactly one command (none is freed twice, none is
    lost).  Two uses have no meaning: assigning a command to itself clones the
    target it has just deleted, and copying a default-constructed command
    follows a null pointer. *)
Theorem commands_copied_by_value (st : store) : owned st ->
  (forall p q v, st_objs st !! p = None -> value_of st q = Some v -> ac_target v <> None ->
     exists st', copy_command p q st = Ok st' /\ owned st' /\ value_of st' p = Some v /\
       forall x, x <> p -> value_of st' x = value_of st x) /\
  (forall p q u v, p <> q -> value_of st p = Some u -> value_of st q = Some v -> ac_target v <> None ->
     exists st', assign_command p q st = Ok st' /\ owned st' /\ value_of st' p = Some v /\
       forall x, x <> p -> value_of st' x = value_of st x) /\
  (forall p u, value_of st p = Some u ->
     exists st', destroy_command p st = Ok st' /\ owned st' /\ value_of st' p = None /\
       forall x, x <> p -> value_of st' x = value_of st x) /\
  (forall p u, value_of st p = Some u -> ac_target u <> None ->
     assign_command p p st = Throw (undefined_behaviour "dangling target")) /\
  (forall p q v, value_of st q = Some v -> ac_target v = None ->
     copy_command p q st = Throw (undefined_behaviour "null target")).
Proof.
  intros Hw. split; [|split; [|split; [|split]]].
  - intros p q v Hp Hq Hv. destruct (value_of_target st q v Hq Hv) as (d & a & t & Hd & Ha & Ht & ->).
    set (c := MkAdminCommand (ac_name d) (ac_shorthelp d) (ac_longhelp d) (Some (st_next st)) (ac_attrs d)).
    destruct (own_new st p c t Hw) as (H1 & H2 & H3); [intros ? ?; congruence|done|].
    eexists. split; [|done]. unfold copy_command, command_at_address. rewrite Hd. cbn [mbind result_bind].
    unfold clone_target. by rewrite Ha, Ht.
  - intros p q u v Hpq (c0 & Hp & _)%value_of_inv Hq Hv.
    destruct (value_of_target st q v Hq Hv) as (d & a & t & Hd & Ha & Ht & ->).
    destruct (assign_is_destroy_and_new st p q c0 d a t Hw Hpq Hp Hd Ha Ht) as (st1 & E1 & Hn1 & E).
    destruct (own_destroy st p c0 Hw Hp) as (st1' & E1' & Hw1 & _ & _ & Ho1 & Hsame1 & _).
    rewrite E1 in E1'. injection E1' as <-. rewrite <-Hn1 in E.
    set (c := MkAdminCommand (ac_name d) (ac_shorthelp d) (ac_longhelp d) (Some (st_next st1)) (ac_attrs d)) in E.
    destruct (own_new st1 p c t Hw1) as (H1 & H2 & H3); [rewrite Ho1, lookup_delete_eq; done|done|].
    eexists. split; [exact E|]. split; [done|]. split; [done|]. intros x Hx. by rewrite H2, Hsame1.
  - intros p u (c & Hp & _)%value_of_inv.
    destruct (own_destroy st p c Hw Hp) as (st' & E & Hw' & Hv & _ & _ & Hs & _). by exists st'.
  - intros p u Hu Hv. destruct (value_of_target st p u Hu Hv) as (d & a & t & Hd & Ha & Ht & ->).
    destruct (own_delete st p d Hw Hd) as (st1 & E & _ & _ & _ & Hgone).
    unfold assign_command, command_at_address. rewrite Hd. cbn [mbind result_bind]. rewrite E. cbn [mbind result_bind].
    unfold clone_target. by rewrite Ha, (Hgone a Ha).
  - intros p q v (c & Hq & ->)%value_of_inv Hv. unfold copy_command, command_at_address. rewrite Hq.
    cbn [mbind result_bind]. unfold clone_target. cbn in Hv. destruct (ac_target c) as [a|] eqn:Ea; [|done].
    destruct (ow_live st Hw q c a Hq Ea) as [t Ht]. cbn in Hv. congruence.
Qed.

Lemma owned_new_command p name help longhelp t attrs st : owned st -> st_objs st !! p = None ->
  owned (new_command p name help longhelp t attrs st).
Proof.
  intros Hw Hp. apply (own_new st p (MkAdminCommand name help longhelp (Some (st_next st)) attrs) t); [done| |done].
  intros ? ?. congruence.
Qed.

End objects.

(** Two commands with targets of their own; the second takes the first's place. *)
Definition demo_store : store (Target := Z) :=
  new_command 2 "drop" EmptyString EmptyString 8 ∅ (new_command 1 "help" EmptyString EmptyString 7 ∅ (Store ∅ ∅ 1)).

Lemma commands_copied_by_value_witness : exists st', assign_command 1 2 demo_store = Ok st' /\ owned st' /\
  value_of st' 1 = Some (MkAdminCommand "drop" EmptyString EmptyString (Some 8) ∅).
Proof.
  destruct (commands_copied_by_value demo_store) as (_ & H & _).
  - do 2 (apply owned_new_command; [|reflexivity]). apply owned_empty.
  - destruct (H 1 2 (MkAdminCommand "help" EmptyString EmptyString (Some 7) ∅)
      (MkAdminCommand "drop" EmptyString EmptyString (Some 8) ∅)) as (st' & E & Hw & Hv & _).
    + discriminate.
    + reflexivity.
    + reflexivity.
    + discriminate.
    + exists st'. split; [exact E|]. split; [exact Hw|exact Hv].
Defined.
