(* ===== verification/TableEvents.v ===== *)
(** Table events and their messages: [TableEvents.h], [TableEvents.cc],
    [TableSerialiser.cc]. *)

From S2P Require Import Prelude TxContainer MsgIDs.

(** * Events *)

Inductive TableEvent :=
| NewColumn (table_name column : string)
| NewRow (table_name row_key : string)
| RowRemoved (table_name rowkey : string)
| RowMultiUpdate (table_name row_key : string) (fields : gmap string string)
| TableCleared (table_name : string)
| PCMDEvent (table_name row_key column : string) (meta : txContainer).

(** * Serialisers *)

Definition row_0 : string := id.row_prefix +:+ "0".

(** [UpdateSerialiser::init_msg]; the serialiser keeps a pointer to the row,
    reached here by its path. *)
Definition UpdateSerialiser_init_msg (m : txMessage) (table_name row_key : string) : txMessage :=
  let m := set_type id.tableupdate m in
  let m := on_root (fun r => put_field_qn r id.QN_tablename table_name) m in
  let m := on_root (fun r => put_field_qn r id.QN_msgtype id.tableupdate) m in
  on_root (fun r => put_child_with r id.body (fun body =>
    let body := put_field body id.rows "1" in
    put_child_with body row_0 (fun row => put_field row id.row_key row_key))) m.

(** [UpdateSerialiser::add_update]: always succeeds. *)
Definition UpdateSerialiser_add_update (column value : string) (m : txMessage) : txMessage * bool :=
  (on_root (fun r => put_child_with r id.body (fun body =>
     put_child_with body row_0 (fun row => put_field row column value))) m, true).

Definition TableClearSerialise_init_msg (m : txMessage) (table_name : string) : txMessage :=
  let m := set_type id.tableclear m in
  let m := on_root (fun r => put_field_qn r id.QN_msgtype id.tableclear) m in
  on_root (fun r => put_field_qn r id.QN_tablename table_name) m.

(** [RowMultiUpdate::serialise]: [m] is the message at the back of the list,
    [done] the ones before it. *)
Fixpoint serialise_fields (table_name row_key : string) (fields : list (string * string))
    (done : list txMessage) (m : txMessage) : result (list txMessage) :=
  match fields with
  | [] => Ok (done ++ [m])
  | (column, value) :: fields =>
      let '(m1, ok) := UpdateSerialiser_add_update column value m in
      if (ok : bool) then serialise_fields table_name row_key fields done m1
      else
        let '(m2, ok) := UpdateSerialiser_add_update column value
          (UpdateSerialiser_init_msg (new_message EmptyString) table_name row_key) in
        if (ok : bool) then serialise_fields table_name row_key fields (done ++ [m1]) m2
        else Throw (runtime_error "Field update for row is too large")
  end.

Definition RowMultiUpdate_serialise (table_name row_key : string) (fields : gmap string string)
    (msglist : list txMessage) : result (list txMessage) :=
  serialise_fields table_name row_key (map_iter fields) msglist
    (UpdateSerialiser_init_msg (new_message EmptyString) table_name row_key).

(** [RowRemoved::serialise]: the row key is put with the default value of
    [put_field], the empty string. *)
Definition RowRemoved_serialise (table_name rowkey : string) (msglist : list txMessage)
    : list txMessage :=
  let m := set_type id.tablerowdel (new_message EmptyString) in
  let m := on_root (fun r => put_field_qn r id.QN_msgtype id.tablerowdel) m in
  let m := on_root (fun r => put_field_qn r id.QN_tablename table_name) m in
  let m := on_root (fun r => put_field_qn r [id.head; id.row_key] EmptyString) m in
  msglist ++ [m].

Definition TableCleared_serialise (table_name : string) (msglist : list txMessage) : list txMessage :=
  msglist ++ [TableClearSerialise_init_msg (new_message EmptyString) table_name].

(** [PCMDEvent::serialise]: the copied meta container is renamed through the
    reference [put_child] returned. *)
Definition PCMDEvent_serialise (table_name row_key column : string) (meta : txContainer)
    (msglist : list txMessage) : list txMessage :=
  let m := set_type id.tableupdate (new_message EmptyString) in
  let m := on_root (fun r => put_field_qn r id.QN_tablename table_name) m in
  let m := on_root (fun r => put_field_qn r id.QN_msgtype id.tableupdate) m in
  let m := on_root (fun r => put_child_with r id.body (fun body =>
    let body := put_child_with body row_0 (fun row => put_field row id.row_key row_key) in
    let body := put_field body id.rows "1" in
    put_child_with body row_0 (fun row =>
      put_child_copy_with row meta (set_name (".meta." +:+ column))))) m in
  msglist ++ [m].

(** The dispatch of [_nolock_publish_update]: events without a serialiser
    produce nothing. *)
Definition serialise (ev : TableEvent) (msglist : list txMessage) : result (list txMessage) :=
  match ev with
  | RowMultiUpdate t k fields => RowMultiUpdate_serialise t k fields msglist
  | TableCleared t => Ok (TableCleared_serialise t msglist)
  | RowRemoved t k => Ok (RowRemoved_serialise t k msglist)
  | PCMDEvent t k c meta => Ok (PCMDEvent_serialise t k c meta msglist)
  | NewColumn _ _ | NewRow _ _ => Ok msglist
  end.

Fixpoint serialise_all (events : list TableEvent) (msglist : list txMessage)
    : result (list txMessage) :=
  match events with
  | [] => Ok msglist
  | ev :: events => msglist ← serialise ev msglist; serialise_all events msglist
  end.

(** * Facts *)

(** The splitting branch is never taken: one update, one message. *)
Lemma RowMultiUpdate_serialise_one t k fields msglist : exists m,
  RowMultiUpdate_serialise t k fields msglist = Ok (msglist ++ [m]) /\
  m = foldl (fun m kv => (UpdateSerialiser_add_update kv.1 kv.2 m).1)
        (UpdateSerialiser_init_msg (new_message EmptyString) t k) (map_iter fields).
Proof.
  unfold RowMultiUpdate_serialise. generalize (UpdateSerialiser_init_msg (new_message EmptyString) t k).
  induction (map_iter fields) as [|[c v] l IH]; intros m; cbn [serialise_fields foldl].
  { by eexists. }
  cbn [UpdateSerialiser_add_update fst snd]. apply IH.
Qed.

Lemma serialise_ok ev msglist : exists msgs, serialise ev msglist = Ok (msglist ++ msgs).
Proof.
  destruct ev; cbn [serialise]; try (by eexists).
  - exists []. by rewrite app_nil_r.
  - exists []. by rewrite app_nil_r.
  - destruct (RowMultiUpdate_serialise_one table_name row_key fields msglist) as (m & -> & _).
    by eexists.
Qed.

Lemma serialise_all_ok events msglist : exists msgs,
  serialise_all events msglist = Ok (msglist ++ msgs).
Proof.
  revert msglist. induction events as [|ev events IH]; intros msglist; cbn [serialise_all].
  { exists []. by rewrite app_nil_r. }
  destruct (serialise_ok ev msglist) as [m1 ->]. cbn [mbind result_bind].
  destruct (IH (msglist ++ m1)) as [m2 ->]. exists (m1 ++ m2). by rewrite app_assoc.
Qed.

(** ** What an update message says *)

(** The row a table message carries at [row_0]. *)
Definition message_row (m : txMessage) : option txContainer :=
  body ← find_child (m_root m) id.body; find_child body row_0.

Lemma wf_update_row g : wf_update g ->
  wf_update (fun r => put_child_with r id.body (fun body => put_child_with body row_0 g)).
Proof. intros Hg. by apply wf_update_put_child_with, wf_update_put_child_with. Qed.

Lemma message_row_update m g : wf (m_root m) -> wf_update g ->
  message_row (on_root (fun r => put_child_with r id.body (fun body => put_child_with body row_0 g)) m) =
  Some (g (default (new_container row_0) (message_row m))).
Proof.
  intros Hm Hg. unfold message_row, on_root. cbn [m_root].
  pose proof (wf_update_put_child_with row_0 g Hg) as Hb.
  rewrite find_child_put_child_with; [|auto with exio|by apply Hb, wf_new_container].
  rewrite decide_True by done. cbn [mbind option_bind].
  assert (wf (default (new_container id.body) (find_child (m_root m) id.body))) as Hbody.
  { destruct (find_child (m_root m) id.body) eqn:E; [by eapply find_child_wf|apply wf_new_container]. }
  rewrite find_child_put_child_with; [|auto with exio|by apply Hg, wf_new_container].
  rewrite decide_True by done. do 2 f_equal.
  by destruct (find_child (m_root m) id.body) as [b|].
Qed.

Lemma init_msg_wf t k : wf (m_root (UpdateSerialiser_init_msg (new_message EmptyString) t k)).
Proof.
  unfold UpdateSerialiser_init_msg, on_root, set_type. cbn [m_root new_message].
  apply wf_put_child_with.
  - do 2 apply wf_put_field_qn. apply wf_new_container.
  - intros d Hd. split.
    + apply wf_put_child_with; [by apply wf_put_field|apply wf_update_put_field].
    + by rewrite m_name_put_child_with, m_name_put_field.
Qed.

Lemma init_msg_row t k : message_row (UpdateSerialiser_init_msg (new_message EmptyString) t k) =
  Some (put_field (new_container row_0) id.row_key k).
Proof. vm_compute. reflexivity. Qed.

Lemma add_updates_row l m row : wf (m_root m) -> message_row m = Some row ->
  let m' := foldl (fun m kv => (UpdateSerialiser_add_update kv.1 kv.2 m).1) m l in
  wf (m_root m') /\ message_row m' = Some (foldl (fun r kv => put_field r kv.1 kv.2) row l).
Proof.
  revert m row. induction l as [|[c v] l IH]; intros m row Hm Hr; [done|]. cbn [foldl].
  pose proof (wf_update_put_field c v) as Hp. apply IH.
  - cbn [UpdateSerialiser_add_update fst on_root m_root]. by apply (wf_update_row _ Hp).
  - cbn [UpdateSerialiser_add_update fst]. rewrite message_row_update by done. by rewrite Hr.
Qed.

Lemma find_field_put_all l row f : wf row -> NoDup l.*1 ->
  f_value <$> find_field (foldl (fun r kv => put_field r kv.1 kv.2) row l) f =
  match list_to_map (M := gmap string string) l !! f with
  | Some v => Some v
  | None => f_value <$> find_field row f
  end.
Proof.
  revert row. induction l as [|[c v] l IH]; intros row Hw Hnd; [done|].
  rewrite fmap_cons in Hnd. apply NoDup_cons in Hnd as [Hc Hnd].
  cbn [foldl fst snd]. rewrite list_to_map_cons, IH; [|by apply wf_put_field|exact Hnd].
  cbn [fst] in Hc. destruct (decide (c = f)) as [->|Hne].
  - rewrite lookup_insert_eq. rewrite not_elem_of_list_to_map_1 by done.
    rewrite find_field_put_field by auto with exio. by rewrite decide_True.
  - rewrite lookup_insert_ne by done. rewrite find_field_put_field by auto with exio.
    by rewrite decide_False.
Qed.

(** An update message carries the row key and exactly the changed fields. *)
Lemma update_message_fields t k fields msglist : exists m row,
  RowMultiUpdate_serialise t k fields msglist = Ok (msglist ++ [m]) /\ wf (m_root m) /\
  message_row m = Some row /\
  forall f, f_value <$> find_field row f =
    match fields !! f with
    | Some v => Some v
    | None => if decide (f = id.row_key) then Some k else None
    end.
Proof.
  destruct (RowMultiUpdate_serialise_one t k fields msglist) as (m & -> & Hm).
  destruct (add_updates_row (map_iter fields) _ _ (init_msg_wf t k) (init_msg_row t k)) as [Hw Hr].
  rewrite <-Hm in Hw, Hr. exists m. eexists. split; [done|]. split; [done|]. split; [exact Hr|].
  intros f. rewrite find_field_put_all; [|apply wf_put_field, wf_new_container|apply map_iter_NoDup_fst].
  rewrite list_to_map_map_iter. destruct (fields !! f); [done|].
  rewrite find_field_put_field by (apply wf_indexed, wf_new_container).
  destruct (decide (id.row_key = f)) as [<-|Hne]; [by rewrite decide_True|].
  by rewrite decide_False by congruence.
Qed.
