(* ===== verification/SamBuffer.v ===== *)
(** The encoding buffers of [SamBuffer.h] / [SamBuffer.cc].

    [SamBuffer] is the abstract base class, here a type class of operations;
    [SamBufferLaws] states what the encoder relies on: a buffer accumulates
    the bytes appended to it and [encode_header] puts a SAM header in front of
    them.  [DynamicSamBuffer] is the growing implementation, at the width of
    [size_t], and is proved to satisfy the laws. *)

From S2P Require Import Prelude Decimal.

Local Open Scope Z_scope.

(** * Constants of [sam.h] *)

Definition SAM0100 : bytes := str "SAM0100".
Definition SAM0101 : bytes := str "SAM0101".
Definition MSG_START : ascii := "{".
Definition MSG_END : ascii := "}".
Definition MSG_DELIM : ascii := "010".
Definition SEQ_START : ascii := "[".
Definition SEQ_END : ascii := "]".
Definition FIELD_DELIM : ascii := ",".
Definition VALUE_DELIM : ascii := "=".
Definition META_DELIM : ascii := ":".
Definition ESCAPE : ascii := "\".
Definition MAX_MSG_LEN : Z := 99999.

(** * The interface *)

Class SamBuffer (B : Type) := {
  append : B -> bytes -> result B;
  append_char : B -> ascii -> result B;
  encode_header : B -> result B;
  (** The [msg_size()] bytes from [msg_start()]. *)
  msg_bytes : B -> bytes;
  msg_size : B -> Z }.

(** [count_digits(unsigned int)]: the argument is truncated to 32 bits at
    the call, so ten rounds of the loop are enough. *)
Fixpoint count_digits_loop (fuel : nat) (i : Z) : Z :=
  match fuel with
  | O => 0
  | S f => 1 + (if i / 10 =? 0 then 0 else count_digits_loop f (i / 10))
  end.
Definition count_digits (i : Z) : Z := count_digits_loop 10 (unsigned_int i).

(** * [DynamicSamBuffer] *)

Module DynamicSamBuffer.

Definition RESERVE_FOR_SAM_HEADER : Z := 100.

Record t := Make { m_buf : bytes; m_msg_start : Z; m_wptr : Z }.

Definition buf_size (b : t) : Z := Z.of_nat (length (m_buf b)).

(** [DynamicSamBuffer(reserve)]. *)
Definition new (reserve : Z) : t :=
  let reserve := if reserve <? RESERVE_FOR_SAM_HEADER
                 then reserve + RESERVE_FOR_SAM_HEADER else reserve in
  Make (replicate (Z.to_nat reserve) "000"%char) RESERVE_FOR_SAM_HEADER RESERVE_FOR_SAM_HEADER.

Definition check_space (n : Z) (b : t) : result t :=
  let size := buf_size b in
  let remain := size_t (size - m_wptr b) in
  if remain <? n then
    let newsize := Z.max (size_t (size + n - remain)) (size_t (2 * size)) in
    if newsize <? size then Throw (runtime_error "failed to resize encoding buffer")
    else Ok (Make (m_buf b ++ replicate (Z.to_nat (newsize - size)) "000"%char)
                  (m_msg_start b) (m_wptr b))
  else Ok b.

Definition append (b : t) (src : bytes) : result t :=
  let srclen := Z.of_nat (length src) in
  b ← check_space srclen b;
  buf ← memcpy (m_wptr b) src (m_buf b);
  mret (Make buf (m_msg_start b) (size_t (m_wptr b + srclen))).

Definition append_char (b : t) (src : ascii) : result t :=
  b ← check_space 1 b;
  buf ← memcpy (m_wptr b) [src] (m_buf b);
  mret (Make buf (m_msg_start b) (size_t (m_wptr b + 1))).

Definition msg_size (b : t) : Z := size_t (m_wptr b - m_msg_start b).

(** The bytes a reader sees between [msg_start()] and [msg_start() + msg_size()]. *)
Definition msg_bytes (b : t) : bytes :=
  take (Z.to_nat (msg_size b)) (drop (Z.to_nat (m_msg_start b)) (m_buf b)).

Definition encode_header (b : t) : result t :=
  let headlen := 1 + 7 + 1 in
  let partlen := size_t (msg_size b + headlen) in
  let msglen_strlen := count_digits partlen in
  let msglen_full := size_t (partlen + msglen_strlen) in
  let '(msglen_strlen, msglen_full) :=
    if msglen_strlen <? count_digits msglen_full
    then (msglen_strlen + 1, size_t (msglen_full + 1)) else (msglen_strlen, msglen_full) in
  let headlen := headlen + msglen_strlen in
  let msg_start := size_t (m_msg_start b - headlen) in
  let acutal_strlen := Z.of_nat (length (dec msglen_full)) in
  let lenbuf := dec msglen_full ++ replicate (100 - length (dec msglen_full)) "000"%char in
  buf ← memcpy msg_start
    ([MSG_START] ++ SAM0101 ++ [META_DELIM] ++ take (Z.to_nat msglen_strlen) lenbuf) (m_buf b);
  if negb (acutal_strlen =? msglen_strlen) then
    Throw (runtime_error "SAM0101 encoding failed; msglen_string not of expected length")
  else if negb (1 + 7 + 1 + acutal_strlen =? headlen) then
    Throw (runtime_error "SAM0101 encoding failed; generated headlen is not of expected size")
  else
    buf ← (if (msglen_full <=? MAX_MSG_LEN) && (acutal_strlen <=? 5)
           then memcpy (msg_start + 1) SAM0100 buf else Ok buf);
    mret (Make buf msg_start (m_wptr b)).

End DynamicSamBuffer.

#[global] Instance DynamicSamBuffer_ops : SamBuffer DynamicSamBuffer.t := {|
  append := DynamicSamBuffer.append;
  append_char := DynamicSamBuffer.append_char;
  encode_header := DynamicSamBuffer.encode_header;
  msg_bytes := DynamicSamBuffer.msg_bytes;
  msg_size := DynamicSamBuffer.msg_size |}.

(** * The contract *)

(** The length of a message that has [n] bytes after its length field: the
    least [t] that counts the header's nine fixed bytes, the digits of [t]
    itself and the [n] bytes ([total_length_eq], [total_length_least]). *)
Definition total_length (n : Z) : Z :=
  let d := Z.of_nat (length (dec (n + 9))) in
  if d <? Z.of_nat (length (dec (n + 9 + d))) then n + 9 + d + 1 else n + 9 + d.

(** The header in front of a message of total length [t]. *)
Definition sam_header (t : Z) : bytes :=
  [MSG_START] ++ (if t <=? MAX_MSG_LEN then SAM0100 else SAM0101) ++ [META_DELIM] ++ dec t.

(** The longest content the laws cover: the largest for which the length
    with its header stays below 2^32, the range of [count_digits]. *)
Definition max_content : Z := 2 ^ 32 - 20.

Class SamBufferLaws (B : Type) `{SamBuffer B} := {
  (** [holds b l]: the bytes appended to [b] so far are [l] and the header
      has not been written. *)
  holds : B -> bytes -> Prop;
  append_holds : forall b l src, holds b l ->
    Z.of_nat (length l) + Z.of_nat (length src) <= max_content ->
    exists b', append b src = Ok b' /\ holds b' (l ++ src);
  append_char_holds : forall b l c, holds b l -> Z.of_nat (length l) + 1 <= max_content ->
    exists b', append_char b c = Ok b' /\ holds b' (l ++ [c]);
  encode_header_holds : forall b l, holds b l -> Z.of_nat (length l) <= max_content ->
    let t := total_length (Z.of_nat (length l)) in
    exists b', encode_header b = Ok b' /\ msg_bytes b' = sam_header t ++ l /\ msg_size b' = t }.

(** * The length field *)

Lemma count_digits_loop_length fuel i :
  count_digits_loop fuel i = Z.of_nat (length (dec_fuel fuel i)).
Proof.
  revert i. induction fuel as [|f IH]; intros i; [done|]. cbn [count_digits_loop dec_fuel].
  rewrite length_app. destruct (i / 10 =? 0); rewrite ?IH; simpl; lia.
Qed.

Lemma count_digits_length i : 0 <= i < 2 ^ 32 -> count_digits i = Z.of_nat (length (dec i)).
Proof.
  intros Hi. unfold count_digits. rewrite unsigned_int_small by done.
  rewrite count_digits_loop_length. f_equal. apply (ndigits_unique i).
  - apply dec_fuel_spec; [|lia]. split; [lia|]. transitivity (2 ^ 32); [lia|done].
  - apply dec_ndigits. lia.
Qed.

Lemma lt_pow10 d : 0 <= d -> d < 10 ^ d.
Proof. intros. apply Z.pow_gt_lin_r; lia. Qed.

(** The fix-up of [encode_header]: adding the digits of the length can push
    it into one more digit, never into two. *)
Lemma length_fixup n d t : 0 <= n -> d = Z.of_nat (length (dec n)) ->
  t = (if d <? Z.of_nat (length (dec (n + d))) then n + d + 1 else n + d) ->
  Z.of_nat (length (dec t)) = t - n.
Proof.
  intros Hn Hd ->. pose proof (dec_ndigits n Hn) as Hnd.
  pose proof (dec_ndigits (n + d) ltac:(lia)) as Hnd'.
  pose proof (ndigits_le n (n + d) _ _ ltac:(lia) Hnd Hnd') as Hle.
  pose proof (lt_pow10 d ltac:(lia)) as Hp. destruct Hnd as (Hd1 & Hn1 & _).
  rewrite <-Hd in *.
  destruct (Z.ltb_spec d (Z.of_nat (length (dec (n + d))))) as [Hlt|]; [|lia].
  pose proof (dec_ndigits (n + d + 1) ltac:(lia)) as Hnd2.
  assert (length (dec (n + d + 1)) = S (length (dec n))) as ->; [|lia].
  apply (ndigits_unique (n + d + 1)); [done|].
  destruct Hnd' as (_ & _ & [He|Hge]); [lia|].
  assert (10 ^ d <= 10 ^ (Z.of_nat (length (dec (n + d))) - 1)) by (apply Z.pow_le_mono_r; lia).
  split; [lia|]. rewrite Nat2Z.inj_succ, <-Hd, Z.pow_succ_r by lia. split; [lia|].
  right. replace (Z.succ d - 1) with d by lia. lia.
Qed.

Lemma total_length_eq n : 0 <= n ->
  total_length n = 9 + Z.of_nat (length (dec (total_length n))) + n.
Proof.
  intros Hn. pose proof (length_fixup (n + 9) _ _ ltac:(lia) eq_refl eq_refl) as H.
  fold (total_length n) in H. lia.
Qed.

Lemma total_length_least n t : 0 <= n -> t = 9 + Z.of_nat (length (dec t)) + n -> total_length n <= t.
Proof.
  intros Hn Ht. unfold total_length.
  pose proof (dec_ndigits t ltac:(lia)) as Hnt.
  pose proof (ndigits_le (n + 9) t _ _ ltac:(lia) (dec_ndigits (n + 9) ltac:(lia)) Hnt) as Hd.
  remember (Z.of_nat (length (dec (n + 9)))) as d eqn:Ed.
  pose proof (ndigits_le (n + 9 + d) t _ _ ltac:(lia) (dec_ndigits (n + 9 + d) ltac:(lia)) Hnt).
  destruct (Z.ltb_spec d (Z.of_nat (length (dec (n + 9 + d))))); lia.
Qed.

Lemma length_sam_header t : Z.of_nat (length (sam_header t)) = 9 + Z.of_nat (length (dec t)).
Proof.
  unfold sam_header. rewrite !length_app. destruct (t <=? MAX_MSG_LEN);
    change (length [MSG_START]) with 1%nat; change (length SAM0100) with 7%nat;
    change (length SAM0101) with 7%nat; change (length [META_DELIM]) with 1%nat; lia.
Qed.

(** * [DynamicSamBuffer] satisfies the contract *)

Module DynamicSamBufferFacts.
Import DynamicSamBuffer.

(** The header space, the bytes held and the room left in the vector. *)
Inductive held (b : t) (l : bytes) : Prop :=
| Held (pre post : bytes) :
    m_buf b = pre ++ l ++ post -> length pre = 100%nat ->
    m_msg_start b = RESERVE_FOR_SAM_HEADER ->
    m_wptr b = RESERVE_FOR_SAM_HEADER + Z.of_nat (length l) ->
    buf_size b < 2 ^ 62 -> held b l.

Lemma new_held reserve : 0 <= reserve < 2 ^ 62 - 100 -> held (new reserve) [].
Proof.
  intros Hr. unfold new, RESERVE_FOR_SAM_HEADER.
  set (r := if reserve <? 100 then reserve + 100 else reserve).
  assert (100 <= r < 2 ^ 62) by (unfold r; destruct (Z.ltb_spec reserve 100); lia).
  apply (Held _ _ (replicate 100 "000"%char) (replicate (Z.to_nat (r - 100)) "000"%char));
    cbn [m_buf m_msg_start m_wptr].
  - rewrite app_nil_l, <-replicate_add. f_equal. lia.
  - apply length_replicate.
  - done.
  - done.
  - unfold buf_size. cbn [m_buf]. rewrite length_replicate. lia.
Qed.

(** [check_space(n)] leaves room for [n] bytes and loses nothing. *)
Lemma check_space_held n b l : held b l -> 0 <= n -> Z.of_nat (length l) + n <= max_content ->
  exists b' pre post, check_space n b = Ok b' /\ m_buf b' = pre ++ l ++ post /\
    length pre = 100%nat /\ m_msg_start b' = RESERVE_FOR_SAM_HEADER /\
    m_wptr b' = RESERVE_FOR_SAM_HEADER + Z.of_nat (length l) /\
    buf_size b' < 2 ^ 62 /\ n <= Z.of_nat (length post).
Proof.
  intros [pre post Hb Hl Hs Hw Hz] Hn Hmax. unfold check_space, max_content in *.
  assert (buf_size b = 100 + Z.of_nat (length l) + Z.of_nat (length post)) as Hsz
    by (unfold buf_size; rewrite Hb, !length_app; lia).
  rewrite Hw, Hsz. unfold RESERVE_FOR_SAM_HEADER in *.
  replace (100 + Z.of_nat (length l) + Z.of_nat (length post) - (100 + Z.of_nat (length l)))
    with (Z.of_nat (length post)) by lia.
  rewrite (size_t_small (Z.of_nat _)) by lia.
  destruct (Z.ltb_spec (Z.of_nat (length post)) n) as [Hlt|Hge].
  - rewrite !size_t_small by lia.
    set (newsize := Z.max _ _). set (sz := 100 + Z.of_nat (length l) + Z.of_nat (length post)) in *.
    destruct (Z.ltb_spec newsize sz) as [|Hns]; [unfold newsize in *; lia|].
    eexists _, pre, (post ++ replicate (Z.to_nat (newsize - sz)) "000"%char).
    split; [reflexivity|]. unfold buf_size. cbn [m_buf m_msg_start m_wptr].
    rewrite Hb, !app_assoc, !length_app, length_replicate.
    unfold newsize, sz in *. repeat split; [assumption..|lia|lia].
  - exists b, pre, post. repeat split; [assumption..|lia|assumption].
Qed.

Lemma append_held b l src : held b l ->
  Z.of_nat (length l) + Z.of_nat (length src) <= max_content ->
  exists b', append b src = Ok b' /\ held b' (l ++ src).
Proof.
  intros Hh Hm. unfold append.
  destruct (check_space_held (Z.of_nat (length src)) b l Hh ltac:(lia) Hm)
    as (b' & pre & post & -> & Hb & Hl & Hs & Hw & Hz & Hn). cbn [mbind result_bind].
  rewrite Hb, Hw. rewrite <-(take_drop (length src) post).
  rewrite (app_assoc pre).
  replace (RESERVE_FOR_SAM_HEADER + Z.of_nat (length l)) with (Z.of_nat (length (pre ++ l)))
    by (rewrite length_app; unfold RESERVE_FOR_SAM_HEADER; lia).
  rewrite memcpy_middle by (rewrite length_take; lia). cbn [mbind result_bind].
  eexists. split; [done|].
  unfold max_content, buf_size in *. rewrite Hb, !length_app in Hz.
  apply (Held _ _ pre (drop (length src) post)); cbn [m_buf m_msg_start m_wptr].
  - by rewrite <-!app_assoc.
  - done.
  - done.
  - rewrite !length_app, size_t_small; unfold RESERVE_FOR_SAM_HEADER; lia.
  - unfold buf_size; cbn [m_buf]. rewrite !length_app, length_drop. lia.
Qed.

Lemma append_char_append b c : append_char b c = append b [c].
Proof. done. Qed.

Lemma sam_header_SAM0101 t : MAX_MSG_LEN < t ->
  sam_header t = [MSG_START] ++ SAM0101 ++ [META_DELIM] ++ dec t.
Proof. intros H. unfold sam_header. destruct (Z.leb_spec t MAX_MSG_LEN); [lia|done]. Qed.

(** The length field: how many digits it takes and the length it says, for [n]
    bytes besides the field. *)
Lemma length_field n (d := Z.of_nat (length (dec n)))
    (t := if d <? Z.of_nat (length (dec (n + d))) then n + d + 1 else n + d) : 9 <= n <= 2 ^ 32 - 11 ->
  let digits := count_digits n in
  let full := size_t (n + digits) in
  (if digits <? count_digits full then (digits + 1, size_t (full + 1)) else (digits, full)) = (t - n, t) /\
  Z.of_nat (length (dec t)) = t - n /\ 1 <= t - n <= 11.
Proof.
  intros Hn. assert (1 <= d <= 10) as Hd.
  { destruct (dec_ndigits n ltac:(lia)) as (H1 & _).
    pose proof (length_dec_le n 10 ltac:(split; [lia|]; transitivity (2 ^ 32); [lia|done]) ltac:(lia)). lia. }
  cbv zeta. rewrite (count_digits_length n) by lia. fold d. rewrite (size_t_small (n + d)) by lia.
  rewrite (count_digits_length (n + d)) by lia. rewrite (length_fixup n d t ltac:(lia) eq_refl eq_refl).
  unfold t. destruct (d <? _); [rewrite size_t_small by lia|]; split_and!; (lia || f_equal; lia).
Qed.

(** The bytes of the header, with the version corrected afterwards. *)
Lemma write_header k old l post t : length old = (9 + length (dec t))%nat ->
  (t <= MAX_MSG_LEN -> Z.of_nat (length (dec t)) <= 5) ->
  exists buf, memcpy (Z.of_nat (length k)) ([MSG_START] ++ SAM0101 ++ [META_DELIM] ++ dec t) (k ++ old ++ l ++ post) = Ok buf /\
    (if (t <=? MAX_MSG_LEN) && (Z.of_nat (length (dec t)) <=? 5)
     then memcpy (Z.of_nat (length k) + 1) SAM0100 buf else Ok buf) = Ok (k ++ sam_header t ++ l ++ post).
Proof.
  intros Hold H5. rewrite memcpy_middle by (rewrite Hold, !length_app; simpl; lia). eexists. split; [done|].
  destruct (Z.leb_spec t MAX_MSG_LEN) as [Hsmall|Hbig]; cbn [andb].
  - rewrite (proj2 (Z.leb_le _ 5)) by auto.
    replace (Z.of_nat (length k) + 1) with (Z.of_nat (length (k ++ [MSG_START]))) by (rewrite length_app; simpl; lia).
    replace (k ++ ([MSG_START] ++ SAM0101 ++ [META_DELIM] ++ dec t) ++ l ++ post)
      with ((k ++ [MSG_START]) ++ SAM0101 ++ ([META_DELIM] ++ dec t) ++ l ++ post) by (by rewrite <-!app_assoc).
    rewrite memcpy_middle by done. unfold sam_header. destruct (Z.leb_spec t MAX_MSG_LEN); [|lia].
    by rewrite <-!app_assoc.
  - by rewrite sam_header_SAM0101.
Qed.

Lemma short_length_field t : 0 <= t -> t <= MAX_MSG_LEN -> Z.of_nat (length (dec t)) <= 5.
Proof. unfold MAX_MSG_LEN. intros. pose proof (length_dec_le t 5 ltac:(lia) ltac:(lia)). lia. Qed.

Lemma encode_header_held b l : held b l -> Z.of_nat (length l) <= max_content ->
  let t := total_length (Z.of_nat (length l)) in
  exists b', encode_header b = Ok b' /\ msg_bytes b' = sam_header t ++ l /\ msg_size b' = t.
Proof.
  intros [pre post Hb Hl Hs Hw Hz] Hm. unfold total_length; cbv zeta. unfold encode_header, max_content in *.
  set (n := Z.of_nat (length l) + 9).
  assert (msg_size b = Z.of_nat (length l)) as Hms by (unfold msg_size; rewrite Hw, Hs, size_t_small; lia).
  rewrite Hms, (size_t_small (_ + _)) by lia. change (1 + 7 + 1) with 9. fold n. cbv zeta.
  destruct (length_field n ltac:(lia)) as (Hlen & Hdig & Ht). cbv zeta in Hlen. rewrite Hlen.
  set (d := Z.of_nat (length (dec n))) in *. set (t := if d <? _ then n + d + 1 else n + d) in *.
  rewrite Hdig, !Z.eqb_refl. cbn [negb]. rewrite take_app_length' by lia.
  set (k := take (100 - 9 - length (dec t)) pre). set (old := drop (100 - 9 - length (dec t)) pre).
  assert (length k = (100 - 9 - length (dec t))%nat) as Hk by (unfold k; rewrite length_take; lia).
  assert (length old = (9 + length (dec t))%nat) as Hold by (unfold old; rewrite length_drop; lia).
  destruct (write_header k old l post t Hold (short_length_field t ltac:(lia))) as (buf & E1 & E2).
  assert (m_buf b = k ++ old ++ l ++ post) as Hbuf by (rewrite (app_assoc k); unfold k, old; by rewrite take_drop).
  rewrite Hs. unfold RESERVE_FOR_SAM_HEADER in *. rewrite (size_t_small (100 - _)) by lia.
  replace (100 - (9 + (t - n))) with (Z.of_nat (length k)) by lia.
  rewrite Hbuf, E1. cbn [mbind result_bind]. rewrite <-Hdig, E2. cbn [mbind result_bind].
  eexists. split; [reflexivity|].
  unfold msg_bytes, msg_size. cbn [m_buf m_msg_start m_wptr].
  assert (size_t (m_wptr b - Z.of_nat (length k)) = t) as -> by (rewrite Hw; rewrite size_t_small; lia).
  split; [|done]. rewrite Nat2Z.id, drop_app_length, (app_assoc (sam_header t)). apply take_app_length'.
  rewrite length_app. pose proof (length_sam_header t). lia.
Qed.

End DynamicSamBufferFacts.

#[global] Instance DynamicSamBuffer_laws : SamBufferLaws DynamicSamBuffer.t := {|
  holds := DynamicSamBufferFacts.held;
  append_holds := DynamicSamBufferFacts.append_held;
  append_char_holds b l c := DynamicSamBufferFacts.append_held b l [c];
  encode_header_holds := DynamicSamBufferFacts.encode_header_held |}.

(** * Properties *)

Fixpoint append_all (b : DynamicSamBuffer.t) (parts : list bytes) : result DynamicSamBuffer.t :=
  match parts with
  | [] => Ok b
  | p :: parts => b ← DynamicSamBuffer.append b p; append_all b parts
  end.

Lemma append_all_held parts b l : DynamicSamBufferFacts.held b l ->
  Z.of_nat (length l + length (concat parts)) <= max_content ->
  exists b', append_all b parts = Ok b' /\ DynamicSamBufferFacts.held b' (l ++ concat parts).
Proof.
  revert b l. induction parts as [|p parts IH]; intros b l Hb Hm; cbn [append_all concat] in *.
  { exists b. by rewrite app_nil_r. }
  rewrite length_app in Hm.
  destruct (DynamicSamBufferFacts.append_held b l p Hb) as (b1 & -> & Hb1); [lia|].
  cbn [mbind result_bind].
  destruct (IH b1 (l ++ p) Hb1) as (b2 & -> & Hb2); [rewrite length_app; lia|].
  exists b2. by rewrite app_assoc.
Qed.

(** The growing buffer implements the encoder's contract: whatever its
    initial reserve and however the content is cut into appended pieces, the
    message is the SAM header followed by the pieces, the length field counts
    every byte of the message including its own digits, and [msg_size] is the
    number of bytes. *)
Theorem dynamic_buffer_message (reserve : Z) (parts : list bytes) :
  0 <= reserve < 2 ^ 32 -> Z.of_nat (length (concat parts)) <= max_content ->
  exists b b' t, append_all (DynamicSamBuffer.new reserve) parts = Ok b /\
    DynamicSamBuffer.encode_header b = Ok b' /\
    DynamicSamBuffer.msg_bytes b' = sam_header t ++ concat parts /\
    DynamicSamBuffer.msg_size b' = t /\ t = Z.of_nat (length (DynamicSamBuffer.msg_bytes b')).
Proof.
  intros Hr Hm.
  destruct (append_all_held parts (DynamicSamBuffer.new reserve) []) as (b & E1 & Hb);
    [apply DynamicSamBufferFacts.new_held; lia|done|].
  destruct (DynamicSamBufferFacts.encode_header_held b _ Hb Hm) as (b' & E2 & Hbytes & Hsz).
  exists b, b', (total_length (Z.of_nat (length (concat parts)))). do 4 (split; [done|]).
  rewrite Hbytes, length_app, Nat2Z.inj_add, length_sam_header. cbn [app].
  pose proof (total_length_eq (Z.of_nat (length (concat parts))) ltac:(lia)). lia.
Qed.

Lemma dynamic_buffer_message_witness : exists b b' t,
  append_all (DynamicSamBuffer.new 3) [str ":hello:"; str "[]}"; [MSG_DELIM]] = Ok b /\
  DynamicSamBuffer.encode_header b = Ok b' /\
  DynamicSamBuffer.msg_bytes b' = sam_header t ++ concat [str ":hello:"; str "[]}"; [MSG_DELIM]] /\
  DynamicSamBuffer.msg_size b' = t /\ t = Z.of_nat (length (DynamicSamBuffer.msg_bytes b')).
Proof. apply (dynamic_buffer_message 3); [lia|]. vm_compute. discriminate. Defined.
