(* ===== verification/SamProtocol.v ===== *)
(** The SAM wire protocol: [SAMProtocol] of [sam.cc].

    The encoder writes through the [SamBuffer] interface; its size
    calculation mirrors it.  The decoder walks a region of memory with a
    pointer, modelled as an offset into the bytes [mem] that can be read, of
    which the first [len] are the data received. *)

From S2P Require Import Prelude Decimal Utils TxContainer SamBuffer.

Local Open Scope Z_scope.

(** * Characters that are escaped in values *)

(** [sam::SPECIAL_CHARS]. *)
Definition SPECIAL_CHARS : bytes :=
  [MSG_START; MSG_END; MSG_DELIM; SEQ_START; SEQ_END; FIELD_DELIM; VALUE_DELIM; META_DELIM; ESCAPE].

Definition isSpecialChar (c : ascii) : bool :=
  bool_decide (c = MSG_START) || bool_decide (c = MSG_END) || bool_decide (c = MSG_DELIM) ||
  bool_decide (c = SEQ_START) || bool_decide (c = SEQ_END) || bool_decide (c = FIELD_DELIM) ||
  bool_decide (c = VALUE_DELIM) || bool_decide (c = META_DELIM) || bool_decide (c = ESCAPE).

(** [strcspn(s, reject)] for a NUL-terminated [s]. *)
Fixpoint strcspn (s reject : bytes) : nat :=
  match s with
  | [] => O
  | c :: s' => if bool_decide (c ∈ "000"%char :: reject) then O else S (strcspn s' reject)
  end.

(** * Encoding *)

Section encoder.
Context {B : Type} `{SamBuffer B}.

Definition write_noescape (sb : B) (src : bytes) : result B := append sb src.
Definition write_noescape_char (sb : B) (c : ascii) : result B := append_char sb c.

(** The character by character loop of [write_str]. *)
Fixpoint write_str_loop (sb : B) (src : bytes) : result B :=
  match src with
  | [] => Ok sb
  | c :: src' =>
      sb ← (if isSpecialChar c then append_char sb ESCAPE else Ok sb);
      sb ← append_char sb c;
      write_str_loop sb src'
  end.

Definition write_str (sb : B) (s : string) : result B :=
  let src := str s in
  let len := length src in
  let accept := strcspn src SPECIAL_CHARS in
  if (accept =? len)%nat then append sb src
  else sb ← append sb (take accept src);
       write_str_loop sb (drop accept src).

Fixpoint encode_item (sb : B) (i : txItem) {struct i} : result B :=
  sb ← write_noescape sb (str (item_name i));
  sb ← write_noescape_char sb VALUE_DELIM;
  sb ← match i with
       | ItemContainer child => encode_contents sb child
       | ItemField field => write_str sb (f_value field)
       end;
  write_noescape_char sb FIELD_DELIM
with encode_contents (sb : B) (c : txContainer) {struct c} : result B :=
  match c with
  | TxContainer _ items _ _ =>
      sb ← write_noescape_char sb SEQ_START;
      sb ← (fix loop (sb : B) (l : list txItem) {struct l} : result B :=
              match l with
              | [] => Ok sb
              | i :: l' => sb ← encode_item sb i; loop sb l'
              end) sb items;
      write_noescape_char sb SEQ_END
  end.

(** [encodeMsg]: the number of bytes and the buffer afterwards. *)
Definition encodeMsg (msg : txMessage) (sb : B) : result (Z * B) :=
  sb ← write_noescape_char sb META_DELIM;
  sb ← write_noescape sb (str (msg_type msg));
  sb ← write_noescape_char sb META_DELIM;
  sb ← encode_contents sb (m_root msg);
  sb ← write_noescape_char sb MSG_END;
  sb ← write_noescape_char sb MSG_DELIM;
  sb ← encode_header sb;
  mret (msg_size sb, sb).

End encoder.

(** * Size calculation *)

Definition write_noescape_calc (srclen n : Z) : Z := size_t (n + srclen).
Definition write_noescape_calc_char (n : Z) : Z := size_t (n + 1).

Fixpoint write_str_calc_loop (src : bytes) (n : Z) : Z :=
  match src with
  | [] => n
  | c :: src' =>
      let n := if isSpecialChar c then size_t (n + 1) else n in
      write_str_calc_loop src' (size_t (n + 1))
  end.

Definition write_str_calc (s : string) (n : Z) : Z :=
  let src := str s in
  let len := length src in
  let accept := strcspn src SPECIAL_CHARS in
  if (accept =? len)%nat then size_t (n + Z.of_nat len)
  else write_str_calc_loop (drop accept src) (size_t (n + Z.of_nat accept)).

Fixpoint encode_item_calc (i : txItem) (n : Z) {struct i} : Z :=
  let n := write_noescape_calc (Z.of_nat (String.length (item_name i))) n in
  let n := write_noescape_calc_char n in
  let n := match i with
           | ItemContainer child => encode_contents_calc child n
           | ItemField field => write_str_calc (f_value field) n
           end in
  write_noescape_calc_char n
with encode_contents_calc (c : txContainer) (n : Z) {struct c} : Z :=
  match c with
  | TxContainer _ items _ _ =>
      let n := write_noescape_calc_char n in
      let n := (fix loop (l : list txItem) (n : Z) {struct l} : Z :=
                  match l with
                  | [] => n
                  | i :: l' => loop l' (encode_item_calc i n)
                  end) items n in
      write_noescape_calc_char n
  end.

Definition calc_encoded_size (msg : txMessage) : Z :=
  let n := 0 in
  let n := write_noescape_calc_char n in
  let n := write_noescape_calc 7 n in
  let n := write_noescape_calc_char n in
  let n := write_noescape_calc 5 n in
  let n := write_noescape_calc_char n in
  let n := write_noescape_calc (Z.of_nat (String.length (msg_type msg))) n in
  let n := write_noescape_calc_char n in
  let n := encode_contents_calc (m_root msg) n in
  let n := write_noescape_calc_char n in
  write_noescape_calc_char n.

Definition check_enc_size (msg : txMessage) (margin : Z) : bool :=
  size_t (calc_encoded_size msg + margin) <=? MAX_MSG_LEN.

(** * Decoding *)

Section decoder.
Context (mem : bytes).

(** [while (p < end and *p != delim) { if ( *p == ESCAPE) p++;
    if (p < end) s.append(1, *p); p++; }]: the final [p] and [s]. *)
Fixpoint scan (fuel : nat) (delim : ascii) (p end_ : nat) : result (nat * bytes) :=
  match fuel with
  | O => Throw out_of_fuel
  | S fuel =>
      if (p <? end_)%nat then
        c ← peek mem p;
        if bool_decide (c = delim) then Ok (p, [])
        else
          let p := if bool_decide (c = ESCAPE) then S p else p in
          s ← (if (p <? end_)%nat then c ← peek mem p; mret [c] else Ok []);
          '(q, rest) ← scan fuel delim (S p) end_;
          mret (q, s ++ rest)
      else Ok (p, [])
  end.

Definition fail {A} (error : string) : result A := Throw (runtime_error error).

(** The main loop of [decode], entered after the opening bracket. *)
Fixpoint decode_loop (fuel : nat) (parent : txContainer) (p end_ : nat) : result (nat * txContainer) :=
  match fuel with
  | O => Throw out_of_fuel
  | S fuel =>
      if (p <? end_)%nat then
        c ← peek mem p;
        if bool_decide (c = SEQ_END) then Ok (S p, parent)
        else
          '(p, fieldname) ← scan (S (end_ - p)) VALUE_DELIM p end_;
          if (end_ <=? p)%nat then fail "ran out of data, expected field-value-delim"
          else
            c ← peek mem p;
            if negb (bool_decide (c = VALUE_DELIM)) then fail "failed to find field-value-delim"
            else
              let fieldname := unstr fieldname in
              let p := S p in
              c ← peek mem p;
              '(p, parent) ←
                (if bool_decide (c = SEQ_START) then
                   let subcont := default (new_container fieldname) (find_child parent fieldname) in
                   '(p, subcont) ← decode_loop fuel subcont (S p) end_;
                   mret (p, put_child_with parent fieldname (fun _ => subcont))
                 else
                   '(p, value) ← scan (S (end_ - p)) FIELD_DELIM p end_;
                   mret (p, put_field parent fieldname (unstr value)));
              if (end_ <=? p)%nat then fail "ran out of data when expecting field delim"
              else
                c ← peek mem p;
                if negb (bool_decide (c = FIELD_DELIM)) then fail "expected field delim"
                else decode_loop fuel parent (S p) end_
      else Ok (p, parent)
  end.

Definition decode (parent : txContainer) (p end_ : nat) : result (nat * txContainer) :=
  decode_loop (S (end_ - S p)) parent (S p) end_.

Definition max_msglen : Z := 2147483647.

(** [while (p < end and isdigit( *p))]. *)
Fixpoint decode_msglen (fuel : nat) (p end_ : nat) (msglen : Z) : result (nat * Z) :=
  match fuel with
  | O => Throw out_of_fuel
  | S fuel =>
      if (p <? end_)%nat then
        c ← peek mem p;
        if isdigit c then
          let msglen := size_t (size_t (msglen * 10) + low_nibble c) in
          if max_msglen <? msglen then Throw (runtime_error "SAM message exceeds maximum length")
          else decode_msglen fuel (S p) end_ msglen
        else Ok (p, msglen)
      else Ok (p, msglen)
  end.

(** [decodeMsg(msg, start, len)]: the bytes consumed and the message
    afterwards. *)
Definition decodeMsg (msg : txMessage) (len : nat) : result (Z * txMessage) :=
  if (0 <? len)%nat then
    let head_len := (1 + 7 + 1)%nat in
    if (len <? head_len)%nat then Ok (0, msg)
    else
      c0 ← peek mem 0;
      c8 ← peek mem 8;
      if negb (bool_decide (c0 = MSG_START)) || negb (bool_decide (c8 = META_DELIM)) then
        Throw (runtime_error "bad SAM header")
      else
        let version := take 7 (drop 1 mem) in
        let sam_ver_supported :=
          bool_decide (version = SAM0100) || bool_decide (version = SAM0101) in
        '(p, msglen) ← decode_msglen (S len) head_len len 0;
        if (len <=? p)%nat then Ok (0, msg)
        else
          c ← peek mem p;
          if negb (bool_decide (c = META_DELIM)) then Throw (runtime_error "SAM header bad msglen")
          else if Z.of_nat len <? msglen then Ok (0, msg)
          else
            let msgend := Z.to_nat msglen in
            if sam_ver_supported then
              '(p, vs) ← scan (S (msgend - S p)) META_DELIM (S p) msgend;
              if (msgend <=? p)%nat then Throw (runtime_error "SAM header missing message type")
              else
                c ← peek mem p;
                if negb (bool_decide (c = META_DELIM))
                then Throw (runtime_error "SAM header missing message type")
                else
                  let msg := set_type (unstr vs) (reset msg) in
                  '(_, root) ← decode (m_root msg) (S p) msgend;
                  mret (msglen, TxMessage root)
            else Ok (msglen, msg)
  else Ok (0, msg).

End decoder.

(** * What the encoder writes *)

Definition escape_char (c : ascii) : bytes := if isSpecialChar c then [ESCAPE; c] else [c].
Definition escape (l : bytes) : bytes := flat_map escape_char l.

Fixpoint enc_item (i : txItem) : bytes :=
  str (item_name i) ++ [VALUE_DELIM] ++
  match i with
  | ItemContainer child => enc_contents child
  | ItemField field => escape (str (f_value field))
  end ++ [FIELD_DELIM]
with enc_contents (c : txContainer) : bytes :=
  match c with
  | TxContainer _ items _ _ => [SEQ_START] ++ flat_map enc_item items ++ [SEQ_END]
  end.

(** A message without its header: what follows the length field. *)
Definition enc_body (msg : txMessage) : bytes :=
  [META_DELIM] ++ str (msg_type msg) ++ [META_DELIM] ++ enc_contents (m_root msg) ++
  [MSG_END; MSG_DELIM].

(** The length on the wire and the wire form of a message. *)
Definition wire_length (msg : txMessage) : Z := total_length (Z.of_nat (length (enc_body msg))).
Definition wire (msg : txMessage) : bytes := sam_header (wire_length msg) ++ enc_body msg.

Lemma isSpecialChar_spec c : isSpecialChar c = bool_decide (c ∈ SPECIAL_CHARS).
Proof.
  destruct c as [[] [] [] [] [] [] [] []]; vm_compute; reflexivity.
Qed.

Lemma strcspn_le s r : (strcspn s r <= length s)%nat.
Proof. induction s as [|c s IH]; simpl; [lia|]. case_bool_decide; lia. Qed.

Lemma escape_strcspn s :
  escape s = take (strcspn s SPECIAL_CHARS) s ++ escape (drop (strcspn s SPECIAL_CHARS) s).
Proof.
  induction s as [|c s IH]; [done|]. cbn [strcspn].
  destruct (bool_decide_reflect (c ∈ "000"%char :: SPECIAL_CHARS)) as [|Hn]; [done|].
  cbn [take drop app]. rewrite <-IH. unfold escape. cbn [flat_map]. unfold escape_char at 1.
  rewrite isSpecialChar_spec, bool_decide_false by set_solver. done.
Qed.

Lemma escape_app k l : escape (k ++ l) = escape k ++ escape l.
Proof. apply flat_map_app. Qed.

Section encoder_spec.
Context {B : Type} `{SamBufferLaws B}.

(** The buffer operation [f] appends exactly [out]. *)
Definition writes (f : B -> result B) (out : bytes) : Prop :=
  forall b l, holds b l -> Z.of_nat (length l) + Z.of_nat (length out) <= max_content ->
  exists b', f b = Ok b' /\ holds b' (l ++ out).

Lemma writes_bind f g k l : writes f k -> writes g l -> writes (fun b => b ← f b; g b) (k ++ l).
Proof.
  intros Hf Hg b l0 Hb Hm. rewrite length_app in Hm.
  destruct (Hf b l0 Hb) as (b1 & E1 & Hb1); [lia|].
  destruct (Hg b1 _ Hb1) as (b2 & E2 & Hb2); [rewrite length_app; lia|].
  exists b2. rewrite app_assoc. split; [|done]. by rewrite E1.
Qed.

Lemma writes_nil : writes Ok [].
Proof. intros b l Hb _. exists b. by rewrite app_nil_r. Qed.

Lemma writes_append src : writes (fun b => append b src) src.
Proof. intros b l Hb Hm. by apply append_holds. Qed.

Lemma writes_append_char c : writes (fun b => append_char b c) [c].
Proof. intros b l Hb Hm. by apply append_char_holds. Qed.

Lemma writes_str_loop src : writes (fun b => write_str_loop b src) (escape src).
Proof.
  induction src as [|c src IH]; [apply writes_nil|].
  cbn [write_str_loop escape flat_map]. fold (escape src).
  assert (escape_char c = (if isSpecialChar c then [ESCAPE] else []) ++ [c]) as ->
    by (unfold escape_char; by destruct (isSpecialChar c)).
  rewrite <-app_assoc.
  apply (writes_bind (fun b => if isSpecialChar c then append_char b ESCAPE else Ok b)).
  - destruct (isSpecialChar c); [apply writes_append_char|apply writes_nil].
  - apply (writes_bind (fun b => append_char b c)); [apply writes_append_char|done].
Qed.

Lemma writes_str s : writes (fun b => write_str b s) (escape (str s)).
Proof.
  rewrite escape_strcspn. unfold write_str.
  destruct (Nat.eqb_spec (strcspn (str s) SPECIAL_CHARS) (length (str s))) as [E|E].
  - rewrite E, take_ge, drop_ge, app_nil_r by lia. apply writes_append.
  - apply (writes_bind (fun b => append b _)); [apply writes_append|apply writes_str_loop].
Qed.

Lemma writes_item_of it :
  match it with
  | ItemContainer c => writes (fun b => encode_contents b c) (enc_contents c)
  | ItemField _ => True
  end -> writes (fun b => encode_item b it) (enc_item it).
Proof.
  intros Hit.
  destruct it as [f|c]; cbn [encode_item enc_item];
    (apply (writes_bind (fun b => append b _)); [apply writes_append|]);
    (apply (writes_bind (fun b => append_char b _)); [apply writes_append_char|]).
  - apply (writes_bind (fun b => write_str b _)); [apply writes_str|apply writes_append_char].
  - apply (writes_bind (fun b => encode_contents b _)); [done|apply writes_append_char].
Qed.

Lemma writes_contents c : writes (fun b => encode_contents b c) (enc_contents c).
Proof.
  induction c as [n items fm cm IH] using txContainer_ind. cbn [encode_contents enc_contents].
  apply (writes_bind (fun b => append_char b _)); [apply writes_append_char|].
  eapply (writes_bind _ (fun b => append_char b _)); [|apply writes_append_char].
  induction IH as [|it items Hit _ IHl]; [apply writes_nil|]. cbn [flat_map].
  apply (writes_bind (fun b => encode_item b it)); [|done].
  apply writes_item_of. by destruct it.
Qed.

(** [encodeMsg] leaves the wire form of the message in the buffer. *)
Lemma encodeMsg_wire msg b : holds b [] -> Z.of_nat (length (enc_body msg)) <= max_content ->
  exists b', encodeMsg msg b = Ok (wire_length msg, b') /\ msg_bytes b' = wire msg.
Proof.
  intros Hb Hm.
  assert (writes (fun sb =>
    sb ← write_noescape_char sb META_DELIM; sb ← write_noescape sb (str (msg_type msg));
    sb ← write_noescape_char sb META_DELIM; sb ← encode_contents sb (m_root msg);
    sb ← write_noescape_char sb MSG_END; write_noescape_char sb MSG_DELIM) (enc_body msg)) as Hw.
  { apply (writes_bind (fun b => append_char b _)); [apply writes_append_char|].
    apply (writes_bind (fun b => append b _)); [apply writes_append|].
    apply (writes_bind (fun b => append_char b _)); [apply writes_append_char|].
    apply (writes_bind (fun b => encode_contents b _)); [apply writes_contents|].
    apply (writes_bind (fun b => append_char b _) _ [_] [_]); apply writes_append_char. }
  destruct (Hw b [] Hb Hm) as (b1 & E1 & Hb1). cbn [app] in Hb1.
  destruct (encode_header_holds b1 _ Hb1 Hm) as (b2 & E2 & Hbytes & Hsz).
  exists b2. split; [|done]. inv_ok. unfold encodeMsg, wire_length. rewrite <-Hsz. by run_ok.
Qed.
End encoder_spec.

Lemma length_wire msg : Z.of_nat (length (wire msg)) = wire_length msg.
Proof.
  unfold wire. rewrite length_app, Nat2Z.inj_add, length_sam_header. unfold wire_length.
  pose proof (total_length_eq (Z.of_nat (length (enc_body msg))) ltac:(lia)). lia.
Qed.

(** * The size calculation *)

(** [f] adds [k] to the running count. *)
Definition counts (f : Z -> Z) (k : nat) : Prop :=
  forall n, f (size_t n) = size_t (n + Z.of_nat k).

Lemma size_t_add a b : size_t (size_t a + b) = size_t (a + b).
Proof. unfold size_t, wrap. by rewrite Z.add_mod_idemp_l. Qed.

Lemma counts_add k : counts (write_noescape_calc (Z.of_nat k)) k.
Proof. intros n. apply size_t_add. Qed.

Lemma counts_char : counts write_noescape_calc_char 1.
Proof. apply (counts_add 1). Qed.

Lemma counts_str_loop src : counts (write_str_calc_loop src) (length (escape src)).
Proof.
  induction src as [|c src IH]; intros n; cbn [write_str_calc_loop escape flat_map].
  { by rewrite Z.add_0_r. }
  fold (escape src). rewrite length_app. unfold escape_char.
  assert (forall k, size_t (size_t k + 1) = size_t (k + 1)) as Ha by (intros; apply size_t_add).
  destruct (isSpecialChar c); rewrite (Ha n), ?Ha, IH; cbn [length]; f_equal; lia.
Qed.

Lemma counts_str s : counts (write_str_calc s) (length (escape (str s))).
Proof.
  intros n. rewrite escape_strcspn, length_app. unfold write_str_calc.
  pose proof (strcspn_le (str s) SPECIAL_CHARS) as Hle. rewrite !size_t_add, length_take_le by lia.
  destruct (Nat.eqb_spec (strcspn (str s) SPECIAL_CHARS) (length (str s))) as [E|E].
  - rewrite E, (drop_ge _ (length _)) by lia. simpl. f_equal. lia.
  - rewrite counts_str_loop. f_equal. lia.
Qed.

Lemma counts_item_of it :
  match it with
  | ItemContainer c => counts (encode_contents_calc c) (length (enc_contents c))
  | ItemField _ => True
  end -> counts (encode_item_calc it) (length (enc_item it)).
Proof.
  intros Hit n. destruct it as [f|c]; cbn [encode_item_calc enc_item item_name];
    rewrite !length_app, <-length_str, counts_add, counts_char, ?counts_str, ?Hit, counts_char;
    f_equal; cbn [length]; lia.
Qed.

Lemma counts_contents c : counts (encode_contents_calc c) (length (enc_contents c)).
Proof.
  induction c as [m items fm cm IH] using txContainer_ind. intros n.
  cbn [encode_contents_calc enc_contents]. rewrite counts_char, !length_app.
  match goal with |- write_noescape_calc_char (?f items _) = _ => set (loop := f) end.
  assert (counts (loop items) (length (flat_map enc_item items))) as Hloop.
  { induction IH as [|it items Hit _ IHl]; intros k; cbn [loop flat_map].
    - by rewrite Z.add_0_r.
    - rewrite length_app, counts_item_of by (by destruct it). fold loop. rewrite IHl. f_equal. lia. }
  rewrite Hloop, counts_char. f_equal. cbn [length]. lia.
Qed.

(** The calculated size counts five digits for the length field, whatever
    the message's length. *)
Lemma calc_encoded_size_eq msg :
  calc_encoded_size msg = size_t (14 + Z.of_nat (length (enc_body msg))).
Proof.
  unfold calc_encoded_size. change 0 with (size_t 0). change 7 with (Z.of_nat 7).
  change 5 with (Z.of_nat 5). rewrite <-length_str. unfold enc_body. rewrite !length_app.
  do 5 rewrite ?counts_char, ?counts_add. rewrite counts_contents, !counts_char.
  f_equal. cbn [length]. lia.
Qed.

(** A content that leaves room for five digits is sent in at most that room. *)
Lemma total_length_small n : 0 <= n -> 14 + n <= MAX_MSG_LEN -> total_length n <= 14 + n.
Proof.
  unfold MAX_MSG_LEN. intros Hn Hm.
  destruct (Z.le_gt_cases (total_length n) (14 + n)) as [|Hgt]; [done|exfalso].
  pose proof (total_length_eq n Hn) as He.
  assert (length (dec (n + 9)) <= 5)%nat by (apply length_dec_le; lia).
  assert (length (dec (n + 9 + Z.of_nat (length (dec (n + 9))))) <= 5)%nat
    by (apply length_dec_le; lia).
  unfold total_length in Hgt, He.
  destruct (Z.ltb_spec (Z.of_nat (length (dec (n + 9))))
    (Z.of_nat (length (dec (n + 9 + Z.of_nat (length (dec (n + 9)))))))); lia.
Qed.

(** * The decoder is total and stays inside the buffer *)

(** Neither undefined behaviour nor a lack of fuel: a value or an exception
    of the code. *)
Definition defined {A} (r : result A) : Prop :=
  match r with Throw (undefined_behaviour _) | Throw out_of_fuel => False | _ => True end.

Lemma peek_lt mem p : (p < length mem)%nat -> exists c, peek mem p = Ok c.
Proof.
  intros Hp. destruct (lookup_lt_is_Some_2 mem p Hp) as [c Hc]. exists c. by apply peek_Ok.
Qed.

Lemma scan_total mem fuel delim p end_ : (end_ <= length mem)%nat -> (end_ - p < fuel)%nat ->
  exists q s, scan mem fuel delim p end_ = Ok (q, s) /\ (p <= q)%nat /\
    ((q < end_)%nat -> peek mem q = Ok delim).
Proof.
  intros He. revert p. induction fuel as [|fuel IH]; intros p Hf; [lia|]. cbn [scan].
  destruct (Nat.ltb_spec p end_) as [Hp|Hp]; [|exists p, []; split; [done|split; [lia|lia]]].
  destruct (peek_lt mem p) as [c Hc]; [lia|]. rewrite Hc. cbn [mbind result_bind].
  destruct (bool_decide_reflect (c = delim)) as [->|Hne]; [exists p, []; split; [done|split; [lia|done]]|].
  set (p' := if bool_decide (c = ESCAPE) then S p else p).
  assert (p <= p')%nat by (unfold p'; case_bool_decide; lia).
  assert (exists s, (if (p' <? end_)%nat then c ← peek mem p'; mret [c] else Ok []) = Ok s) as [s ->].
  { destruct (Nat.ltb_spec p' end_); [|by eexists].
    destruct (peek_lt mem p') as [c' ->]; [lia|]. by eexists. }
  cbn [mbind result_bind].
  destruct (IH (S p')) as (q & s' & -> & Hq & Hd); [lia|].
  exists q, (s ++ s'). split; [done|]. split; [lia|done].
Qed.

(** The outcome of decoding [mem] up to [end_]: a value, an exception with a
    short text, or, when nothing can be read after the data, the read of the
    byte after it. *)
Definition decodes_or_fails {A} (mem : bytes) (end_ : nat) (r : result A) : Prop :=
  match r with
  | Ok _ => True
  | Throw (runtime_error text) => (String.length text <= 64)%nat
  | Throw (undefined_behaviour what) => what = "read outside the buffer" /\ length mem = end_
  | Throw _ => False
  end.

Lemma decodes_or_fails_defined {A} mem end_ (r : result A) : (end_ < length mem)%nat ->
  decodes_or_fails mem end_ r -> defined r.
Proof. intros Hl. destruct r as [a|[]]; cbn; try done. lia. Qed.

Lemma decode_loop_outcome mem fuel parent p end_ :
  (end_ <= length mem)%nat -> (end_ - p < fuel)%nat ->
  decodes_or_fails mem end_ (decode_loop mem fuel parent p end_) /\
  forall q c, decode_loop mem fuel parent p end_ = Ok (q, c) -> (p <= q)%nat.
Proof.
  intros He. revert parent p. induction fuel as [|fuel IH]; intros parent p Hf; [lia|].
  cbn [decode_loop]. destruct (Nat.ltb_spec p end_) as [Hp|Hp]; [|split; [done|by intros ?? [= <- <-]]].
  destruct (peek_lt mem p) as [c ->]; [lia|]. cbn [mbind result_bind].
  case_bool_decide; [split; [done|intros ?? [= <- <-]; lia]|].
  destruct (scan_total mem (S (end_ - p)) VALUE_DELIM p end_) as (p1 & name & -> & Hp1 & Hd);
    [lia..|]. cbn [mbind result_bind].
  destruct (Nat.leb_spec end_ p1); [split; [cbn; lia|done]|]. rewrite Hd by lia. cbn [mbind result_bind].
  rewrite bool_decide_true by done. cbn [negb].
  destruct (decide (S p1 = length mem)) as [Hlast|Hlast].
  { assert (peek mem (S p1) = Throw (undefined_behaviour "read outside the buffer")) as ->
      by (unfold peek; rewrite lookup_ge_None_2 by lia; done).
    split; [split; [done|lia]|done]. }
  destruct (peek_lt mem (S p1)) as [c2 ->]; [lia|]. cbn [mbind result_bind].
  match goal with |- context [mbind _ ?m] => set (step := m) end.
  assert (decodes_or_fails mem end_ step /\ forall q c, step = Ok (q, c) -> (S p1 <= q)%nat) as [Hs Hq].
  { unfold step. case_bool_decide.
    - destruct (IH (default (new_container (unstr name)) (find_child parent (unstr name))) (S (S p1)))
        as [Hr Hq]; [lia|].
      destruct (decode_loop _ _ _ _ _) as [[q sub]|e]; cbn [mbind result_bind]; [|done].
      split; [done|]. intros ?? [= <- <-]. specialize (Hq q sub eq_refl). lia.
    - destruct (scan_total mem (S (end_ - S p1)) FIELD_DELIM (S p1) end_) as (q & v & -> & Hq & _);
        [lia..|]. cbn [mbind result_bind]. split; [done|]. by intros ?? [= <- <-]. }
  destruct step as [[q par]|e]; cbn [mbind result_bind]; [|done].
  specialize (Hq q par eq_refl). destruct (Nat.leb_spec end_ q); [split; [cbn; lia|done]|].
  destruct (peek_lt mem q) as [c3 ->]; [lia|]. cbn [mbind result_bind].
  case_bool_decide; cbn [negb]; [|split; [cbn; lia|done]].
  destruct (IH par (S q)) as [Hr Hq']; [lia|]. split; [done|].
  intros ?? E. apply Hq' in E. lia.
Qed.

Lemma decode_msglen_total mem fuel p end_ n : (end_ <= length mem)%nat -> (end_ - p < fuel)%nat ->
  0 <= n <= max_msglen -> decodes_or_fails mem end_ (decode_msglen mem fuel p end_ n) /\
  forall q k, decode_msglen mem fuel p end_ n = Ok (q, k) -> (p <= q)%nat /\ 0 <= k <= max_msglen.
Proof.
  intros He. revert p n. induction fuel as [|fuel IH]; intros p n Hf Hn; [lia|]. cbn [decode_msglen].
  destruct (Nat.ltb_spec p end_) as [Hp|Hp]; [|split; [done|intros ?? [= <- <-]; lia]].
  destruct (peek_lt mem p) as [c ->]; [lia|]. cbn [mbind result_bind].
  destruct (isdigit c) eqn:Hc; [|split; [done|intros ?? [= <- <-]; lia]].
  destruct (Z.ltb_spec max_msglen (size_t (size_t (n * 10) + low_nibble c))); [split; [cbn; lia|done]|].
  destruct (IH (S p) (size_t (size_t (n * 10) + low_nibble c))) as [H1 H2]; [lia| |].
  { split; [|done]. apply (wrap_bounds 64). lia. }
  split; [done|]. intros q k E. apply H2 in E. lia.
Qed.

(** [decodeMsg] on [len] readable bytes, whatever they are. *)
Lemma decodeMsg_outcome mem msg len : (len <= length mem)%nat -> decodes_or_fails mem len (decodeMsg mem msg len).
Proof.
  intros Hl. unfold decodeMsg. destruct (Nat.ltb_spec 0 len) as [H0|]; [|done].
  change (1 + 7 + 1)%nat with 9%nat. destruct (Nat.ltb_spec len 9) as [|H9]; [done|].
  destruct (peek_lt mem 0) as [c0 ->]; [lia|]. destruct (peek_lt mem 8) as [c8 ->]; [lia|].
  cbn [mbind result_bind]. destruct (negb (bool_decide (c0 = MSG_START)) || _); [cbn; lia|].
  destruct (decode_msglen_total mem (S len) 9 len 0) as [Hd Hq]; [lia|lia|done|].
  destruct (decode_msglen mem (S len) 9 len 0) as [[p n]|e]; cbn [mbind result_bind]; [|done].
  destruct (Hq p n eq_refl) as [Hp Hn]. destruct (Nat.leb_spec len p); [done|].
  destruct (peek_lt mem p) as [c ->]; [lia|]. cbn [mbind result_bind].
  destruct (negb (bool_decide (c = META_DELIM))); [cbn; lia|].
  destruct (Z.ltb_spec (Z.of_nat len) n); [done|]. destruct (bool_decide _ || _); [|done].
  destruct (scan_total mem (S (Z.to_nat n - S p)) META_DELIM (S p) (Z.to_nat n))
    as (q & vs & -> & Hpq & Hdel); [lia..|]. cbn [mbind result_bind].
  destruct (Nat.leb_spec (Z.to_nat n) q); [cbn; lia|]. rewrite Hdel by lia. cbn [mbind result_bind].
  rewrite bool_decide_true by done. cbn [negb]. unfold decode.
  destruct (decode_loop_outcome mem (S (Z.to_nat n - S (S q)))
    (m_root (set_type (unstr vs) (reset msg))) (S (S q)) (Z.to_nat n)) as [Hr _]; [lia..|].
  destruct (decode_loop _ _ _ _ _) as [[]|[]]; cbn in *; try done. split; [apply Hr|lia].
Qed.

(** Given one readable byte after the data, [decodeMsg] ends with a value or
    one of its own exceptions, whatever the bytes. *)
Lemma decodeMsg_total mem msg len : (len < length mem)%nat -> defined (decodeMsg mem msg len).
Proof. intros Hl. apply (decodes_or_fails_defined mem len); [done|]. apply decodeMsg_outcome. lia. Qed.

(** What [decodeMsg] consumes is within the data. *)
Lemma decodeMsg_consumed mem msg len n msg' : (len <= length mem)%nat ->
  decodeMsg mem msg len = Ok (n, msg') -> 0 <= n <= Z.of_nat len.
Proof.
  intros Hl E. unfold decodeMsg in E. destruct (Nat.ltb_spec 0 len); [|injection E as <- <-; lia].
  change (1 + 7 + 1)%nat with 9%nat in E.
  destruct (Nat.ltb_spec len 9); [injection E as <- <-; lia|].
  inv_ok. destruct (negb _ || _); [done|]. inv_ok. destruct a1 as [p k].
  destruct (decode_msglen_total mem (S len) 9 len 0) as [_ Hq]; [lia|lia|done|].
  destruct (Hq p k E2) as [_ Hk].
  destruct (Nat.leb_spec len p); [injection E as <- <-; lia|]. inv_ok.
  destruct (negb _); [done|]. destruct (Z.ltb_spec (Z.of_nat len) k); [injection E as <- <-; lia|].
  destruct (_ || _); [|injection E as <- <-; lia]. inv_ok. destruct a2. 
  destruct (_ <=? _)%nat; [done|]. inv_ok. destruct (negb _); [done|]. inv_ok. destruct a3.
  injection E as <- <-. lia.
Qed.

(** * Decoding what was encoded *)

(** Names and types are written without escaping; the decoder reads them back
    when they hold no delimiter and no escape character. *)
Definition clean_name (s : string) : bool :=
  bool_decide (VALUE_DELIM ∉ str s) && bool_decide (ESCAPE ∉ str s) &&
  bool_decide (head (str s) <> Some SEQ_END).
Definition clean_type (s : string) : bool :=
  bool_decide (META_DELIM ∉ str s) && bool_decide (ESCAPE ∉ str s).
Fixpoint clean_item (i : txItem) : bool :=
  clean_name (item_name i) &&
  match i with ItemField _ => true | ItemContainer c => clean_contents c end
with clean_contents (c : txContainer) : bool :=
  match c with TxContainer _ items _ _ => forallb clean_item items end.
Definition clean (msg : txMessage) : bool :=
  clean_type (msg_type msg) && clean_contents (m_root msg).

(** [e] encodes a character so that a scan for [delim] reads it back. *)
Definition scannable (e : ascii -> bytes) (delim c : ascii) : Prop :=
  (e c = [ESCAPE; c] /\ ESCAPE <> delim) \/ (e c = [c] /\ c <> delim /\ c <> ESCAPE).

Lemma scan_enc e delim tok : Forall (scannable e delim) tok -> forall pre rest fuel end_,
  (length pre + length (flat_map e tok) < end_)%nat -> (length (flat_map e tok) < fuel)%nat ->
  scan (pre ++ flat_map e tok ++ delim :: rest) fuel delim (length pre) end_ =
  Ok ((length pre + length (flat_map e tok))%nat, tok).
Proof.
  induction 1 as [|c tok Hc Htok IH]; intros pre rest fuel end_ He Hf;
    (destruct fuel as [|fuel]; [lia|]); cbn [scan flat_map] in *;
    (destruct (Nat.ltb_spec (length pre) end_); [|simpl in *; lia]).
  { cbn [app]. rewrite peek_middle. cbn [mbind result_bind]. rewrite bool_decide_true by done.
    simpl. by rewrite Nat.add_0_r. }
  rewrite length_app in *. specialize (IH (pre ++ e c) rest).
  rewrite <-app_assoc, length_app in IH. rewrite <-app_assoc.
  destruct Hc as [[Ec Hne]|(Ec & Hne & Hesc)]; rewrite Ec in *; cbn [app length] in *;
    rewrite peek_middle; cbn [mbind result_bind].
  - rewrite bool_decide_false, bool_decide_true by done.
    destruct (Nat.ltb_spec (S (length pre)) end_); [|lia].
    rewrite (cons_middle ESCAPE), app_assoc.
    replace (S (length pre)) with (length (pre ++ [ESCAPE])) by (rewrite length_app; simpl; lia).
    rewrite peek_middle. cbn [mbind result_bind mret result_ret].
    rewrite length_app, <-app_assoc. cbn [app length].
    replace (S (length pre + 1)) with (length pre + 2)%nat by lia.
    rewrite IH by lia. cbn [mbind result_bind]. unfold mret, result_ret. do 2 f_equal. lia.
  - rewrite !bool_decide_false by done.
    destruct (Nat.ltb_spec (length pre) end_); [|lia].
    rewrite peek_middle. cbn [mbind result_bind mret result_ret].
    replace (S (length pre)) with (length pre + 1)%nat by lia.
    rewrite IH by lia. cbn [mbind result_bind]. unfold mret, result_ret. do 2 f_equal. lia.
Qed.

Lemma flat_map_singleton (l : bytes) : flat_map (fun c => [c]) l = l.
Proof. induction l; simpl; congruence. Qed.

Lemma scan_plain delim tok pre rest fuel end_ : delim ∉ tok -> ESCAPE ∉ tok ->
  (length pre + length tok < end_)%nat -> (length tok < fuel)%nat ->
  scan (pre ++ tok ++ delim :: rest) fuel delim (length pre) end_ =
  Ok ((length pre + length tok)%nat, tok).
Proof.
  intros Hd He H1 H2. pose proof (scan_enc (fun c => [c]) delim tok) as Hs.
  rewrite flat_map_singleton in Hs. apply Hs; [|done|done].
  apply Forall_forall. intros c Hc. right. split; [done|]. split; intros ->; done.
Qed.

Lemma scan_escaped tok pre rest fuel end_ :
  (length pre + length (escape tok) < end_)%nat -> (length (escape tok) < fuel)%nat ->
  scan (pre ++ escape tok ++ FIELD_DELIM :: rest) fuel FIELD_DELIM (length pre) end_ =
  Ok ((length pre + length (escape tok))%nat, tok).
Proof.
  intros H1 H2. apply scan_enc; [|done|done]. apply Forall_forall. intros c _. unfold scannable, escape_char.
  destruct (isSpecialChar c) eqn:E; [by left|right]. split; [done|].
  rewrite isSpecialChar_spec in E. apply bool_decide_eq_false in E. split; intros ->; set_solver.
Qed.

Lemma escape_head l : head (escape l) <> Some SEQ_START.
Proof.
  destruct l as [|c l]; [done|]. cbn [escape flat_map]. unfold escape_char.
  destruct (isSpecialChar c) eqn:E; [done|]. intros [= ->]. vm_compute in E. done.
Qed.

(** The loop of [decode] on the items of [d] merges them into the parent. *)
Definition decodes (d : txContainer) : Prop :=
  forall fuel pre rest parent end_, wf parent ->
  (length pre + length (flat_map enc_item (m_items d)) < end_)%nat ->
  (length (flat_map enc_item (m_items d)) < fuel)%nat ->
  decode_loop (pre ++ flat_map enc_item (m_items d) ++ SEQ_END :: rest) fuel parent (length pre) end_ =
  Ok (S (length pre + length (flat_map enc_item (m_items d))), foldl merge_item parent (m_items d)).

Lemma clean_name_spec s : clean_name s = true ->
  (VALUE_DELIM ∉ str s) /\ (ESCAPE ∉ str s) /\ head (str s) <> Some SEQ_END.
Proof. unfold clean_name. rewrite !andb_true_iff, !bool_decide_eq_true. tauto. Qed.

(** The name of an item and the delimiter after it are read. *)
Lemma decode_item_name name pre rest end_ mem : mem = pre ++ str name ++ VALUE_DELIM :: rest ->
  clean_name name = true -> (length pre + length (str name) < end_)%nat ->
  (exists c, peek mem (length pre) = Ok c /\ c <> SEQ_END) /\
  scan mem (S (end_ - length pre)) VALUE_DELIM (length pre) end_ =
    Ok ((length pre + length (str name))%nat, str name) /\
  peek mem (length pre + length (str name)) = Ok VALUE_DELIM /\
  peek mem (S (length pre + length (str name))) = peek rest 0.
Proof.
  intros -> (Hv & He & Hh)%clean_name_spec Hend. repeat split.
  - destruct (str name) as [|c l]; cbn [app]; rewrite peek_middle; eexists; (split; [done|]); [done|].
    intros ->. done.
  - apply scan_plain; [done|done|done|lia].
  - rewrite app_assoc, <-length_app. apply peek_middle.
  - rewrite app_assoc, peek_app_r by (rewrite length_app; lia). rewrite length_app.
    by replace (S (length pre + length (str name)) - (length pre + length (str name)))%nat with 1%nat by lia.
Qed.

Lemma put_child_with_found parent n g : indexed parent ->
  put_child_with parent n (fun _ => g (default (new_container n) (find_child parent n))) =
  put_child_with parent n g.
Proof.
  intros Hp. unfold put_child_with. destruct (m_child_map parent !! n) as [i|] eqn:Hi.
  - unfold find_child. rewrite Hi. simpl. unfold alter_child, alter_item. f_equal.
    destruct (idx_child parent Hp _ _ Hi) as (d & Hd & _).
    apply list_alter_ext; [|done]. intros it Hit. rewrite Hd in Hit. injection Hit as <-.
    unfold child_at. by rewrite Hd.
  - unfold find_child. by rewrite Hi.
Qed.

(** What the encoder writes between an item's delimiters. *)
Definition enc_value (it : txItem) : bytes :=
  match it with
  | ItemContainer child => enc_contents child
  | ItemField field => escape (str (f_value field))
  end.

Lemma enc_item_eq it : enc_item it = str (item_name it) ++ [VALUE_DELIM] ++ enc_value it ++ [FIELD_DELIM].
Proof. by destruct it. Qed.

(** The value of an item is read and merged into the parent. *)
Lemma decode_value it fuel pre rest parent end_ mem :
  mem = pre ++ enc_value it ++ FIELD_DELIM :: rest ->
  item_all wf it -> item_all decodes it -> wf parent ->
  (length pre + length (enc_value it) < end_)%nat -> (length (enc_value it) <= fuel)%nat ->
  exists c1, peek (enc_value it ++ FIELD_DELIM :: rest) 0 = Ok c1 /\
    (if bool_decide (c1 = SEQ_START) then
       '(p, subcont) ← decode_loop mem fuel
          (default (new_container (item_name it)) (find_child parent (item_name it)))
          (S (length pre)) end_;
       mret (p, put_child_with parent (item_name it) (fun _ => subcont))
     else
       '(p, value) ← scan mem (S (end_ - length pre)) FIELD_DELIM (length pre) end_;
       mret (p, put_field parent (item_name it) (unstr value)))
    = Ok ((length pre + length (enc_value it))%nat, merge_item parent it).
Proof.
  intros Emem Hw Hd Hp He Hf. destruct it as [f|d]; cbn [enc_value item_name] in *.
  - assert (exists c1, peek (escape (str (f_value f)) ++ FIELD_DELIM :: rest) 0 = Ok c1 /\
      c1 <> SEQ_START) as (c1 & Hc1 & Hne).
    { pose proof (escape_head (str (f_value f))) as Hh.
      destruct (escape (str (f_value f))) as [|c l]; eexists; (split; [reflexivity|]); [done|].
      intros ->. done. }
    exists c1. split; [done|]. rewrite bool_decide_false by done.
    rewrite Emem, scan_escaped by lia. cbn [mbind result_bind]. by rewrite unstr_str.
  - destruct d as [n items fm cm]. cbn [enc_contents app] in *. exists SEQ_START. split; [done|].
    rewrite bool_decide_true by done. set (d := TxContainer n items fm cm) in *.
    assert (mem = (pre ++ [SEQ_START]) ++ flat_map enc_item (m_items d) ++
      SEQ_END :: FIELD_DELIM :: rest) as Emem2.
    { rewrite Emem. cbn [app m_items d]. by rewrite <-!app_assoc. }
    rewrite length_cons, length_app in *. cbn [length] in *.
    replace (S (length pre)) with (length (pre ++ [SEQ_START])) by (rewrite length_app; simpl; lia).
    rewrite Emem2, Hd.
    + cbn [mbind result_bind]. rewrite (merge_item_put parent (ItemContainer d)) by done.
      rewrite <-merge_foldl, (put_child_with_found parent (m_name d) (fun c => merge c d))
        by auto with exio. unfold mret, result_ret.
      do 2 f_equal. rewrite length_app. cbn [m_items d length]. lia.
    + destruct (find_child parent (m_name d)) eqn:Ed; simpl; [by apply (find_child_wf _ _ _ Hp Ed)|].
      apply wf_new_container.
    + rewrite length_app. cbn [m_items d length]. lia.
    + cbn [m_items d]. lia.
Qed.

Lemma decode_item it fuel pre rest parent end_ :
  clean_item it = true -> item_all wf it -> item_all decodes it -> wf parent ->
  (length pre + length (enc_item it) <= end_)%nat -> (length (enc_item it) <= S fuel)%nat ->
  decode_loop (pre ++ enc_item it ++ rest) (S fuel) parent (length pre) end_ =
  decode_loop (pre ++ enc_item it ++ rest) fuel (merge_item parent it)
    (length pre + length (enc_item it)) end_.
Proof.
  intros Hc Hw Hd Hp He Hf. set (mem := pre ++ enc_item it ++ rest).
  assert (clean_name (item_name it) = true) as Hn by (destruct it; apply andb_true_iff in Hc; tauto).
  assert (mem = pre ++ str (item_name it) ++ VALUE_DELIM :: enc_value it ++ FIELD_DELIM :: rest) as Emem.
  { unfold mem. by rewrite enc_item_eq, <-!app_assoc. }
  assert (length (enc_item it) = length (str (item_name it)) + length (enc_value it) + 2)%nat as Elen.
  { rewrite enc_item_eq, !length_app. simpl. lia. }
  destruct (decode_item_name (item_name it) pre _ end_ mem Emem Hn) as ((c & Hc0 & Hcn) & Hs & Hv & Hnx);
    [lia|].
  cbn [decode_loop]. destruct (Nat.ltb_spec (length pre) end_); [|lia].
  rewrite Hc0. cbn [mbind result_bind]. rewrite bool_decide_false by done.
  rewrite Hs. cbn [mbind result_bind].
  destruct (Nat.leb_spec end_ (length pre + length (str (item_name it)))); [lia|].
  rewrite Hv. cbn [mbind result_bind]. rewrite bool_decide_true by done. cbn [negb].
  rewrite Hnx, unstr_str.
  set (pre2 := pre ++ str (item_name it) ++ [VALUE_DELIM]).
  assert (mem = pre2 ++ enc_value it ++ FIELD_DELIM :: rest) as Emem2.
  { rewrite Emem. unfold pre2. by rewrite <-!app_assoc. }
  assert (S (length pre + length (str (item_name it))) = length pre2) as Epos.
  { unfold pre2. rewrite !length_app. simpl. lia. }
  destruct (decode_value it fuel pre2 rest parent end_ mem Emem2 Hw Hd Hp) as (c1 & Hc1 & Hstep);
    [lia..|].
  rewrite Hc1, Epos. cbn [mbind result_bind]. rewrite Hstep. cbn [mbind result_bind].
  destruct (Nat.leb_spec end_ (length pre2 + length (enc_value it))); [lia|].
  assert (peek mem (length pre2 + length (enc_value it)) = Ok FIELD_DELIM) as ->.
  { rewrite Emem2, app_assoc, <-length_app. apply peek_middle. }
  cbn [mbind result_bind]. rewrite bool_decide_true by done. cbn [negb].
  f_equal. lia.
Qed.

Lemma decode_items l : forallb clean_item l = true -> Forall (item_all wf) l ->
  Forall (item_all decodes) l -> forall fuel pre rest parent end_, wf parent ->
  (length pre + length (flat_map enc_item l) < end_)%nat ->
  (length (flat_map enc_item l) < fuel)%nat ->
  decode_loop (pre ++ flat_map enc_item l ++ SEQ_END :: rest) fuel parent (length pre) end_ =
  Ok (S (length pre + length (flat_map enc_item l)), foldl merge_item parent l).
Proof.
  intros Hc Hw Hd. induction l as [|it l IH]; intros fuel pre rest parent end_ Hp He Hf;
    cbn [flat_map foldl app length] in *.
  - destruct fuel as [|fuel]; [lia|]. cbn [decode_loop].
    destruct (Nat.ltb_spec (length pre) end_); [|lia].
    rewrite peek_middle. cbn [mbind result_bind]. rewrite bool_decide_true by done.
    by rewrite Nat.add_0_r.
  - apply andb_true_iff in Hc as [Hci Hcl]. apply Forall_cons in Hw as [Hwi Hwl], Hd as [Hdi Hdl].
    destruct fuel as [|fuel]; [lia|]. rewrite length_app in *. rewrite <-app_assoc.
    rewrite decode_item by (done || lia). rewrite app_assoc, <-length_app.
    rewrite IH; [|done..| | |].
    + rewrite length_app. do 2 f_equal. lia.
    + rewrite merge_item_put by done. destruct it as [f|d].
      * by apply wf_update_put_field.
      * by apply (wf_update_put_child_with (m_name d) (fun c => merge c d)); [apply wf_update_merge|].
    + rewrite length_app. lia.
    + rewrite enc_item_eq, !length_app in Hf. simpl in Hf. lia.
Qed.

Lemma decodes_container c : wf c -> clean_contents c = true -> decodes c.
Proof.
  induction c as [n items fm cm IH] using txContainer_ind. intros Hw Hc. cbn [clean_contents] in Hc.
  pose proof (Forall_items_wf _ Hw) as Hwi. cbn [m_items] in Hwi.
  intros fuel pre rest parent end_. apply decode_items; [done|done|].
  rewrite forallb_forall in Hc. apply Forall_lookup. intros i [f|d] Hi; [done|].
  apply (Forall_lookup_1 _ _ _ _ IH Hi); [exact (Forall_lookup_1 _ _ _ _ Hwi Hi)|].
  assert (clean_item (ItemContainer d) = true) as Hd.
  { apply Hc, list_elem_of_In. by eapply list_elem_of_lookup_2. }
  apply andb_true_iff in Hd. tauto.
Qed.

(** ** The header *)

Lemma low_nibble_bounds c : 0 <= low_nibble c < 16.
Proof. unfold low_nibble. change 15 with (Z.ones 4). rewrite Z.land_ones by lia. apply Z.mod_pos_bound. lia. Qed.

Lemma digits_value_ge acc l : 0 <= acc -> acc <= digits_value acc l.
Proof.
  revert acc. induction l as [|c l IH]; intros acc Ha; simpl; [lia|].
  destruct (isdigit c); [|lia]. pose proof (low_nibble_bounds c).
  etransitivity; [|apply IH]; lia.
Qed.

Lemma decode_msglen_step mem fuel p end_ acc c : (p < end_)%nat -> peek mem p = Ok c ->
  isdigit c = true -> 0 <= acc -> acc * 10 + low_nibble c <= max_msglen ->
  decode_msglen mem (S fuel) p end_ acc = decode_msglen mem fuel (S p) end_ (acc * 10 + low_nibble c).
Proof.
  unfold max_msglen. intros Hp Hc Hd Ha Hm. cbn [decode_msglen].
  destruct (Nat.ltb_spec p end_); [|lia]. rewrite Hc. cbn [mbind result_bind]. rewrite Hd.
  pose proof (low_nibble_bounds c). rewrite (size_t_small (acc * 10)), size_t_small by lia.
  unfold max_msglen. destruct (Z.ltb_spec 2147483647 (acc * 10 + low_nibble c)); [lia|done].
Qed.

(** The digits are read up to the delimiter, or up to the end of the data. *)
Lemma decode_msglen_digits l : Forall (fun c => isdigit c = true) l ->
  forall pre c rest fuel end_ acc, isdigit c = false -> 0 <= acc -> digits_value acc l <= max_msglen ->
  (end_ - length pre < fuel)%nat -> (length pre <= end_)%nat ->
  (length pre + length l < end_ ->
   decode_msglen (pre ++ l ++ c :: rest) fuel (length pre) end_ acc =
   Ok ((length pre + length l)%nat, digits_value acc l))%nat /\
  (end_ <= length pre + length l -> exists k,
   decode_msglen (pre ++ l ++ c :: rest) fuel (length pre) end_ acc = Ok (end_, k))%nat.
Proof.
  induction 1 as [|d l Hd Hl IH]; intros pre c rest fuel end_ acc Hc Ha Hm Hf Hp;
    (destruct fuel as [|fuel]; [lia|]).
  - cbn [decode_msglen app length digits_value]. rewrite Nat.add_0_r. split; intros He.
    + destruct (Nat.ltb_spec (length pre) end_); [|lia]. rewrite peek_middle.
      cbn [mbind result_bind]. by rewrite Hc.
    + destruct (Nat.ltb_spec (length pre) end_); [lia|]. exists acc. do 2 f_equal. lia.
  - cbn [digits_value length] in *. rewrite Hd in Hm. rewrite Hd.
    pose proof (low_nibble_bounds d). pose proof (digits_value_ge (acc * 10 + low_nibble d) l ltac:(lia)).
    destruct (decide (length pre < end_)%nat) as [Hlt|Hge].
    + cbn [app].
      rewrite (decode_msglen_step _ _ _ _ _ d) by (done || lia || (by rewrite peek_middle)).
      destruct (IH (pre ++ [d]) c rest fuel end_ (acc * 10 + low_nibble d)) as [H1 H2];
        [done|lia|done|rewrite length_app; simpl; lia..|].
      rewrite length_app in H1, H2. cbn [length] in H1, H2. rewrite <-app_assoc in H1, H2.
      cbn [app] in H1, H2 |- *.
      replace (length pre + 1)%nat with (S (length pre)) in H1, H2 by lia.
      replace (length pre + S (length l))%nat with (S (length pre) + length l)%nat by lia.
      split; [exact H1|exact H2].
    + split; [lia|]. intros _. exists acc. cbn [decode_msglen].
      destruct (Nat.ltb_spec (length pre) end_); [lia|]. do 2 f_equal. lia.
Qed.

Definition head9 (t : Z) : bytes :=
  [MSG_START] ++ (if t <=? MAX_MSG_LEN then SAM0100 else SAM0101) ++ [META_DELIM].

Lemma sam_header_head9 t : sam_header t = head9 t ++ dec t.
Proof. unfold sam_header, head9. by rewrite <-!app_assoc. Qed.

Lemma length_head9 t : length (head9 t) = 9%nat.
Proof. unfold head9. by destruct (t <=? MAX_MSG_LEN). Qed.

(** The part of [decodeMsg] after the header, for a message that ends at
    [msgend]; [p] is the position after the length field. *)
Definition decode_body (mem : bytes) (msg : txMessage) (p msgend : nat) : result (Z * txMessage) :=
  '(p, vs) ← scan mem (S (msgend - S p)) META_DELIM (S p) msgend;
  if (msgend <=? p)%nat then Throw (runtime_error "SAM header missing message type")
  else
    c ← peek mem p;
    if negb (bool_decide (c = META_DELIM))
    then Throw (runtime_error "SAM header missing message type")
    else
      '(_, root) ← decode mem (m_root (set_type (unstr vs) (reset msg))) (S p) msgend;
      mret (Z.of_nat msgend, TxMessage root).

(** A supported version has been seen: the length field is read next. *)
Lemma decodeMsg_supported t rest msg len mem : mem = head9 t ++ rest -> (9 <= len)%nat ->
  decodeMsg mem msg len =
    '(p, msglen) ← decode_msglen mem (S len) 9 len 0;
    if (len <=? p)%nat then Ok (0, msg)
    else
      c ← peek mem p;
      if negb (bool_decide (c = META_DELIM)) then Throw (runtime_error "SAM header bad msglen")
      else if Z.of_nat len <? msglen then Ok (0, msg)
      else '(n, m) ← decode_body mem msg p (Z.to_nat msglen); mret (msglen, m).
Proof.
  intros Emem H9. unfold decodeMsg. destruct (Nat.ltb_spec 0 len); [|lia].
  change (1 + 7 + 1)%nat with 9%nat. destruct (Nat.ltb_spec len 9); [lia|].
  assert (peek mem 0 = Ok MSG_START /\ peek mem 8 = Ok META_DELIM) as [-> ->].
  { rewrite Emem. unfold head9. by destruct (t <=? MAX_MSG_LEN). }
  cbn [mbind result_bind]. rewrite !bool_decide_true by done. cbn [negb orb].
  assert (bool_decide (take 7 (drop 1 mem) = SAM0100) ||
          bool_decide (take 7 (drop 1 mem) = SAM0101) = true) as ->.
  { rewrite Emem. unfold head9. by destruct (t <=? MAX_MSG_LEN). }
  unfold decode_body. destruct (decode_msglen _ _ _ _ _) as [[p n]|]; [|done].
  cbn [mbind result_bind]. clear Emem.
  destruct (len <=? p)%nat; [done|]. destruct (peek mem p) as [c|]; [|done]. cbn [mbind result_bind].
  destruct (negb _); [done|]. destruct (_ <? n); [done|].
  destruct (scan _ _ _ _ _) as [[q vs]|]; [|done]. cbn [mbind result_bind].
  destruct (_ <=? q)%nat; [done|]. destruct (peek mem q); [|done]. cbn [mbind result_bind].
  destruct (negb _); [done|]. by destruct (decode _ _ _ _) as [[]|].
Qed.

(** A body consumes the length it is given. *)
Lemma decode_body_length mem msg p msgend :
  ('(n, m) ← decode_body mem msg p msgend; mret (Z.of_nat msgend, m)) = decode_body mem msg p msgend.
Proof.
  unfold decode_body. destruct (scan _ _ _ _ _) as [[q vs]|]; [|done]. cbn [mbind result_bind].
  destruct (_ <=? q)%nat; [done|]. destruct (peek mem q); [|done]. cbn [mbind result_bind].
  destruct (negb _); [done|]. by destruct (decode _ _ _ _) as [[]|].
Qed.

(** A header of a supported version, complete or cut short. *)
Lemma decodeMsg_header t rest msg len mem : mem = sam_header t ++ META_DELIM :: rest ->
  0 <= t <= max_msglen ->
  decodeMsg mem msg len =
    if (len <=? 9 + length (dec t))%nat then Ok (0, msg)
    else if Z.of_nat len <? t then Ok (0, msg)
    else decode_body mem msg (9 + length (dec t)) (Z.to_nat t).
Proof.
  intros Emem Ht. rewrite sam_header_head9, <-app_assoc in Emem.
  destruct (decide (9 <= len)%nat) as [H9|H9].
  - rewrite (decodeMsg_supported t _ msg len mem Emem H9).
    destruct (decode_msglen_digits (dec t) (dec_digits t ltac:(lia)) (head9 t) META_DELIM rest
      (S len) len 0) as [H1 H2];
      [done|done|rewrite dec_value; lia|lia|rewrite length_head9; lia|].
    rewrite <-Emem, length_head9 in H1, H2. rewrite dec_value in H1 by lia.
    destruct (Nat.leb_spec len (9 + length (dec t))) as [Hle|Hgt].
    + destruct (H2 Hle) as [k ->]. cbn [mbind result_bind]. by rewrite Nat.leb_refl.
    + rewrite H1 by done. cbn [mbind result_bind].
      destruct (Nat.leb_spec len (9 + length (dec t))); [lia|].
      assert (peek mem (9 + length (dec t)) = Ok META_DELIM) as ->.
      { rewrite Emem, app_assoc, <-(length_head9 t), <-length_app. apply peek_middle. }
      cbn [mbind result_bind]. rewrite bool_decide_true by done. cbn [negb].
      destruct (_ <? t); [done|].
      pose proof (decode_body_length mem msg (9 + length (dec t)) (Z.to_nat t)) as Hb. by rewrite Z2Nat.id in Hb by lia.
  - destruct (Nat.leb_spec len (9 + length (dec t))); [|lia].
    unfold decodeMsg. destruct (Nat.ltb_spec 0 len); [|done].
    change (1 + 7 + 1)%nat with 9%nat. destruct (Nat.ltb_spec len 9); [done|lia].
Qed.

(** The body of a message whose header took [length pre] bytes. *)
Lemma decode_body_wire m m0 pre rest msgend : clean m = true -> wf (m_root m) ->
  msgend = (length pre + length (enc_body m))%nat ->
  decode_body (pre ++ enc_body m ++ rest) m0 (length pre) msgend = Ok (Z.of_nat msgend, m).
Proof.
  intros [Hty Hcl]%andb_true_iff Hwf Hend.
  apply andb_true_iff in Hty as [Hty1%bool_decide_eq_true Hty2%bool_decide_eq_true].
  set (items := m_items (m_root m)).
  assert (enc_body m = [META_DELIM] ++ str (msg_type m) ++ [META_DELIM; SEQ_START] ++
    flat_map enc_item items ++ [SEQ_END; MSG_END; MSG_DELIM]) as Eb.
  { unfold enc_body, items. destruct (m_root m) as [n l fm cm]. cbn [enc_contents m_items].
    by rewrite <-!app_assoc. }
  rewrite Eb, !length_app in Hend. cbn [length] in Hend.
  set (pre1 := pre ++ [META_DELIM]). set (pre2 := pre1 ++ str (msg_type m)).
  set (pre3 := pre2 ++ [META_DELIM; SEQ_START]).
  assert (S (length pre) = length pre1) as E1 by (unfold pre1; rewrite length_app; simpl; lia).
  assert (length pre1 + length (str (msg_type m)) = length pre2)%nat as E2
    by (unfold pre2; by rewrite length_app).
  assert (S (S (length pre2)) = length pre3) as E3 by (unfold pre3; rewrite length_app; simpl; lia).
  set (tl := flat_map enc_item items ++ SEQ_END :: MSG_END :: MSG_DELIM :: rest).
  assert (pre ++ enc_body m ++ rest = pre1 ++ str (msg_type m) ++ META_DELIM :: SEQ_START :: tl) as ->.
  { rewrite Eb. unfold pre1, tl. by rewrite <-!app_assoc. }
  unfold decode_body. rewrite E1, scan_plain by (done || lia). cbn [mbind result_bind].
  destruct (Nat.leb_spec msgend (length pre1 + length (str (msg_type m)))); [lia|].
  rewrite E2, (app_assoc pre1). fold pre2. rewrite peek_middle.
  cbn [mbind result_bind]. rewrite bool_decide_true by done. cbn [negb]. rewrite unstr_str.
  unfold decode. rewrite E3.
  replace (pre2 ++ META_DELIM :: SEQ_START :: tl) with (pre3 ++ tl) by (unfold pre3; by rewrite <-app_assoc).
  unfold tl, items in *.
  rewrite (decodes_container (m_root m)) by (done || apply wf_new_container || lia).
  cbn [mbind result_bind]. rewrite <-merge_foldl. unfold mret, result_ret.
  change (m_root (set_type (msg_type m) (reset m0))) with (new_container (m_name (m_root m))).
  rewrite merge_new by done. by destruct m.
Qed.

Lemma wire_split m : wire m = sam_header (wire_length m) ++ META_DELIM :: tail (enc_body m).
Proof. done. Qed.

(** A buffer that starts with the wire form of a message decodes to that
    message, and exactly its bytes are consumed. *)
Lemma decodeMsg_wire m m0 rest len : clean m = true -> wf (m_root m) ->
  wire_length m <= max_msglen -> wire_length m <= Z.of_nat len ->
  decodeMsg (wire m ++ rest) m0 len = Ok (wire_length m, m).
Proof.
  intros Hc Hw Hmax Hlen. pose proof (length_wire m) as Hlw. unfold wire in Hlw.
  rewrite length_app, Nat2Z.inj_add, length_sam_header in Hlw.
  assert (0 < length (enc_body m))%nat by (unfold enc_body; simpl; lia).
  rewrite (decodeMsg_header (wire_length m) (tail (enc_body m) ++ rest)); [|by rewrite wire_split, <-app_assoc|lia].
  destruct (Nat.leb_spec len (9 + length (dec (wire_length m)))); [lia|].
  destruct (Z.ltb_spec (Z.of_nat len) (wire_length m)); [lia|].
  unfold wire. rewrite <-app_assoc.
  replace (9 + length (dec (wire_length m)))%nat with (length (sam_header (wire_length m)))
    by (pose proof (length_sam_header (wire_length m)); lia).
  rewrite decode_body_wire; [|done|done|pose proof (length_sam_header (wire_length m)); lia].
  by rewrite Z2Nat.id by lia.
Qed.

(** ** Incomplete data *)

Lemma peek_take mem len p : (p < len)%nat -> peek (take len mem) p = peek mem p.
Proof. intros Hp. unfold peek. by rewrite lookup_take_lt. Qed.

Lemma decode_msglen_local mem mem' fuel p len n : take len mem = take len mem' ->
  decode_msglen mem fuel p len n = decode_msglen mem' fuel p len n.
Proof.
  intros He. revert p n. induction fuel as [|fuel IH]; intros p n; [done|]. cbn [decode_msglen].
  destruct (Nat.ltb_spec p len) as [Hp|]; [|done].
  rewrite <-(peek_take mem len), He, peek_take by done.
  destruct (peek mem' p) as [c|]; [|done]. cbn [mbind result_bind].
  destruct (isdigit c); [|done]. destruct (_ <? _); [done|]. apply IH.
Qed.

(** A header in memory, of a message longer than the data: wait for more. *)
Lemma decodeMsg_incomplete t rest mem msg len :
  take len mem = take len (sam_header t ++ META_DELIM :: rest) ->
  0 <= t <= max_msglen -> Z.of_nat len < t -> decodeMsg mem msg len = Ok (0, msg).
Proof.
  intros He Ht Hlt. set (full := sam_header t ++ META_DELIM :: rest) in *.
  unfold decodeMsg. destruct (Nat.ltb_spec 0 len); [|done].
  change (1 + 7 + 1)%nat with 9%nat. destruct (Nat.ltb_spec len 9) as [|H9]; [done|].
  assert (forall p, (p < len)%nat -> peek mem p = peek full p) as Hpk.
  { intros p Hp. by rewrite <-(peek_take mem len), He, peek_take. }
  assert (take 7 (drop 1 mem) = take 7 (drop 1 full)) as ->.
  { assert (take 8 mem = take 8 full) as H8.
    { pose proof (f_equal (take 8) He) as H8. by rewrite !take_take, Nat.min_l in H8 by lia. }
    rewrite !take_drop_commute. by apply (f_equal (drop 1)) in H8. }
  rewrite !Hpk, (decode_msglen_local mem full) by (done || lia).
  assert (full = head9 t ++ dec t ++ META_DELIM :: rest) as Ef
    by (unfold full; by rewrite sam_header_head9, <-app_assoc).
  assert (peek full 0 = Ok MSG_START /\ peek full 8 = Ok META_DELIM) as [-> ->].
  { rewrite Ef. unfold head9. by destruct (t <=? MAX_MSG_LEN). }
  cbn [mbind result_bind]. rewrite !bool_decide_true by done. cbn [negb orb].
  destruct (decode_msglen_digits (dec t) (dec_digits t ltac:(lia)) (head9 t) META_DELIM rest
    (S len) len 0) as [H1 H2]; [done|done|rewrite dec_value; lia|lia|rewrite length_head9; lia|].
  rewrite <-Ef, length_head9 in H1, H2. rewrite dec_value in H1 by lia.
  destruct (decide (len <= 9 + length (dec t))%nat) as [Hle|Hgt].
  - destruct (H2 Hle) as [k ->]. cbn [mbind result_bind]. by rewrite Nat.leb_refl.
  - rewrite H1 by lia. cbn [mbind result_bind].
    destruct (Nat.leb_spec len (9 + length (dec t))); [done|]. rewrite Hpk by lia.
    assert (peek full (9 + length (dec t)) = Ok META_DELIM) as ->.
    { rewrite Ef, app_assoc, <-(length_head9 t), <-length_app. apply peek_middle. }
    cbn [mbind result_bind]. rewrite bool_decide_true by done. cbn [negb].
    destruct (Z.ltb_spec (Z.of_nat len) t); [done|lia].
Qed.

Lemma decodeMsg_wire_prefix m m0 mem len : take len mem = take len (wire m) ->
  wire_length m <= max_msglen -> Z.of_nat len < wire_length m ->
  decodeMsg mem m0 len = Ok (0, m0).
Proof.
  intros He Hmax Hlt. eapply decodeMsg_incomplete; [by rewrite He, wire_split| |done]. lia.
Qed.

(** * Properties *)

(** C30. The encoder refines its specification over any buffer that keeps the
    buffer contract: it succeeds, leaves exactly the wire form of the message
    in the buffer, and returns its length. *)
Theorem encodeMsg_refines {B : Type} `{SamBufferLaws B} (msg : txMessage) (b : B) :
  holds b [] -> Z.of_nat (length (enc_body msg)) <= max_content ->
  exists b', encodeMsg msg b = Ok (Z.of_nat (length (wire msg)), b') /\ msg_bytes b' = wire msg.
Proof.
  intros Hb Hm. destruct (encodeMsg_wire msg b Hb Hm) as (b' & E & Hw). exists b'.
  by rewrite length_wire.
Qed.

Definition sample_msg : txMessage := TxMessage (put_field sample_root "x" "a=b,[c]\").

Lemma encodeMsg_refines_witness : exists b',
  encodeMsg sample_msg (DynamicSamBuffer.new 1024) = Ok (Z.of_nat (length (wire sample_msg)), b') /\
  msg_bytes b' = wire sample_msg.
Proof.
  apply (encodeMsg_refines sample_msg (DynamicSamBuffer.new 1024)).
  - apply DynamicSamBufferFacts.new_held. lia.
  - vm_compute. discriminate.
Defined.

(** C1. Round trip: a message with a clean type and clean names, encoded into
    a growing buffer and followed by any further bytes, decodes to itself, and
    exactly the encoded bytes are consumed, whatever the values hold. *)
Theorem decode_encode_roundtrip (m m0 : txMessage) (rest : bytes) :
  clean m = true -> wf (m_root m) -> wire_length m <= max_msglen ->
  exists n b, encodeMsg m (DynamicSamBuffer.new 1024) = Ok (n, b) /\
    decodeMsg (DynamicSamBuffer.msg_bytes b ++ rest) m0 (Z.to_nat n + length rest) = Ok (n, m).
Proof.
  intros Hc Hw Hl. pose proof (length_wire m) as Hlw.
  destruct (encodeMsg_wire m (DynamicSamBuffer.new 1024)) as (b & E & Hb).
  { apply DynamicSamBufferFacts.new_held. lia. }
  { unfold wire in Hlw. rewrite length_app in Hlw. unfold max_msglen, max_content in *. lia. }
  exists (wire_length m), b. split; [done|].
  change (DynamicSamBuffer.msg_bytes b) with (msg_bytes b). rewrite Hb.
  apply decodeMsg_wire; [done|done|done|lia].
Qed.

Lemma decode_encode_roundtrip_witness : exists n b,
  encodeMsg sample_msg (DynamicSamBuffer.new 1024) = Ok (n, b) /\
  decodeMsg (DynamicSamBuffer.msg_bytes b ++ str "{SAM") (new_message "old")
    (Z.to_nat n + length (str "{SAM")) = Ok (n, sample_msg).
Proof.
  apply decode_encode_roundtrip.
  - vm_compute. reflexivity.
  - apply wf_put_field, sample_root_wf.
  - vm_compute. discriminate.
Defined.

(** Incomplete data: while fewer bytes than the message's have arrived,
    wherever they were cut, nothing is consumed, the message is untouched and
    no error is raised; the bytes after the data are not looked at. *)
Theorem decode_incomplete_waits (m m0 : txMessage) (n : nat) (junk : bytes) :
  wire_length m <= max_msglen -> Z.of_nat n < wire_length m ->
  decodeMsg (take n (wire m) ++ junk) m0 n = Ok (0, m0).
Proof.
  intros Hl Hn. apply (decodeMsg_wire_prefix m); [|done|done].
  pose proof (length_wire m). rewrite take_app_le by (rewrite length_take; lia).
  rewrite take_take. f_equal. lia.
Qed.

Lemma decode_incomplete_waits_witness :
  decodeMsg (take 11 (wire sample_msg) ++ str "9999") (new_message "old") 11 = Ok (0, new_message "old").
Proof. apply decode_incomplete_waits; vm_compute; [discriminate|reflexivity]. Defined.

(** C29. The decoder is total and memory safe on arbitrary input when one byte
    after the data can be read: it ends with a value or with one of the
    exceptions it throws, never by reading outside, and it never consumes more
    than it was given. *)
Theorem decode_total (mem : bytes) (msg : txMessage) (len : nat) : (len < length mem)%nat ->
  match decodeMsg mem msg len with
  | Ok (consumed, _) => 0 <= consumed <= Z.of_nat len
  | Throw (runtime_error _) => True
  | Throw (out_of_range _) | Throw (AdminError _ _) => True
  | Throw (undefined_behaviour _) | Throw out_of_fuel => False
  end.
Proof.
  intros Hl. pose proof (decodeMsg_total mem msg len Hl) as Hd.
  destruct (decodeMsg mem msg len) as [[n m]|[]] eqn:E; try done.
  by apply (decodeMsg_consumed mem msg len n m); [lia|].
Qed.

Lemma decode_total_witness :
  decodeMsg (str "{SAM0100:17:x:[a=,") (new_message "old") 17 =
    Throw (runtime_error "ran out of data when expecting field delim") /\ (17 < 18)%nat /\
  match decodeMsg (str "{SAM0100:17:x:[a=,") (new_message "old") 17 with
  | Ok (consumed, _) => 0 <= consumed <= Z.of_nat 17
  | Throw (runtime_error _) => True
  | Throw (out_of_range _) | Throw (AdminError _ _) => True
  | Throw (undefined_behaviour _) | Throw out_of_fuel => False
  end.
Proof.
  split; [vm_compute; reflexivity|]. split; [lia|]. apply decode_total. vm_compute. lia.
Defined.

(** The spare byte is needed: for a message that ends in a field's
    delimiter the decoder reads the byte after the data. *)
Theorem decode_overread :
  decodeMsg (str "{SAM0100:17:x:[a=") (new_message EmptyString) (length (str "{SAM0100:17:x:[a=")) =
    Throw (undefined_behaviour "read outside the buffer").
Proof. vm_compute. reflexivity. Qed.

(** C38. [check_enc_size] is conservative: a message it accepts is sent with a
    SAM0100 header and, with the margin, in at most [MAX_MSG_LEN] bytes. *)
Theorem check_enc_size_sound (msg : txMessage) (margin : Z) :
  0 <= margin < 2 ^ 32 -> Z.of_nat (length (enc_body msg)) <= max_content ->
  check_enc_size msg margin = true ->
  Z.of_nat (length (wire msg)) + margin <= MAX_MSG_LEN /\
  wire msg = str "{SAM0100:" ++ dec (Z.of_nat (length (wire msg))) ++ enc_body msg.
Proof.
  unfold max_content. intros Hm Hb. unfold check_enc_size. rewrite calc_encoded_size_eq, size_t_add.
  rewrite size_t_small by lia. intros Hc%Z.leb_le.
  pose proof (total_length_small (Z.of_nat (length (enc_body msg))) ltac:(lia) ltac:(lia)) as Ht.
  rewrite length_wire. split; [unfold wire_length; lia|].
  unfold wire, sam_header. fold (wire_length msg) in Ht.
  destruct (Z.leb_spec (wire_length msg) MAX_MSG_LEN); [|unfold MAX_MSG_LEN in *; lia].
  by rewrite <-!app_assoc.
Qed.

Lemma check_enc_size_sound_witness :
  Z.of_nat (length (wire sample_msg)) + 1000 <= MAX_MSG_LEN /\
  wire sample_msg = str "{SAM0100:" ++ dec (Z.of_nat (length (wire sample_msg))) ++ enc_body sample_msg.
Proof. apply check_enc_size_sound; [lia|vm_compute; discriminate|vm_compute; reflexivity]. Defined.
