(* ===== verification/SamTests.v ===== *)
(** The test program [test/sam_tests.cc]: what it prints, computed by the
    model of [sam.cc]. *)

From S2P Require Import Prelude TxContainer SamBuffer SamProtocol.

Local Open Scope Z_scope.

(** * Building and printing *)

Definition banner : string := String.concat EmptyString (replicate 80 "-") +:+ newline.

Definition dump (c : txContainer) (prefix : string) : string :=
  prefix +:+ (format_contents (new_formatter false) c).2 +:+ newline.

(** [c.put_child(a)] and [c.put_child(a).put_child(b)]. *)
Definition child (a : string) (c : txContainer) : txContainer := put_child c a.
Definition child2 (a b : string) (c : txContainer) : txContainer := put_child_with c a (fun d => put_child d b).
Definition field (n v : string) (c : txContainer) : txContainer := put_field c n v.
Definition field1 (a n v : string) (c : txContainer) : txContainer := put_child_with c a (fun d => put_field d n v).
Definition field2 (a b n v : string) (c : txContainer) : txContainer :=
  put_child_with c a (fun d => put_child_with d b (fun e => put_field e n v)).

Definition build (steps : list (txContainer -> txContainer)) (name : string) : txContainer :=
  foldl (fun c f => f c) (new_container name) steps.

(** * The tests *)

Definition same_name_meta : txContainer := build [field "test" "v0"; field1 "test" "sub" "v0"] "meta".

Definition test_add_field_and_child_same_name : string := banner +:+ dump same_name_meta "META: ".

Definition meta1 : txContainer :=
  build [field "f0" "v0"; field "f1" "v1"; child "c0"; field2 "c0" "c0c0" "c0c0f0" "val00";
         field2 "c0" "c0c1" "c0c1f0" "val00"] "meta".

Definition test1 : string :=
  let empty := new_container "empty" in
  let merged := merge meta1 empty in
  let empty := merge empty merged in
  let again := merge (clear merged) empty in
  banner +:+ dump meta1 "meta: " +:+ dump merged "AFTER: " +:+ dump again "AFTER2: ".

Definition meta0 : txContainer :=
  build [field "f0" "v0"; field "f1" "v1"; field "f2" "v2";
         child "c0"; field1 "c0" "c0f0" "v0"; field1 "c0" "c0f1" "v1"; field1 "c0" "c0f2" "v2"; child "c1";
         child "c3"; child2 "c3" "c3c0"; child2 "c3" "c3c1"; child2 "c3" "c3c2";
         field1 "c3" "c3f0" "v0"; field1 "c3" "c3f1" "v1"; field1 "c3" "c3f2" "v2";
         child "c4"; child2 "c4" "c4c0"; child2 "c4" "c4c1"; child2 "c4" "c4c2";
         field1 "c4" "c4f0" "v0"; field1 "c4" "c4f1" "v1"; field1 "c4" "c4f2" "v2"] "meta".

Definition delta0 : txContainer :=
  build [field "f0" "VAL_f0"; field "c3" "VAL_c3"; field "f5" "VAL_f5"; field1 "f1" "F1" "v0"; child "new_child"] "delta".

(** A child and a field of existing names. *)
Definition meta0_extended : txContainer := field1 "c4" "c4c0" EmptyString (child2 "c4" "c4f0" (child2 "c4" "new_child" meta0)).

Definition test0 : string :=
  let empty := new_container "empty" in
  let meta := merge (merge (merge (merge meta0_extended empty) delta0) empty) delta0 in
  banner +:+ dump meta0 "META: " +:+ dump delta0 "delta: " +:+ dump meta "AFTER: ".

(** [decodeMsg] on a C string, whose last readable byte is its terminator;
    then the message is encoded again and compared. *)
Definition recode (orig : string) : result string :=
  '(_, msg) ← decodeMsg (str orig ++ ["000"%char]) (new_message EmptyString) (String.length orig);
  '(size, sb) ← encodeMsg msg (DynamicSamBuffer.new 512);
  let n := Nat.min (String.length orig) (Z.to_nat size) in
  let differ := bool_decide (take n (str orig) <> take n (DynamicSamBuffer.msg_bytes sb)) in
  Ok ((if differ then "differ!" +:+ newline else EmptyString) +:+ dump (m_root msg) "msg: ").

Definition test2 : result string :=
  recode ("{SAM0100:45:logon#[head=[serviceid=test,],]}" +:+ newline +:+
    "{SAM0100:45:LOGON:[HEAD=[SERVICEID=TEST,],]}" +:+ newline).
Definition test3 : result string := recode "{SAM0100:452839fgdfgdf".

(** [main]: the text printed and the exit code. *)
Definition sam_tests_main : string * Z :=
  let out := test0 +:+ test_add_field_and_child_same_name +:+ test1 in
  match test3 with
  | Ok t => (out +:+ t, 0)
  | Throw e => (out +:+ "exception: " +:+ exn_what e +:+ newline, 1)
  end.

(** * What they show *)

(** A field and a child of one name live side by side. *)
Theorem same_name_both :
  f_value <$> find_field same_name_meta "test" = Some "v0" /\
  (f_value <$> (find_child same_name_meta "test" ≫= fun c => find_field c "sub")) = Some "v0".
Proof. vm_compute. split; reflexivity. Qed.

(** The program's comments say that the new child [c4f0] overwrites the field
    and the new field [c4c0] the child; both stay. *)
Theorem nothing_overwritten : exists c4, find_child meta0_extended "c4" = Some c4 /\
  f_value <$> find_field c4 "c4f0" = Some "v0" /\ is_Some (find_child c4 "c4f0") /\
  f_value <$> find_field c4 "c4c0" = Some EmptyString /\ is_Some (find_child c4 "c4c0").
Proof. eexists. split; [vm_compute; reflexivity|]. split_and!; first [reflexivity|eexists; reflexivity]. Qed.

(** Merging an empty container changes nothing, and an empty one becomes a copy. *)
Theorem test1_copies : merge meta1 (new_container "empty") = meta1 /\
  m_items (merge (clear meta1) (merge (new_container "empty") meta1)) = m_items meta1.
Proof. vm_compute. split; reflexivity. Qed.

(** The second merge of the same container changes nothing more. *)
Theorem test0_merge_once : merge (merge meta0_extended delta0) delta0 = merge meta0_extended delta0.
Proof. vm_compute. reflexivity. Qed.

(** Both malformed headers are refused; the last test ends the program with
    code 1. *)
Theorem bad_headers_refused :
  test2 = Throw (runtime_error "SAM header missing message type") /\
  test3 = Throw (runtime_error "SAM header bad msglen") /\ sam_tests_main.2 = 1.
Proof. vm_compute. split_and!; reflexivity. Qed.
