(* ===== verification/Table.v ===== *)
(** Monitoring tables: [DataRow] and [DataTable] of [Table.h] and [Table.cc].

    The operations run under the table lock, as one step each.  Messages go
    out through [AdminInterfaceImpl::send_one]; they are the outputs of the
    operation, in order.  The interface's session list and the local time are
    the environment. *)

From S2P Require Import Prelude Decimal Utils TxContainer SamBuffer SamProtocol MsgIDs TableEvents.

Local Open Scope Z_scope.

(** * Rows *)

Record DataRow := MkDataRow {
  m_rowkey : string; r_table_name : string; m_fields : gmap string string }.

Definition new_row (rowkey table_name : string) : DataRow :=
  MkDataRow rowkey table_name {[ id.row_key := rowkey ]}.

(** The time stamp of [update_fields], from the local time. *)
Definition row_timestamp (t : tm) : string :=
  print_signed (tm_year t + 1900) +:+ "/" +:+ print_02d (tm_mon t + 1) +:+ "/" +:+
  print_02d (tm_mday t) +:+ " " +:+ print_02d (tm_hour t) +:+ ":" +:+
  print_02d (tm_min t) +:+ ":" +:+ print_02d (tm_sec t).

Definition reserved (column : string) : bool :=
  bool_decide (column = id.row_key) || bool_decide (column = id.row_last).

(** One round of the loop: the row's fields and the event's fields, once an
    event exists. *)
Definition update_one (st : gmap string string * option (gmap string string)) (up : string * string)
    : gmap string string * option (gmap string string) :=
  let '(ours, ev) := st in
  if reserved up.1 then st
  else if bool_decide (ours !! up.1 = Some up.2) then st
  else (<[up.1 := up.2]> ours, Some (<[up.1 := up.2]> (default ∅ ev))).

(** [update_fields]: the row, the event it appends and the result. *)
Definition update_fields (now : tm) (fields : gmap string string) (row : DataRow)
    : DataRow * list TableEvent * bool :=
  let '(ours, ev) := foldl update_one (m_fields row, None) (map_iter fields) in
  match ev with
  | Some evfields =>
      let timestring := row_timestamp now in
      (MkDataRow (m_rowkey row) (r_table_name row) (<[id.row_last := timestring]> ours),
       [RowMultiUpdate (r_table_name row) (m_rowkey row) (<[id.row_last := timestring]> evfields)], true)
  | None => (MkDataRow (m_rowkey row) (r_table_name row) ours, [], false)
  end.

Definition has_field (row : DataRow) (fn : string) : bool := bool_decide (is_Some (m_fields row !! fn)).
Definition get_field (row : DataRow) (fn : string) : result string :=
  match m_fields row !! fn with
  | Some v => Ok v
  | None => Throw (out_of_range "field not found")
  end.
(** [copy_field(fn, dest)]: the new [dest] and whether the field was found. *)
Definition row_copy_field (row : DataRow) (fn dest : string) : string * bool :=
  match m_fields row !! fn with Some v => (v, true) | None => (dest, false) end.
(** [copy_row(dest)]: [insert] keeps the entries [dest] already has. *)
Definition row_copy_row (row : DataRow) (dest : gmap string string) : gmap string string :=
  dest ∪ m_fields row.

(** * Tables *)

Definition MetaForCol := gmap string txContainer.

Record DataTable := MkDataTable {
  m_table_name : string;
  m_columns : list string; m_column_index : gmap string nat;
  m_rows : list DataRow; m_row_index : gmap string nat;
  m_subscribers : list Z;
  m_column_attrs : gmap string (list txContainer);
  m_pcmd : gmap string MetaForCol;
  m_batchsize : Z }.

Definition new_table (table_name : string) : DataTable :=
  MkDataTable table_name [] ∅ [] ∅ [] ∅ ∅ 500.

Definition set_columns (cols : list string) (ix : gmap string nat) (t : DataTable) : DataTable :=
  MkDataTable (m_table_name t) cols ix (m_rows t) (m_row_index t) (m_subscribers t)
    (m_column_attrs t) (m_pcmd t) (m_batchsize t).
Definition set_rows (rows : list DataRow) (ix : gmap string nat) (t : DataTable) : DataTable :=
  MkDataTable (m_table_name t) (m_columns t) (m_column_index t) rows ix (m_subscribers t)
    (m_column_attrs t) (m_pcmd t) (m_batchsize t).
Definition set_subscribers (subs : list Z) (t : DataTable) : DataTable :=
  MkDataTable (m_table_name t) (m_columns t) (m_column_index t) (m_rows t) (m_row_index t) subs
    (m_column_attrs t) (m_pcmd t) (m_batchsize t).
Definition set_column_attrs (a : gmap string (list txContainer)) (t : DataTable) : DataTable :=
  MkDataTable (m_table_name t) (m_columns t) (m_column_index t) (m_rows t) (m_row_index t)
    (m_subscribers t) a (m_pcmd t) (m_batchsize t).
Definition set_pcmd (p : gmap string MetaForCol) (t : DataTable) : DataTable :=
  MkDataTable (m_table_name t) (m_columns t) (m_column_index t) (m_rows t) (m_row_index t)
    (m_subscribers t) (m_column_attrs t) p (m_batchsize t).
Definition set_batchsize (n : Z) (t : DataTable) : DataTable :=
  MkDataTable (m_table_name t) (m_columns t) (m_column_index t) (m_rows t) (m_row_index t)
    (m_subscribers t) (m_column_attrs t) (m_pcmd t) n.

(** A call of [send_one], with one message or a list. *)
Inductive send :=
| SendOne (msg : txMessage) (sid : Z)
| SendList (msgs : list txMessage) (sid : Z).

Abbreviation table_op A := (eff send DataTable A).

(** The interface, as the table sees it. *)
Record env := Env { session_exists : Z -> bool; local_time : tm }.

(** ** Index helpers *)

(** [index.clear(); for i: index[keys[i]] = i;] *)
Fixpoint build_index (i : nat) (keys : list string) (ix : gmap string nat) : gmap string nat :=
  match keys with
  | [] => ix
  | k :: keys => build_index (S i) keys (<[k := i]> ix)
  end.

Definition nolock_has_row (t : DataTable) (rowkey : string) : bool :=
  bool_decide (is_Some (m_row_index t !! rowkey)).

(** ** Publishing *)

Section operations.
Context (e : env).

Definition copy_subscribers (t : DataTable) : list Z :=
  filter (fun sid => session_exists e sid = true) (m_subscribers t).

Definition nolock_publish_update (events : list TableEvent) : table_op unit :=
  t ← get;
  let subs := copy_subscribers t in
  if bool_decide (subs = []) then mret ()
  else
    msgs ← of_result (serialise_all events []);
    for_each (fun m => for_each (fun s => emit (SendOne m s)) subs) msgs.

(** ** Updates *)

Definition nolock_add_row (rowkey : string) (t : DataTable) : DataTable * list TableEvent :=
  let rows := m_rows t ++ [new_row rowkey (m_table_name t)] in
  (set_rows rows (build_index 0 (map m_rowkey rows) ∅) t, [NewRow (m_table_name t) rowkey]).

(** Updates every row with the same fields, collecting the events. *)
Fixpoint update_rows (fields : gmap string string) (rows : list DataRow)
    : list DataRow * list TableEvent :=
  match rows with
  | [] => ([], [])
  | r :: rows =>
      let '(r', ev, _) := update_fields (local_time e) fields r in
      let '(rows', evs) := update_rows fields rows in
      (r' :: rows', ev ++ evs)
  end.

Definition add_column_NOLOCK (column : string) (t : DataTable) : DataTable * list TableEvent :=
  match m_column_index t !! column with
  | Some _ => (t, [])
  | None =>
      let columns := m_columns t ++ [column] in
      let '(rows, evs) := update_rows {[ column := EmptyString ]} (m_rows t) in
      (set_rows rows (m_row_index t) (set_columns columns (build_index 0 columns ∅) t),
       NewColumn (m_table_name t) column :: evs)
  end.

Fixpoint add_columns_NOLOCK (cols : list string) (t : DataTable) : DataTable * list TableEvent :=
  match cols with
  | [] => (t, [])
  | c :: cols =>
      let '(t, ev) := add_column_NOLOCK c t in
      let '(t, evs) := add_columns_NOLOCK cols t in
      (t, ev ++ evs)
  end.

(** [m_rows[m_row_index[rowkey]].update_fields(fields, events)]. *)
Definition update_indexed_row (rowkey : string) (fields : gmap string string) (t : DataTable)
    : result (DataTable * list TableEvent) :=
  let i := default 0%nat (m_row_index t !! rowkey) in
  match m_rows t !! i with
  | Some row =>
      let '(row', ev, _) := update_fields (local_time e) fields row in
      Ok (set_rows (<[i := row']> (m_rows t)) (m_row_index t) t, ev)
  | None => Throw (undefined_behaviour "row index out of range")
  end.

Definition update_row (rowkey : string) (fields : gmap string string) : table_op unit :=
  t ← get;
  let '(t, ev1) := if nolock_has_row t rowkey then (t, []) else nolock_add_row rowkey t in
  let cols := filter (fun c => reserved c = false) (map_iter fields).*1 in
  let '(t, ev2) := add_columns_NOLOCK cols t in
  put t;;
  '(t, ev3) ← of_result (update_indexed_row rowkey fields t);
  put t;;
  let events := ev1 ++ ev2 ++ ev3 in
  if bool_decide (length events = 0%nat) then mret () else nolock_publish_update events.

Definition add_columns (cols : list string) : table_op unit :=
  t ← get;
  let '(t, events) := add_columns_NOLOCK cols t in
  put t;;
  if bool_decide (length events = 0%nat) then mret () else nolock_publish_update events.

Definition clear_table : table_op unit :=
  modify (set_rows [] ∅);;
  t ← get;
  nolock_publish_update [TableCleared (m_table_name t)].

Definition delete_row (rowkey : string) : table_op unit :=
  t ← get;
  match m_row_index t !! rowkey with
  | Some index =>
      put (set_rows (list_delete index (m_rows t))
             ((fun j => if (index <? j)%nat then (j - 1)%nat else j) <$> delete rowkey (m_row_index t)) t);;
      nolock_publish_update [RowRemoved (m_table_name t) rowkey]
  | None => mret ()
  end.

Definition add_column_attr (column : string) (attribute : txContainer) (t : DataTable) : DataTable :=
  set_column_attrs (<[column := default [] (m_column_attrs t !! column) ++ [clone attribute]]>
                      (m_column_attrs t)) t.

Definition update_meta (rowkey fieldname : string) (meta : txContainer) : table_op unit :=
  t ← get;
  let metaForCol := default ∅ (m_pcmd t !! rowkey) in
  put (set_pcmd (<[rowkey := <[fieldname := set_name (".meta." +:+ fieldname) (clone meta)]> metaForCol]>
                   (m_pcmd t)) t);;
  nolock_publish_update [PCMDEvent (m_table_name t) rowkey fieldname (clone meta)].

(** ** Snapshots *)

Definition snapshot_empty_msg : txMessage :=
  on_root (fun r => put_field_qn (put_field_qn (put_field_qn r id.QN_tablename EmptyString)
    id.QN_body_rows "0") id.QN_msgtype id.tableupdate) (new_message id.tableupdate).

Definition snapshot_set_table_name (table_name : string) (m : txMessage) : txMessage :=
  on_root (fun r => put_field_qn r id.QN_tablename table_name) m.

(** What [SnapshotSerialiser::add_row] does to the body. *)
Definition snapshot_body_add (row : DataRow) (meta : option MetaForCol) (body : txContainer) : txContainer :=
  let nrows := Z.of_nat (count_child body) in
  let rowname := id.row_prefix +:+ print_unsigned nrows in
  let body := put_child_with body rowname (fun c =>
    let c := foldl (fun c kv => put_field c kv.1 kv.2) c (map_iter (m_fields row)) in
    match meta with
    | Some meta => foldl (fun c kv => put_child_copy c kv.2) c (map_iter meta)
    | None => c
    end) in
  put_field body id.rows (to_str (nrows + 1)).

Definition snapshot_add_row (row : DataRow) (meta : option MetaForCol) (m : txMessage) : txMessage :=
  on_root (fun r => put_child_with r id.body (snapshot_body_add row meta)) m.

(** One batch: the message with the given rows. *)
Definition snapshot_batch (t : DataTable) (rows : list DataRow) : txMessage :=
  foldl (fun m row => snapshot_add_row row (m_pcmd t !! m_rowkey row) m)
    (snapshot_set_table_name (m_table_name t) snapshot_empty_msg) rows.

Definition room_for_snap_fields : Z := 50.

(** The [while] loop: [next] are the rows still to be sent; the messages
    queued and the final batch size. *)
Fixpoint snapshot_loop (fuel : nat) (t : DataTable) (batchsize : Z) (next : list DataRow)
    : result (list txMessage * Z) :=
  match next with
  | [] => Ok ([], batchsize)
  | _ :: _ =>
      match fuel with
      | O => Throw out_of_fuel
      | S fuel =>
          let m := snapshot_batch t (take (Z.to_nat batchsize) next) in
          if check_enc_size m room_for_snap_fields then
            '(msgs, b) ← snapshot_loop fuel t batchsize (drop (Z.to_nat batchsize) next);
            mret (m :: msgs, b)
          else if batchsize =? 1 then Throw (runtime_error "failed to encode snapshot")
          else snapshot_loop fuel t (Z.max 1 (batchsize / 2)) next
      end
  end.

(** The messages numbered within the snapshot. *)
Fixpoint number_snapshot (snapi : Z) (snapn : string) (msgs : list txMessage) : list txMessage :=
  match msgs with
  | [] => []
  | m :: msgs =>
      on_root (fun r => put_field_qn (put_field_qn r id.QN_head_snapi (to_str snapi))
                          id.QN_head_snapn snapn) m
      :: number_snapshot (snapi + 1) snapn msgs
  end.

Definition nolock_send_snapshopt (session : Z) : table_op unit :=
  t ← get;
  '(msgs, batchsize) ← of_result
    (snapshot_loop (length (m_rows t) + Z.to_nat (m_batchsize t)) t (m_batchsize t) (m_rows t));
  emit (SendList (number_snapshot 0 (to_str (Z.of_nat (length msgs))) msgs) session);;
  modify (set_batchsize batchsize).

(** ** Subscribers *)

(** [TableDescrSerialiser]. *)
Definition tabledescr_new (table_name : string) : txMessage :=
  on_root (fun r => put_child_qn_with (put_field_qn (put_field_qn r id.QN_msgtype id.tabledescr)
    id.QN_tablename table_name) id.QN_columns (fun c => put_field c id.msgcount "0"))
    (new_message id.tabledescr).

Definition tabledescr_add_column (m : txMessage) (column : string * option (list txContainer))
    : txMessage :=
  on_root (fun r => put_child_qn_with r id.QN_columns (fun columns =>
    let ncols := Z.of_nat (count_child columns) in
    let columns := put_child_with columns (id.msg_prefix +:+ print_unsigned ncols) (fun colcont =>
      let colcont := put_field colcont id.colname column.1 in
      foldl put_child_copy colcont (default [] column.2)) in
    put_field columns id.msgcount (to_str (ncols + 1)))) m.

(** The names of [std::set<std::string> cols], in order. *)
Definition known_columns (t : DataTable) : list string :=
  (map_iter (list_to_map ((fun c => (c, ())) <$> m_columns t) ∪ ((fun _ => ()) <$> m_column_attrs t)
             : gmap string unit)).*1.

Definition table_description (t : DataTable) : txMessage :=
  foldl tabledescr_add_column (tabledescr_new (m_table_name t))
    ((fun c => (c, m_column_attrs t !! c)) <$> known_columns t).

Definition add_subscriber (session : Z) : table_op unit :=
  modify (fun t => set_subscribers (m_subscribers t ++ [session]) t);;
  t ← get;
  emit (SendOne (table_description t) session);;
  nolock_send_snapshopt session.

(** [erase] of the first element equal to [session]. *)
Fixpoint remove_first (session : Z) (l : list Z) : list Z :=
  match l with
  | [] => []
  | s :: l => if decide (s = session) then l else s :: remove_first session l
  end.

Definition del_subscriber (session : Z) (t : DataTable) : DataTable :=
  set_subscribers (remove_first session (m_subscribers t)) t.

Definition snapshot : table_op unit :=
  t ← get;
  for_each nolock_send_snapshopt (copy_subscribers t).

End operations.

(** ** Queries *)

Definition get_row_field (t : DataTable) (rowkey column : string) : result string :=
  match m_row_index t !! rowkey with
  | None => Throw (out_of_range "row not found")
  | Some i => match m_rows t !! i with
              | Some row => get_field row column
              | None => Throw (undefined_behaviour "row index out of range")
              end
  end.
Definition get_rowkeys (t : DataTable) : list string := map m_rowkey (m_rows t).
Definition copy_rowkeys (t : DataTable) (dest : list string) : list string :=
  dest ++ map m_rowkey (m_rows t).
Definition has_row (t : DataTable) (rowkey : string) : bool := nolock_has_row t rowkey.
Definition get_column_count (t : DataTable) : nat := length (m_columns t).
Definition get_row_count (t : DataTable) : nat := length (m_rows t).
Definition table_subscribers (t : DataTable) (l : list Z) : list Z := l ++ m_subscribers t.

Definition copy_field (t : DataTable) (rowkey field dest : string) : result (string * bool) :=
  match m_row_index t !! rowkey with
  | None => Ok (dest, false)
  | Some i => match m_rows t !! i with
              | Some row => Ok (row_copy_field row field dest)
              | None => Throw (undefined_behaviour "row index out of range")
              end
  end.

(** [copy_table(dest)], for a map of rows. *)
Definition copy_table (t : DataTable) (dest : gmap string (gmap string string))
    : gmap string (gmap string string) :=
  foldl (fun dest row => <[m_rowkey row := row_copy_row row (default ∅ (dest !! m_rowkey row))]> dest)
    dest (m_rows t).

(** [copy_table(cols, rows)], for a vector of vectors. *)
Definition copy_table2 (t : DataTable) (rows : list (list string)) : list string * list (list string) :=
  (m_columns t, rows ++ map (fun row =>
     map (fun c => (row_copy_field row c EmptyString).1) (m_columns t)) (m_rows t)).

Definition copy_row (t : DataTable) (rowkey : string) (dest : gmap string string)
    : result (gmap string string) :=
  match m_row_index t !! rowkey with
  | None => Ok dest
  | Some i => match m_rows t !! i with
              | Some row => Ok (row_copy_row row dest)
              | None => Throw (undefined_behaviour "row index out of range")
              end
  end.

Definition table_size (t : DataTable) : Z :=
  foldl (fun s row =>
    foldl (fun s kv => size_t (s + Z.of_nat (String.length kv.1 + String.length kv.2))) s
      (map_iter (m_fields row))) 0 (m_rows t).
