(* ===== verification/TableFacts.v ===== *)
(** The invariant of [DataTable] and the effect of its operations on the rows,
    used by the properties of [TableProps]. *)

From S2P Require Import Prelude Decimal Utils TxContainer MsgIDs TableEvents Table.

Local Open Scope Z_scope.

(** * Indexes *)

(** [ix] maps each key to its position in [keys], and has no other entry. *)
Definition index_of (keys : list string) (ix : gmap string nat) : Prop :=
  forall k i, ix !! k = Some i <-> keys !! i = Some k.

Lemma index_of_NoDup keys ix : index_of keys ix -> NoDup keys.
Proof.
  intros Hix. apply NoDup_alt. intros i j k Hi Hj. apply Hix in Hi, Hj. congruence.
Qed.

Lemma index_of_None keys ix k : index_of keys ix -> ix !! k = None <-> k ∉ keys.
Proof.
  intros Hix. split.
  - intros Hn [i Hi]%list_elem_of_lookup. apply Hix in Hi. congruence.
  - intros Hn. destruct (ix !! k) as [i|] eqn:E; [|done]. apply Hix in E.
    by apply list_elem_of_lookup_2 in E.
Qed.

Lemma index_of_nil : index_of [] ∅.
Proof. intros k i. by rewrite lookup_empty, lookup_nil. Qed.

Lemma build_index_lookup i keys ix k : NoDup keys -> k ∈ keys ->
  exists j, keys !! j = Some k /\ build_index i keys ix !! k = Some (i + j)%nat.
Proof.
  revert i ix. induction keys as [|k' keys IH]; intros i ix Hnd Hk; [by apply elem_of_nil in Hk|].
  apply NoDup_cons in Hnd as [Hn Hnd]. cbn [build_index].
  destruct (decide (k ∈ keys)) as [Hin|Hni].
  - destruct (IH (S i) (<[k':=i]> ix) Hnd Hin) as (j & Hj & Hl). exists (S j). split; [done|].
    rewrite Hl. f_equal. lia.
  - assert (k = k') as -> by set_solver. exists 0%nat. split; [done|].
    clear IH Hk Hnd. rewrite Nat.add_0_r. generalize (S i). revert ix.
    assert (forall n ix, ix !! k' = Some i -> build_index n keys ix !! k' = Some i) as Hkeep.
    { clear Hni. induction keys as [|a keys IH]; intros n ix Hix; [done|]. cbn [build_index].
      apply IH; [set_solver|]. rewrite lookup_insert_ne by set_solver. done. }
    intros ix n. apply Hkeep, lookup_insert_eq.
Qed.

Lemma build_index_other i keys ix k : k ∉ keys -> build_index i keys ix !! k = ix !! k.
Proof.
  revert i ix. induction keys as [|k' keys IH]; intros i ix Hk; [done|]. cbn [build_index].
  rewrite IH by set_solver. by rewrite lookup_insert_ne by set_solver.
Qed.

Lemma build_index_of keys : NoDup keys -> index_of keys (build_index 0 keys ∅).
Proof.
  intros Hnd k i. split.
  - intros Hl. destruct (decide (k ∈ keys)) as [Hin|Hni].
    + destruct (build_index_lookup 0 keys ∅ k Hnd Hin) as (j & Hj & Hl'). simpl in *. congruence.
    + by rewrite build_index_other, lookup_empty in Hl.
  - intros Hi. assert (k ∈ keys) as Hin by (by eapply list_elem_of_lookup_2).
    destruct (build_index_lookup 0 keys ∅ k Hnd Hin) as (j & Hj & ->). simpl.
    f_equal. by eapply NoDup_lookup.
Qed.

(** Erasing an element and closing the gap in the index. *)
Lemma index_of_delete keys ix i k : index_of keys ix -> keys !! i = Some k ->
  index_of (delete i keys) ((fun j => if (i <? j)%nat then (j - 1)%nat else j) <$> delete k ix).
Proof.
  intros Hix Hi k' j. rewrite lookup_fmap, lookup_delete.
  assert (delete i keys !! j = keys !! (if (j <? i)%nat then j else S j)) as ->.
  { destruct (Nat.ltb_spec j i); [by apply list_lookup_delete_lt|by apply list_lookup_delete_ge]. }
  split.
  - case_decide as Hk; [done|]. destruct (ix !! k') as [j0|] eqn:E; [|done]. simpl. intros [= <-].
    apply Hix in E. assert (j0 <> i) by (intros ->; congruence).
    destruct (Nat.ltb_spec i j0).
    + destruct (Nat.ltb_spec (j0 - 1) i); [lia|]. by replace (S (j0 - 1)) with j0 by lia.
    + destruct (Nat.ltb_spec j0 i); [done|lia].
  - intros Hj. pose proof Hj as Hj'. apply Hix in Hj'.
    rewrite decide_False; [|intros ->; apply Hix in Hi; rewrite Hi in Hj'; injection Hj' as Hj';
      destruct (Nat.ltb_spec j i); lia].
    rewrite Hj'. simpl. f_equal. destruct (Nat.ltb_spec j i).
    + destruct (Nat.ltb_spec i j); lia.
    + destruct (Nat.ltb_spec i (S j)); lia.
Qed.

(** * Updating a row *)

(** The new values a row takes, apart from its time stamp. *)
Definition user_fields (fields : gmap string string) : gmap string string :=
  filter (fun kv => reserved kv.1 = false) fields.

(** The event holds exactly the difference: the row after the update is the
    event laid over the row before it; no reserved field is in it. *)
Lemma update_fold_union base l ev :
  (forall f, reserved f = true -> default ∅ ev !! f = None) -> exists ev',
  foldl update_one (default ∅ ev ∪ base, ev) l = (default ∅ ev' ∪ base, ev') /\
  (forall f, reserved f = true -> default ∅ ev' !! f = None) /\
  (is_Some ev -> is_Some ev') .
Proof.
  revert ev. induction l as [|up l IH]; intros ev Hev; [by exists ev|]. cbn [foldl].
  unfold update_one at 2. destruct (reserved up.1) eqn:Er; [by apply IH|].
  case_bool_decide; [by apply IH|]. rewrite insert_union_l.
  destruct (IH (Some (<[up.1:=up.2]> (default ∅ ev)))) as (ev' & E & Hr & Hs).
  { intros f Hf. cbn. rewrite lookup_insert_ne by (intros <-; congruence). by apply Hev. }
  exists ev'. split; [exact E|]. split; [done|]. intros _. apply Hs. by eexists.
Qed.

Lemma update_fold_lookup l : forall ours ev f, NoDup l.*1 ->
  (foldl update_one (ours, ev) l).1 !! f =
  match list_to_map (M := gmap string string) l !! f with
  | Some v => if reserved f then ours !! f else Some v
  | None => ours !! f
  end.
Proof.
  induction l as [|[c v] l IH]; intros ours ev f Hnd.
  { cbn [foldl fst list_to_map foldr]. by rewrite lookup_empty. }
  rewrite fmap_cons in Hnd. apply NoDup_cons in Hnd as [Hc Hnd]. cbn [foldl fst] in *.
  assert (exists ours' ev', update_one (ours, ev) (c, v) = (ours', ev') /\
    forall g, ours' !! g = if decide (g = c) then (if reserved c then ours !! c else Some v) else ours !! g)
    as (ours' & ev' & -> & Ho).
  { unfold update_one. cbn [fst snd]. destruct (reserved c).
    - eexists _, _. split; [done|]. intros g. by case_decide; subst.
    - case_bool_decide as E.
      + eexists _, _. split; [done|]. intros g. case_decide; by subst.
      + eexists _, _. split; [done|]. intros g. case_decide; subst;
          [by rewrite lookup_insert_eq|by rewrite lookup_insert_ne]. }
  rewrite IH by done. rewrite list_to_map_cons. rewrite !Ho.
  destruct (decide (f = c)) as [->|Hne].
  - rewrite lookup_insert_eq, not_elem_of_list_to_map_1 by done. by destruct (reserved c).
  - by rewrite lookup_insert_ne by done.
Qed.

Lemma user_fields_lookup fields f :
  user_fields fields !! f = if reserved f then None else fields !! f.
Proof.
  unfold user_fields. rewrite map_lookup_filter. destruct (fields !! f) as [v|]; simpl.
  - destruct (reserved f) eqn:E; [by rewrite option_guard_False by (simpl; congruence)|].
    by rewrite option_guard_True.
  - by destruct (reserved f).
Qed.

Lemma reserved_row_last : reserved id.row_last = true.
Proof. done. Qed.
Lemma reserved_row_key : reserved id.row_key = true.
Proof. done. Qed.

(** [update_fields]: the new fields, and the event that conveys them. *)
Lemma update_fields_spec now fields row row' evs changed :
  update_fields now fields row = (row', evs, changed) ->
  m_rowkey row' = m_rowkey row /\ r_table_name row' = r_table_name row /\
  (forall f, f <> id.row_last -> m_fields row' !! f =
     match user_fields fields !! f with Some v => Some v | None => m_fields row !! f end) /\
  ((evs = [] /\ changed = false /\ row' = row) \/
   (exists evf, evs = [RowMultiUpdate (r_table_name row) (m_rowkey row) evf] /\ changed = true /\
      m_fields row' = evf ∪ m_fields row /\ evf !! id.row_key = None)).
Proof.
  unfold update_fields. intros E.
  pose proof (fun f => update_fold_lookup (map_iter fields) (m_fields row) None f
    (map_iter_NoDup_fst fields)) as Hl.
  destruct (update_fold_union (m_fields row) (map_iter fields) None) as (ev & Hu & Hr & _).
  { intros f _. apply lookup_empty. }
  cbn [default] in Hu. change (id ∅) with (∅ : gmap string string) in Hu.
  rewrite (left_id_L ∅ (∪)) in Hu. rewrite Hu in E, Hl. cbn [fst] in Hl.
  assert (forall f, (default ∅ ev ∪ m_fields row) !! f =
    match user_fields fields !! f with Some v => Some v | None => m_fields row !! f end) as Hf.
  { intros f. rewrite Hl, list_to_map_map_iter, user_fields_lookup.
    destruct (fields !! f); by destruct (reserved f). }
  destruct ev as [evf|]; injection E as <- <- <-; cbn [m_rowkey r_table_name m_fields] in *.
  - split; [done|]. split; [done|]. split.
    + intros f Hf'. rewrite lookup_insert_ne by done. apply Hf.
    + right. eexists. split; [done|]. split; [done|]. cbn. split; [by rewrite insert_union_l|].
      rewrite lookup_insert_ne by done. apply (Hr id.row_key reserved_row_key).
  - split; [done|]. split; [done|]. split; [intros f _; apply Hf|]. left. cbn.
    rewrite (left_id_L ∅ (∪)). by destruct row.
Qed.

(** * The invariant *)

(** Rows belong to the table and hold their own key. *)
Definition row_ok (t : DataTable) (r : DataRow) : Prop :=
  r_table_name r = m_table_name t /\ m_fields r !! id.row_key = Some (m_rowkey r).

Record table_inv (t : DataTable) : Prop := {
  ti_rows : index_of (map m_rowkey (m_rows t)) (m_row_index t);
  ti_cols : index_of (m_columns t) (m_column_index t);
  ti_row_ok : Forall (row_ok t) (m_rows t);
  ti_batch : 1 <= m_batchsize t <= 500 }.

Lemma table_inv_new name : table_inv (new_table name).
Proof. split; [apply index_of_nil|apply index_of_nil|constructor|done]. Qed.

Lemma row_ok_update t row now fields row' evs ch : row_ok t row ->
  update_fields now fields row = (row', evs, ch) -> row_ok t row' /\ m_rowkey row' = m_rowkey row.
Proof.
  intros [Ht Hk] E. apply update_fields_spec in E as (Hrk & Hrt & Hf & _).
  split; [|done]. split; [congruence|]. rewrite Hf by done. rewrite user_fields_lookup, reserved_row_key.
  congruence.
Qed.

(** * Replicas

    A subscriber's copy of a table, kept by applying the messages it gets. *)
Abbreviation replica := (gmap string (gmap string string)).

Definition rows_map (rows : list DataRow) : replica :=
  list_to_map ((fun r => (m_rowkey r, m_fields r)) <$> rows).
(** The contents of a table. *)
Definition contents (t : DataTable) : replica := rows_map (m_rows t).

(** What an event tells; row creation is not sent. *)
Definition apply_event (R : replica) (ev : TableEvent) : replica :=
  match ev with
  | RowMultiUpdate _ k evf => <[k := evf ∪ ({[id.row_key := k]} ∪ default ∅ (R !! k))]> R
  | TableCleared _ => ∅
  | RowRemoved _ k => delete k R
  | NewColumn _ _ | NewRow _ _ | PCMDEvent _ _ _ _ => R
  end.

(** The events of an update of the table [n]. *)
Definition update_event (n : string) (ev : TableEvent) : Prop :=
  match ev with
  | RowMultiUpdate t _ evf => t = n /\ evf !! id.row_key = None
  | NewColumn _ _ | NewRow _ _ => True
  | _ => False
  end.
Definition updates_row (k : string) (ev : TableEvent) : Prop :=
  match ev with RowMultiUpdate _ k' _ => k' = k | _ => False end.
#[global] Instance updates_row_dec k ev : Decision (updates_row k ev).
Proof. destruct ev; simpl; apply _. Defined.

Lemma rows_map_cons r rows : rows_map (r :: rows) = <[m_rowkey r := m_fields r]> (rows_map rows).
Proof. done. Qed.

Lemma rows_map_not_in rows k : k ∉ map m_rowkey rows -> rows_map rows !! k = None.
Proof.
  intros Hk. unfold rows_map. apply not_elem_of_list_to_map_1.
  rewrite <-list_fmap_compose. done.
Qed.

Lemma rows_map_lookup rows i r : NoDup (map m_rowkey rows) -> rows !! i = Some r ->
  rows_map rows !! m_rowkey r = Some (m_fields r).
Proof.
  intros Hnd Hi. unfold rows_map. apply elem_of_list_to_map_1.
  - rewrite <-list_fmap_compose. done.
  - apply list_elem_of_fmap. exists r. split; [done|]. by eapply list_elem_of_lookup_2.
Qed.

(** Applying a row's event to a copy that has the row before the change. *)
Lemma apply_update now fields row row' evs ch R :
  update_fields now fields row = (row', evs, ch) -> m_fields row !! id.row_key = Some (m_rowkey row) ->
  R !! m_rowkey row = Some (m_fields row) ->
  foldl apply_event R evs = <[m_rowkey row := m_fields row']> R /\ Forall (update_event (r_table_name row)) evs.
Proof.
  intros E Hk HR. apply update_fields_spec in E as (_ & _ & _ & [(-> & _ & ->)|(evf & -> & _ & Hf & Hn)]).
  - split; [|constructor]. simpl. by rewrite insert_id.
  - split; [|by repeat constructor]. cbn [foldl apply_event]. rewrite HR.
    change (default ∅ (Some (m_fields row))) with (m_fields row). rewrite Hf. do 2 f_equal.
    apply map_subseteq_union. by apply map_singleton_subseteq_l.
Qed.

(** ** Updating all rows *)

Section rows.
Context (e : env).

Lemma update_rows_spec t fields rows : Forall (row_ok t) rows -> NoDup (map m_rowkey rows) ->
  let '(rows', evs) := update_rows e fields rows in
  map m_rowkey rows' = map m_rowkey rows /\ Forall (row_ok t) rows' /\ Forall (update_event (m_table_name t)) evs /\
  (forall R, (forall i r, rows !! i = Some r -> R !! m_rowkey r = Some (m_fields r)) ->
     foldl apply_event R evs = rows_map rows' ∪ R) /\
  (forall i r r', rows !! i = Some r -> rows' !! i = Some r' ->
     forall f, f <> id.row_last -> m_fields r' !! f =
       match user_fields fields !! f with Some v => Some v | None => m_fields r !! f end).
Proof.
  induction rows as [|r rows IH]; intros Hok Hnd; cbn [update_rows].
  { do 3 (split; [done|]). split; [|done]. intros R _. cbn. by rewrite (left_id_L ∅ (∪)). }
  apply Forall_cons in Hok as [Hr Hok]. cbn [map] in Hnd. apply NoDup_cons in Hnd as [Hni Hnd].
  destruct (update_fields (local_time e) fields r) as [[r' ev] ch] eqn:E.
  specialize (IH Hok Hnd). destruct (update_rows e fields rows) as [rows' evs].
  destruct IH as (Hkeys & Hok' & Hev & Hrep & Hval).
  destruct (row_ok_update t r _ _ _ _ _ Hr E) as [Hr' Hk'].
  split; [cbn [map]; congruence|]. split; [by constructor|].
  assert (Forall (update_event (m_table_name t)) ev) as Hev1.
  { rewrite <-(proj1 Hr).
    apply (apply_update _ _ _ _ _ _ {[m_rowkey r := m_fields r]} E); [apply Hr|apply lookup_singleton_eq]. }
  split; [by apply Forall_app|]. split.
  - intros R HR. rewrite foldl_app.
    destruct (apply_update _ _ _ _ _ _ R E) as [-> _]; [apply Hr|apply (HR 0%nat r eq_refl)|].
    rewrite Hrep.
    + rewrite rows_map_cons, Hk', <-insert_union_l, <-insert_union_r; [done|].
      apply rows_map_not_in. by rewrite Hkeys.
    + intros i r0 Hi. rewrite lookup_insert_ne; [by apply (HR (S i))|].
      intros He. apply Hni. rewrite He. apply list_elem_of_fmap. exists r0. split; [done|].
      by eapply list_elem_of_lookup_2.
  - intros [|i] r0 r0' H1 H2 f Hf; [|by eapply Hval].
    injection H1 as <-. injection H2 as <-. by apply update_fields_spec in E as (_ & _ & Hx & _); apply Hx.
Qed.

(** The part of the invariant that does not mention the columns. *)
Lemma contents_lookup t i r : table_inv t -> m_rows t !! i = Some r ->
  contents t !! m_rowkey r = Some (m_fields r).
Proof.
  intros Hi Hr. apply (rows_map_lookup _ i); [|done]. eapply index_of_NoDup. apply Hi.
Qed.

Lemma rows_map_dom rows k : is_Some (rows_map rows !! k) -> k ∈ map m_rowkey rows.
Proof.
  intros Hs. destruct (decide (k ∈ map m_rowkey rows)); [done|].
  rewrite rows_map_not_in in Hs by done. by apply is_Some_None in Hs.
Qed.

(** Two maps of rows with the same keys: laying one over the other replaces it. *)
Lemma rows_map_union rows' rows : map m_rowkey rows' = map m_rowkey rows ->
  NoDup (map m_rowkey rows') -> rows_map rows' ∪ rows_map rows = rows_map rows'.
Proof.
  intros Hk Hnd. apply map_eq. intros k.
  destruct (rows_map rows' !! k) as [v|] eqn:E; [by rewrite (lookup_union_Some_l _ _ _ _ E)|].
  rewrite lookup_union_r by done. destruct (rows_map rows !! k) as [v|] eqn:E2; [|done].
  assert (k ∈ map m_rowkey rows) as Hin by (apply rows_map_dom; by eexists).
  rewrite <-Hk in Hin. apply list_elem_of_fmap in Hin as (r & -> & [i Hi]%list_elem_of_lookup).
  by rewrite (rows_map_lookup _ _ _ Hnd Hi) in E.
Qed.

(** [add_column_NOLOCK] keeps the invariant and its events convey the change. *)
Lemma add_column_spec column t : table_inv t ->
  let '(t', evs) := add_column_NOLOCK e column t in
  table_inv t' /\ m_row_index t' = m_row_index t /\ Forall (update_event (m_table_name t)) evs /\
  m_table_name t' = m_table_name t /\ m_subscribers t' = m_subscribers t /\
  foldl apply_event (contents t) evs = contents t' /\
  (forall c, c ∈ m_columns t' <-> c ∈ m_columns t \/ c = column) /\
  (forall k f old, f <> id.row_last -> f <> column \/ column ∈ m_columns t -> contents t !! k = Some old ->
     exists new, contents t' !! k = Some new /\ new !! f = old !! f).
Proof.
  intros Hi. unfold add_column_NOLOCK. destruct (m_column_index t !! column) as [c|] eqn:Ec.
  { do 6 (split; [done|]). apply (ti_cols t Hi), list_elem_of_lookup_2 in Ec.
    split; [set_solver|]. intros k f old _ _ Hk. by exists old. }
  pose proof (index_of_NoDup _ _ (ti_rows t Hi)) as Hnd.
  pose proof (update_rows_spec t {[column := EmptyString]} (m_rows t) (ti_row_ok t Hi) Hnd) as Hu.
  destruct (update_rows e {[column := EmptyString]} (m_rows t)) as [rows' evs].
  destruct Hu as (Hkeys & Hok & Hev & Hrep & Hval).
  assert (column ∉ m_columns t) as Hnc by (by apply (index_of_None _ _ _ (ti_cols t Hi))).
  split.
  { split; cbn; [rewrite Hkeys; apply Hi| |exact Hok|apply Hi].
    apply build_index_of. apply NoDup_app. split; [eapply index_of_NoDup; apply Hi|].
    split; [set_solver|]. apply NoDup_singleton. }
  split; [done|]. split; [by constructor|]. split; [done|]. split; [done|]. split.
  { cbn [foldl apply_event]. rewrite Hrep by (intros i r Hr; by apply (contents_lookup t i)).
    unfold contents. cbn. apply rows_map_union; [done|]. by rewrite Hkeys. }
  split; [cbn; set_solver|].
  intros k f old Hf [Hfc|?] Hk; [|done].
  assert (k ∈ map m_rowkey (m_rows t)) as Hin by (apply rows_map_dom; by eexists).
  apply list_elem_of_fmap in Hin as (r & -> & [i Hr]%list_elem_of_lookup).
  rewrite (contents_lookup t i r Hi Hr) in Hk. injection Hk as <-.
  assert (is_Some (rows' !! i)) as [r' Hr'].
  { apply lookup_lt_is_Some. apply (f_equal length) in Hkeys. rewrite !length_map in Hkeys.
    rewrite Hkeys. by eapply lookup_lt_Some. }
  assert (m_rowkey r' = m_rowkey r) as Hrk.
  { assert (map m_rowkey rows' !! i = map m_rowkey (m_rows t) !! i) as Hx by (by rewrite Hkeys).
    rewrite !list_lookup_fmap, Hr, Hr' in Hx. by injection Hx. }
  exists (m_fields r'). split.
  { rewrite <-Hrk. unfold contents. cbn. apply (rows_map_lookup _ i); [by rewrite Hkeys|done]. }
  rewrite (Hval i r r' Hr Hr' f Hf), user_fields_lookup.
  destruct (reserved f); [done|]. by rewrite lookup_singleton_ne.
Qed.

Lemma add_columns_spec cols t : table_inv t ->
  let '(t', evs) := add_columns_NOLOCK e cols t in
  table_inv t' /\ m_row_index t' = m_row_index t /\ Forall (update_event (m_table_name t)) evs /\
  m_table_name t' = m_table_name t /\ m_subscribers t' = m_subscribers t /\
  foldl apply_event (contents t) evs = contents t' /\
  (forall c, c ∈ m_columns t' <-> c ∈ m_columns t \/ c ∈ cols) /\
  (forall k f old, f <> id.row_last -> (f ∉ cols) \/ f ∈ m_columns t -> contents t !! k = Some old ->
     exists new, contents t' !! k = Some new /\ new !! f = old !! f).
Proof.
  revert t. induction cols as [|c cols IH]; intros t Hi; cbn [add_columns_NOLOCK].
  { do 6 (split; [done|]). split; [set_solver|]. intros k f old _ _ Hk. by exists old. }
  pose proof (add_column_spec c t Hi) as H1. destruct (add_column_NOLOCK e c t) as [t1 ev1].
  destruct H1 as (Hi1 & Hx1 & He1 & Hn1 & Hs1 & Hr1 & Hc1 & Hf1).
  specialize (IH t1 Hi1). destruct (add_columns_NOLOCK e cols t1) as [t2 ev2].
  destruct IH as (Hi2 & Hx2 & He2 & Hn2 & Hs2 & Hr2 & Hc2 & Hf2). rewrite Hn1 in He2.
  split; [done|]. split; [congruence|]. split; [by apply Forall_app|]. split; [congruence|].
  split; [congruence|]. split; [by rewrite foldl_app, Hr1|].
  split; [intros c'; rewrite Hc2, Hc1, elem_of_cons; tauto|].
  intros k f old Hf Hor Hk.
  destruct (Hf1 k f old Hf) as (mid & Hm & Hmf); [|done|].
  { destruct (decide (f = c)) as [->|]; [right|by left]. rewrite elem_of_cons in Hor. tauto. }
  destruct (Hf2 k f mid Hf) as (new & Hn & Hnf); [|done|exists new; split; [done|congruence]].
  rewrite elem_of_cons in Hor. rewrite Hc1. tauto.
Qed.

End rows.

(** ** Updating one row *)

Lemma rows_map_insert rows i r r' : NoDup (map m_rowkey rows) -> rows !! i = Some r ->
  m_rowkey r' = m_rowkey r ->
  rows_map (<[i := r']> rows) = <[m_rowkey r := m_fields r']> (rows_map rows).
Proof.
  revert i. induction rows as [|a rows IH]; intros i Hnd Hi Hk; [done|].
  cbn [map] in Hnd. apply NoDup_cons in Hnd as [Hni Hnd].
  destruct i as [|i].
  - injection Hi as ->. change (<[0%nat := r']> (r :: rows)) with (r' :: rows). rewrite !rows_map_cons, Hk. by rewrite insert_insert_eq.
  - change (<[S i := r']> (a :: rows)) with (a :: <[i := r']> rows).
    rewrite !rows_map_cons, (IH i Hnd Hi Hk), insert_insert_ne; [done|].
    intros He. apply Hni. rewrite He. apply list_elem_of_fmap. exists r. split; [done|].
    by eapply list_elem_of_lookup_2.
Qed.

Lemma keys_insert rows i r r' : rows !! i = Some r -> m_rowkey r' = m_rowkey r ->
  map m_rowkey (<[i := r']> rows) = map m_rowkey rows.
Proof.
  intros Hi Hk. change (map m_rowkey) with (fmap (M := list) m_rowkey). rewrite list_fmap_insert, Hk.
  apply list_insert_id. by rewrite list_lookup_fmap, Hi.
Qed.

Lemma update_indexed_row_spec e k fields t : table_inv t -> is_Some (m_row_index t !! k) ->
  exists t' evs, update_indexed_row e k fields t = Ok (t', evs) /\ table_inv t' /\
    m_table_name t' = m_table_name t /\ m_subscribers t' = m_subscribers t /\
    m_columns t' = m_columns t /\ Forall (update_event (m_table_name t)) evs /\
    foldl apply_event (contents t) evs = contents t' /\
    (exists old new, contents t !! k = Some old /\ contents t' !! k = Some new /\
       forall f, f <> id.row_last -> new !! f =
         match user_fields fields !! f with Some v => Some v | None => old !! f end) /\
    (forall k', k' <> k -> contents t' !! k' = contents t !! k').
Proof.
  intros Hi [i Hix]. unfold update_indexed_row. rewrite Hix. cbn [default].
  pose proof (index_of_NoDup _ _ (ti_rows t Hi)) as Hnd.
  apply (ti_rows t Hi) in Hix as Hk. rewrite list_lookup_fmap in Hk.
  change (id i) with i. destruct (m_rows t !! i) as [row|] eqn:Hrow; [|done]. injection Hk as <-.
  destruct (update_fields (local_time e) fields row) as [[row' ev] ch] eqn:E.
  pose proof (ti_row_ok t Hi) as Hok. pose proof (Forall_lookup_1 _ _ _ _ Hok Hrow) as Hro.
  destruct (row_ok_update t row _ _ _ _ _ Hro E) as [Hro' Hk'].
  set (t' := set_rows (<[i:=row']> (m_rows t)) (m_row_index t) t).
  assert (contents t' = <[m_rowkey row := m_fields row']> (contents t)) as Hc
    by (unfold contents, t'; cbn; by apply rows_map_insert).
  exists t', ev. split; [done|]. split.
  { split; [| |by apply Forall_insert|]; cbn; try apply Hi.
    rewrite (keys_insert _ _ row) by done. apply Hi. }
  split; [done|]. split; [done|]. split; [done|].
  destruct (apply_update _ _ _ _ _ _ (contents t) E) as [Hrep Hev];
    [apply Hro|by apply (contents_lookup t i)|].
  rewrite (proj1 Hro) in Hev. split; [done|]. split; [congruence|]. split.
  - exists (m_fields row), (m_fields row'). split; [by apply (contents_lookup t i)|].
    split; [by rewrite Hc, lookup_insert_eq|].
    by apply update_fields_spec in E as (_ & _ & Hx & _).
  - intros k' Hne. rewrite Hc. by rewrite lookup_insert_ne.
Qed.

Lemma rows_map_snoc rows r : m_rowkey r ∉ map m_rowkey rows ->
  rows_map (rows ++ [r]) = <[m_rowkey r := m_fields r]> (rows_map rows).
Proof.
  induction rows as [|a rows IH]; intros Hn; cbn [app]; [done|]. rewrite !rows_map_cons, IH by set_solver.
  rewrite insert_insert_ne; [done|]. intros He. apply Hn. apply elem_of_cons. left. congruence.
Qed.

Lemma nolock_add_row_spec k t : table_inv t -> m_row_index t !! k = None ->
  let '(t', evs) := nolock_add_row k t in
  table_inv t' /\ m_table_name t' = m_table_name t /\ m_subscribers t' = m_subscribers t /\
  m_columns t' = m_columns t /\ evs = [NewRow (m_table_name t) k] /\ is_Some (m_row_index t' !! k) /\
  contents t' = <[k := {[id.row_key := k]}]> (contents t) /\ contents t !! k = None.
Proof.
  intros Hi Hk. unfold nolock_add_row.
  assert (k ∉ map m_rowkey (m_rows t)) as Hni by (by apply (index_of_None _ _ _ (ti_rows t Hi))).
  assert (NoDup (map m_rowkey (m_rows t ++ [new_row k (m_table_name t)]))) as Hnd.
  { rewrite map_app. apply NoDup_app. split; [eapply index_of_NoDup; apply Hi|].
    split; [set_solver|apply NoDup_singleton]. }
  pose proof (build_index_of _ Hnd) as Hb.
  split.
  { split; [exact Hb|apply Hi| |apply Hi]. apply Forall_app. split; [apply Hi|].
    constructor; [|done]. split; [done|]. apply (lookup_singleton_eq id.row_key k). }
  do 4 (split; [done|]). split.
  { exists (length (m_rows t)). cbn. apply Hb. rewrite map_app, lookup_app_r by (rewrite length_map; lia).
    rewrite length_map, Nat.sub_diag. done. }
  split; [|by apply rows_map_not_in].
  unfold contents. cbn [m_rows set_rows]. by rewrite (rows_map_snoc _ (new_row k (m_table_name t))).
Qed.

(** ** Publishing *)

Definition published (e : env) (t : DataTable) (msgs : list txMessage) : list send :=
  flat_map (fun m => map (SendOne m) (copy_subscribers e t)) msgs.

Lemma for_each_emit {W S A} (f : A -> W) l (s : S) :
  for_each (fun a => emit (f a)) l s = (s, map f l, Ok ()).
Proof. induction l as [|a l IH]; [done|]. cbn [for_each]. unfold mbind, eff_bind. cbn. by rewrite IH. Qed.

Lemma publish_spec e events t : exists msgs, serialise_all events [] = Ok msgs /\
  nolock_publish_update e events t = (t, published e t msgs, Ok ()).
Proof.
  destruct (serialise_all_ok events []) as [msgs E]. cbn [app] in E. exists msgs. split; [done|].
  unfold nolock_publish_update, published. unfold mbind, eff_bind, get. cbn [app].
  case_bool_decide as Hs.
  - rewrite Hs. clear E. assert (flat_map (fun m => map (SendOne m) []) msgs = []) as ->; [|done].
    by induction msgs.
  - unfold of_result. rewrite E. clear E.
    assert (for_each (fun m => for_each (fun s => emit (SendOne m s)) (copy_subscribers e t)) msgs t =
      (t, flat_map (fun m => map (SendOne m) (copy_subscribers e t)) msgs, Ok ())) as ->; [|done].
    induction msgs as [|m msgs IH]; [done|]. cbn [for_each flat_map]. unfold mbind, eff_bind.
    rewrite (for_each_emit (SendOne m)). by rewrite IH.
Qed.

(** Publishing nothing when there is nothing to tell. *)
Lemma publish_if_any e events t : exists msgs, serialise_all events [] = Ok msgs /\
  (if bool_decide (length events = 0%nat) then mret () else nolock_publish_update e events) t =
  (t, published e t msgs, Ok ()).
Proof.
  case_bool_decide as He; [|apply publish_spec].
  destruct events; [|done]. exists []. done.
Qed.

(** * [update_row] *)

(** The contents the events of [update_row] start from: a missing row is
    first added, empty. *)
Definition with_row (k : string) (C : replica) : replica :=
  match C !! k with Some _ => C | None => <[k := {[id.row_key := k]}]> C end.

Lemma contents_has_row t k : table_inv t -> is_Some (contents t !! k) <-> is_Some (m_row_index t !! k).
Proof.
  intros Hi. split.
  - intros Hs%rows_map_dom. destruct (m_row_index t !! k) eqn:E; [by eexists|].
    by apply (index_of_None _ _ _ (ti_rows t Hi)) in E.
  - intros [i Hk]. apply (ti_rows t Hi) in Hk. rewrite list_lookup_fmap in Hk.
    destruct (m_rows t !! i) as [r|] eqn:Hr; [|done]. injection Hk as <-.
    rewrite (contents_lookup t i r Hi Hr). by eexists.
Qed.

Lemma update_row_spec e k fields t : table_inv t ->
  exists t' evs msgs, update_row e k fields t = (t', published e t' msgs, Ok ()) /\
    serialise_all evs [] = Ok msgs /\ table_inv t' /\ Forall (update_event (m_table_name t)) evs /\
    m_table_name t' = m_table_name t /\ m_subscribers t' = m_subscribers t /\
    foldl apply_event (with_row k (contents t)) evs = contents t' /\
    (exists new, contents t' !! k = Some new /\
       forall f, f <> id.row_last -> new !! f =
         match user_fields fields !! f with
         | Some v => Some v
         | None => with_row k (contents t) !! k ≫= (.!! f)
         end) /\
    (forall k' old f, k' <> k -> contents t !! k' = Some old -> f <> id.row_last ->
       user_fields fields !! f = None \/ f ∈ m_columns t ->
       exists new, contents t' !! k' = Some new /\ new !! f = old !! f).
Proof.
  intros Hi. unfold update_row. unfold mbind at 1, eff_bind at 1, get at 1.
  set (step1 := if nolock_has_row t k then (t, []) else nolock_add_row k t).
  assert (let '(t1, ev1) := step1 in table_inv t1 /\ m_table_name t1 = m_table_name t /\
    m_subscribers t1 = m_subscribers t /\ m_columns t1 = m_columns t /\ Forall (update_event (m_table_name t)) ev1 /\
    is_Some (m_row_index t1 !! k) /\ contents t1 = with_row k (contents t) /\
    (forall R, foldl apply_event R ev1 = R)) as H1.
  { unfold step1, nolock_has_row, with_row. case_bool_decide as Hh.
    - apply (contents_has_row t k Hi) in Hh as [old Ho]. rewrite Ho.
      do 4 (split; [done|]). split; [constructor|]. split; [apply (contents_has_row t k Hi); by eexists|done].
    - assert (m_row_index t !! k = None) as Hn by (by apply eq_None_not_Some).
      pose proof (nolock_add_row_spec k t Hi Hn) as Ha. destruct (nolock_add_row k t) as [t1 ev1].
      destruct Ha as (Hi1 & Hn1 & Hs1 & Hc1 & -> & Hx & Hct & Hct0). rewrite Hct0.
      do 4 (split; [done|]). split; [by repeat constructor|]. done. }
  clearbody step1. destruct step1 as [t1 ev1]. destruct H1 as (Hi1 & Hn1 & Hs1 & Hc1 & He1 & Hx1 & Hct1 & Hid).
  set (cols := filter (fun c => reserved c = false) (map_iter fields).*1).
  assert (forall f, f ∈ cols <-> is_Some (user_fields fields !! f)) as Hcols.
  { intros f. unfold cols. rewrite list_elem_of_filter, map_iter_fst_elem, user_fields_lookup.
    destruct (reserved f); [|tauto]. split; [by intros []|by intros []]. }
  pose proof (add_columns_spec e cols t1 Hi1) as H2. destruct (add_columns_NOLOCK e cols t1) as [t2 ev2].
  destruct H2 as (Hi2 & Hx2 & He2 & Hn2 & Hs2 & Hr2 & Hc2 & Hf2).
  destruct (update_indexed_row_spec e k fields t2 Hi2) as
    (t3 & ev3 & Eu & Hi3 & Hn3 & Hs3 & Hc3 & He3 & Hr3 & (old3 & new3 & Ho3 & Hnw3 & Hf3) & Hoth); [by rewrite Hx2|].
  rewrite Hn1 in He2. rewrite Hn2, Hn1 in He3.
  unfold mbind, eff_bind, put, of_result. rewrite Eu.
  destruct (publish_if_any e (ev1 ++ ev2 ++ ev3) t3) as (msgs & Es & ->).
  exists t3, (ev1 ++ ev2 ++ ev3), msgs. split; [done|]. split; [done|]. split; [done|].
  split; [by repeat apply Forall_app_2|]. split; [congruence|]. split; [congruence|].
  split; [by rewrite !foldl_app, Hid, <-Hct1, Hr2, Hr3|]. split.
  - exists new3. split; [done|]. intros f Hf. rewrite (Hf3 f Hf).
    destruct (user_fields fields !! f) eqn:Euf; [done|].
    rewrite <-Hct1. assert (is_Some (contents t1 !! k)) as [old1 Ho1] by (by apply contents_has_row).
    rewrite Ho1. cbn. destruct (Hf2 k f old1 Hf) as (mid & Hm & Hmf); [left|done|congruence].
    rewrite Hcols, Euf. by intros [].
  - intros k' old f Hne Hold Hf Hor. rewrite Hoth by done. apply Hf2; [done| |].
    + rewrite Hcols, Hc1. destruct Hor as [->|?]; [left; by intros []|by right].
    + rewrite Hct1. unfold with_row. destruct (contents t !! k); [done|]. by rewrite lookup_insert_ne.
Qed.

(** * Messages and replicas *)

(** The fields of a row container. *)
Definition container_fields (c : txContainer) : gmap string string :=
  omap (fun i => f_value <$> field_at c i) (m_field_map c).

Lemma container_fields_lookup c f : container_fields c !! f = f_value <$> find_field c f.
Proof.
  unfold container_fields, find_field. rewrite lookup_omap.
  destruct (m_field_map c !! f) as [i|]; [|done]. done.
Qed.

(** What a subscriber does with a table update: merge the row it carries. *)
Definition apply_message (R : replica) (m : txMessage) : replica :=
  match message_row m with
  | Some row =>
      match container_fields row !! id.row_key with
      | Some k => <[k := container_fields row ∪ default ∅ (R !! k)]> R
      | None => R
      end
  | None => R
  end.

Lemma apply_update_message t k evf msglist R : evf !! id.row_key = None ->
  exists m, serialise (RowMultiUpdate t k evf) msglist = Ok (msglist ++ [m]) /\
    apply_message R m = apply_event R (RowMultiUpdate t k evf).
Proof.
  intros Hk. cbn [serialise]. destruct (update_message_fields t k evf msglist) as (m & row & -> & _ & Hr & Hf).
  exists m. split; [done|]. unfold apply_message. rewrite Hr.
  assert (container_fields row = evf ∪ {[id.row_key := k]}) as ->.
  { apply map_eq. intros f. rewrite container_fields_lookup, Hf.
    destruct (evf !! f) as [v|] eqn:E; [by rewrite (lookup_union_Some_l _ _ _ _ E)|].
    rewrite lookup_union_r by done. rewrite lookup_singleton.
    destruct (decide (f = id.row_key)) as [->|Hne]; [by rewrite decide_True|].
    by rewrite decide_False by congruence. }
  rewrite lookup_union_r, lookup_singleton_eq by done. cbn [apply_event].
  by rewrite <-(assoc_L (∪)).
Qed.

(** Applying the messages of an update is applying its events. *)
Lemma apply_messages n evs : Forall (update_event n) evs -> forall msglist R, exists msgs,
  serialise_all evs msglist = Ok (msglist ++ msgs) /\
  foldl apply_message R msgs = foldl apply_event R evs.
Proof.
  induction 1 as [|ev evs Hev Hevs IH]; intros msglist R; cbn [serialise_all foldl].
  { exists []. by rewrite app_nil_r. }
  assert (exists m1, serialise ev msglist = Ok (msglist ++ m1) /\
    foldl apply_message R m1 = apply_event R ev) as (m1 & -> & Hm1).
  { destruct ev as [t c|t k|t k|t k evf|t|t k c meta]; try done.
    - exists []. by rewrite app_nil_r.
    - exists []. by rewrite app_nil_r.
    - destruct (apply_update_message t k evf msglist R (proj2 Hev)) as (m & E & Hm). by exists [m]. }
  cbn [mbind result_bind]. destruct (IH (msglist ++ m1) (apply_event R ev)) as (m2 & -> & Hm2).
  exists (m1 ++ m2). rewrite app_assoc. split; [done|]. by rewrite foldl_app, Hm1.
Qed.

(** ** A row the replica has not heard of *)

Lemma apply_event_other n k evs R : Forall (update_event n) evs -> Forall (fun ev => ~ updates_row k ev) evs ->
  foldl apply_event R evs !! k = R !! k.
Proof.
  intros Hev Hn. revert R. induction Hev as [|ev evs He Hev IH]; intros R; [done|].
  apply Forall_cons in Hn as [Hn1 Hn]. cbn [foldl]. rewrite IH by done.
  destruct ev; try done. cbn [apply_event updates_row] in *. by rewrite lookup_insert_ne.
Qed.

(** An empty new row is not announced, but any update of it brings a replica
    that lacks it up to date. *)
Lemma apply_event_new n k evs C : Forall (update_event n) evs -> Exists (updates_row k) evs ->
  C !! k = None ->
  foldl apply_event (<[k := {[id.row_key := k]}]> C) evs = foldl apply_event C evs.
Proof.
  intros Hev Hex Hk. revert C Hk. induction Hev as [|ev evs He Hev IH]; intros C Hk.
  { by apply Exists_nil in Hex. }
  cbn [foldl]. destruct ev as [t c|t k0|t k0|t k' evf|t|t k0 c meta]; try done.
  - cbn [apply_event]. apply IH; [|done]. by apply Exists_cons in Hex as [[]|Hex].
  - cbn [apply_event]. apply IH; [|done]. by apply Exists_cons in Hex as [[]|Hex].
  - cbn [apply_event]. destruct (decide (k' = k)) as [->|Hne].
    + rewrite lookup_insert_eq, Hk, insert_insert_eq.
      change (default ∅ (Some {[id.row_key := k]})) with ({[id.row_key := k]} : gmap string string).
      change (default ∅ None) with (∅ : gmap string string).
      by rewrite (right_id_L ∅ (∪)), (map_subseteq_union {[id.row_key := k]}).
    + rewrite lookup_insert_ne by done. rewrite insert_insert_ne by done. apply IH.
      * apply Exists_cons in Hex as [Hex|Hex]; [by cbn in Hex|done].
      * by rewrite lookup_insert_ne.
Qed.

(** ** Reading the contents *)

Lemma copy_field_contents t k f dest : table_inv t ->
  copy_field t k f dest = Ok (match contents t !! k ≫= (.!! f) with
                              | Some v => (v, true)
                              | None => (dest, false)
                              end).
Proof.
  intros Hi. unfold copy_field. destruct (m_row_index t !! k) as [i|] eqn:E.
  - apply (ti_rows t Hi) in E. rewrite list_lookup_fmap in E.
    destruct (m_rows t !! i) as [r|] eqn:Hr; [|done]. injection E as <-.
    rewrite (contents_lookup t i r Hi Hr). done.
  - assert (contents t !! k = None) as ->; [|done].
    apply rows_map_not_in. by apply (index_of_None _ _ _ (ti_rows t Hi)).
Qed.

Lemma copy_table_fold rows dest : NoDup (map m_rowkey rows) ->
  (forall r, r ∈ rows -> dest !! m_rowkey r = None) ->
  foldl (fun dest row => <[m_rowkey row := row_copy_row row (default ∅ (dest !! m_rowkey row))]> dest)
    dest rows = rows_map rows ∪ dest.
Proof.
  revert dest. induction rows as [|r rows IH]; intros dest Hnd Hd; cbn [foldl].
  { cbn. by rewrite (left_id_L ∅ (∪)). }
  cbn [map] in Hnd. apply NoDup_cons in Hnd as [Hni Hnd].
  rewrite (Hd r) by (by left). change (default ∅ None) with (∅ : gmap string string).
  unfold row_copy_row at 2. rewrite (left_id_L ∅ (∪)). rewrite IH; [|done|].
  - rewrite rows_map_cons, <-insert_union_l, <-insert_union_r; [done|]. by apply rows_map_not_in.
  - intros r' Hr'. rewrite lookup_insert_ne; [apply Hd; by right|].
    intros He. apply Hni. rewrite He. by apply list_elem_of_fmap_2.
Qed.

Lemma copy_table_contents t : table_inv t -> copy_table t ∅ = contents t.
Proof.
  intros Hi. unfold copy_table. rewrite copy_table_fold.
  - by rewrite (right_id_L ∅ (∪)).
  - eapply index_of_NoDup. apply Hi.
  - intros r _. apply lookup_empty.
Qed.

(** * Deleting rows *)

Lemma rows_map_delete rows i r : NoDup (map m_rowkey rows) -> rows !! i = Some r ->
  rows_map (delete i rows) = delete (m_rowkey r) (rows_map rows).
Proof.
  revert i. induction rows as [|a rows IH]; intros i Hnd Hi; [done|].
  cbn [map] in Hnd. apply NoDup_cons in Hnd as [Hni Hnd]. destruct i as [|i].
  - injection Hi as ->. change (delete 0%nat (r :: rows)) with rows.
    rewrite rows_map_cons, delete_insert_eq, delete_id; [done|]. by apply rows_map_not_in.
  - change (delete (S i) (a :: rows)) with (a :: delete i rows).
    rewrite !rows_map_cons, (IH i Hnd Hi), delete_insert_ne; [done|].
    intros He. apply Hni. rewrite <-He || rewrite He. apply list_elem_of_fmap. exists r.
    split; [done|]. by eapply list_elem_of_lookup_2.
Qed.

Lemma map_delete {A B} (f : A -> B) i l : map f (delete i l) = delete i (map f l).
Proof. apply list_fmap_delete. Qed.

Lemma delete_row_spec e k t : table_inv t -> exists t' outs,
  delete_row e k t = (t', outs, Ok ()) /\ table_inv t' /\ contents t' = delete k (contents t) /\
  m_table_name t' = m_table_name t /\ m_subscribers t' = m_subscribers t.
Proof.
  intros Hi. unfold delete_row, mbind, eff_bind, get.
  destruct (m_row_index t !! k) as [i|] eqn:E.
  - set (t' := set_rows _ _ t). unfold put.
    destruct (publish_spec e [RowRemoved (m_table_name t) k] t') as (msgs & _ & ->).
    eexists t', _. split; [done|]. pose proof (index_of_NoDup _ _ (ti_rows t Hi)) as Hnd.
    pose proof E as E'. apply (ti_rows t Hi) in E'. rewrite list_lookup_fmap in E'.
    destruct (m_rows t !! i) as [r|] eqn:Hr; [|done]. injection E' as <-.
    split; [|split; [|done]].
    + split; [|apply Hi|by apply Forall_delete, Hi|apply Hi]. cbn [t' m_rows m_row_index set_rows].
      change (list_delete i (m_rows t)) with (delete i (m_rows t)). rewrite map_delete.
      apply index_of_delete; [apply Hi|]. by rewrite list_lookup_fmap, Hr.
    + unfold contents. cbn [t' m_rows set_rows].
      change (list_delete i (m_rows t)) with (delete i (m_rows t)). by apply rows_map_delete.
  - exists t, []. split; [done|]. split; [done|]. split; [|done].
    rewrite delete_id; [done|]. apply rows_map_not_in. by apply (index_of_None _ _ _ (ti_rows t Hi)).
Qed.
