(* ===== verification/Snapshot.v ===== *)
(** Facts about table snapshots: the batches cover the table, the loop ends,
    the messages fit the protocol's limit and a replica built from them is the
    table. *)

From S2P Require Import Prelude Decimal Utils TxContainer SamBuffer SamProtocol MsgIDs TableEvents Table TableFacts.

Local Open Scope Z_scope.

(** * The batches *)

Lemma snapshot_loop_spec fuel t b next : 1 <= b -> (length next + Z.to_nat b <= fuel)%nat ->
  match snapshot_loop fuel t b next with
  | Ok (msgs, b') => exists batches, concat batches = next /\ msgs = map (snapshot_batch t) batches /\
      Forall (fun rows => rows <> []) batches /\
      Forall (fun m => check_enc_size m room_for_snap_fields = true) msgs /\ 1 <= b' <= b
  | Throw ex => ex = runtime_error "failed to encode snapshot" /\
      exists row, row ∈ next /\ check_enc_size (snapshot_batch t [row]) room_for_snap_fields = false
  end.
Proof.
  revert b next. induction fuel as [|fuel IH]; intros b next Hb Hf.
  { destruct next; simpl in Hf; lia. }
  destruct next as [|r next]; cbn [snapshot_loop].
  { exists []. do 4 (split; [done|]). lia. }
  set (rows := r :: next) in *.
  assert (rows = take (Z.to_nat b) rows ++ drop (Z.to_nat b) rows) as Hsplit by (by rewrite take_drop).
  destruct (check_enc_size (snapshot_batch t (take (Z.to_nat b) rows)) room_for_snap_fields) eqn:Ec.
  - specialize (IH b (drop (Z.to_nat b) rows) Hb). rewrite length_drop in IH.
    assert (1 <= length rows)%nat by (simpl; lia). specialize (IH ltac:(lia)).
    destruct (snapshot_loop fuel t b (drop (Z.to_nat b) rows)) as [[msgs b']|ex]; cbn [mbind result_bind].
    + destruct IH as (batches & Hcat & -> & Hne & Hok & Hb'). unfold mret, result_ret.
      exists (take (Z.to_nat b) rows :: batches). cbn [concat map]. split; [by rewrite Hcat|].
      split; [done|]. split; [|split; [by constructor|done]]. constructor; [|done].
      intros Hnil. apply (f_equal length) in Hnil. rewrite length_take in Hnil. simpl in Hnil. lia.
    + destruct IH as (-> & row & Hin & Hrow). split; [done|]. exists row. split; [|done].
      rewrite Hsplit. apply elem_of_app. by right.
  - destruct (Z.eqb_spec b 1) as [->|Hb1].
    + split; [done|]. exists r. split; [by left|]. done.
    + specialize (IH (Z.max 1 (b / 2)) rows ltac:(lia)).
      pose proof (Z.div_lt b 2 ltac:(lia) ltac:(lia)) as Hlt.
      pose proof (Z.div_pos b 2 ltac:(lia) ltac:(lia)).
      specialize (IH ltac:(lia)). destruct (snapshot_loop fuel t (Z.max 1 (b / 2)) rows) as [[msgs b']|ex]; [|done].
      destruct IH as (batches & Hcat & Hm & Hne & Hok & Hb'). exists batches. do 4 (split; [done|]). lia.
Qed.

(** * The size of the numbered messages *)

Definition enc_len (c : txContainer) : nat := length (enc_contents c).

Lemma enc_len_items n items fm cm :
  enc_len (TxContainer n items fm cm) = (length (flat_map enc_item items) + 2)%nat.
Proof. unfold enc_len. cbn [enc_contents]. rewrite !length_app. simpl. lia. Qed.

Lemma enc_len_eq c : enc_len c = (length (flat_map enc_item (m_items c)) + 2)%nat.
Proof. destruct c. apply enc_len_items. Qed.

Lemma flat_map_alter_le (g : txItem -> txItem) i l k :
  (forall it, l !! i = Some it -> (length (enc_item (g it)) <= length (enc_item it) + k)%nat) ->
  (length (flat_map enc_item (alter g i l)) <= length (flat_map enc_item l) + k)%nat.
Proof.
  revert i. induction l as [|it l IH]; intros i Hg; [simpl; lia|]. destruct i as [|i].
  - change (alter g 0%nat (it :: l)) with (g it :: l). cbn [flat_map]. rewrite !length_app.
    specialize (Hg it eq_refl). lia.
  - change (alter g (S i) (it :: l)) with (it :: alter g i l). cbn [flat_map]. rewrite !length_app.
    specialize (IH i Hg). lia.
Qed.

Lemma length_enc_item it :
  length (enc_item it) = (String.length (item_name it) + length (enc_value it) + 2)%nat.
Proof. rewrite enc_item_eq, !length_app, length_str. simpl. lia. Qed.

Lemma enc_len_add it c : enc_len (add_internally it c) = (enc_len c + length (enc_item it))%nat.
Proof.
  rewrite !enc_len_eq, m_items_add_internally, flat_map_app, length_app. cbn [flat_map].
  rewrite app_nil_r. lia.
Qed.

Lemma enc_len_put_field c n v :
  (enc_len (put_field c n v) <= enc_len c + String.length n + length (escape (str v)) + 2)%nat.
Proof.
  unfold put_field. destruct (m_field_map c !! n) as [i|].
  - rewrite !enc_len_eq. cbn [alter_item m_items].
    enough (length (flat_map enc_item (alter (fun it => match it with
        | ItemField f => ItemField (TxField (f_name f) v) | ItemContainer _ => it end) i (m_items c)))
      <= length (flat_map enc_item (m_items c)) + length (escape (str v)))%nat by lia.
    apply flat_map_alter_le. intros it _. destruct it as [f|d]; [|lia].
    rewrite !length_enc_item. cbn [item_name enc_value f_name f_value]. lia.
  - rewrite enc_len_add, length_enc_item. cbn [item_name enc_value f_name f_value]. lia.
Qed.

Lemma enc_len_put_child_with c n g k :
  (forall d, (enc_len (g d) <= enc_len d + k)%nat) -> (forall d, m_name (g d) = m_name d) ->
  (enc_len (put_child_with c n g) <= enc_len c + String.length n + 4 + k)%nat.
Proof.
  intros Hg Hn. unfold put_child_with. destruct (m_child_map c !! n) as [i|].
  - rewrite !enc_len_eq. cbn [alter_child alter_item m_items].
    enough (length (flat_map enc_item (alter (fun it => match it with
        | ItemContainer d => ItemContainer (g d) | ItemField _ => it end) i (m_items c)))
      <= length (flat_map enc_item (m_items c)) + k)%nat by lia.
    apply flat_map_alter_le. intros it _. destruct it as [f|d]; [lia|].
    rewrite !length_enc_item. cbn [item_name enc_value]. rewrite Hn.
    specialize (Hg d). unfold enc_len in Hg. lia.
  - rewrite enc_len_add, length_enc_item. cbn [item_name enc_value]. rewrite Hn. cbn [m_name new_container].
    specialize (Hg (new_container n)). unfold enc_len in Hg |- *.
    change (length (enc_contents (new_container n))) with 2%nat in Hg. lia.
Qed.

Lemma escape_no_special l : Forall (fun c => isSpecialChar c = false) l -> escape l = l.
Proof.
  induction 1 as [|c l Hc Hl IH]; [done|]. cbn [escape flat_map]. fold (escape l).
  unfold escape_char. by rewrite Hc, IH.
Qed.

Lemma isdigit_not_special c : isdigit c = true -> isSpecialChar c = false.
Proof. destruct c as [[] [] [] [] [] [] [] []]; vm_compute; congruence. Qed.

(** A printed count takes at most ten characters. *)
Lemma length_to_str n : 0 <= n < 2 ^ 31 -> (length (escape (str (to_str n))) <= 10)%nat.
Proof.
  intros Hn. unfold to_str, print_signed. rewrite int32_small by lia.
  destruct (Z.ltb_spec n 0); [lia|]. unfold print_unsigned. rewrite str_unstr, escape_no_special.
  - apply length_dec_le; [|lia]. split; [lia|]. transitivity (2 ^ 31); [lia|done].
  - eapply Forall_impl; [apply dec_digits; lia|]. apply isdigit_not_special.
Qed.

Lemma enc_body_len m : length (enc_body m) = (length (str (msg_type m)) + enc_len (m_root m) + 4)%nat.
Proof. unfold enc_body, enc_len. rewrite !length_app. simpl. lia. Qed.

Definition number_one (snapi : Z) (snapn : string) (m : txMessage) : txMessage :=
  on_root (fun r => put_field_qn (put_field_qn r id.QN_head_snapi (to_str snapi))
                      id.QN_head_snapn snapn) m.

Lemma number_one_len i n m : 0 <= i < 2 ^ 31 -> 0 <= n < 2 ^ 31 ->
  (length (enc_body (number_one i (to_str n) m)) <= length (enc_body m) + 50)%nat.
Proof.
  intros Hi Hn. rewrite !enc_body_len.
  assert (msg_type (number_one i (to_str n) m) = msg_type m) as ->.
  { unfold msg_type, number_one, on_root, put_field_qn. cbn [m_root].
    cbn [id.QN_head_snapi id.QN_head_snapn removelast buid_tree]. by rewrite !m_name_put_child_with. }
  assert (forall c q v, length (escape (str v)) <= 10 -> q = id.QN_head_snapi \/ q = id.QN_head_snapn ->
    enc_len (put_field_qn c q v) <= enc_len c + 25)%nat as Hq.
  { intros c q v Hv Hor. unfold put_field_qn.
    assert (exists l, q = ["head"; l] /\ String.length l = 5%nat) as (l & -> & Hl)
      by (destruct Hor as [->| ->]; by eexists).
    cbn [removelast buid_tree qname_last List.last].
    etransitivity; [apply (enc_len_put_child_with c "head" _ (5 + 10 + 2)%nat)|simpl; lia].
    - intros d. pose proof (enc_len_put_field d l v). lia.
    - intros d. apply m_name_put_field. }
  unfold number_one, on_root. cbn [m_root].
  pose proof (Hq (put_field_qn (m_root m) id.QN_head_snapi (to_str i)) id.QN_head_snapn (to_str n)
    (length_to_str n Hn) ltac:(by right)).
  pose proof (Hq (m_root m) id.QN_head_snapi (to_str i) (length_to_str i Hi) ltac:(by left)).
  lia.
Qed.

Lemma number_snapshot_in m i n msgs : m ∈ number_snapshot i n msgs ->
  exists j m0, m0 ∈ msgs /\ m = number_one j n m0 /\ i <= j < i + Z.of_nat (length msgs).
Proof.
  revert i. induction msgs as [|m0 msgs IH]; intros i Hin; cbn [number_snapshot] in Hin;
    [by apply elem_of_nil in Hin|].
  apply elem_of_cons in Hin as [->|Hin].
  - exists i, m0. split; [by left|]. split; [done|]. simpl. lia.
  - destruct (IH (i + 1) Hin) as (j & m1 & Hm1 & -> & Hj). exists j, m1. split; [by right|].
    split; [done|]. simpl. lia.
Qed.

(** A message accepted by the size check stays within the limit after it is
    numbered. *)
Lemma numbered_fits i n m : 0 <= i < 2 ^ 31 -> 0 <= n < 2 ^ 31 ->
  Z.of_nat (length (enc_body m)) < 2 ^ 63 -> check_enc_size m room_for_snap_fields = true ->
  wire_length (number_one i (to_str n) m) <= MAX_MSG_LEN.
Proof.
  intros Hi Hn Hb Hc. unfold check_enc_size in Hc. rewrite calc_encoded_size_eq, size_t_add in Hc.
  unfold room_for_snap_fields in Hc. rewrite size_t_small in Hc by lia. apply Z.leb_le in Hc.
  pose proof (number_one_len i n m Hi Hn) as Hl. unfold wire_length.
  etransitivity; [apply total_length_small|]; lia.
Qed.

(** * The rows a snapshot message carries *)

Definition item_container (i : txItem) : option txContainer :=
  match i with ItemContainer c => Some c | ItemField _ => None end.
Definition containers (c : txContainer) : list txContainer := omap item_container (m_items c).

(** The row containers of a table message, in order. *)
Definition message_rows (m : txMessage) : list txContainer :=
  match find_child (m_root m) id.body with Some b => containers b | None => [] end.

(** Merging a row into a replica, under the key it carries. *)
Definition apply_row (R : replica) (row : txContainer) : replica :=
  match container_fields row !! id.row_key with
  | Some k => <[k := container_fields row ∪ default ∅ (R !! k)]> R
  | None => R
  end.
Definition apply_snapshot (R : replica) (msgs : list txMessage) : replica :=
  foldl (fun R m => foldl apply_row R (message_rows m)) R msgs.

Lemma containers_add it c : containers (add_internally it c) =
  containers c ++ match it with ItemContainer d => [d] | ItemField _ => [] end.
Proof.
  unfold containers. rewrite m_items_add_internally, omap_app. f_equal. by destruct it.
Qed.

Lemma containers_put_field c n v : containers (put_field c n v) = containers c.
Proof.
  unfold put_field. destruct (m_field_map c !! n) as [i|].
  - unfold containers. cbn [alter_item m_items]. generalize (m_items c). intros l.
    revert i. induction l as [|it l IH]; intros i; [done|]. destruct i as [|i].
    + by destruct it.
    + change (alter ?g (S i) (it :: l)) with (it :: alter g i l). cbn [omap list_omap].
      destruct (item_container it); [f_equal|]; apply IH.
  - rewrite containers_add. by rewrite app_nil_r.
Qed.

Lemma containers_put_new c n g : m_child_map c !! n = None ->
  containers (put_child_with c n g) = containers c ++ [g (new_container n)].
Proof. intros Hn. unfold put_child_with. by rewrite Hn, containers_add. Qed.

Lemma child_in_containers c n : indexed c -> is_Some (m_child_map c !! n) ->
  exists d, d ∈ containers c /\ m_name d = n.
Proof.
  intros Hc [i Hi]. destruct (idx_child c Hc _ _ Hi) as (d & Hd & Hn). exists d. split; [|done].
  apply list_elem_of_omap. exists (ItemContainer d). split; [by eapply list_elem_of_lookup_2|done].
Qed.

(** For an indexed container the child index has one entry per child. *)
Lemma count_child_containers c : indexed c -> count_child c = length (containers c).
Proof.
  intros Hc. unfold count_child.
  assert (NoDup (map m_name (containers c))) as Hnd.
  { pose proof (indexed_uniq c Hc) as Hu. unfold containers. revert Hu. generalize (m_items c).
    induction l as [|it l IH]; intros Hu; [constructor|].
    assert (uniq_items l) as Hul.
    { intros i j a b Ha Hb Hk. specialize (Hu (S i) (S j) a b Ha Hb Hk). lia. }
    destruct it as [f|d]; [by apply IH|]. cbn [omap list_omap item_container map].
    apply NoDup_cons. split; [|by apply IH]. intros (d' & Hd' & Hin)%list_elem_of_fmap.
    apply list_elem_of_omap in Hin as (it & Hit & Hitd). destruct it as [|d'']; [done|].
    injection Hitd as ->. apply list_elem_of_lookup in Hit as [j Hj].
    specialize (Hu 0%nat (S j) (ItemContainer d) (ItemContainer d') eq_refl Hj Hd'). lia. }
  rewrite <-size_dom. transitivity (length (map m_name (containers c))); [|apply length_map].
  rewrite <-(size_list_to_set (C := gset string) (map m_name (containers c))) by done.
  f_equal. apply set_eq. intros k. rewrite elem_of_dom, elem_of_list_to_set, list_elem_of_fmap. split.
  - intros Hk. destruct (child_in_containers c k Hc Hk) as (d & Hd & <-). eauto.
  - intros (d & -> & Hd). apply list_elem_of_omap in Hd as (it & Hit & Hitd).
    destruct it as [|d']; [done|]. injection Hitd as ->. apply list_elem_of_lookup in Hit as [j Hj].
    rewrite (idx_child_complete c Hc _ _ Hj). by eexists.
Qed.

(** ** Filling a row container *)

Lemma wf_update_put_fields l : wf_update (fun c => foldl (fun c kv => put_field c kv.1 kv.2) c l).
Proof.
  induction l as [|kv l IH] using rev_ind; [apply wf_update_id|]. intros c Hc.
  rewrite foldl_app. cbn [foldl]. destruct (IH c Hc) as [Hw Hn].
  destruct (wf_update_put_field kv.1 kv.2 _ Hw) as [Hw' Hn']. split; [done|congruence].
Qed.

Lemma put_child_copy_fields c d : wf c -> wf d ->
  wf (put_child_copy c d) /\ m_name (put_child_copy c d) = m_name c /\
  container_fields (put_child_copy c d) = container_fields c.
Proof.
  intros Hc Hd.
  assert (put_child_copy c d = put_child_with c (m_name d) (fun _ => d)) as ->.
  { unfold put_child_copy, put_child_copy_with, put_child_with.
    destruct (m_child_map c !! m_name d); [|unfold id; by rewrite clone_wf].
    unfold alter_child, alter_item. f_equal. apply list_alter_ext; [|done].
    intros [f|e] _; [done|]. unfold id. by rewrite assign_clone, clone_wf. }
  assert (m_name d = m_name ((fun _ : txContainer => d) (new_container (m_name d)))) as Hn by done.
  split; [|split; [apply m_name_put_child_with|]].
  - unfold put_child_with. destruct (m_child_map c !! m_name d) as [i|] eqn:Hi.
    + apply wf_alter_child; [done|]. intros e He. split; [done|].
      destruct (idx_child c (wf_indexed _ Hc) _ _ Hi) as (e' & He' & Hn').
      rewrite He in He'. injection He' as <-. done.
    + by apply wf_add_internally.
  - apply map_eq. intros f. rewrite !container_fields_lookup.
    by rewrite find_field_put_child_with by auto with exio.
Qed.

Definition metas_wf (t : DataTable) : Prop :=
  forall k metas f c, m_pcmd t !! k = Some metas -> metas !! f = Some c -> wf c.

Definition fill_row (row : DataRow) (meta : option MetaForCol) (c : txContainer) : txContainer :=
  let c := foldl (fun c kv => put_field c kv.1 kv.2) c (map_iter (m_fields row)) in
  match meta with
  | Some meta => foldl (fun c kv => put_child_copy c kv.2) c (map_iter meta)
  | None => c
  end.

Lemma fill_row_spec row meta n :
  (forall metas f c, meta = Some metas -> metas !! f = Some c -> wf c) ->
  wf (fill_row row meta (new_container n)) /\ m_name (fill_row row meta (new_container n)) = n /\
  container_fields (fill_row row meta (new_container n)) = m_fields row.
Proof.
  intros Hm. unfold fill_row. set (c0 := foldl _ (new_container n) _).
  assert (wf c0 /\ m_name c0 = n /\ container_fields c0 = m_fields row) as (Hw & Hn & Hf).
  { destruct (wf_update_put_fields (map_iter (m_fields row)) (new_container n)) as [Hw Hn];
      [apply wf_new_container|]. split; [done|]. split; [done|]. apply map_eq. intros f.
    rewrite container_fields_lookup. unfold c0.
    rewrite find_field_put_all; [|apply wf_new_container|apply map_iter_NoDup_fst].
    rewrite list_to_map_map_iter. destruct (m_fields row !! f); [done|]. done. }
  destruct meta as [metas|]; [|done]. clearbody c0.
  assert (Forall (fun kv => wf kv.2) (map_iter metas)) as Hall.
  { apply Forall_forall. intros [f c] Hin. apply elem_of_map_iter in Hin. by eapply Hm. }
  clear Hm. revert c0 Hw Hn Hf. induction Hall as [|kv l Hkv Hall IH]; intros c0 Hw Hn Hf; [done|].
  cbn [foldl]. destruct (put_child_copy_fields c0 kv.2 Hw Hkv) as (H1 & H2 & H3).
  apply IH; congruence.
Qed.

(** ** Filling the body *)

Definition row_name (j : nat) : string := id.row_prefix +:+ print_unsigned (Z.of_nat j).

Lemma row_name_inj i j : row_name i = row_name j -> i = j.
Proof.
  intros H. unfold row_name in H. apply (inj (String.app _)) in H. apply print_unsigned_inj in H; lia.
Qed.

(** A body holding the given rows, named in order. *)
Record body_holds (rows : list DataRow) (body : txContainer) : Prop := {
  bh_wf : wf body;
  bh_names : map m_name (containers body) = map row_name (seq 0 (length rows));
  bh_fields : map container_fields (containers body) = map m_fields rows }.

Lemma body_holds_add rows body row meta : body_holds rows body ->
  (forall metas f c, meta = Some metas -> metas !! f = Some c -> wf c) ->
  body_holds (rows ++ [row]) (snapshot_body_add row meta body) /\
  m_name (snapshot_body_add row meta body) = m_name body.
Proof.
  intros [Hw Hn Hf] Hm. unfold snapshot_body_add.
  pose proof (f_equal length Hn) as Hlen. rewrite !length_map, length_seq in Hlen.
  rewrite (count_child_containers body) by auto with exio. rewrite Hlen. fold (row_name (length rows)).
  change (fun c : txContainer => _) with (fill_row row meta).
  set (n := row_name (length rows)).
  assert (m_child_map body !! n = None) as Hfresh.
  { apply eq_None_not_Some. intros Hs. destruct (child_in_containers body n (wf_indexed _ Hw) Hs) as (d & Hd & Hdn).
    assert (n ∈ map m_name (containers body)) as Hin by (rewrite <-Hdn; by apply list_elem_of_fmap_2).
    rewrite Hn in Hin. apply list_elem_of_fmap in Hin as (j & Hj & Hjs%elem_of_seq).
    apply row_name_inj in Hj. lia. }
  destruct (fill_row_spec row meta n Hm) as (Hrw & Hrn & Hrf).
  assert (wf (put_child_with body n (fill_row row meta))) as Hwb.
  { unfold put_child_with. rewrite Hfresh. apply wf_add_internally; [done| |done]. cbn. by rewrite Hrn. }
  split; [|by rewrite m_name_put_field, m_name_put_child_with].
  split.
  - by apply wf_put_field.
  - rewrite containers_put_field, containers_put_new, map_app, Hn by done. rewrite length_app.
    cbn [length map]. rewrite Hrn, Nat.add_1_r, seq_S, map_app. done.
  - rewrite containers_put_field, containers_put_new, !map_app, Hf by done. cbn [map]. by rewrite Hrf.
Qed.

(** A message whose body holds the given rows. *)
Definition msg_holds (rows : list DataRow) (m : txMessage) : Prop :=
  wf (m_root m) /\ exists body, find_child (m_root m) id.body = Some body /\ body_holds rows body.

Lemma msg_holds_start name : msg_holds [] (snapshot_set_table_name name snapshot_empty_msg).
Proof.
  assert (wf (m_root snapshot_empty_msg)) as Hw.
  { unfold snapshot_empty_msg, on_root. cbn [m_root new_message]. repeat apply wf_put_field_qn.
    apply wf_new_container. }
  split; [by apply wf_put_field_qn|].
  exists (put_field (new_container id.body) id.rows "0"). split.
  - unfold snapshot_set_table_name, on_root, put_field_qn. cbn [m_root id.QN_tablename removelast buid_tree].
    rewrite find_child_put_child_with by (auto with exio || apply m_name_put_field).
    rewrite decide_False by done. vm_compute. reflexivity.
  - split; [apply wf_put_field, wf_new_container|done|done].
Qed.

Lemma msg_holds_add rows m row meta : msg_holds rows m ->
  (forall metas f c, meta = Some metas -> metas !! f = Some c -> wf c) ->
  msg_holds (rows ++ [row]) (snapshot_add_row row meta m).
Proof.
  intros [Hw (body & Hb & Hh)] Hm. destruct (body_holds_add rows body row meta Hh Hm) as [Hh' Hn].
  pose proof (wf_indexed _ Hw) as Hi.
  assert (put_child_with (m_root m) id.body (snapshot_body_add row meta) =
    put_child_with (m_root m) id.body (fun _ => snapshot_body_add row meta body)) as Heq.
  { rewrite <-(put_child_with_found (m_root m) id.body (snapshot_body_add row meta) Hi). by rewrite Hb. }
  pose proof (find_child_name _ _ _ Hi Hb) as Hbn.
  unfold snapshot_add_row, on_root, msg_holds. cbn [m_root]. rewrite Heq. split.
  - apply find_child_Some in Hb as (i & Hix & Hit); [|done]. unfold put_child_with. rewrite Hix.
    apply wf_alter_child; [done|]. intros d Hd. split; [apply Hh'|].
    destruct (idx_child _ Hi _ _ Hix) as (d' & Hd' & Hdn). rewrite Hd in Hd'. injection Hd' as <-.
    congruence.
  - exists (snapshot_body_add row meta body). split; [|done].
    rewrite find_child_put_child_with; [by rewrite decide_True|done|congruence].
Qed.

Lemma snapshot_batch_holds t rows : metas_wf t -> msg_holds rows (snapshot_batch t rows).
Proof.
  intros Hm. unfold snapshot_batch.
  enough (forall acc m, msg_holds acc m -> msg_holds (acc ++ rows)
    (foldl (fun m row => snapshot_add_row row (m_pcmd t !! m_rowkey row) m) m rows)) as H
    by (apply (H []), msg_holds_start).
  induction rows as [|row rows IH]; intros acc m Ha; cbn [foldl]; [by rewrite app_nil_r|].
  rewrite cons_middle, app_assoc. apply IH, msg_holds_add; [done|].
  intros metas f c Hk Hf. by eapply Hm.
Qed.

Lemma number_one_rows i n m : wf (m_root m) -> message_rows (number_one i n m) = message_rows m.
Proof.
  intros Hw. unfold message_rows, number_one, on_root, put_field_qn.
  cbn [m_root id.QN_head_snapi id.QN_head_snapn removelast buid_tree].
  rewrite find_child_put_child_with; [|apply wf_indexed, wf_put_child_with; [done|apply wf_update_put_field]
    |apply m_name_put_field].
  rewrite decide_False by done.
  rewrite find_child_put_child_with; [|auto with exio|apply m_name_put_field].
  by rewrite decide_False by done.
Qed.

(** ** Applying a snapshot *)

Lemma apply_rows_map cs rows R : map container_fields cs = map m_fields rows ->
  Forall (fun r => m_fields r !! id.row_key = Some (m_rowkey r)) rows ->
  NoDup (map m_rowkey rows) -> (forall r, r ∈ rows -> R !! m_rowkey r = None) ->
  foldl apply_row R cs = rows_map rows ∪ R.
Proof.
  revert cs R. induction rows as [|r rows IH]; intros cs R Hcs Hk Hnd HR.
  { destruct cs; [|done]. cbn. by rewrite (left_id_L ∅ (∪)). }
  destruct cs as [|c cs]; [done|]. cbn [map] in Hcs, Hnd. injection Hcs as Hc Hcs.
  apply Forall_cons in Hk as [Hr Hk]. apply NoDup_cons in Hnd as [Hni Hnd].
  cbn [foldl]. unfold apply_row at 2. rewrite Hc, Hr, (HR r) by (by left).
  change (default ∅ None) with (∅ : gmap string string). rewrite (right_id_L ∅ (∪)).
  rewrite (IH cs); [|done|done|done|].
  - rewrite rows_map_cons, <-insert_union_l, <-insert_union_r; [done|]. by apply rows_map_not_in.
  - intros r' Hr'. rewrite lookup_insert_ne; [apply HR; by right|].
    intros He. apply Hni. rewrite He. by apply list_elem_of_fmap_2.
Qed.

Lemma rows_map_app k l : NoDup (map m_rowkey (k ++ l)) -> rows_map (k ++ l) = rows_map k ∪ rows_map l.
Proof.
  intros _. induction k as [|r k IH]; cbn [app]; [cbn; by rewrite (left_id_L ∅ (∪))|].
  by rewrite !rows_map_cons, IH, insert_union_l.
Qed.

Lemma message_rows_batch t rows : metas_wf t ->
  map container_fields (message_rows (snapshot_batch t rows)) = map m_fields rows.
Proof.
  intros Hm. destruct (snapshot_batch_holds t rows Hm) as [_ (body & Hb & Hh)].
  unfold message_rows. rewrite Hb. apply Hh.
Qed.

(** A replica that starts empty and applies the numbered messages of the
    batches ends with exactly the batches' rows. *)
Lemma apply_snapshot_batches t batches i n R : metas_wf t ->
  Forall (fun r => m_fields r !! id.row_key = Some (m_rowkey r)) (concat batches) ->
  NoDup (map m_rowkey (concat batches)) -> (forall r, r ∈ concat batches -> R !! m_rowkey r = None) ->
  apply_snapshot R (number_snapshot i n (map (snapshot_batch t) batches)) =
  rows_map (concat batches) ∪ R.
Proof.
  intros Hm. revert i R. induction batches as [|b batches IH]; intros i R Hk Hnd HR.
  { cbn. by rewrite (left_id_L ∅ (∪)). }
  cbn [concat map number_snapshot] in *. unfold apply_snapshot. cbn [foldl].
  fold (number_one i n (snapshot_batch t b)).
  rewrite number_one_rows by apply (snapshot_batch_holds t b Hm).
  rewrite map_app in Hnd. pose proof Hnd as (Hnd1 & Hdis & Hnd2)%NoDup_app.
  apply Forall_app in Hk as [Hk1 Hk2].
  rewrite (apply_rows_map _ b); [|by apply message_rows_batch|done|done|intros r Hr; apply HR; set_solver].
  change (foldl _ ?R0 ?l) with (apply_snapshot R0 l). rewrite IH; [|done|done|].
  - rewrite (rows_map_app b) by (by rewrite map_app). rewrite (assoc_L (∪)). f_equal.
    apply map_union_comm. apply map_disjoint_spec. intros k x y Hx Hy.
    apply (Hdis k); apply rows_map_dom; by eexists.
  - intros r Hr. rewrite lookup_union_None. split; [|apply HR; set_solver].
    apply rows_map_not_in. intros Hin. apply (Hdis (m_rowkey r) Hin). by apply list_elem_of_fmap_2.
Qed.
