(* ===== verification/TableProps.v ===== *)
(** Properties of monitoring tables: the invariant, the effect of each
    operation, what subscribers learn, and snapshots. *)

From S2P Require Import Prelude Decimal Utils TxContainer SamBuffer SamProtocol MsgIDs TableEvents Table TableFacts Snapshot.

Local Open Scope Z_scope.

(** * The remaining operations *)

(** The state an operation ends in, also when it throws. *)
Definition state_after {W S A} (r : S * list W * result A) : S := r.1.1.
Definition outputs {W S A} (r : S * list W * result A) : list W := r.1.2.
Definition outcome {W S A} (r : S * list W * result A) : result A := r.2.

Lemma clear_table_spec e t : table_inv t -> exists t' outs,
  clear_table e t = (t', outs, Ok ()) /\ table_inv t' /\ contents t' = ∅ /\ m_table_name t' = m_table_name t.
Proof.
  intros Hi. unfold clear_table, mbind, eff_bind, modify, get.
  set (t' := set_rows [] ∅ t).
  destruct (publish_spec e [TableCleared (m_table_name t')] t') as (msgs & _ & ->).
  eexists t', _. split; [done|]. split; [|done]. split; [apply index_of_nil|apply Hi|constructor|apply Hi].
Qed.

Lemma add_columns_op_spec e cols t : table_inv t -> exists t' outs,
  add_columns e cols t = (t', outs, Ok ()) /\ table_inv t' /\ m_table_name t' = m_table_name t.
Proof.
  intros Hi. unfold add_columns, mbind, eff_bind, get, put.
  pose proof (add_columns_spec e cols t Hi) as Ha. destruct (add_columns_NOLOCK e cols t) as [t1 evs].
  destruct Ha as (Hi1 & _ & _ & Hn & _). destruct (publish_if_any e evs t1) as (msgs & _ & ->). eauto.
Qed.

Lemma update_meta_spec e k f meta t : table_inv t -> exists t' outs,
  update_meta e k f meta t = (t', outs, Ok ()) /\ table_inv t' /\ contents t' = contents t /\
  m_table_name t' = m_table_name t.
Proof.
  intros Hi. unfold update_meta, mbind, eff_bind, get, put. set (t' := set_pcmd _ t).
  destruct (publish_spec e [PCMDEvent (m_table_name t) k f (clone meta)] t') as (msgs & _ & ->).
  eexists t', _. split; [done|]. split; [|done]. split; apply Hi.
Qed.

(** A snapshot changes nothing but the batch size, which stays in range. *)
Lemma send_snapshot_state s t : table_inv t ->
  let r := nolock_send_snapshopt s t in
  exists b, state_after r = set_batchsize b t /\ 1 <= b <= 500.
Proof.
  intros Hi. pose proof (ti_batch t Hi) as Hb.
  pose proof (snapshot_loop_spec (length (m_rows t) + Z.to_nat (m_batchsize t)) t (m_batchsize t) (m_rows t)
    ltac:(lia) ltac:(lia)) as Hl.
  unfold nolock_send_snapshopt, mbind, eff_bind, get, of_result.
  destruct (snapshot_loop _ t (m_batchsize t) (m_rows t)) as [[msgs b]|ex].
  - destruct Hl as (_ & _ & _ & _ & _ & Hb'). exists b. split; [done|lia].
  - exists (m_batchsize t). split; [by destruct t|done].
Qed.

Lemma table_inv_batchsize t b : table_inv t -> 1 <= b <= 500 -> table_inv (set_batchsize b t).
Proof. intros Hi Hb. split; try apply Hi. done. Qed.

Lemma table_inv_snapshot s t : table_inv t -> table_inv (state_after (nolock_send_snapshopt s t)).
Proof.
  intros Hi. destruct (send_snapshot_state s t Hi) as (b & -> & Hb). by apply table_inv_batchsize.
Qed.

Lemma table_inv_for_each {W A} (f : A -> eff W DataTable unit) l t : table_inv t ->
  (forall a u, table_inv u -> table_inv (state_after (f a u))) ->
  table_inv (state_after (for_each f l t)).
Proof.
  intros Hi Hf. revert t Hi. induction l as [|a l IH]; intros t Hi; [done|]. cbn [for_each].
  unfold mbind, eff_bind. specialize (Hf a t Hi). destruct (f a t) as [[t1 w] [[]|ex]]; [|done].
  specialize (IH t1 Hf). by destruct (for_each f l t1) as [[t2 w2] r].
Qed.

Lemma table_inv_add_subscriber s t : table_inv t -> table_inv (state_after (add_subscriber s t)).
Proof.
  intros Hi. unfold add_subscriber, mbind, eff_bind, modify, get, emit.
  set (t1 := set_subscribers _ t). assert (table_inv t1) as Hi1 by (split; apply Hi).
  pose proof (table_inv_snapshot s t1 Hi1) as Hs. by destruct (nolock_send_snapshopt s t1) as [[t2 w] r].
Qed.

(** * Properties *)

(** C34. Every operation of a table, in every environment and also when it
    throws, keeps the table's invariant: the row and column indexes are exact
    (each key maps to its position and to nothing else, after insertions and
    deletions alike), rows hold their own key, and the batch size is between 1
    and 500. *)
Theorem table_operations_keep_invariant (e : env) (t : DataTable) (k f : string)
    (fields : gmap string string) (cols : list string) (meta : txContainer) (s : Z) :
  table_inv t ->
  table_inv (state_after (update_row e k fields t)) /\
  table_inv (state_after (add_columns e cols t)) /\
  table_inv (state_after (clear_table e t)) /\
  table_inv (state_after (delete_row e k t)) /\
  table_inv (state_after (update_meta e k f meta t)) /\
  table_inv (add_column_attr f meta t) /\
  table_inv (state_after (add_subscriber s t)) /\
  table_inv (del_subscriber s t) /\
  table_inv (state_after (snapshot e t)).
Proof.
  intros Hi.
  split. { destruct (update_row_spec e k fields t Hi) as (t' & evs & msgs & -> & _ & Hi' & _). done. }
  split. { by destruct (add_columns_op_spec e cols t Hi) as (t' & outs & -> & Hi' & _). }
  split. { by destruct (clear_table_spec e t Hi) as (t' & outs & -> & Hi' & _). }
  split. { by destruct (delete_row_spec e k t Hi) as (t' & outs & -> & Hi' & _). }
  split. { by destruct (update_meta_spec e k f meta t Hi) as (t' & outs & -> & Hi' & _). }
  split; [split; apply Hi|]. split; [by apply table_inv_add_subscriber|]. split; [split; apply Hi|].
  unfold snapshot, mbind, eff_bind, get.
  pose proof (table_inv_for_each nolock_send_snapshopt (copy_subscribers e t) t Hi
    (fun a u Hu => table_inv_snapshot a u Hu)) as H.
  by destruct (for_each nolock_send_snapshopt _ t) as [[t1 w] r].
Qed.

Definition test_time : tm := Tm 124 0 31 23 59 1.
Definition test_env : env := Env (fun s => s <? 10) test_time.
Definition test_table : DataTable :=
  state_after (update_row test_env "r1" {[ "px" := "10" ]} (set_subscribers [3; 12] (new_table "prices"))).

Lemma test_table_inv : table_inv test_table.
Proof.
  destruct (update_row_spec test_env "r1" {[ "px" := "10" ]} (set_subscribers [3; 12] (new_table "prices")))
    as (t' & evs & msgs & E & _ & Hi' & _).
  - split; apply table_inv_new.
  - unfold test_table. by rewrite E.
Qed.

Lemma table_operations_keep_invariant_witness :
  table_inv (state_after (delete_row test_env "r1" test_table)).
Proof.
  apply (table_operations_keep_invariant test_env test_table "r1" "px" ∅ ["px"] (new_container "style") 4).
  apply test_table_inv.
Defined.

(** The effect of [update_row] in terms of fields. *)
Lemma update_row_fields (e : env) (k : string) (fields : gmap string string) (t : DataTable) :
  table_inv t ->
  let r := update_row e k fields t in
  table_inv (state_after r) /\ has_row (state_after r) k = true /\
  outcome r = Ok () /\
  (forall f v, reserved f = false -> fields !! f = Some v ->
     copy_field (state_after r) k f EmptyString = Ok (v, true)) /\
  (forall f dest, f <> id.row_last -> f <> id.row_key -> fields !! f = None ->
     copy_field (state_after r) k f dest = copy_field t k f dest) /\
  (forall k' f dest, k' <> k -> has_row t k' = true -> f <> id.row_last ->
     reserved f = true \/ fields !! f = None \/ f ∈ m_columns t ->
     copy_field (state_after r) k' f dest = copy_field t k' f dest).
Proof.
  intros Hi. destruct (update_row_spec e k fields t Hi) as
    (t' & evs & msgs & E & _ & Hi' & _ & _ & _ & _ & (new & Hnew & Hf) & Hoth).
  cbv zeta. rewrite E. cbn [state_after fst]. split; [done|]. split.
  { unfold has_row, nolock_has_row. apply bool_decide_eq_true. apply contents_has_row; [done|]. by eexists. }
  split; [done|]. split; [|split].
  - intros f v Hr Hv. rewrite copy_field_contents by done. rewrite Hnew. cbn [mbind option_bind].
    rewrite Hf by (intros ->; done). by rewrite user_fields_lookup, Hr, Hv.
  - intros f dest Hl Hk Hn. rewrite !copy_field_contents by done. rewrite Hnew. cbn [mbind option_bind].
    rewrite Hf, user_fields_lookup, Hn by done.
    assert ((if reserved f then None else None) = (None : option string)) as -> by (by destruct (reserved f)).
    unfold with_row. destruct (contents t !! k) as [old|] eqn:Ek; [by rewrite Ek|].
    rewrite lookup_insert_eq. cbn [mbind option_bind]. rewrite lookup_singleton_ne by done. done.
  - intros k' f dest Hne Hh Hl Hor. rewrite !copy_field_contents by done.
    unfold has_row, nolock_has_row in Hh. apply bool_decide_eq_true in Hh.
    apply (contents_has_row t k' Hi) in Hh as [old Ho].
    destruct (Hoth k' old f Hne Ho Hl) as (new' & Hn' & Hnf).
    { rewrite user_fields_lookup. destruct Hor as [->|[->|?]]; [by left| |by right].
      left. by destruct (reserved f). }
    rewrite Ho, Hn'. cbn [mbind option_bind]. by rewrite Hnf.
Qed.

(** [update_row]: it always succeeds; the row exists afterwards with every
    given field (the reserved ones apart) at its new value and its other
    fields as before; a field of another row changes only when it is the
    default value of a column that is new to the table. *)
Theorem update_row_effect (e : env) (k : string) (fields : gmap string string) (t : DataTable) :
  table_inv t ->
  let r := update_row e k fields t in
  outcome r = Ok () /\
  (forall f v, reserved f = false -> fields !! f = Some v ->
     copy_field (state_after r) k f EmptyString = Ok (v, true)) /\
  (forall f dest, f <> id.row_last -> f <> id.row_key -> fields !! f = None ->
     copy_field (state_after r) k f dest = copy_field t k f dest) /\
  (forall k' f dest, k' <> k -> has_row t k' = true -> f <> id.row_last ->
     reserved f = true \/ fields !! f = None \/ f ∈ m_columns t ->
     copy_field (state_after r) k' f dest = copy_field t k' f dest).
Proof. intros Hi. apply (update_row_fields e k fields t Hi). Qed.

Lemma update_row_effect_witness :
  outcome (update_row test_env "r2" {[ "px" := "7" ]} test_table) = Ok () /\
  copy_field (state_after (update_row test_env "r2" {[ "px" := "7" ]} test_table)) "r1" "px" EmptyString =
    copy_field test_table "r1" "px" EmptyString.
Proof.
  destruct (update_row_effect test_env "r2" {[ "px" := "7" ]} test_table test_table_inv) as (H1 & _ & _ & H4).
  split; [exact H1|]. apply H4; [done|vm_compute; reflexivity|done|]. right. right.
  decide_now.
Defined.

(** The effect of [delete_row] and [clear_table]. *)
Lemma delete_and_clear_fields (e : env) (k k' f dest : string) (t : DataTable) : table_inv t ->
  has_row (state_after (delete_row e k t)) k = false /\
  (k' <> k -> copy_field (state_after (delete_row e k t)) k' f dest = copy_field t k' f dest) /\
  copy_table (state_after (delete_row e k t)) ∅ = delete k (copy_table t ∅) /\
  copy_table (state_after (clear_table e t)) ∅ = ∅.
Proof.
  intros Hi. destruct (delete_row_spec e k t Hi) as (t' & outs & E & Hi' & Hc & _).
  destruct (clear_table_spec e t Hi) as (t2 & outs2 & E2 & Hi2 & Hc2 & _).
  rewrite E, E2. cbn [state_after fst]. split; [|split; [|split]].
  - unfold has_row, nolock_has_row. apply bool_decide_eq_false. rewrite <-contents_has_row by done.
    rewrite Hc, lookup_delete_eq. by intros [].
  - intros Hne. rewrite !copy_field_contents by done. by rewrite Hc, lookup_delete_ne.
  - by rewrite !copy_table_contents.
  - by rewrite copy_table_contents.
Qed.

(** Deleting a row removes exactly that row from the contents, keeps every
    other row readable through the shifted index, and clearing removes all. *)
Theorem delete_and_clear_effect (e : env) (k k' f dest : string) (t : DataTable) : table_inv t ->
  has_row (state_after (delete_row e k t)) k = false /\
  (k' <> k -> copy_field (state_after (delete_row e k t)) k' f dest = copy_field t k' f dest) /\
  copy_table (state_after (delete_row e k t)) ∅ = delete k (copy_table t ∅) /\
  copy_table (state_after (clear_table e t)) ∅ = ∅.
Proof. apply delete_and_clear_fields. Qed.

Lemma delete_and_clear_effect_witness :
  has_row (state_after (delete_row test_env "r1" test_table)) "r1" = false.
Proof. apply (delete_and_clear_effect test_env "r1" "r2" "px" EmptyString test_table test_table_inv). Defined.

(** The messages sent to [s], in order. *)
Definition messages_to (s : Z) (outs : list send) : list txMessage :=
  flat_map (fun o => match o with
                     | SendOne m s' => if decide (s' = s) then [m] else []
                     | SendList ms s' => if decide (s' = s) then ms else []
                     end) outs.

Lemma messages_to_one s m l : s ∈ l -> NoDup l -> messages_to s (map (SendOne m) l) = [m].
Proof.
  assert (forall l, s ∉ l -> messages_to s (map (SendOne m) l) = []) as Hno.
  { induction l0 as [|a l0 IH]; intros Hn; [done|]. cbn. rewrite decide_False by set_solver.
    apply IH. set_solver. }
  induction l as [|a l IH]; intros Hin Hnd; [by apply elem_of_nil in Hin|].
  apply NoDup_cons in Hnd as [Hna Hnd]. cbn. destruct (decide (a = s)) as [->|Hne].
  - cbn [app]. f_equal. by apply Hno.
  - apply IH; [set_solver|done].
Qed.

Lemma messages_to_published e t msgs s : s ∈ copy_subscribers e t -> NoDup (m_subscribers t) ->
  messages_to s (published e t msgs) = msgs.
Proof.
  intros Hin Hnd. assert (NoDup (copy_subscribers e t)) as Hnd' by (by apply NoDup_filter).
  unfold published. induction msgs as [|m msgs IH]; [done|]. cbn [flat_map].
  pose proof (messages_to_one s m _ Hin Hnd') as Hone. unfold messages_to in *.
  by rewrite flat_map_app, Hone, IH.
Qed.

(** Replaying what [update_row] publishes, with the row given or an ordinary
    field to announce it. *)
Lemma update_row_replay e k fields t : table_inv t ->
  has_row t k = true \/ (exists f v, reserved f = false /\ fields !! f = Some v) ->
  exists t' evs msgs, update_row e k fields t = (t', published e t' msgs, Ok ()) /\
    serialise_all evs [] = Ok msgs /\ Forall (update_event (m_table_name t)) evs /\ table_inv t' /\
    m_table_name t' = m_table_name t /\ m_subscribers t' = m_subscribers t /\
    foldl apply_event (contents t) evs = contents t'.
Proof.
  intros Hi Hrow. destruct (update_row_spec e k fields t Hi) as
    (t' & evs & msgs & E & Es & Hi' & Hev & Hnm & Hsub & Hrep & (new & Hnew & Hf) & _).
  exists t', evs, msgs. do 6 (split; [done|]).
  rewrite <-Hrep. unfold with_row in *. destruct (contents t !! k) as [old|] eqn:Ek; [done|].
  symmetry. apply (apply_event_new (m_table_name t)); [done| |done].
  destruct (decide (Exists (updates_row k) evs)) as [|Hno]; [done|exfalso].
  destruct Hrow as [Hh|(f & v & Hr & Hv)].
  { unfold has_row, nolock_has_row in Hh. apply bool_decide_eq_true in Hh.
    apply (contents_has_row t k Hi) in Hh as [? Hh]. congruence. }
  assert (contents t' !! k = Some {[id.row_key := k]}) as Hsame.
  { rewrite <-Hrep, (apply_event_other (m_table_name t)); [by rewrite lookup_insert_eq|done|].
    by apply Forall_Exists_neg. }
  rewrite Hsame in Hnew. injection Hnew as <-.
  assert (f <> id.row_last /\ f <> id.row_key) as [Hf1 Hf2] by (split; intros ->; done).
  specialize (Hf f Hf1). rewrite user_fields_lookup, Hr, Hv, lookup_singleton_ne in Hf by done. done.
Qed.



(** The proviso is needed: a row created without ordinary fields is stored
    but no subscriber is told of it. *)
Theorem empty_row_not_announced :
  let r := update_row test_env "r2" ∅ test_table in
  outputs r = [] /\ has_row (state_after r) "r2" = true.
Proof. vm_compute. split; reflexivity. Qed.

(** A deleted row cannot be identified by subscribers: whichever of its
    rows a table deletes, the same messages go to the same sessions. *)
Theorem row_removed_message_lacks_key (e : env) (t : DataTable) (k k' : string) :
  has_row t k = true -> has_row t k' = true ->
  outputs (delete_row e k t) = outputs (delete_row e k' t).
Proof.
  unfold has_row, nolock_has_row. intros [i Hk]%bool_decide_eq_true [i' Hk']%bool_decide_eq_true.
  unfold delete_row, mbind, eff_bind, get, put. rewrite Hk, Hk'.
  match goal with |- context [nolock_publish_update e ?ev ?t1] =>
    destruct (publish_spec e ev t1) as (msgs & Es & ->) end.
  match goal with |- context [nolock_publish_update e ?ev ?t1] =>
    destruct (publish_spec e ev t1) as (msgs' & Es' & ->) end.
  change (serialise_all [RowRemoved (m_table_name t) k'] []) with
    (serialise_all [RowRemoved (m_table_name t) k] []) in Es'.
  rewrite Es in Es'. injection Es' as <-. done.
Qed.

Lemma row_removed_message_lacks_key_witness :
  let t := state_after (update_row test_env "r2" {[ "px" := "11" ]} test_table) in
  outputs (delete_row test_env "r1" t) = outputs (delete_row test_env "r2" t).
Proof.
  apply (row_removed_message_lacks_key test_env
    (state_after (update_row test_env "r2" {[ "px" := "11" ]} test_table)) "r1" "r2");
    vm_compute; reflexivity.
Defined.

(** A session that is subscribed twice (at table creation and again at
    logon) is still subscribed after it has been removed. *)
Theorem duplicate_subscription_survives (t : DataTable) (s : Z) :
  s ∈ m_subscribers t -> s ∈ m_subscribers (del_subscriber s (state_after (add_subscriber s t))).
Proof.
  intros Hs.
  assert (m_subscribers (state_after (add_subscriber s t)) = m_subscribers t ++ [s]) as Hsub.
  { unfold add_subscriber, mbind, eff_bind, modify, get, emit. set (t1 := set_subscribers _ t).
    assert (m_subscribers (state_after (nolock_send_snapshopt s t1)) = m_subscribers t1) as H1.
    { unfold nolock_send_snapshopt, mbind, eff_bind, get, of_result.
      by destruct (snapshot_loop _ t1 _ _) as [[msgs b]|ex]. }
    destruct (nolock_send_snapshopt s t1) as [[t2 w] r]. exact H1. }
  unfold del_subscriber. cbn [set_subscribers m_subscribers]. rewrite Hsub.
  clear Hsub. revert Hs. generalize (m_subscribers t). intros l.
  induction l as [|a l IH]; intros Hs; [by apply elem_of_nil in Hs|]. cbn [app remove_first].
  destruct (decide (a = s)) as [->|Hne]; [set_solver|]. apply elem_of_cons. right. apply IH. set_solver.
Qed.

Lemma duplicate_subscription_survives_witness :
  3 ∈ m_subscribers (del_subscriber 3 (state_after (add_subscriber 3 test_table))).
Proof. apply duplicate_subscription_survives. decide_now. Defined.



(** The encoding of any selection of the table's rows is shorter than the
    address space. *)
Definition addressable (t : DataTable) : Prop :=
  forall rows, (length rows <= length (m_rows t))%nat -> Forall (fun r => r ∈ m_rows t) rows ->
  Z.of_nat (length (enc_body (snapshot_batch t rows))) < 2 ^ 63.

(** C17. A snapshot is complete and fits: a subscriber that starts with nothing
    and applies the snapshot's messages holds exactly the table's contents, and
    every message, numbered and encoded, is within the SAM0100 limit. *)
Theorem snapshot_complete (t : DataTable) (s : Z) (msgs : list txMessage) :
  table_inv t -> metas_wf t -> Z.of_nat (length (m_rows t)) < 2 ^ 31 -> addressable t ->
  outputs (nolock_send_snapshopt s t) = [SendList msgs s] ->
  apply_snapshot ∅ msgs = copy_table t ∅ /\
  (forall m, m ∈ msgs -> Z.of_nat (length (wire m)) <= MAX_MSG_LEN).
Proof.
  intros Hi Hm Hlen Haddr. pose proof (ti_batch t Hi) as Hb.
  pose proof (snapshot_loop_spec (length (m_rows t) + Z.to_nat (m_batchsize t)) t (m_batchsize t) (m_rows t)
    ltac:(lia) ltac:(lia)) as Hl.
  unfold nolock_send_snapshopt, mbind, eff_bind, get, of_result, emit, modify.
  destruct (snapshot_loop _ t (m_batchsize t) (m_rows t)) as [[ms b]|ex]; cbn [outputs fst snd app]; [|done].
  intros [= <-]. destruct Hl as (batches & Hcat & -> & Hne & Hok & _). rewrite length_map.
  assert (length batches <= length (concat batches))%nat as Hlb.
  { clear -Hne. induction Hne as [|x l Hx Hl IH]; [done|]. cbn [concat length]. rewrite length_app.
    destruct x; [done|]. simpl. lia. }
  rewrite Hcat in Hlb. split.
  - rewrite apply_snapshot_batches; rewrite ?Hcat; [|exact Hm| | |].
    + rewrite (right_id_L ∅ (∪)). by rewrite copy_table_contents.
    + eapply Forall_impl; [apply Hi|]. by intros r [_ Hr].
    + eapply index_of_NoDup. apply Hi.
    + intros r _. apply lookup_empty.
  - intros m Hin. apply number_snapshot_in in Hin as (j & m0 & Hm0 & -> & Hj). rewrite length_map in Hj.
    rewrite length_wire. apply numbered_fits; [lia|lia| |].
    + apply list_elem_of_fmap in Hm0 as (rows & -> & [i Hin]%list_elem_of_lookup).
      pose proof (list_elem_of_lookup_2 _ _ _ Hin) as Hin'. apply Haddr; rewrite <-Hcat.
      * apply list_elem_of_split in Hin' as (l1 & l2 & ->).
        rewrite concat_app, length_app. cbn [concat]. rewrite length_app. lia.
      * apply Forall_forall. intros r Hr. apply list_elem_of_In, in_concat. exists rows.
        rewrite <-!list_elem_of_In. done.
    + rewrite Forall_forall in Hok. by apply Hok.
Qed.

Lemma test_table_addressable : addressable test_table.
Proof.
  intros rows Hl Hall.
  assert (exists r, m_rows test_table = [r] /\
    Z.of_nat (length (enc_body (snapshot_batch test_table [r]))) < 2 ^ 63) as (r & Er & Hr).
  { eexists. split; [vm_compute; reflexivity|vm_compute; reflexivity]. }
  rewrite Er in Hl, Hall. destruct rows as [|r1 [|r2 rows]]; [vm_compute; reflexivity| |simpl in Hl; lia].
  apply Forall_cons in Hall as [Hr1%list_elem_of_singleton _]. by subst r1.
Qed.

Lemma snapshot_complete_witness : exists msgs,
  outputs (nolock_send_snapshopt 3 test_table) = [SendList msgs 3] /\
  apply_snapshot ∅ msgs = copy_table test_table ∅.
Proof.
  eexists. split; [vm_compute; reflexivity|].
  eapply (snapshot_complete test_table 3).
  - apply test_table_inv.
  - intros k metas f c Hk. vm_compute in Hk. discriminate Hk.
  - vm_compute. reflexivity.
  - apply test_table_addressable.
  - vm_compute. reflexivity.
Defined.
