(* ===== verification/ReadBuffer.v ===== *)
(** The inbound byte buffer of a connection: [ReactorReadBuffer.h] and
    [ReactorReadBuffer.cc].

    The bytes available start at the read position [m_rp]; the write position
    [wp()] is computed from [m_bytesavail] alone, so new bytes may only be
    appended after [shift_pending_to_array_start].  Memory allocation is taken
    to succeed. *)

From S2P Require Import Prelude.

Local Open Scope Z_scope.

Module ReactorReadBuffer.

Record t := Make { m_buf_cap : Z; m_buf : bytes; m_bytesavail : Z; m_rp : Z }.

Definition new (cap : Z) : t := Make cap (replicate (Z.to_nat cap) "000"%char) 0 0.

Definition zero (b : t) : t :=
  Make (m_buf_cap b) (replicate (Z.to_nat (m_buf_cap b)) "000"%char) 0 0.

Definition capacity (b : t) : Z := m_buf_cap b.
Definition bytesavail (b : t) : Z := m_bytesavail b.
Definition space_remain (b : t) : Z := size_t (m_buf_cap b - m_bytesavail b).

(** [memcpy(wp(), src, ...)] followed by [incr_bytesavail]. *)
Definition write (src : bytes) (b : t) : result t :=
  buf ← memcpy (m_bytesavail b) src (m_buf b);
  mret (Make (m_buf_cap b) buf (size_t (m_bytesavail b + Z.of_nat (length src))) (m_rp b)).

(** [rp()]: the memory that can be read through the returned pointer. *)
Definition rp (b : t) : bytes := drop (Z.to_nat (m_rp b)) (m_buf b).

Definition consume (n : Z) (b : t) : t :=
  Make (m_buf_cap b) (m_buf b) (size_t (m_bytesavail b - n)) (size_t (m_rp b + n)).

Definition shift_pending_to_array_start (b : t) : result t :=
  buf ← (if (0 <? m_bytesavail b) && negb (m_rp b =? 0) then
           memcpy 0 (take (Z.to_nat (m_bytesavail b)) (rp b)) (m_buf b)
         else Ok (m_buf b));
  mret (Make (m_buf_cap b) buf (m_bytesavail b) 0).

(** [m_buf_cap * 0.5] converted back to [long long] is the half rounded
    down, for any capacity below 2^53. *)
Definition grow (b : t) : result t :=
  let extra := m_buf_cap b / 2 in
  let extra := if extra =? 0 then 1 else extra in
  let new_cap := m_buf_cap b + extra in
  if (new_cap <? m_buf_cap b) || (new_cap <=? 0) then
    Throw (runtime_error "Failed to allocate extra bytes for socket buffer growth")
  else
    buf ← memcpy 0 (m_buf b) (replicate (Z.to_nat new_cap) "000"%char);
    mret (Make new_cap buf (m_bytesavail b) (m_rp b)).

(** [while (buf.space_remain() < size) buf.grow();] *)
Fixpoint make_space (fuel : nat) (size : Z) (b : t) : result t :=
  if space_remain b <? size then
    match fuel with
    | O => Throw out_of_fuel
    | S fuel => b ← grow b; make_space fuel size b
    end
  else Ok b.

(** * Contract *)

(** The buffer holds exactly the bytes [l] that are still to be consumed. *)
Inductive data (b : t) (l : bytes) : Prop :=
| Data (pre post : bytes) :
    m_buf b = pre ++ l ++ post -> m_rp b = Z.of_nat (length pre) ->
    m_bytesavail b = Z.of_nat (length l) -> m_buf_cap b = Z.of_nat (length (m_buf b)) ->
    m_buf_cap b < 2 ^ 53 -> data b l.

Lemma data_new cap : 0 <= cap < 2 ^ 53 -> data (new cap) [].
Proof.
  intros Hc. apply (Data _ _ [] (m_buf (new cap))); [done|done|done| |by apply Hc].
  simpl. rewrite length_replicate. lia.
Qed.

Lemma data_avail b l : data b l -> bytesavail b = Z.of_nat (length l).
Proof. by intros []. Qed.

Lemma data_rp b l : data b l -> exists junk, rp b = l ++ junk.
Proof.
  intros [pre post Hb Hr _ _]. exists post. unfold rp. rewrite Hr, Nat2Z.id, Hb. apply drop_app_length.
Qed.

Lemma data_consume b k l : data b (k ++ l) -> data (consume (Z.of_nat (length k)) b) l.
Proof.
  intros [pre post Hb Hr Ha Hc Hm]. rewrite length_app in Ha. rewrite Hc, Hb, !length_app in Hm.
  apply (Data _ _ (pre ++ k) post); unfold consume; cbn [m_buf m_rp m_bytesavail m_buf_cap].
  - by rewrite Hb, <-!app_assoc.
  - rewrite Hr, length_app, size_t_small; lia.
  - rewrite Ha, size_t_small; lia.
  - done.
  - rewrite Hc, Hb, !length_app. lia.
Qed.

Lemma data_shift b l : data b l ->
  exists b', shift_pending_to_array_start b = Ok b' /\ data b' l /\ m_rp b' = 0 /\
    m_buf_cap b' = m_buf_cap b.
Proof.
  intros [pre post Hb Hr Ha Hc Hm]. unfold shift_pending_to_array_start.
  assert (rp b = l ++ post) as Hrp by (unfold rp; rewrite Hr, Nat2Z.id, Hb; apply drop_app_length).
  destruct (Z.ltb_spec 0 (m_bytesavail b)) as [Hpos|Hz];
    [destruct (Z.eqb_spec (m_rp b) 0) as [H0|H0]|]; cbn [andb negb mbind result_bind].
  - eexists. split; [done|]. split; [|done]. apply (Data _ _ pre post); cbn; try done. lia.
  - rewrite Hrp, Ha, Nat2Z.id, take_app_length.
    assert (m_buf b = [] ++ take (length l) (m_buf b) ++ drop (length l) (m_buf b)) as Hbuf
      by (by rewrite take_drop).
    assert (length l <= length (m_buf b))%nat by (rewrite Hb, !length_app; lia).
    assert (memcpy 0 l (m_buf b) = Ok (l ++ drop (length l) (m_buf b))) as ->.
    { rewrite Hbuf at 1. apply (memcpy_middle []). rewrite length_take. lia. }
    cbn [mbind result_bind]. eexists. split; [done|]. split; [|done].
    apply (Data _ _ [] (drop (length l) (m_buf b))); cbn [m_buf m_rp m_bytesavail m_buf_cap];
      [done|done|done| |done].
    rewrite length_app, length_drop. lia.
  - eexists. split; [done|]. split; [|done].
    assert (l = []) as -> by (destruct l; [done|simpl in Ha; lia]).
    apply (Data _ _ [] (m_buf b)); cbn; done.
Qed.

Lemma data_write b l src : data b l -> m_rp b = 0 -> Z.of_nat (length src) <= space_remain b ->
  exists b', write src b = Ok b' /\ data b' (l ++ src) /\ m_rp b' = 0 /\ m_buf_cap b' = m_buf_cap b.
Proof.
  intros [pre post Hb Hr Ha Hc Hm] H0 Hs. destruct pre; [|simpl in Hr; lia]. simpl in Hb.
  unfold space_remain in Hs. rewrite Ha, Hc, Hb, length_app, size_t_small in Hs;
    [|rewrite Hc, Hb, length_app in Hm; lia].
  unfold write. rewrite Hb, Ha. rewrite <-(take_drop (length src) post).
  rewrite memcpy_middle by (rewrite length_take; lia). cbn [mbind result_bind].
  eexists. split; [done|]. split; [|done].
  rewrite Hc, Hb, length_app in Hm.
  apply (Data _ _ [] (drop (length src) post)); cbn [m_buf m_rp m_bytesavail m_buf_cap].
  - by rewrite <-app_assoc.
  - done.
  - rewrite length_app, size_t_small; lia.
  - rewrite Hc, Hb, !length_app, length_drop. lia.
  - rewrite Hc, Hb, length_app. lia.
Qed.

(** Growing keeps the data and adds at least one byte of space. *)
Lemma data_grow b l : data b l -> m_buf_cap b < 2 ^ 52 ->
  exists b', grow b = Ok b' /\ data b' l /\ m_rp b' = m_rp b /\
    m_buf_cap b < m_buf_cap b' <= 2 * m_buf_cap b + 1.
Proof.
  intros [pre post Hb Hr Ha Hc Hm] Hcap. unfold grow.
  set (extra := if m_buf_cap b / 2 =? 0 then 1 else m_buf_cap b / 2).
  assert (0 <= m_buf_cap b) by lia.
  assert (1 <= extra <= m_buf_cap b + 1) as Hx.
  { unfold extra. pose proof (Z.div_pos (m_buf_cap b) 2 ltac:(lia) ltac:(lia)).
    pose proof (Z.div_le_upper_bound (m_buf_cap b) 2 (m_buf_cap b) ltac:(lia) ltac:(lia)).
    destruct (Z.eqb_spec (m_buf_cap b / 2) 0); lia. }
  destruct (Z.ltb_spec (m_buf_cap b + extra) (m_buf_cap b)); [lia|].
  destruct (Z.leb_spec (m_buf_cap b + extra) 0); [lia|]. cbn [orb].
  set (fresh := replicate (Z.to_nat (m_buf_cap b + extra)) "000"%char).
  assert (length fresh = (length (m_buf b) + Z.to_nat extra)%nat) as Hlf
    by (unfold fresh; rewrite length_replicate; lia).
  assert (memcpy 0 (m_buf b) fresh = Ok (m_buf b ++ drop (length (m_buf b)) fresh)) as ->.
  { rewrite <-(take_drop (length (m_buf b)) fresh) at 1. apply (memcpy_middle []).
    rewrite length_take. lia. }
  cbn [mbind result_bind]. eexists. split; [done|]. cbn [m_rp m_buf_cap]. split; [|split; [done|lia]].
  apply (Data _ _ pre (post ++ drop (length (m_buf b)) fresh)); cbn [m_buf m_rp m_bytesavail m_buf_cap].
  - rewrite Hb at 1. by rewrite <-!app_assoc.
  - done.
  - done.
  - rewrite length_app, length_drop. lia.
  - lia.
Qed.

(** The growth loop ends: [size] rounds are enough, whatever the capacity. *)
Lemma data_make_space fuel size b l : data b l -> m_rp b = 0 -> 0 <= size ->
  (Z.to_nat (size - (m_buf_cap b - Z.of_nat (length l))) <= fuel)%nat ->
  Z.of_nat (length l) + size < 2 ^ 51 ->
  exists b', make_space fuel size b = Ok b' /\ data b' l /\ m_rp b' = 0 /\
    size <= space_remain b' /\ m_buf_cap b <= m_buf_cap b'.
Proof.
  revert b. induction fuel as [|fuel IH]; intros b Hd H0 Hs Hf Hm;
    assert (space_remain b = m_buf_cap b - Z.of_nat (length l)) as Hsp by
      (destruct Hd as [pre post Hb Hr Ha Hc Hcap]; unfold space_remain; rewrite Ha, size_t_small;
       [done|rewrite Hc, Hb, !length_app in *; lia]);
    cbn [make_space]; rewrite Hsp.
  - destruct (Z.ltb_spec (m_buf_cap b - Z.of_nat (length l)) size); [lia|].
    exists b. rewrite Hsp. split; [done|]. split; [done|]. split; [done|]. lia.
  - destruct (Z.ltb_spec (m_buf_cap b - Z.of_nat (length l)) size) as [Hlt|Hge].
    + destruct (data_grow b l Hd) as (b1 & -> & Hd1 & Hr1 & Hc1); [lia|]. cbn [mbind result_bind].
      destruct (IH b1) as (b2 & -> & Hd2 & Hr2 & Hs2 & Hc2); [done|lia|done|lia|done|].
      exists b2. split; [done|]. split; [done|]. split; [done|]. lia.
    + exists b. rewrite Hsp. split; [done|]. split; [done|]. split; [done|]. lia.
Qed.

End ReactorReadBuffer.
