(* ===== verification/Client.v ===== *)
(** A buffered connection: [ReactorClient] and [Client] of [Client.h] and
    [Client.cc].

    The operating system is the caller's: the result of [read] and the results
    of successive [send] calls are arguments, and the system calls made are
    recorded in [c_io].  The operations below run under the client's mutexes;
    each is one atomic step. *)

From S2P Require Import Prelude ReadBuffer.

Local Open Scope Z_scope.

(** * Data *)

Inductive IOState := IO_default | IO_close | IO_read_again.

(** An item of the outbound queue: [RawMsg()] (all members zero) asks for the
    socket to be closed, any other item holds the bytes still to be sent. *)
Inductive RawMsg := CloseSentinel | Raw (data : bytes).

Record OutboundQueue := OutQ {
  oq_items : list RawMsg; oq_itemcount : Z; oq_acceptmore : bool; oq_pending : Z }.

(** A chunk of inbound data; the empty chunk is the close sentinel. *)
Record DataFifo := Fifo { df_items : list bytes; df_itemcount : Z; df_pending : Z }.

Definition eWantDelete : Z := 4.
Definition eShutdownDone : Z := 8.
Definition EXIO_CLIENT_CHUNK_SIZE : Z := 1024.

(** System calls and notifications of the reactor. *)
Inductive io_event :=
| Sent (data : bytes)
| ShutdownWR
| Closed
| Invalidate
| RequestAttn.

Record Client := MkClient {
  m_fd : Z; m_io_closed : bool;
  m_bytes_out : Z; m_bytes_in : Z; m_last_write : Z; m_last_read : Z;
  m_attn_flags : Z; m_tdestroy : Z;
  m_cb : bool;  (** [m_cb != NULL] *)
  m_out_pend_max : Z;
  m_datafifo : DataFifo; m_out_q : OutboundQueue; m_buf : ReactorReadBuffer.t;
  c_io : list io_event }.

Definition new_client (fd now : Z) (cb : bool) : Client :=
  MkClient fd false 0 0 now now 0 0 cb (100 * 1024 * 1024) (Fifo [] 0 0) (OutQ [] 0 true 0)
    (ReactorReadBuffer.new 4096) [].

Definition set_out_q (q : OutboundQueue) (c : Client) : Client :=
  MkClient (m_fd c) (m_io_closed c) (m_bytes_out c) (m_bytes_in c) (m_last_write c) (m_last_read c)
    (m_attn_flags c) (m_tdestroy c) (m_cb c) (m_out_pend_max c) (m_datafifo c) q (m_buf c) (c_io c).
Definition set_datafifo (f : DataFifo) (c : Client) : Client :=
  MkClient (m_fd c) (m_io_closed c) (m_bytes_out c) (m_bytes_in c) (m_last_write c) (m_last_read c)
    (m_attn_flags c) (m_tdestroy c) (m_cb c) (m_out_pend_max c) f (m_out_q c) (m_buf c) (c_io c).
Definition set_buf (b : ReactorReadBuffer.t) (c : Client) : Client :=
  MkClient (m_fd c) (m_io_closed c) (m_bytes_out c) (m_bytes_in c) (m_last_write c) (m_last_read c)
    (m_attn_flags c) (m_tdestroy c) (m_cb c) (m_out_pend_max c) (m_datafifo c) (m_out_q c) b (c_io c).
Definition set_cb (cb : bool) (c : Client) : Client :=
  MkClient (m_fd c) (m_io_closed c) (m_bytes_out c) (m_bytes_in c) (m_last_write c) (m_last_read c)
    (m_attn_flags c) (m_tdestroy c) cb (m_out_pend_max c) (m_datafifo c) (m_out_q c) (m_buf c) (c_io c).
Definition set_io_closed (c : Client) : Client :=
  MkClient (m_fd c) true (m_bytes_out c) (m_bytes_in c) (m_last_write c) (m_last_read c)
    (m_attn_flags c) (m_tdestroy c) (m_cb c) (m_out_pend_max c) (m_datafifo c) (m_out_q c) (m_buf c) (c_io c).
Definition set_attn (flags tdestroy : Z) (c : Client) : Client :=
  MkClient (m_fd c) (m_io_closed c) (m_bytes_out c) (m_bytes_in c) (m_last_write c) (m_last_read c)
    flags tdestroy (m_cb c) (m_out_pend_max c) (m_datafifo c) (m_out_q c) (m_buf c) (c_io c).
Definition count_in (n now : Z) (c : Client) : Client :=
  MkClient (m_fd c) (m_io_closed c) (m_bytes_out c) (size_t (m_bytes_in c + n)) (m_last_write c) now
    (m_attn_flags c) (m_tdestroy c) (m_cb c) (m_out_pend_max c) (m_datafifo c) (m_out_q c) (m_buf c) (c_io c).
Definition count_out (n now : Z) (c : Client) : Client :=
  MkClient (m_fd c) (m_io_closed c) (size_t (m_bytes_out c + n)) (m_bytes_in c) now (m_last_read c)
    (m_attn_flags c) (m_tdestroy c) (m_cb c) (m_out_pend_max c) (m_datafifo c) (m_out_q c) (m_buf c) (c_io c).
Definition do_io (e : io_event) (c : Client) : Client :=
  MkClient (m_fd c) (m_io_closed c) (m_bytes_out c) (m_bytes_in c) (m_last_write c) (m_last_read c)
    (m_attn_flags c) (m_tdestroy c) (m_cb c) (m_out_pend_max c) (m_datafifo c) (m_out_q c) (m_buf c)
    (c_io c ++ [e]).

Definition io_open (c : Client) : bool := negb (m_io_closed c).

(** * Outbound *)

Definition do_shutdown_SHUT_WR (c : Client) : Client :=
  if m_io_closed c then c
  else if negb (Z.land (m_attn_flags c) eShutdownDone =? 0) then c
  else do_io ShutdownWR (set_attn (Z.lor (m_attn_flags c) eShutdownDone) (m_tdestroy c) c).

(** [queue(buf, size, closesocket)]: [None] is a NULL [buf]. *)
Definition queue (buf : option bytes) (closesocket : bool) (c : Client) : Client * Z :=
  let q := m_out_q c in
  if negb (oq_acceptmore q) then (c, -2)
  else
    let data := default [] buf in
    let size := Z.of_nat (length data) in
    if (0 <? size) && (size_t (m_out_pend_max c - oq_pending q) <? size) then
      let c := set_out_q (OutQ (oq_items q) (oq_itemcount q) false (oq_pending q)) c in
      (do_shutdown_SHUT_WR c, -1)
    else
      let q1 := if 0 <? size
                then OutQ (oq_items q ++ [Raw data]) (size_t (oq_itemcount q + 1)) (oq_acceptmore q)
                       (size_t (oq_pending q + size))
                else q in
      let q2 := if closesocket
                then OutQ (oq_items q1 ++ [CloseSentinel]) (size_t (oq_itemcount q1 + 1)) false
                       (oq_pending q1)
                else q1 in
      let c := set_out_q q2 c in
      ((if (0 <? size) || closesocket then do_io Invalidate c else c), 0).

Definition pending_out (c : Client) : Z := oq_pending (m_out_q c).

Definition shutdown_outq (c : Client) : Client := set_out_q (OutQ [] 0 false 0) c.

(** [events()]: whether POLLIN and POLLOUT are requested. *)
Definition events (c : Client) : bool * bool :=
  if io_open c then
    (true, negb (oq_itemcount (m_out_q c) =? 0) || negb (bool_decide (oq_items (m_out_q c) = [])))
  else (false, false).

(** The outcome of a [send] of [wlen] bytes: the kernel takes up to [n] of
    them, or fails, with EAGAIN/EWOULDBLOCK or another error. *)
Inductive send_result := SendOk (n : nat) | SendAgain | SendError.

(** [handle_output()]; when [sends] is used up the socket would block. *)
Fixpoint handle_output (now : Z) (sends : list send_result) (c : Client) : result (Client * IOState) :=
  let q := m_out_q c in
  if negb (oq_itemcount q =? 0) || negb (bool_decide (oq_items q = [])) then
    match oq_items q with
    | [] => Throw (undefined_behaviour "front of an empty list")
    | CloseSentinel :: items =>
        let c := set_out_q (OutQ items (size_t (oq_itemcount q - 1)) (oq_acceptmore q) (oq_pending q)) c in
        Ok (do_shutdown_SHUT_WR c, IO_close)
    | Raw data :: items =>
        match sends with
        | [] | SendAgain :: _ => Ok (c, IO_default)
        | SendError :: _ => Ok (c, IO_close)
        | SendOk k :: sends =>
            let n := Nat.min k (length data) in
            let left := drop n data in
            let c := count_out (Z.of_nat n) now (do_io (Sent (take n data)) c) in
            let pending := if Z.of_nat n <? oq_pending q
                           then size_t (oq_pending q - Z.of_nat n) else 0 in
            let q := if bool_decide (left = [])
                     then OutQ items (size_t (oq_itemcount q - 1)) (oq_acceptmore q) pending
                     else OutQ (Raw left :: items) (oq_itemcount q) (oq_acceptmore q) pending in
            handle_output now sends (set_out_q q c)
        end
    end
  else Ok (set_out_q (OutQ (oq_items q) 0 (oq_acceptmore q) (oq_pending q)) c, IO_default).

(** * Inbound *)

(** The outcome of [read]: some bytes (none at end of file) or an error. *)
Inductive read_result := ReadOk (data : bytes) | ReadError.

Definition handle_input (now : Z) (r : read_result) (c : Client) : Client * IOState :=
  if negb (io_open c) then (c, IO_default)
  else
    match r with
    | ReadOk [] | ReadError => (c, IO_close)
    | ReadOk chunk =>
        let n := Z.of_nat (length chunk) in
        let c := count_in n now c in
        let f := m_datafifo c in
        (set_datafifo (Fifo (df_items f ++ [chunk]) (size_t (df_itemcount f + 1)) (df_pending f)) c,
         if n =? EXIO_CLIENT_CHUNK_SIZE then IO_read_again else IO_default)
    end.

Definition handle_close (c : Client) : Client :=
  if io_open c then
    let c := do_io Closed (set_io_closed c) in
    let f := m_datafifo c in
    set_datafifo (Fifo (df_items f ++ [[]]) (size_t (df_itemcount f + 1)) (df_pending f)) c
  else c.

Definition release (now : Z) (c : Client) : Client :=
  let c := do_shutdown_SHUT_WR (set_cb false c) in
  do_io RequestAttn (set_attn (Z.lor (m_attn_flags c) eWantDelete) now c).

Definition has_work (c : Client) : bool :=
  negb (df_itemcount (m_datafifo c) =? 0) || negb (bool_decide (df_items (m_datafifo c) = [])).

(** [destroy_cycle(t)]: the client afterwards and whether it can be deleted. *)
Definition destroy_cycle (t : Z) (c : Client) : Client * bool :=
  if ((m_tdestroy c <? t) && (1 <=? t - m_tdestroy c)) || (t <? m_tdestroy c) then
    let c := set_attn (m_attn_flags c) t c in
    if io_open c then (handle_close c, false) else (c, true)
  else (c, false).

(** What the derived class does with inbound data.  A callback may use the
    client (to queue a reply); [None] is an exception that escaped it, and
    [Throw] an evaluation without a meaning in C++. *)
Class ClientCallback (T : Type) := {
  process_input : Client -> T -> bytes -> Z -> result (Client * T * option Z);
  process_close : Client -> T -> result (Client * T) }.

Section do_work.
Context {T : Type} `{ClientCallback T}.

Definition clear_fifo (c : Client) : Client := set_datafifo (Fifo [] 0 0) c.

(** Copies the pending chunks into the buffer, up to a close sentinel: the
    remaining chunks, the buffer and whether the sentinel was seen.  The loop
    runs while [itemcount] is not zero. *)
Fixpoint drain (itemcount : Z) (items : list bytes) (b : ReactorReadBuffer.t)
    : result (Z * list bytes * ReactorReadBuffer.t * bool) :=
  if itemcount =? 0 then Ok (itemcount, items, b, false)
  else
    match items with
    | [] => Throw (undefined_behaviour "front of an empty list")
    | front :: items =>
        if bool_decide (front = []) then Ok (size_t (itemcount - 1), items, b, true)
        else
          b ← ReactorReadBuffer.make_space (length front) (Z.of_nat (length front)) b;
          b ← ReactorReadBuffer.write front b;
          drain (size_t (itemcount - 1)) items b
    end.

(** [while (buf.bytesavail())]: hands the bytes to the callback. *)
Fixpoint feed (fuel : nat) (c : Client) (s : T) : result (Client * T) :=
  if ReactorReadBuffer.bytesavail (m_buf c) =? 0 then Ok (c, s)
  else
    match fuel with
    | O => Throw out_of_fuel
    | S fuel =>
        '(c, s, consumed) ←
          (if m_cb c then
             '(c, s, r) ← process_input c s (ReactorReadBuffer.rp (m_buf c))
                            (ReactorReadBuffer.bytesavail (m_buf c));
             mret (c, s, default 0 r)
           else Ok (c, s, 0));
        if 0 <? consumed then
          feed fuel (set_buf (ReactorReadBuffer.consume consumed (m_buf c)) c) s
        else Ok (c, s)
    end.

Definition do_work (c : Client) (s : T) : result (Client * T) :=
  if negb (m_cb c) then Ok (clear_fifo c, s)
  else
    let f := m_datafifo c in
    '(count, items, b, invoke_process_close) ← drain (df_itemcount f) (df_items f) (m_buf c);
    let c := set_buf b (set_datafifo (Fifo items count (df_pending f)) c) in
    '(c, s) ← feed (Z.to_nat (ReactorReadBuffer.bytesavail (m_buf c))) c s;
    b ← ReactorReadBuffer.shift_pending_to_array_start (m_buf c);
    let c := set_buf b c in
    if (invoke_process_close : bool) then
      '(c, s) ← (if m_cb c then process_close c s else Ok (c, s));
      Ok (clear_fifo (set_cb false c), s)
    else Ok (c, s).

End do_work.

(** * Waking the event loop *)

(** What a call adds to the trace of system calls and notifications. *)
Definition io_added (c c' : Client) : list io_event := drop (length (c_io c)) (c_io c').

(** The connection asks for POLLOUT. *)
Definition wants_output (c : Client) : bool := (events c).2.

(** From [c] to [c'] the event loop has been notified if there is output it does
    not know of, and a closed socket stays closed. *)
Definition notified (c c' : Client) : Prop := exists es, c_io c' = c_io c ++ es /\
  (wants_output c' = true -> wants_output c = true \/ Invalidate ∈ es) /\ (io_open c' = true -> io_open c = true).

#[global] Instance notified_preorder : PreOrder notified.
Proof.
  split.
  - intros c. exists []. rewrite app_nil_r. auto.
  - intros c1 c2 c3 (es & E & H & Hc) (es' & E' & H' & Hc'). exists (es ++ es'). rewrite E', E, app_assoc. split; [done|].
    split; [|auto]. intros Hw. rewrite elem_of_app. destruct (H' Hw) as [Hw2|]; [|auto]. destruct (H Hw2); auto.
Qed.

Lemma notified_added c c' : notified c c' -> c_io c' = c_io c ++ io_added c c' /\
  (wants_output c' = true -> wants_output c = true \/ Invalidate ∈ io_added c c').
Proof. intros (es & E & H & _). unfold io_added. by rewrite E, drop_app_length. Qed.

Lemma notified_open c c' : notified c c' -> io_open c' = true -> io_open c = true.
Proof. by intros (es & _ & _ & H). Qed.

(** Calls that leave the output queue alone. *)
Lemma notified_same c c' es : c_io c' = c_io c ++ es -> m_out_q c' = m_out_q c -> (io_open c' = true -> io_open c = true) ->
  notified c c'.
Proof.
  intros E Hq Ho. exists es. split; [done|]. split; [|done]. unfold wants_output, events. rewrite Hq.
  destruct (io_open c'); [rewrite Ho by done; auto|done].
Qed.

Lemma shutdown_notified c : notified c (do_shutdown_SHUT_WR c).
Proof.
  unfold do_shutdown_SHUT_WR. destruct (m_io_closed c) eqn:E; [done|]. destruct (negb _); [done|].
  by apply (notified_same _ _ [ShutdownWR]).
Qed.

Lemma queue_notified buf cl c : notified c (queue buf cl c).1.
Proof.
  unfold queue. destruct (oq_acceptmore (m_out_q c)); cbn [negb fst]; [|done].
  set (size := Z.of_nat (length (default [] buf))). destruct ((0 <? size) && _) eqn:Efull; cbn [fst].
  - etransitivity; [|apply shutdown_notified]. exists []. rewrite app_nil_r. split; [done|].
    split; [|done]. intros Hw. left. exact Hw.
  - destruct ((0 <? size) || cl) eqn:Eput.
    + exists [Invalidate]. split; [done|]. split; [|done]. intros _. right. by left.
    + apply orb_false_iff in Eput as [-> ->]. exists []. rewrite app_nil_r. split; [done|].
      split; [|done]. intros Hw. left. exact Hw.
Qed.

Lemma release_notified now c : notified c (release now c).
Proof.
  unfold release. set (c1 := set_cb false c).
  transitivity c1; [by apply (notified_same _ _ []); [rewrite app_nil_r|..]|].
  etransitivity; [apply shutdown_notified|]. by apply (notified_same _ _ [RequestAttn]).
Qed.

Section notified_work.
Context {T : Type} {CB : ClientCallback T}.

(** A callback uses the connection through its functions: the queue is private. *)
Class WakingCallback := {
  wc_input : forall c s src n c' s' r, process_input c s src n = Ok (c', s', r) -> notified c c';
  wc_close : forall c s c' s', process_close c s = Ok (c', s') -> notified c c' }.

Context {WC : WakingCallback}.

Lemma feed_notified fuel : forall c s c' s', feed fuel c s = Ok (c', s') -> notified c c'.
Proof.
  induction fuel as [|fuel IH]; intros c s c' s' E; cbn [feed] in E;
    (destruct (_ =? 0); [by injection E as <- _|]); [done|].
  apply result_bind_Ok in E as ([[c1 s1] n] & E1 & E).
  assert (notified c c1) as H1.
  { destruct (m_cb c); [|by injection E1 as <- _ _]. apply result_bind_Ok in E1 as ([[c2 s2] r] & E2 & [= <- _ _]).
    by eapply wc_input. }
  destruct (0 <? n); [|by injection E as <- _]. apply IH in E. etransitivity; [exact H1|].
  etransitivity; [|exact E]. by apply (notified_same _ _ []); [rewrite app_nil_r|..].
Qed.

Lemma do_work_notified c s c' s' : do_work c s = Ok (c', s') -> notified c c'.
Proof.
  assert (forall c c' : Client, c_io c' = c_io c -> m_out_q c' = m_out_q c -> m_io_closed c' = m_io_closed c -> notified c c') as Hsame.
  { intros c1 c2 H1 H2 H3. apply (notified_same _ _ []); [by rewrite app_nil_r|done|]. unfold io_open. by rewrite H3. }
  unfold do_work. destruct (m_cb c); cbn [negb]; [|by intros [= <- _]; apply Hsame].
  intros ([[[count items] b] closing] & _ & E)%result_bind_Ok.
  apply result_bind_Ok in E as ([c1 s1] & Ef & E). apply feed_notified in Ef.
  apply result_bind_Ok in E as (b1 & _ & E).
  assert (notified c (set_buf b1 c1)) as H1.
  { etransitivity; [|etransitivity; [exact Ef|]]; by apply Hsame. }
  destruct closing; [|by injection E as <- _].
  apply result_bind_Ok in E as ([c2 s2] & E2 & [= <- _]).
  assert (notified (set_buf b1 c1) c2) as H2 by (destruct (m_cb (set_buf b1 c1)); [by eapply wc_close|by injection E2 as <- _]).
  etransitivity; [exact H1|]. etransitivity; [exact H2|]. by apply Hsame.
Qed.

End notified_work.
#[global] Arguments WakingCallback T {CB}.

(** * The outbound stream *)

Definition raw_bytes (m : RawMsg) : bytes := match m with Raw d => d | CloseSentinel => [] end.
Definition io_bytes (e : io_event) : bytes := match e with Sent d => d | _ => [] end.

(** The bytes in the queue and the bytes handed to the kernel so far. *)
Definition queued (c : Client) : bytes := flat_map raw_bytes (oq_items (m_out_q c)).
Definition sent (c : Client) : bytes := flat_map io_bytes (c_io c).

(** The queue holds non-empty messages, and possibly the close sentinel last;
    its counters agree with it and stay within the limit. *)
Record out_inv (c : Client) : Prop := {
  oi_shape : exists ds, oq_items (m_out_q c) = map Raw ds \/
    (oq_items (m_out_q c) = map Raw ds ++ [CloseSentinel] /\ oq_acceptmore (m_out_q c) = false);
  oi_nonempty : Forall (fun m => m <> Raw []) (oq_items (m_out_q c));
  oi_count : oq_itemcount (m_out_q c) = Z.of_nat (length (oq_items (m_out_q c)));
  oi_pending : oq_pending (m_out_q c) = Z.of_nat (length (queued c));
  oi_limit : oq_pending (m_out_q c) <= m_out_pend_max c;
  oi_max : m_out_pend_max c < 2 ^ 62 }.

Inductive client_op :=
| OpQueue (buf : option bytes) (closesocket : bool)
| OpOutput (now : Z) (sends : list send_result)
| OpInput (now : Z) (r : read_result)
| OpClose
| OpRelease (now : Z).

Definition run_op (o : client_op) (c : Client) : result Client :=
  match o with
  | OpQueue buf cl => Ok (queue buf cl c).1
  | OpOutput now sends => '(c, _) ← handle_output now sends c; mret c
  | OpInput now r => Ok (handle_input now r c).1
  | OpClose => Ok (handle_close c)
  | OpRelease now => Ok (release now c)
  end.

(** The bytes an operation asks the client to send, when it reports success. *)
Definition accepted (o : client_op) (c : Client) : bytes :=
  match o with
  | OpQueue buf cl => if (queue buf cl c).2 =? 0 then default [] buf else []
  | _ => []
  end.

Fixpoint run_ops (ops : list client_op) (c : Client) : result (Client * bytes) :=
  match ops with
  | [] => Ok (c, [])
  | o :: ops => c' ← run_op o c; '(d, acc) ← run_ops ops c'; mret (d, accepted o c ++ acc)
  end.

Lemma flat_map_raw ds : flat_map raw_bytes (map Raw ds) = concat ds.
Proof. induction ds; simpl; congruence. Qed.

Lemma length_items_le items : Forall (fun m => m <> Raw []) items ->
  (exists ds, items = map Raw ds \/ items = map Raw ds ++ [CloseSentinel]) ->
  (length items <= S (length (flat_map raw_bytes items)))%nat.
Proof.
  intros Hne [ds Hs].
  assert (Forall (fun d => d <> []) ds) as Hds.
  { apply Forall_forall. intros d Hd ->. rewrite Forall_forall in Hne. apply (Hne (Raw [])); [|done].
    destruct Hs as [->| ->]; rewrite ?elem_of_app; [|left]; by apply list_elem_of_fmap_2. }
  assert (length ds <= length (flat_map raw_bytes (map Raw ds)))%nat.
  { clear -Hds. induction Hds as [|d ds Hd Hds IH]; simpl; [lia|]. rewrite length_app.
    destruct d; [done|]. simpl. lia. }
  destruct Hs as [->| ->]; rewrite ?flat_map_app, ?length_app; cbn [length]; rewrite length_fmap; lia.
Qed.

Lemma out_inv_count_le c : out_inv c -> oq_itemcount (m_out_q c) <= oq_pending (m_out_q c) + 1.
Proof.
  intros [Hs Hne Hc Hp _ _]. rewrite Hc, Hp.
  pose proof (length_items_le _ Hne) as H. unfold queued.
  assert (exists ds, oq_items (m_out_q c) = map Raw ds \/
    oq_items (m_out_q c) = map Raw ds ++ [CloseSentinel]) as Hx by naive_solver.
  specialize (H Hx). lia.
Qed.

Lemma out_inv_new fd now cb : out_inv (new_client fd now cb).
Proof. split; try done. exists []. by left. Qed.

(** The invariant only concerns the queue and the limit. *)
Lemma out_inv_ext c d : m_out_q c = m_out_q d -> m_out_pend_max c = m_out_pend_max d ->
  out_inv c -> out_inv d.
Proof. intros Hq Hm [H1 H2 H3 H4 H5 H6]. unfold queued in *. rewrite Hq in *. rewrite Hm in *. by split. Qed.

Lemma shutdown_WR_out c : m_out_q (do_shutdown_SHUT_WR c) = m_out_q c /\
  m_out_pend_max (do_shutdown_SHUT_WR c) = m_out_pend_max c /\ sent (do_shutdown_SHUT_WR c) = sent c.
Proof.
  unfold do_shutdown_SHUT_WR. destruct (m_io_closed c); [done|]. destruct (negb _); [done|].
  unfold sent, do_io. simpl. rewrite flat_map_app. simpl. by rewrite app_nil_r.
Qed.

Lemma handle_close_out c : m_out_q (handle_close c) = m_out_q c /\
  m_out_pend_max (handle_close c) = m_out_pend_max c /\ sent (handle_close c) = sent c.
Proof.
  unfold handle_close. destruct (io_open c); [|done].
  unfold sent, do_io. simpl. rewrite flat_map_app. simpl. by rewrite app_nil_r.
Qed.

Lemma release_out now c : m_out_q (release now c) = m_out_q c /\
  m_out_pend_max (release now c) = m_out_pend_max c /\ sent (release now c) = sent c.
Proof.
  unfold release. destruct (shutdown_WR_out (set_cb false c)) as (H1 & H2 & H3).
  unfold sent, do_io in *. simpl in *. rewrite flat_map_app, H3. simpl. by rewrite app_nil_r.
Qed.

Lemma handle_input_out now r c : m_out_q (handle_input now r c).1 = m_out_q c /\
  m_out_pend_max (handle_input now r c).1 = m_out_pend_max c /\ sent (handle_input now r c).1 = sent c.
Proof. unfold handle_input. destruct (negb (io_open c)); [done|]. by destruct r as [[]|]. Qed.

(** A queue that still accepts data, extended by a message or by nothing,
    and possibly by the sentinel. *)
Lemma out_inv_push c ds data (cl : bool) cnt :
  out_inv c -> oq_items (m_out_q c) = map Raw ds -> cnt = length (map Raw ds) ->
  Z.of_nat (length data) <= m_out_pend_max c - oq_pending (m_out_q c) ->
  let new := (if bool_decide (data = []) then [] else [Raw data]) ++
             (if cl then [CloseSentinel] else []) in
  let c' := set_out_q (OutQ (oq_items (m_out_q c) ++ new) (Z.of_nat (cnt + length new)) (negb cl)
                         (oq_pending (m_out_q c) + Z.of_nat (length data))) c in
  out_inv c' /\ queued c' = queued c ++ data.
Proof.
  intros Hi Hs -> Hfit. destruct Hi as [_ Hne Hc Hp Hl Hm]. cbv zeta.
  set (new := (if bool_decide (data = []) then [] else [Raw data]) ++ _).
  assert (flat_map raw_bytes new = data) as Hnew.
  { unfold new. rewrite flat_map_app. case_bool_decide as E; [subst|]; destruct cl; simpl;
      rewrite ?app_nil_r; done. }
  split; [|unfold queued; simpl; by rewrite flat_map_app, Hnew].
  unfold queued in *. split; cbn [set_out_q m_out_q oq_items oq_itemcount oq_acceptmore oq_pending m_out_pend_max].
  - exists (ds ++ (if bool_decide (data = []) then [] else [data])). rewrite Hs. unfold new.
    rewrite map_app. destruct cl; [right; split; [|done]|left]; case_bool_decide; simpl;
      rewrite ?app_nil_r, <-?app_assoc; done.
  - apply Forall_app. split; [done|]. unfold new. case_bool_decide; destruct cl; repeat constructor; congruence.
  - rewrite Hs, length_app. done.
  - unfold queued. cbn [set_out_q m_out_q oq_items]. rewrite flat_map_app, Hnew, length_app. lia.
  - lia.
  - done.
Qed.

(** [queue] keeps the invariant and appends what it accepts. *)
Lemma queue_out buf cl c : out_inv c ->
  out_inv (queue buf cl c).1 /\ sent (queue buf cl c).1 = sent c /\
  queued (queue buf cl c).1 = queued c ++ accepted (OpQueue buf cl) c /\
  m_out_pend_max (queue buf cl c).1 = m_out_pend_max c.
Proof.
  intros Hi. pose proof (out_inv_count_le c Hi) as Hcl. pose proof Hi as Hi'.
  destruct Hi as [[ds Hs] Hne Hc Hp Hl Hm]. unfold accepted, queue.
  destruct (oq_acceptmore (m_out_q c)) eqn:Ea; cbn [negb]; [|cbn; by rewrite app_nil_r].
  destruct Hs as [Hs|[_ ?]]; [|done].
  set (data := default [] buf). rewrite (size_t_small (_ - _)) by lia.
  destruct ((0 <? Z.of_nat (length data)) &&
    (m_out_pend_max c - oq_pending (m_out_q c) <? Z.of_nat (length data))) eqn:Efull.
  - match goal with |- context [do_shutdown_SHUT_WR ?d] => set (c1 := d) end.
    destruct (shutdown_WR_out c1) as (Hq & Hx & Hst). cbn [fst snd].
    change (-1 =? 0) with false. cbv iota. rewrite app_nil_r. split.
    + apply (out_inv_ext c1); [done|done|]. split; simpl; try done. exists ds. by left.
    + rewrite Hst, Hx. unfold queued. by rewrite Hq.
  - assert (Z.of_nat (length data) <= m_out_pend_max c - oq_pending (m_out_q c)) as Hfit.
    { apply andb_false_iff in Efull as [E%Z.ltb_ge|E%Z.ltb_ge]; lia. }
    destruct (out_inv_push c ds data cl _ Hi' Hs eq_refl Hfit) as [Hinv Hqd].
    set (c' := set_out_q _ c) in Hinv, Hqd.
    match goal with |- context [set_out_q ?q c] => assert (set_out_q q c = c') as -> end.
    { unfold c'. f_equal. destruct (Z.ltb_spec 0 (Z.of_nat (length data))) as [H0|H0].
      - rewrite bool_decide_false by (intros ->; simpl in H0; lia).
        rewrite (size_t_small (oq_pending _ + _)), (size_t_small (oq_itemcount _ + 1)) by lia.
        destruct cl; cbn [oq_items oq_itemcount oq_pending oq_acceptmore];
          rewrite ?size_t_small by lia; rewrite <-?app_assoc, <-Hs; cbn [app length];
          f_equal; try done; lia.
      - assert (data = []) as -> by (destruct data; [done|simpl in H0; lia]).
        rewrite bool_decide_true by done. cbn [app length].
        destruct cl; cbn [oq_items oq_itemcount oq_pending oq_acceptmore];
          rewrite ?size_t_small by lia; rewrite <-?Hs, ?app_nil_r; destruct (m_out_q c); simpl in *;
          subst; f_equal; try done; lia. }
    cbn [fst snd]. rewrite Z.eqb_refl.
    destruct ((0 <? _) || cl); [|by rewrite Hqd]. split; [by apply (out_inv_ext c')|].
    unfold queued, sent in *. simpl. rewrite flat_map_app. simpl. by rewrite app_nil_r.
Qed.

(** ** Sending *)

Lemma has_items c : out_inv c ->
  negb (oq_itemcount (m_out_q c) =? 0) || negb (bool_decide (oq_items (m_out_q c) = [])) =
  negb (bool_decide (oq_items (m_out_q c) = [])).
Proof.
  intros [_ _ Hc _ _ _]. rewrite Hc. destruct (oq_items (m_out_q c)); [done|].
  rewrite (bool_decide_false (_ :: _ = [])) by done. apply orb_true_r.
Qed.

(** One successful [send] of [n] bytes of the front message. *)
Definition after_send (now : Z) (n : nat) (data : bytes) (items : list RawMsg) (c : Client) : Client :=
  let q := m_out_q c in
  let left := drop n data in
  let pending := if Z.of_nat n <? oq_pending q then size_t (oq_pending q - Z.of_nat n) else 0 in
  set_out_q (if bool_decide (left = [])
             then OutQ items (size_t (oq_itemcount q - 1)) (oq_acceptmore q) pending
             else OutQ (Raw left :: items) (oq_itemcount q) (oq_acceptmore q) pending)
    (count_out (Z.of_nat n) now (do_io (Sent (take n data)) c)).

Lemma after_send_out now n data items c : out_inv c ->
  oq_items (m_out_q c) = Raw data :: items -> (n <= length data)%nat ->
  out_inv (after_send now n data items c) /\
  queued c = take n data ++ queued (after_send now n data items c) /\
  sent (after_send now n data items c) = sent c ++ take n data.
Proof.
  intros Hi Hit Hn. pose proof (out_inv_count_le c Hi) as Hcl.
  destruct Hi as [[ds Hs] Hne Hc Hp Hl Hm].
  assert (length (queued c) = length data + length (flat_map raw_bytes items))%nat as Hlq
    by (unfold queued; rewrite Hit; simpl; by rewrite length_app).
  assert (queued (after_send now n data items c) = drop n data ++ flat_map raw_bytes items) as Hq.
  { unfold after_send, queued. case_bool_decide as E; [|done]. by rewrite E. }
  rewrite Hit in *. apply Forall_cons in Hne as [Hd Hne]. cbn [length] in Hc.
  split; [|split].
  - assert ((if Z.of_nat n <? oq_pending (m_out_q c) then size_t (oq_pending (m_out_q c) - Z.of_nat n)
             else 0) = oq_pending (m_out_q c) - Z.of_nat n) as Hpend.
    { destruct (Z.ltb_spec (Z.of_nat n) (oq_pending (m_out_q c))); [apply size_t_small|]; lia. }
    assert (exists ds', items = map Raw ds' \/
      (items = map Raw ds' ++ [CloseSentinel] /\ oq_acceptmore (m_out_q c) = false)) as Hsh.
    { destruct ds as [|d ds]; [destruct Hs as [?|[? _]]; done|].
      exists ds. destruct Hs as [[= _ ->]|[[= _ ->] ?]]; auto. }
    split.
    + destruct Hsh as [ds' Hsh]. unfold after_send. cbn [set_out_q m_out_q].
      case_bool_decide; cbn [oq_items oq_acceptmore]; [by exists ds'|]. exists (drop n data :: ds').
      destruct Hsh as [->|[-> ?]]; auto.
    + unfold after_send. cbn [set_out_q m_out_q]. case_bool_decide; [done|]. constructor; [congruence|done].
    + unfold after_send. cbn [set_out_q m_out_q]. case_bool_decide; cbn [oq_items oq_itemcount length]; [|done].
      rewrite size_t_small; lia.
    + rewrite Hq, length_app, length_drop. unfold after_send. cbn [set_out_q m_out_q].
      case_bool_decide; cbn [oq_pending]; rewrite Hpend; lia.
    + unfold after_send. cbn [set_out_q m_out_q]. case_bool_decide; cbn; rewrite Hpend; lia.
    + unfold after_send. by case_bool_decide.
  - rewrite Hq. unfold queued. rewrite Hit. simpl. by rewrite app_assoc, take_drop.
  - unfold after_send, sent. case_bool_decide; simpl; rewrite flat_map_app; simpl; by rewrite app_nil_r.
Qed.

Lemma handle_output_eq now sends c : out_inv c ->
  handle_output now sends c =
  match oq_items (m_out_q c) with
  | [] => Ok (set_out_q (OutQ [] 0 (oq_acceptmore (m_out_q c)) (oq_pending (m_out_q c))) c, IO_default)
  | CloseSentinel :: items =>
      Ok (do_shutdown_SHUT_WR (set_out_q (OutQ items (size_t (oq_itemcount (m_out_q c) - 1))
            (oq_acceptmore (m_out_q c)) (oq_pending (m_out_q c))) c), IO_close)
  | Raw data :: items =>
      match sends with
      | [] | SendAgain :: _ => Ok (c, IO_default)
      | SendError :: _ => Ok (c, IO_close)
      | SendOk k :: sends =>
          handle_output now sends (after_send now (Nat.min k (length data)) data items c)
      end
  end.
Proof.
  intros Hi. destruct sends as [|[k| |] sends]; cbn [handle_output]; rewrite (has_items c Hi);
    by destruct (oq_items (m_out_q c)) as [|[|data] items].
Qed.

(** The whole of [handle_output]: never undefined; what it sends is a prefix
    of the queue; it asks for the close only with nothing left to send, unless
    a [send] failed. *)
Lemma handle_output_out now sends c : out_inv c ->
  exists c' st, handle_output now sends c = Ok (c', st) /\ out_inv c' /\
    m_out_pend_max c' = m_out_pend_max c /\
    sent c' ++ queued c' = sent c ++ queued c /\
    (st = IO_close -> queued c' = [] \/ SendError ∈ sends).
Proof.
  revert c. induction sends as [|s sends IH]; intros c Hi; rewrite handle_output_eq by done;
    pose proof Hi as [[ds Hs] Hne Hc Hp Hl Hm];
    destruct (oq_items (m_out_q c)) as [|[|data] items] eqn:E.
  1, 4: eexists _, _; (split; [done|]); unfold queued; simpl; rewrite E;
    (split; [split; simpl; [exists []; by left|done|done|unfold queued in *; simpl in *; by rewrite E in Hp|done|done]|]);
    by rewrite !app_nil_r.
  1, 3: match goal with |- context [do_shutdown_SHUT_WR ?d] => set (c1 := d) end;
    destruct (shutdown_WR_out c1) as (Hq & Hx & Hst);
    assert (items = []) as -> by
      (destruct ds as [|d ds]; [destruct Hs as [Hs|[[= Hs] _]]; [done|done]|destruct Hs as [?|[? _]]; done]);
    eexists _, _; (split; [done|]); unfold queued; rewrite Hq, Hx, Hst, E; simpl;
    (split; [apply (out_inv_ext c1); [done|done|];
      split; simpl; [exists []; by left|done|by rewrite Hc|unfold queued in *; simpl in *; by rewrite E in Hp|done|done]
     |split; [done|]; split; [done|by left]]).
  - eexists _, _. split; [done|]. done.
  - destruct s as [k| |]; [|eexists _, _; (split; [done|]); done|].
    + destruct (after_send_out now (Nat.min k (length data)) data items c Hi E) as (Hi' & Hq & Hst); [lia|].
      destruct (IH _ Hi') as (c' & st & -> & Hc' & Hx & Hsq & Hcl).
      eexists _, _. split; [done|]. split; [done|]. split.
      { rewrite Hx. unfold after_send. by case_bool_decide. }
      split; [by rewrite Hsq, Hst, <-app_assoc, <-Hq|]. intros Hio. destruct (Hcl Hio); [by left|right; set_solver].
    + eexists _, _. do 4 (split; [done|]). intros _. right. set_solver.
Qed.

Lemma run_op_out o c : out_inv c -> exists c', run_op o c = Ok c' /\ out_inv c' /\
  m_out_pend_max c' = m_out_pend_max c /\ sent c' ++ queued c' = sent c ++ queued c ++ accepted o c.
Proof.
  intros Hi. destruct o as [buf cl|now sends|now r| |now]; cbn [run_op accepted]; rewrite ?app_nil_r.
  - destruct (queue_out buf cl c Hi) as (H1 & H2 & H3 & H4). eexists. split; [done|].
    rewrite H2, H3. done.
  - destruct (handle_output_out now sends c Hi) as (c' & st & -> & H1 & H2 & H3 & _). eauto.
  - destruct (handle_input_out now r c) as (Hq & Hm & Hst). eexists. split; [done|].
    unfold queued. rewrite Hq, Hm, Hst. split; [by apply (out_inv_ext c)|done].
  - destruct (handle_close_out c) as (Hq & Hm & Hst). eexists. split; [done|].
    unfold queued. rewrite Hq, Hm, Hst. split; [by apply (out_inv_ext c)|done].
  - destruct (release_out now c) as (Hq & Hm & Hst). eexists. split; [done|].
    unfold queued. rewrite Hq, Hm, Hst. split; [by apply (out_inv_ext c)|done].
Qed.

Lemma run_ops_out ops c : out_inv c -> exists c' acc, run_ops ops c = Ok (c', acc) /\ out_inv c' /\
  m_out_pend_max c' = m_out_pend_max c /\ sent c' ++ queued c' = sent c ++ queued c ++ acc.
Proof.
  revert c. induction ops as [|o ops IH]; intros c Hi; cbn [run_ops].
  { exists c, []. by rewrite app_nil_r. }
  destruct (run_op_out o c Hi) as (c1 & E1 & Hi1 & Hm1 & Hs1). rewrite E1. cbn [mbind result_bind].
  destruct (IH c1 Hi1) as (c2 & acc & -> & Hi2 & Hm2 & Hs2). cbn [mbind result_bind].
  eexists _, _. split; [done|]. split; [done|]. split; [congruence|].
  rewrite Hs2, app_assoc, Hs1. by rewrite <-!app_assoc.
Qed.

(** ** A queue that no longer accepts data *)

Lemma refuses_run_op o c c' : oq_acceptmore (m_out_q c) = false -> run_op o c = Ok c' ->
  oq_acceptmore (m_out_q c') = false /\ accepted o c = [].
Proof.
  intros Ha E. destruct o as [buf cl|now sends|now r| |now]; cbn [run_op accepted] in *.
  - unfold queue in *. rewrite Ha in *. cbn [negb] in *. by injection E as <-.
  - split; [|done]. destruct (handle_output now sends c) as [[d st]|] eqn:Eo; [|done].
    cbn [mbind result_bind] in E. injection E as <-. revert c Ha Eo.
    induction sends as [|s sends IH]; intros c Ha Eo; cbn [handle_output] in Eo;
      (destruct (negb _ || negb _); [|injection Eo as <- _; done]);
      (destruct (oq_items (m_out_q c)) as [|[|data] items];
        [done|injection Eo as <- _; by destruct (shutdown_WR_out (set_out_q
           (OutQ items (size_t (oq_itemcount (m_out_q c) - 1)) (oq_acceptmore (m_out_q c))
              (oq_pending (m_out_q c))) c)) as (-> & _)|]).
    + by injection Eo as <- _.
    + destruct s as [k| |]; [|by injection Eo as <- _..]. apply IH in Eo; [done|].
      cbn [set_out_q m_out_q]. by case_bool_decide.
  - injection E as <-. by destruct (handle_input_out now r c) as (-> & _).
  - injection E as <-. by destruct (handle_close_out c) as (-> & _).
  - injection E as <-. by destruct (release_out now c) as (-> & _).
Qed.

Lemma refuses_run_ops ops c c' acc : oq_acceptmore (m_out_q c) = false ->
  run_ops ops c = Ok (c', acc) -> acc = [] /\ oq_acceptmore (m_out_q c') = false.
Proof.
  revert c acc. induction ops as [|o ops IH]; intros c acc Ha E; cbn [run_ops] in E.
  { by injection E as <- <-. }
  inv_ok. destruct a0 as [d acc']. injection E as <- <-.
  destruct (refuses_run_op o c a Ha E0) as [Ha' ->]. by destruct (IH a acc' Ha' E1) as [-> ?].
Qed.

Lemma queue_final buf cl c : ((queue buf cl c).2 <> 0 \/ cl = true) ->
  oq_acceptmore (m_out_q (queue buf cl c).1) = false.
Proof.
  unfold queue. destruct (oq_acceptmore (m_out_q c)) eqn:Ea; cbn [negb]; [|done].
  destruct ((0 <? _) && _).
  - cbn [fst snd]. intros _. match goal with |- context [do_shutdown_SHUT_WR ?d] => set (d0 := d) end.
    by destruct (shutdown_WR_out d0) as (-> & _).
  - cbn [fst snd]. intros [?| ->]; [done|]. by destruct ((0 <? _) || true).
Qed.

(** ** Draining *)

Lemma handle_output_drains now k n c : out_inv c -> (1 <= k)%nat ->
  (length (queued c) <= n)%nat ->
  exists c' st, handle_output now (replicate n (SendOk k)) c = Ok (c', st) /\ queued c' = [].
Proof.
  intros Hi Hk. revert c Hi. induction n as [|n IH]; intros c Hi Hn.
  - destruct (handle_output_out now [] c Hi) as (c' & st & E & Hi' & _ & Hq & _).
    exists c', st. split; [done|]. rewrite handle_output_eq in E by done.
    assert (queued c = []) as Hq0 by (destruct (queued c); [done|simpl in Hn; lia]).
    destruct (oq_items (m_out_q c)) as [|[|data] items] eqn:Eit.
    + injection E as <- _. done.
    + injection E as <- _. match goal with |- context [do_shutdown_SHUT_WR ?d] => set (d0 := d) end.
      destruct (shutdown_WR_out d0) as (H1 & _). unfold queued in *. rewrite H1. rewrite Eit in Hq0. done.
    + by injection E as <- _.
  - cbn [replicate]. rewrite handle_output_eq by done.
    destruct (oq_items (m_out_q c)) as [|[|data] items] eqn:Eit.
    + eexists _, _. split; [done|]. done.
    + eexists _, _. split; [done|].
      match goal with |- context [do_shutdown_SHUT_WR ?d] => set (d0 := d) end.
      destruct (shutdown_WR_out d0) as (H1 & _). unfold queued. rewrite H1. cbn.
      destruct Hi as [[ds Hs] _ _ _ _ _]. rewrite Eit in Hs.
      destruct ds as [|d ds]; [|destruct Hs as [?|[? _]]; done].
      destruct Hs as [?|[[= ->] _]]; done.
    + destruct (after_send_out now (Nat.min k (length data)) data items c Hi Eit) as (Hi' & Hq & _); [lia|].
      assert (data <> []) as Hne.
      { pose proof (oi_nonempty c Hi) as Hf. rewrite Eit in Hf. apply Forall_cons in Hf as [Hf _]. congruence. }
      apply IH; [done|]. rewrite Hq, length_app, length_take in Hn.
      assert (1 <= length data)%nat by (destruct data; [done|simpl; lia]). lia.
Qed.

(** * Properties *)


(** C36. A graceful close loses nothing: when [handle_output] asks for the
    socket to be closed and no [send] failed, every byte ever accepted has
    been handed to the kernel. *)
Theorem graceful_close_flushes (fd now t : Z) (cb : bool) (ops : list client_op)
    (sends : list send_result) (c c' : Client) (acc : bytes) :
  run_ops ops (new_client fd now cb) = Ok (c, acc) ->
  handle_output t sends c = Ok (c', IO_close) -> (SendError ∉ sends) -> sent c' = acc.
Proof.
  intros E Eo Hn.
  destruct (run_ops_out ops (new_client fd now cb) (out_inv_new fd now cb)) as (c1 & acc1 & E1 & Hi & _ & Hs).
  rewrite E in E1. injection E1 as <- <-.
  destruct (handle_output_out t sends c Hi) as (c2 & st & Eo' & _ & _ & Hsq & Hcl).
  rewrite Eo in Eo'. injection Eo' as <- <-. destruct (Hcl eq_refl) as [Hq|]; [|done].
  rewrite Hq, app_nil_r in Hsq. rewrite Hsq. done.
Qed.

Definition closing_ops : list client_op :=
  [OpQueue (Some (str "hello")) false; OpQueue (Some (str "bye")) true].

Lemma graceful_close_flushes_witness : exists c c',
  run_ops closing_ops (new_client 3 0 true) = Ok (c, str "hellobye") /\
  handle_output 5 [SendOk 2; SendOk 9; SendOk 9] c = Ok (c', IO_close) /\ sent c' = str "hellobye".
Proof.
  destruct (run_ops closing_ops (new_client 3 0 true)) as [[c acc]|] eqn:E; [|by vm_compute in E].
  destruct (handle_output 5 [SendOk 2; SendOk 9; SendOk 9] c) as [[c' st]|] eqn:Eo;
    [|vm_compute in E; injection E as <- <-; by vm_compute in Eo].
  assert (acc = str "hellobye" /\ st = IO_close) as [-> ->].
  { vm_compute in E; injection E as <- <-; vm_compute in Eo; by injection Eo as <- <-. }
  exists c, c'. split; [done|]. split; [done|].
  apply (graceful_close_flushes 3 0 5 true closing_ops [SendOk 2; SendOk 9; SendOk 9] c c'); [done|done|].
  intros Hin. repeat (apply elem_of_cons in Hin as [Hin|Hin]; [discriminate Hin|]). by apply elem_of_nil in Hin.
Defined.

(** A refused or closing queue stays shut: after [queue] has failed, or has
    taken a close request, no later operation makes it accept a byte. *)
Theorem queue_stays_shut (c c' : Client) (buf : option bytes) (cl : bool)
    (ops : list client_op) (acc : bytes) :
  (queue buf cl c).2 <> 0 \/ cl = true -> run_ops ops (queue buf cl c).1 = Ok (c', acc) -> acc = [].
Proof. intros Hf E. apply queue_final in Hf. by destruct (refuses_run_ops _ _ _ _ Hf E). Qed.

Lemma queue_stays_shut_witness : exists c',
  run_ops [OpQueue (Some (str "late")) false] (queue (Some (str "x")) true (new_client 3 0 true)).1 =
    Ok (c', []).
Proof.
  destruct (run_ops [OpQueue (Some (str "late")) false]
    (queue (Some (str "x")) true (new_client 3 0 true)).1) as [[c' acc]|] eqn:E; [|by vm_compute in E].
  exists c'. f_equal. f_equal.
  apply (queue_stays_shut (new_client 3 0 true) c' (Some (str "x")) true
    [OpQueue (Some (str "late")) false]); [by right|done].
Defined.

(** Progress: from any reachable state, when the kernel keeps taking at
    least one byte per [send], a single [handle_output] empties the queue. *)
Theorem output_drains (fd now t : Z) (cb : bool) (ops : list client_op) (c : Client) (acc : bytes)
    (k n : nat) :
  run_ops ops (new_client fd now cb) = Ok (c, acc) -> (1 <= k)%nat -> (length (queued c) <= n)%nat ->
  exists c' st, handle_output t (replicate n (SendOk k)) c = Ok (c', st) /\ queued c' = [].
Proof.
  intros E Hk Hn.
  destruct (run_ops_out ops (new_client fd now cb) (out_inv_new fd now cb)) as (c1 & acc1 & E1 & Hi & _).
  rewrite E in E1. injection E1 as <- <-. by apply handle_output_drains.
Qed.

Lemma output_drains_witness : exists c c' st,
  run_ops closing_ops (new_client 3 0 true) = Ok (c, str "hellobye") /\
  handle_output 7 (replicate 8 (SendOk 1)) c = Ok (c', st) /\ queued c' = [].
Proof.
  destruct (run_ops closing_ops (new_client 3 0 true)) as [[c acc]|] eqn:E; [|by vm_compute in E].
  assert (acc = str "hellobye" /\ length (queued c) = 8%nat) as [-> Hl].
  { vm_compute in E. by injection E as <- <-. }
  destruct (output_drains 3 0 7 true closing_ops c _ 1 8 E) as (c' & st & Eo & Hq); [lia|lia|].
  exists c, c', st. done.
Defined.
