(* ===== verification/Delivery.v ===== *)
(** Delivery of messages over a connection: [Client] as the transport of SAM
    messages.

    [SamCallback] states what a connection's callback promises about its
    [process_input]; against it, [Client::handle_input] and [Client::do_work]
    are shown to deliver every message of the inbound stream once and in
    order, however the stream is cut into reads and however reads and work
    items alternate. *)

From S2P Require Import Prelude TxContainer SamBuffer SamProtocol ReadBuffer Client.

Local Open Scope Z_scope.

(** Messages the protocol carries unchanged. *)
Definition sendable (m : txMessage) : Prop :=
  clean m = true /\ wf (m_root m) /\ wire_length m <= max_msglen.

(** The part of a client that its callback leaves alone, and the part that
    receiving leaves alone. *)
Definition inbound (c : Client) : ReactorReadBuffer.t * DataFifo * bool * bool :=
  (m_buf c, m_datafifo c, m_cb c, m_io_closed c).
Definition outbound (c : Client) : OutboundQueue * Z * list io_event :=
  (m_out_q c, m_out_pend_max c, c_io c).

Class SamCallback (T : Type) {CB : ClientCallback T} := {
  (** The connection and the state after some messages have been passed on. *)
  cb_after : list txMessage -> Client -> T -> Prop;
  (** The messages the callback answers for, after others. *)
  cb_accepts : list txMessage -> txMessage -> Prop;
  (** Receiving and sending bytes change nothing of it. *)
  cb_inbound : forall ms c c' s, cb_after ms c s -> outbound c' = outbound c -> cb_after ms c' s;
  cb_output : forall ms c s now sends, cb_after ms c s ->
    exists c' st, handle_output now sends c = Ok (c', st) /\ cb_after ms c' s;
  cb_message : forall ms c s m rest junk, cb_after ms c s -> sendable m -> cb_accepts ms m ->
    Z.of_nat (length (wire m ++ rest)) < 2 ^ 31 ->
    exists c' s', process_input c s ((wire m ++ rest) ++ junk) (Z.of_nat (length (wire m ++ rest))) =
        Ok (c', s', Some (wire_length m)) /\
      cb_after (ms ++ [m]) c' s' /\ inbound c' = inbound c;
  cb_incomplete : forall ms c s m part junk, cb_after ms c s -> sendable m -> part `prefix_of` wire m ->
    (length part < length (wire m))%nat -> Z.of_nat (length part) < 2 ^ 31 ->
    exists c' s', process_input c s (part ++ junk) (Z.of_nat (length part)) = Ok (c', s', Some 0) /\
      cb_after ms c' s' /\ inbound c' = inbound c }.

(** Every message of a list can be sent and is accepted in its turn. *)
Definition deliverable {T : Type} {CB : ClientCallback T} {SCB : SamCallback T} (r0 ms : list txMessage) : Prop :=
  forall ms1 m ms2, ms = ms1 ++ m :: ms2 -> sendable m /\ cb_accepts (r0 ++ ms1) m.

Lemma deliverable_cons {T : Type} {CB : ClientCallback T} {SCB : SamCallback T} r0 m ms :
  deliverable r0 (m :: ms) -> (sendable m /\ cb_accepts r0 m) /\ deliverable (r0 ++ [m]) ms.
Proof.
  intros H. split; [specialize (H [] m ms eq_refl); by rewrite app_nil_r in H|].
  intros ms1 m' ms2 ->. specialize (H (m :: ms1) m' ms2 eq_refl). by rewrite <-app_assoc.
Qed.

Lemma deliverable_app {T : Type} {CB : ClientCallback T} {SCB : SamCallback T} r0 ms ms' :
  deliverable r0 (ms ++ ms') -> deliverable (r0 ++ ms) ms'.
Proof.
  intros H ms1 m ms2 ->. specialize (H (ms ++ ms1) m ms2). rewrite <-app_assoc in H. rewrite <-app_assoc. by apply H.
Qed.

Lemma deliverable_Forall {T : Type} {CB : ClientCallback T} {SCB : SamCallback T} r0 ms :
  Forall sendable ms -> (forall r m, m ∈ ms -> cb_accepts r m) -> deliverable r0 ms.
Proof.
  intros Hs Ha ms1 m ms2 ->. rewrite Forall_forall in Hs.
  assert (m ∈ ms1 ++ m :: ms2) by (apply elem_of_app; right; by left). auto.
Qed.

(** The stream of a list of messages. *)
Definition stream (ms : list txMessage) : bytes := flat_map wire ms.

(** [part] is a proper beginning of the next message's bytes. *)
Definition partial (part : bytes) (ms : list txMessage) : Prop :=
  match ms with
  | [] => part = []
  | m :: _ => part `prefix_of` wire m /\ (length part < length (wire m))%nat
  end.

Lemma length_wire_pos m : (0 < length (wire m))%nat.
Proof. unfold wire, sam_header. rewrite !length_app. simpl. lia. Qed.

(** A beginning of a stream is some whole messages and a part of the next. *)
Lemma stream_split ms l : l `prefix_of` stream ms ->
  exists ms1 ms2 part, ms = ms1 ++ ms2 /\ l = stream ms1 ++ part /\ partial part ms2.
Proof.
  revert l. induction ms as [|m ms IH]; intros l Hl.
  { exists [], [], []. apply prefix_nil_inv in Hl as ->. done. }
  destruct (decide (length l < length (wire m))%nat) as [Hlt|Hge].
  - exists [], (m :: ms), l. split; [done|]. split; [done|]. split; [|done].
    destruct Hl as [k Hk]. cbn [stream flat_map] in Hk.
    exists (take (length (wire m) - length l) k).
    apply (f_equal (take (length (wire m)))) in Hk. rewrite take_app_length, take_app_ge in Hk by lia.
    done.
  - destruct Hl as [k Hk]. cbn [stream flat_map] in Hk.
    assert (l = wire m ++ drop (length (wire m)) l) as El.
    { rewrite <-(take_drop (length (wire m)) l) at 1. f_equal.
      apply (f_equal (take (length (wire m)))) in Hk. rewrite take_app_length, take_app_le in Hk by lia.
      done. }
    destruct (IH (drop (length (wire m)) l)) as (ms1 & ms2 & part & -> & Hd & Hp).
    { exists k. rewrite El, <-app_assoc in Hk. by apply app_inv_head in Hk. }
    exists (m :: ms1), ms2, part. split; [done|]. split; [|done].
    cbn [stream flat_map]. rewrite <-app_assoc. fold (stream ms1). by rewrite <-Hd.
Qed.

Section delivery.
Context {T : Type} {CB : ClientCallback T} {SCB : SamCallback T}.

(** [feed] delivers the whole messages of the buffer and keeps the rest. *)
Lemma feed_stream ms ms2 part : forall r0, deliverable r0 (ms ++ ms2) -> partial part ms2 ->
  forall fuel c s, cb_after r0 c s -> m_cb c = true -> ReactorReadBuffer.data (m_buf c) (stream ms ++ part) ->
  Z.of_nat (length (stream ms ++ part)) < 2 ^ 31 -> (length (stream ms ++ part) <= fuel)%nat ->
  exists c' s', feed fuel c s = Ok (c', s') /\ cb_after (r0 ++ ms) c' s' /\
    ReactorReadBuffer.data (m_buf c') part /\ m_cb c' = true /\
    m_datafifo c' = m_datafifo c /\ m_io_closed c' = m_io_closed c.
Proof.
  induction ms as [|m ms IH]; intros r0 Hs Hp fuel c s Hinv Hcb Hd Hl Hf;
    destruct (ReactorReadBuffer.data_rp _ _ Hd) as [junk Hrp];
    pose proof (ReactorReadBuffer.data_avail _ _ Hd) as Hav.
  - cbn [stream flat_map app] in *. rewrite app_nil_r. destruct fuel as [|fuel]; cbn [feed]; rewrite Hav.
    { destruct part; [|simpl in Hf; lia]. by exists c, s. }
    destruct (Z.eqb_spec (Z.of_nat (length part)) 0) as [H0|H0].
    { by exists c, s. }
    rewrite Hcb, Hrp. destruct ms2 as [|m ms2]; [simpl in Hp; subst; done|]. destruct Hp as [Hp1 Hp2].
    apply deliverable_cons in Hs as [[Hm _] _].
    destruct (cb_incomplete r0 c s m part junk Hinv Hm Hp1 Hp2 Hl) as (c' & s' & -> & Hinv' & Hi).
    unfold inbound in Hi. injection Hi as Hb Hdf Hc Hio. cbn [default mbind mret result_bind result_ret].
    change (0 <? id 0) with false. cbv iota. exists c', s'. rewrite Hb, Hc. done.
  - cbn [stream flat_map app] in *. fold (stream ms) in *.
    rewrite <-app_assoc in Hd, Hl, Hf, Hav. rewrite <-(app_assoc (wire m)) in Hrp.
    apply deliverable_cons in Hs as [[Hm Hacc] Hs]. pose proof (length_wire_pos m) as Hw.
    pose proof (length_wire m) as Hlw. rewrite length_app in Hav, Hl, Hf.
    destruct fuel as [|fuel]; [lia|]. cbn [feed]. rewrite Hav.
    destruct (Z.eqb_spec (Z.of_nat (length (wire m) + length (stream ms ++ part))) 0); [lia|].
    rewrite Hcb, Hrp, <-length_app.
    destruct (cb_message r0 c s m (stream ms ++ part) junk Hinv Hm Hacc) as (c' & s' & -> & Hinv' & Hi);
      [rewrite length_app; lia|].
    unfold inbound in Hi. injection Hi as Hb Hdf Hc Hio. cbn [default mbind mret result_bind result_ret].
    change (id (wire_length m)) with (wire_length m).
    destruct (Z.ltb_spec 0 (wire_length m)); [|lia].
    destruct (IH (r0 ++ [m]) Hs Hp fuel (set_buf (ReactorReadBuffer.consume (wire_length m) (m_buf c')) c') s')
      as (c2 & s2 & -> & Hinv2 & Hd2 & Hcb2 & Hdf2 & Hio2); cbn [set_buf m_buf m_cb].
    + by apply (cb_inbound _ c').
    + congruence.
    + rewrite <-Hlw, Hb. by apply ReactorReadBuffer.data_consume.
    + lia.
    + lia.
    + exists c2, s2. rewrite <-app_assoc in Hinv2. do 4 (split; [done|]). by rewrite Hdf2, Hio2.
Qed.

(** [drain] moves the pending chunks into the buffer, one after the other. *)
Lemma drain_app chunks rest b l :
  Forall (fun k => k <> []) chunks -> ReactorReadBuffer.data b l -> ReactorReadBuffer.m_rp b = 0 ->
  Z.of_nat (length l + length (concat chunks)) < 2 ^ 31 -> (length rest <= 1)%nat ->
  exists b', drain (Z.of_nat (length (chunks ++ rest))) (chunks ++ rest) b = drain (Z.of_nat (length rest)) rest b' /\
    ReactorReadBuffer.data b' (l ++ concat chunks) /\ ReactorReadBuffer.m_rp b' = 0.
Proof.
  intros Hne. revert b l. induction Hne as [|k chunks Hk Hne IH]; intros b l Hd H0 Hl Hrest.
  { exists b. simpl. by rewrite app_nil_r. }
  assert (Forall (fun k => (1 <= length k)%nat) chunks) as Hpos.
  { eapply Forall_impl; [exact Hne|]. intros [|]; simpl; [done|lia]. }
  assert (length chunks <= length (concat chunks))%nat as Hcc.
  { clear -Hpos. induction Hpos; simpl; [lia|]. rewrite length_app. lia. }
  cbn [drain concat app] in *. rewrite length_app in Hl.
  destruct (Z.eqb_spec (Z.of_nat (length (k :: chunks ++ rest))) 0); [simpl in *; lia|].
  rewrite bool_decide_false by done.
  destruct (ReactorReadBuffer.data_make_space (length k) (Z.of_nat (length k)) b l Hd H0)
    as (b1 & -> & Hd1 & Hr1 & Hs1 & _); [lia| |lia|].
  { destruct Hd as [pre post Hb Hr Ha Hc Hm]. rewrite Hc, Hb, !length_app. lia. }
  cbn [mbind result_bind].
  destruct (ReactorReadBuffer.data_write b1 l k Hd1 Hr1 Hs1) as (b2 & -> & Hd2 & Hr2 & _).
  cbn [mbind result_bind].
  rewrite size_t_small by (simpl; rewrite length_app; lia).
  replace (Z.of_nat (length (k :: chunks ++ rest)) - 1) with (Z.of_nat (length (chunks ++ rest))) by (simpl; lia).
  destruct (IH b2 (l ++ k) Hd2 Hr2) as (b3 & -> & Hd3 & Hr3); [rewrite length_app; lia|done|].
  exists b3. by rewrite app_assoc.
Qed.

Lemma drain_chunks chunks b l :
  Forall (fun k => k <> []) chunks -> ReactorReadBuffer.data b l -> ReactorReadBuffer.m_rp b = 0 ->
  Z.of_nat (length l + length (concat chunks)) < 2 ^ 31 ->
  exists b', drain (Z.of_nat (length chunks)) chunks b = Ok (0, [], b', false) /\
    ReactorReadBuffer.data b' (l ++ concat chunks) /\ ReactorReadBuffer.m_rp b' = 0.
Proof.
  intros Hne Hd H0 Hl. destruct (drain_app chunks [] b l Hne Hd H0 Hl) as (b' & E & H); [simpl; lia|].
  rewrite app_nil_r in E. by exists b'.
Qed.

(** ** Reads, sends and work items in any order *)

Inductive in_event :=
| EvRead (now : Z) (chunk : bytes)
| EvSend (now : Z) (sends : list send_result)
| EvWork.

Definition run_event (e : in_event) (cs : Client * T) : result (Client * T) :=
  match e with
  | EvRead now chunk => Ok ((handle_input now (ReadOk chunk) cs.1).1, cs.2)
  | EvSend now sends => '(c, _) ← handle_output now sends cs.1; Ok (c, cs.2)
  | EvWork => do_work cs.1 cs.2
  end.

Fixpoint run_events (evs : list in_event) (cs : Client * T) : result (Client * T) :=
  match evs with
  | [] => Ok cs
  | e :: evs => cs ← run_event e cs; run_events evs cs
  end.

Definition event_bytes (e : in_event) : bytes :=
  match e with EvRead _ chunk => chunk | _ => [] end.
(** The bytes read, in order. *)
Definition bytes_read (evs : list in_event) : bytes := flat_map event_bytes evs.

(** [read] returned data, and no more than was asked for. *)
Definition read_ok (e : in_event) : Prop :=
  match e with
  | EvRead _ chunk => chunk <> [] /\ Z.of_nat (length chunk) <= EXIO_CLIENT_CHUNK_SIZE
  | _ => True
  end.

(** After [l] has been read, of a stream of [ms] on top of [r0]: some messages
    are delivered, a part of the next is buffered, the rest is queued. *)
Record in_inv (r0 ms : list txMessage) (l : bytes) (cs : Client * T) : Prop := InInv {
  ii_cb : m_cb cs.1 = true;
  ii_open : m_io_closed cs.1 = false;
  ii_rp : ReactorReadBuffer.m_rp (m_buf cs.1) = 0;
  ii_chunks : Forall (fun k => k <> []) (df_items (m_datafifo cs.1));
  ii_count : df_itemcount (m_datafifo cs.1) = Z.of_nat (length (df_items (m_datafifo cs.1)));
  ii_data : exists ms1 ms2 part, ms = ms1 ++ ms2 /\ cb_after (r0 ++ ms1) cs.1 cs.2 /\
    partial part ms2 /\ ReactorReadBuffer.data (m_buf cs.1) part /\
    l = stream ms1 ++ part ++ concat (df_items (m_datafifo cs.1)) }.

Lemma length_concat_chunks (chunks : list bytes) : Forall (fun k => k <> []) chunks ->
  (length chunks <= length (concat chunks))%nat.
Proof.
  induction 1 as [|k chunks Hk Hc IH]; simpl; [lia|]. rewrite length_app. destruct k; [done|simpl; lia].
Qed.

Lemma in_inv_read r0 ms l cs now chunk : in_inv r0 ms l cs -> chunk <> [] ->
  Z.of_nat (length l) + Z.of_nat (length chunk) < 2 ^ 31 ->
  in_inv r0 ms (l ++ chunk) ((handle_input now (ReadOk chunk) cs.1).1, cs.2).
Proof.
  intros [Hcb Hio Hrp Hch Hcnt (ms1 & ms2 & part & Hms & Hr & Hp & Hd & Hl)] Hne Hlen.
  pose proof (length_concat_chunks _ Hch) as Hcc. rewrite Hl, !length_app in Hlen.
  unfold handle_input, io_open. rewrite Hio. cbn [negb]. destruct chunk as [|a chunk]; [done|].
  split; cbn [fst snd set_datafifo count_in m_cb m_io_closed m_buf m_datafifo df_items df_itemcount];
    [done|done|done| | |].
  - apply Forall_app. split; [done|]. by repeat constructor.
  - rewrite Hcnt, length_app, size_t_small; simpl; lia.
  - exists ms1, ms2, part. split; [done|]. split; [by eapply cb_inbound|]. do 2 (split; [done|]).
    rewrite Hl, concat_app, <-!app_assoc. cbn [concat]. by rewrite app_nil_r.
Qed.

(** Sending leaves the inbound side alone. *)
Lemma handle_output_inbound now sends c c' st : handle_output now sends c = Ok (c', st) -> inbound c' = inbound c.
Proof.
  revert c. induction sends as [|s sends IH]; intros c E; cbn [handle_output] in E;
    (destruct (negb _ || negb _); [|injection E as <- _; done]);
    (destruct (oq_items (m_out_q c)) as [|[|data] items]; [done| |]).
  1, 3: injection E as <- _; unfold do_shutdown_SHUT_WR; by repeat case_match.
  - by injection E as <- _.
  - destruct s as [k| |]; [|by injection E as <- _..]. apply IH in E. rewrite E. by case_bool_decide.
Qed.

Lemma in_inv_send r0 ms l cs now sends : in_inv r0 ms l cs ->
  exists c' st, handle_output now sends cs.1 = Ok (c', st) /\ in_inv r0 ms l (c', cs.2).
Proof.
  intros [Hcb Hio Hrp Hch Hcnt (ms1 & ms2 & part & Hms & Hr & Hp & Hd & Hl)].
  destruct (cb_output _ _ _ now sends Hr) as (c' & st & E & Hr'). exists c', st. split; [done|].
  pose proof (handle_output_inbound _ _ _ _ _ E) as Hi. unfold inbound in Hi. injection Hi as Hb Hdf Hc Hi.
  split; cbn [fst snd]; rewrite ?Hb, ?Hdf, ?Hc, ?Hi; try done. by exists ms1, ms2, part.
Qed.

(** [do_work] delivers every message that is complete. *)
Lemma in_inv_work r0 ms l cs : deliverable r0 ms -> l `prefix_of` stream ms ->
  Z.of_nat (length l) < 2 ^ 31 -> in_inv r0 ms l cs ->
  exists cs', do_work cs.1 cs.2 = Ok cs' /\ in_inv r0 ms l cs' /\
    df_items (m_datafifo cs'.1) = [].
Proof.
  intros Hs Hpre Hlen [Hcb Hio Hrp Hch Hcnt (ms1 & ms2 & part & -> & Hr & Hp & Hd & Hl)].
  rewrite Hl, !length_app in Hlen.
  unfold do_work. rewrite Hcb, Hcnt. cbn [negb].
  destruct (drain_chunks _ (m_buf cs.1) part Hch Hd Hrp) as (b1 & -> & Hd1 & Hr1); [lia|].
  cbn [mbind result_bind]. set (all := part ++ concat (df_items (m_datafifo cs.1))) in *.
  destruct (stream_split ms2 all) as (ms3 & ms4 & part' & -> & Hall & Hp').
  { destruct Hpre as [k Hk]. exists k. rewrite Hl in Hk. unfold stream in *.
    rewrite flat_map_app, <-app_assoc in Hk. by apply app_inv_head in Hk. }
  rewrite Hall in Hd1. apply deliverable_app in Hs.
  match goal with |- context [feed _ ?c _] => set (c1 := c) end.
  assert (Z.of_nat (length all) < 2 ^ 31) as Ha by (unfold all; rewrite length_app; lia).
  pose proof (ReactorReadBuffer.data_avail _ _ Hd1) as Hav.
  destruct (feed_stream ms3 ms4 part' (r0 ++ ms1) Hs Hp' (Z.to_nat (ReactorReadBuffer.bytesavail (m_buf c1))) c1 cs.2)
    as (c2 & s2 & -> & Hr2 & Hd2 & Hcb2 & Hdf2 & Hio2);
    [by apply (cb_inbound _ cs.1)|done|done|by rewrite <-Hall|unfold c1; cbn [set_buf m_buf]; lia|].
  cbn [mbind result_bind].
  destruct (ReactorReadBuffer.data_shift _ _ Hd2) as (b3 & -> & Hd3 & Hr3 & _).
  cbn [mbind result_bind]. eexists. split; [done|].
  split; [|cbn; by rewrite Hdf2]. cbn [fst snd].
  split; cbn [fst snd set_buf m_cb m_io_closed m_buf m_datafifo]; rewrite ?Hdf2; try done.
  { by rewrite Hio2. }
  exists (ms1 ++ ms3), ms4, part'. split; [by rewrite app_assoc|].
  split; [rewrite app_assoc; by apply (cb_inbound _ c2)|]. split; [done|]. split; [done|].
  cbn. rewrite Hl, Hall, app_nil_r. unfold stream. by rewrite flat_map_app, app_assoc.
Qed.

Lemma run_events_inv r0 ms evs : deliverable r0 ms -> Forall read_ok evs -> forall l cs,
  l ++ bytes_read evs `prefix_of` stream ms -> Z.of_nat (length (l ++ bytes_read evs)) < 2 ^ 31 ->
  in_inv r0 ms l cs -> exists cs', run_events evs cs = Ok cs' /\ in_inv r0 ms (l ++ bytes_read evs) cs'.
Proof.
  intros Hs. induction 1 as [|e evs He Hev IH]; intros l cs Hp Hl Hi.
  { exists cs. cbn [run_events bytes_read flat_map]. by rewrite app_nil_r. }
  cbn [run_events bytes_read flat_map] in *. fold (bytes_read evs) in *.
  rewrite app_assoc in Hp, Hl |- *. destruct e as [now chunk|now sends|]; cbn [run_event event_bytes] in *.
  - destruct He as [Hne _]. cbn [mbind result_bind]. apply IH; [done|done|].
    apply in_inv_read; [done|done|]. rewrite !length_app in Hl. lia.
  - rewrite app_nil_r in *. destruct (in_inv_send r0 ms l cs now sends Hi) as (c' & st & -> & Hi').
    cbn [mbind result_bind]. by apply IH.
  - rewrite app_nil_r in *. destruct (in_inv_work r0 ms l cs Hs) as (cs' & -> & Hi' & _).
    + etransitivity; [|exact Hp]. by apply prefix_app_r.
    + rewrite length_app in Hl. lia.
    + done.
    + cbn [mbind result_bind]. by apply IH.
Qed.

(** A connection that has received nothing yet. *)
Definition fresh_inbound (c : Client) : Prop := inbound c = inbound (new_client 0 0 true).

Lemma in_inv_new c s r0 ms : fresh_inbound c -> cb_after r0 c s -> in_inv r0 ms [] (c, s).
Proof.
  intros Hf Hinv. unfold fresh_inbound, inbound in Hf. injection Hf as Hb Hdf Hcb Hio.
  split; cbn [fst snd]; rewrite ?Hb, ?Hdf, ?Hcb, ?Hio; cbn; try done.
  exists [], ms, []. rewrite app_nil_r. do 2 (split; [done|]).
  split; [|split; [by apply ReactorReadBuffer.data_new|done]].
  destruct ms as [|m ms]; [done|]. split; [apply prefix_nil|apply length_wire_pos].
Qed.

Lemma run_events_app evs evs' cs : run_events (evs ++ evs') cs = run_events evs cs ≫= run_events evs'.
Proof.
  revert cs. induction evs as [|e evs IH]; intros cs; [done|]. cbn [app run_events].
  rewrite result_bind_assoc. destruct (run_event e cs); [|done]. cbn [mbind result_bind]. apply IH.
Qed.

(** Whatever has been read so far, the messages that are complete are
    delivered by the next [do_work], and no others. *)
Lemma deliver_prefix c s r0 ms evs : fresh_inbound c -> cb_after r0 c s -> deliverable r0 ms -> Forall read_ok evs ->
  bytes_read evs `prefix_of` stream ms -> Z.of_nat (length (bytes_read evs)) < 2 ^ 31 ->
  exists c' s' ms1 ms2 part,
    run_events (evs ++ [EvWork]) (c, s) = Ok (c', s') /\
    ms = ms1 ++ ms2 /\ cb_after (r0 ++ ms1) c' s' /\ partial part ms2 /\
    bytes_read evs = stream ms1 ++ part.
Proof.
  intros Hf Hinv Hs Hev Hp Hl.
  destruct (run_events_inv r0 ms evs Hs Hev [] (c, s) Hp Hl)
    as (cs1 & E1 & Hi1); [by apply in_inv_new|]. cbn [app] in Hi1.
  destruct (in_inv_work _ _ _ _ Hs Hp Hl Hi1) as ([c' s'] & E2 & Hi2 & Hdf).
  destruct Hi2 as [_ _ _ _ _ (ms1 & ms2 & part & Hms & Hr & Hpart & _ & Hb)].
  exists c', s', ms1, ms2, part. cbn [fst snd] in *. rewrite Hdf in Hb. cbn [concat] in Hb.
  rewrite app_nil_r in Hb. split; [|done].
  rewrite run_events_app, E1. cbn [mbind result_bind run_events run_event]. by rewrite E2.
Qed.

(** When the whole stream has been read, all its messages are delivered. *)
Lemma deliver_all c s r0 ms evs : fresh_inbound c -> cb_after r0 c s -> deliverable r0 ms -> Forall read_ok evs ->
  bytes_read evs = stream ms -> Z.of_nat (length (stream ms)) < 2 ^ 31 ->
  exists c' s', run_events (evs ++ [EvWork]) (c, s) = Ok (c', s') /\ cb_after (r0 ++ ms) c' s'.
Proof.
  intros Hf Hinv Hs Hev Hb Hl.
  destruct (deliver_prefix c s r0 ms evs Hf Hinv Hs Hev) as (c' & s' & ms1 & ms2 & part & E & -> & Hr & Hp & Hbr);
    [by rewrite Hb|by rewrite Hb|].
  exists c', s'. split; [done|].
  rewrite Hb in Hbr. unfold stream in Hbr. rewrite flat_map_app in Hbr. apply app_inv_head in Hbr.
  destruct ms2 as [|m ms2]; [by rewrite app_nil_r|]. destruct Hp as [_ Hp].
  apply (f_equal length) in Hbr. cbn [flat_map] in Hbr. rewrite length_app in Hbr. lia.
Qed.

End delivery.

(** * Properties *)

(** C2. Delivery: for every callback that keeps the [SamCallback] contract,
    when the bytes of a sequence of messages have been read, in chunks of any
    sizes and with work items and partial sends at any points in between, one
    more work item has delivered exactly those messages, each once and in
    order. *)
Theorem messages_delivered {T : Type} {CB : ClientCallback T} {SCB : SamCallback T}
    (c : Client) (s : T) (r0 ms : list txMessage) (evs : list in_event) :
  fresh_inbound c -> cb_after r0 c s -> deliverable r0 ms -> Forall read_ok evs -> bytes_read evs = stream ms ->
  Z.of_nat (length (stream ms)) < 2 ^ 31 ->
  exists c' s', run_events (evs ++ [EvWork]) (c, s) = Ok (c', s') /\ cb_after (r0 ++ ms) c' s'.
Proof. apply deliver_all. Qed.

(** At every moment the messages whose last byte has been read are the ones a
    work item has delivered, and the buffer keeps the beginning of the next
    message. *)
Theorem partial_stream_delivered {T : Type} {CB : ClientCallback T} {SCB : SamCallback T}
    (c : Client) (s : T) (r0 ms : list txMessage) (evs : list in_event) :
  fresh_inbound c -> cb_after r0 c s -> deliverable r0 ms -> Forall read_ok evs ->
  bytes_read evs `prefix_of` stream ms -> Z.of_nat (length (bytes_read evs)) < 2 ^ 31 ->
  exists c' s' ms1 ms2 part,
    run_events (evs ++ [EvWork]) (c, s) = Ok (c', s') /\
    ms = ms1 ++ ms2 /\ cb_after (r0 ++ ms1) c' s' /\ partial part ms2 /\
    bytes_read evs = stream ms1 ++ part.
Proof. apply deliver_prefix. Qed.
