(* ===== verification/LegacyIO.v ===== *)
(** The earlier implementation of a connection: [AdminIO.h] and [AdminIO.cc] of
    [old/], one reader thread and one writer thread per socket.

    The object is the record [AdminIO]; the program counters of its threads are
    part of it.  A step is one access to a shared variable, one critical
    section under the queue's mutex, one system call or one call of the
    listener, and the threads interleave freely: the owner (constructor and
    destructor), the reader, the writer and the callers of [enqueue] and
    [request_stop].  [m_have_data] is only used inside the critical sections.
    Waiting on the condition variable gives the mutex back, so a writer that
    finds no data sleeps in the same step; it may wake up for no reason.  The
    answers of the system calls are arguments of the steps.  What happens is
    recorded in [io_trace]. *)

From S2P Require Import Prelude Decimal Utils TxContainer SamBuffer SamProtocol ReadBuffer Client Delivery.

Local Open Scope Z_scope.

(** * [ReadBuffer]

    The class has the text of [ReactorReadBuffer], with an initial capacity of
    its own; only the destructors differ. *)

Module ReadBuffer.

Definition t : Type := ReactorReadBuffer.t.
Definition new : t := ReactorReadBuffer.zero (ReactorReadBuffer.new 4096).
Definition zero (b : t) : t := ReactorReadBuffer.zero b.
Definition space_remain (b : t) : Z := ReactorReadBuffer.space_remain b.
Definition bytesavail (b : t) : Z := ReactorReadBuffer.bytesavail b.
Definition rp (b : t) : bytes := ReactorReadBuffer.rp b.
Definition grow (b : t) : result t := ReactorReadBuffer.grow b.
Definition consume (n : Z) (b : t) : t := ReactorReadBuffer.consume n b.
Definition shift_pending_to_array_start (b : t) : result t := ReactorReadBuffer.shift_pending_to_array_start b.

End ReadBuffer.

Module LegacyIO.

(** * [QueuedItem] *)

Definition eThreadKill : Z := 2.

Record QueuedItem := MkItem { i_size : Z; i_flags : Z; i_sb : DynamicSamBuffer.t }.

Definition new_item : QueuedItem := MkItem 0 0 (DynamicSamBuffer.new 512).

(** [buf()]: the memory that can be read from [msg_start()] on. *)
Definition item_buf (i : QueuedItem) : bytes :=
  drop (Z.to_nat (DynamicSamBuffer.m_msg_start (i_sb i))) (DynamicSamBuffer.m_buf (i_sb i)).

Definition release (i : QueuedItem) : QueuedItem := MkItem 0 0 (i_sb i).

Definition is_kill (i : QueuedItem) : bool := negb (Z.land (i_flags i) eThreadKill =? 0).

(** * State *)

(** What ends [read_from_socket] other than a return. *)
Inductive reader_exn := io_eof | io_errno (e : Z) | std_exception (e : exn).

Inductive event :=
| Ev_push (i : QueuedItem)
| Ev_read (data : bytes)
| Ev_msg (m : txMessage)  (** [io_onmsg] *)
| Ev_report (e : reader_exn)  (** the warning a handler of the reader logs *)
| Ev_sent (data : bytes)
| Ev_send_error
| Ev_close  (** [close(m_fd)] *)
| Ev_io_closed.

(** Where the threads are.  [closed] is the writer's [socket_was_closed]. *)
Inductive owner_state :=
| O_start_reader | O_start_writer | O_body | O_wait (loops : Z) | O_live
| O_join_reader | O_join_writer | O_gone
| O_failed.  (** the constructor threw *)

Inductive reader_state :=
| R_none | R_start
| R_poll (b : ReadBuffer.t) (msg : txMessage)  (** waits for data *)
| R_ready (b : ReadBuffer.t) (msg : txMessage)  (** tests [m_is_stopping] again *)
| R_read (b : ReadBuffer.t) (msg : txMessage)  (** about to call [read] *)
| R_check (b : ReadBuffer.t) (msg : txMessage) (r : bytes + Z)  (** after [read] *)
| R_decode (b : ReadBuffer.t) (msg : txMessage)
| R_msg (b : ReadBuffer.t) (msg : txMessage) (consumed : Z)  (** about to call the listener *)
| R_badmsg (e : exn)  (** about to enqueue the error reply *)
| R_throw (e : reader_exn)
| R_stop  (** about to call [request_stop] *)
| R_complete
| R_exited
| R_undefined (what : string).

Inductive writer_state :=
| W_none | W_start
| W_loop (closed : bool)
| W_lock (closed : bool)  (** enters [wait_and_pop] *)
| W_asleep (closed : bool)
| W_notified (closed : bool)
| W_inner (closed : bool) (i : QueuedItem) (bytes_done : Z)
| W_send (closed : bool) (i : QueuedItem) (bytes_done : Z)
| W_after (closed : bool) (i : QueuedItem)
| W_kill (closed : bool) (i : QueuedItem)
| W_close
| W_finish (closed : bool)
| W_last_close (closed : bool)
| W_callback
| W_complete
| W_exited
| W_undefined (what : string).

Record AdminIO := MkAdminIO {
  m_fd : Z;
  m_listener : bool;  (** [m_listener != NULL] *)
  want_debug : bool;  (** [appsvc.log()->want_debug()] *)
  m_log_io_events : bool;
  m_is_stopping : bool;
  q_items : list QueuedItem; q_bytes_pending : Z; m_have_data : bool;
  lwp_count : Z; m_threads_complete : Z;
  m_bytesout : Z; m_bytesin : Z; m_last_write : Z;
  owner : owner_state; reader : reader_state; writer : writer_state;
  io_trace : list event }.

Definition set_log (b : bool) (s : AdminIO) : AdminIO :=
  MkAdminIO (m_fd s) (m_listener s) (want_debug s) b (m_is_stopping s) (q_items s) (q_bytes_pending s)
    (m_have_data s) (lwp_count s) (m_threads_complete s) (m_bytesout s) (m_bytesin s) (m_last_write s)
    (owner s) (reader s) (writer s) (io_trace s).
Definition set_stopping (s : AdminIO) : AdminIO :=
  MkAdminIO (m_fd s) (m_listener s) (want_debug s) (m_log_io_events s) true (q_items s) (q_bytes_pending s)
    (m_have_data s) (lwp_count s) (m_threads_complete s) (m_bytesout s) (m_bytesin s) (m_last_write s)
    (owner s) (reader s) (writer s) (io_trace s).
Definition set_queue (l : list QueuedItem) (n : Z) (b : bool) (s : AdminIO) : AdminIO :=
  MkAdminIO (m_fd s) (m_listener s) (want_debug s) (m_log_io_events s) (m_is_stopping s) l n
    b (lwp_count s) (m_threads_complete s) (m_bytesout s) (m_bytesin s) (m_last_write s)
    (owner s) (reader s) (writer s) (io_trace s).
Definition set_counts (count complete : Z) (s : AdminIO) : AdminIO :=
  MkAdminIO (m_fd s) (m_listener s) (want_debug s) (m_log_io_events s) (m_is_stopping s) (q_items s)
    (q_bytes_pending s) (m_have_data s) count complete (m_bytesout s) (m_bytesin s) (m_last_write s)
    (owner s) (reader s) (writer s) (io_trace s).
Definition count_out (n now : Z) (s : AdminIO) : AdminIO :=
  MkAdminIO (m_fd s) (m_listener s) (want_debug s) (m_log_io_events s) (m_is_stopping s) (q_items s)
    (q_bytes_pending s) (m_have_data s) (lwp_count s) (m_threads_complete s) (size_t (m_bytesout s + n))
    (m_bytesin s) now (owner s) (reader s) (writer s) (io_trace s).
Definition count_in (n : Z) (s : AdminIO) : AdminIO :=
  MkAdminIO (m_fd s) (m_listener s) (want_debug s) (m_log_io_events s) (m_is_stopping s) (q_items s)
    (q_bytes_pending s) (m_have_data s) (lwp_count s) (m_threads_complete s) (m_bytesout s)
    (size_t (m_bytesin s + n)) (m_last_write s) (owner s) (reader s) (writer s) (io_trace s).
Definition set_owner (o : owner_state) (s : AdminIO) : AdminIO :=
  MkAdminIO (m_fd s) (m_listener s) (want_debug s) (m_log_io_events s) (m_is_stopping s) (q_items s)
    (q_bytes_pending s) (m_have_data s) (lwp_count s) (m_threads_complete s) (m_bytesout s) (m_bytesin s)
    (m_last_write s) o (reader s) (writer s) (io_trace s).
Definition set_reader (r : reader_state) (s : AdminIO) : AdminIO :=
  MkAdminIO (m_fd s) (m_listener s) (want_debug s) (m_log_io_events s) (m_is_stopping s) (q_items s)
    (q_bytes_pending s) (m_have_data s) (lwp_count s) (m_threads_complete s) (m_bytesout s) (m_bytesin s)
    (m_last_write s) (owner s) r (writer s) (io_trace s).
Definition set_writer (w : writer_state) (s : AdminIO) : AdminIO :=
  MkAdminIO (m_fd s) (m_listener s) (want_debug s) (m_log_io_events s) (m_is_stopping s) (q_items s)
    (q_bytes_pending s) (m_have_data s) (lwp_count s) (m_threads_complete s) (m_bytesout s) (m_bytesin s)
    (m_last_write s) (owner s) (reader s) w (io_trace s).
Definition log (e : event) (s : AdminIO) : AdminIO :=
  MkAdminIO (m_fd s) (m_listener s) (want_debug s) (m_log_io_events s) (m_is_stopping s) (q_items s)
    (q_bytes_pending s) (m_have_data s) (lwp_count s) (m_threads_complete s) (m_bytesout s) (m_bytesin s)
    (m_last_write s) (owner s) (reader s) (writer s) (io_trace s ++ [e]).

(** * The queue *)

Definition notify_one (w : writer_state) : writer_state :=
  match w with W_asleep c => W_notified c | w => w end.

Definition push_item (i : QueuedItem) (s : AdminIO) : AdminIO :=
  let s := set_queue (q_items s ++ [i]) (size_t (q_bytes_pending s + i_size i)) true s in
  log (Ev_push i) (set_writer (notify_one (writer s)) s).

Definition enqueue (i : QueuedItem) (s : AdminIO) : AdminIO := push_item i s.

Definition kill_item : QueuedItem :=
  MkItem (i_size new_item) (Z.lor (i_flags new_item) eThreadKill) (i_sb new_item).

Definition request_stop (s : AdminIO) : AdminIO := push_item kill_item s.

Definition bytes_pending (s : AdminIO) : Z := q_bytes_pending s.

Definition stopping (s : AdminIO) : bool := m_is_stopping s.

Definition NumberInternalThreads : Z := 2.

Definition safe_to_delete (s : AdminIO) : bool :=
  m_is_stopping s && (m_threads_complete s =? NumberInternalThreads).

(** [wait_and_pop] with the mutex held: an item, or to sleep. *)
Definition wait_and_pop (c : bool) (s : AdminIO) : AdminIO :=
  if m_have_data s then
    match q_items s with
    | [] => set_writer (W_undefined "front of an empty queue") s
    | i :: items =>
        let s := set_queue items (size_t (q_bytes_pending s - i_size i))
                   (0 <? Z.of_nat (length items)) s in
        set_writer (W_inner c i 0) s
    end
  else set_writer (W_asleep c) s.

(** * The writer *)

(** [AtomicInt::incr]. *)
Definition incr (n : Z) : Z := int32 (n + 1).

(** A [send] reads the memory it is given. *)
Definition send (c : bool) (i : QueuedItem) (bytes_done : Z) (r : send_result) (now : Z) (s : AdminIO) : AdminIO :=
  if Z.of_nat (length (item_buf i)) <? i_size i then
    set_writer (W_undefined "read outside the message buffer") s
  else
    let data := take (Z.to_nat (i_size i - bytes_done)) (drop (Z.to_nat bytes_done) (item_buf i)) in
    match r with
    | SendAgain => set_writer (W_inner c i bytes_done) s
    | SendError => set_writer (W_inner c i bytes_done) (log Ev_send_error (set_stopping s))
    | SendOk k =>
        let n := Nat.min k (length data) in
        let s := count_out (Z.of_nat n) now (log (Ev_sent (take n data)) s) in
        set_writer (W_inner c i (size_t (bytes_done + Z.of_nat n))) s
    end.

(** [socket_write_TEP] and [socket_write]; [None]: the thread waits, or there
    is none.  The writer's [exit_reason] is never used. *)
Definition writer_step (r : send_result) (now : Z) (s : AdminIO) : option AdminIO :=
  match writer s with
  | W_none | W_asleep _ | W_exited | W_undefined _ => None
  | W_start => Some (set_writer (W_loop false) (set_counts (incr (lwp_count s)) (m_threads_complete s) s))
  | W_loop c => Some (set_writer (if m_is_stopping s then W_finish c else W_lock c) s)
  | W_lock c | W_notified c => Some (wait_and_pop c s)
  | W_inner c i n =>
      Some (set_writer (if negb (m_is_stopping s) && (n <? i_size i) then W_send c i n else W_after c i) s)
  | W_send c i n => Some (send c i n r now s)
  | W_after c i => Some (set_writer (if is_kill i then W_kill c i else W_loop c) s)
  | W_kill c i => Some (set_writer W_close (set_stopping s))
  | W_close => Some (set_writer (W_loop true) (log Ev_close s))
  | W_finish c => Some (set_writer (W_last_close c) (set_stopping s))
  | W_last_close c => Some (set_writer W_callback (if negb c then log Ev_close s else s))
  | W_callback => Some (set_writer W_complete (if m_listener s then log Ev_io_closed s else s))
  | W_complete => Some (set_writer W_exited (set_counts (lwp_count s) (incr (m_threads_complete s)) s))
  end.

(** * The reader *)

Definition FD_SETSIZE : Z := 1024.

(** [read_timeo(fd, ...)] when [select] answers [nready]; [FD_SET] writes
    outside the set for a descriptor that does not fit. *)
Definition read_timeo (fd nready : Z) : result bool :=
  if (0 <=? fd) && (fd <? FD_SETSIZE) then Ok (0 <? nready)
  else Throw (undefined_behaviour "descriptor outside the fd_set").

(** The answer of [read]: data (none at end of file), or an error number. *)
Inductive read_answer := Got (data : bytes) | ReadFails (e : Z).

Definition is_undefined (e : exn) : bool :=
  match e with undefined_behaviour _ | out_of_fuel => true | _ => false end.

Definition throw_reader (e : exn) (s : AdminIO) : AdminIO :=
  set_reader (if is_undefined e then R_undefined (exn_what e) else R_throw (std_exception e)) s.

(** A full buffer is grown before the read. *)
Definition make_room (b : ReadBuffer.t) : result ReadBuffer.t :=
  b ← (if ReadBuffer.space_remain b =? 0 then ReadBuffer.grow b else Ok b);
  if ReadBuffer.space_remain b =? 0 then Throw (runtime_error "input buffer full") else Ok b.

(** [read] into [wp()]: the bytes read, and the buffer once they are counted. *)
Definition do_read (a : read_answer) (b : ReadBuffer.t) (msg : txMessage) (s : AdminIO) : AdminIO :=
  match a with
  | Got data =>
      let data := take (Z.to_nat (ReadBuffer.space_remain b)) data in
      let s := log (Ev_read data) (count_in (Z.of_nat (length data)) s) in
      set_reader (R_check b msg (inl data)) s
  | ReadFails e =>
      (** The debug line makes a string of [n = -1] bytes. *)
      if m_log_io_events s then
        set_reader (R_throw (std_exception (out_of_range "basic_string: construction from -1 bytes"))) s
      else set_reader (R_check b msg (inr e)) s
  end.

Definition after_read (b : ReadBuffer.t) (msg : txMessage) (r : bytes + Z) (s : AdminIO) : AdminIO :=
  if m_is_stopping s then set_reader R_complete s
  else
    match r with
    | inr e => set_reader (R_throw (io_errno e)) s
    | inl [] => set_reader (R_throw io_eof) s
    | inl data =>
        match ReactorReadBuffer.write data b with
        | Ok b => set_reader (R_decode b msg) s
        | Throw e => throw_reader e s
        end
    end.

(** The end of a round: no complete message is left. *)
Definition end_round (b : ReadBuffer.t) (msg : txMessage) (s : AdminIO) : AdminIO :=
  match ReadBuffer.shift_pending_to_array_start b with
  | Ok b => set_reader (R_poll b msg) s
  | Throw e => throw_reader e s
  end.

Definition decode_one (b : ReadBuffer.t) (msg : txMessage) (s : AdminIO) : AdminIO :=
  if ReadBuffer.bytesavail b =? 0 then end_round b msg s
  else
    match decodeMsg (ReadBuffer.rp b) msg (Z.to_nat (ReadBuffer.bytesavail b)) with
    | Throw e => if is_undefined e then set_reader (R_undefined (exn_what e)) s else set_reader (R_badmsg e) s
    | Ok (consumed, msg) =>
        if 0 <? consumed then set_reader (R_msg b msg consumed) s else end_round b msg s
    end.

(** The reply to bytes that are no message. *)
Definition badmsg_item : result QueuedItem :=
  '(size, sb) ← encodeMsg (new_message "badmsg") (i_sb new_item);
  mret (MkItem size (i_flags new_item) sb).

(** [socket_read_TEP] and [read_from_socket]. *)
Definition reader_step (nready : Z) (a : read_answer) (s : AdminIO) : option AdminIO :=
  match reader s with
  | R_none | R_exited | R_undefined _ => None
  | R_start =>
      let s := set_counts (incr (lwp_count s)) (m_threads_complete s) s in
      Some (set_reader (R_poll (ReadBuffer.zero ReadBuffer.new) (new_message EmptyString)) s)
  | R_poll b msg =>
      Some (if m_is_stopping s then set_reader R_complete s
            else match read_timeo (m_fd s) nready with
                 | Ok true => set_reader (R_ready b msg) s
                 | Ok false => s
                 | Throw e => throw_reader e s
                 end)
  | R_ready b msg =>
      Some (if m_is_stopping s then set_reader R_complete s
            else match make_room b with
                 | Ok b => set_reader (R_read b msg) s
                 | Throw e => throw_reader e s
                 end)
  | R_read b msg => Some (do_read a b msg s)
  | R_check b msg r => Some (after_read b msg r s)
  | R_decode b msg => Some (decode_one b msg s)
  | R_msg b msg consumed =>
      Some (set_reader (R_decode (ReadBuffer.consume consumed b) msg) (if m_listener s then log (Ev_msg msg) s else s))
  | R_badmsg e =>
      Some (match badmsg_item with
            | Ok qi => set_reader (R_throw (std_exception e)) (enqueue qi s)
            | Throw e => throw_reader e s
            end)
  | R_throw e => Some (set_reader R_stop (match e with io_eof => s | _ => log (Ev_report e) s end))
  | R_stop => Some (set_reader R_complete (request_stop s))
  | R_complete => Some (set_reader R_exited (set_counts (lwp_count s) (incr (m_threads_complete s)) s))
  end.

(** * Constructor and destructor *)

(** The members before the threads. *)
Definition new_AdminIO (fd : Z) (listener debug : bool) : AdminIO :=
  MkAdminIO fd listener debug false false [] 0 false 0 0 0 0 0 O_start_reader R_none W_none [].

(** [created]: whether [pthread_create] succeeds.  In [O_live] the step is the
    beginning of the destructor. *)
Definition owner_step (created : bool) (s : AdminIO) : option AdminIO :=
  match owner s with
  | O_start_reader =>
      Some (if created then set_owner O_start_writer (set_reader R_start s) else set_owner O_failed s)
  | O_start_writer =>
      Some (if created then set_owner O_body (set_writer W_start s) else set_owner O_failed s)
  | O_body => Some (set_owner (O_wait 0) (if want_debug s then set_log true s else s))
  | O_wait loops =>
      Some (set_owner (if negb (lwp_count s =? 2) && (loops <? 10) then O_wait (loops + 1) else O_live) s)
  | O_live => Some (set_owner O_join_reader s)
  | O_join_reader => match reader s with R_exited => Some (set_owner O_join_writer s) | _ => None end
  | O_join_writer => match writer s with W_exited => Some (set_owner O_gone s) | _ => None end
  | O_gone | O_failed => None
  end.

(** * Steps *)

Inductive label :=
| L_owner (created : bool)
| L_reader (nready : Z) (a : read_answer)
| L_writer (r : send_result) (now : Z)
| L_wake  (** the writer wakes up for no reason *)
| L_enqueue (i : QueuedItem)
| L_request_stop.

(** The object can be used by others until it is destroyed. *)
Definition alive (s : AdminIO) : bool :=
  match owner s with O_gone | O_failed => false | _ => true end.

(** An item whose size is that of the message in its buffer, or less. *)
Definition item_ok (i : QueuedItem) : Prop := 0 <= i_size i <= Z.of_nat (length (item_buf i)) /\ i_size i < 2 ^ 63.

Inductive step : AdminIO -> label -> AdminIO -> Prop :=
| step_owner s created s' : owner_step created s = Some s' -> step s (L_owner created) s'
| step_reader s nready a s' : reader_step nready a s = Some s' -> step s (L_reader nready a) s'
| step_writer s r now s' : writer_step r now s = Some s' -> step s (L_writer r now) s'
| step_wake s c : writer s = W_asleep c -> step s L_wake (set_writer (W_notified c) s)
| step_enqueue s i : alive s = true -> item_ok i -> step s (L_enqueue i) (enqueue i s)
| step_request_stop s : alive s = true -> step s L_request_stop (request_stop s).

Inductive run (s : AdminIO) : list label -> AdminIO -> Prop :=
| run_nil : run s [] s
| run_snoc ls s1 l s2 : run s ls s1 -> step s1 l s2 -> run s (ls ++ [l]) s2.

Definition reachable (fd : Z) (listener debug : bool) (s : AdminIO) : Prop :=
  exists ls, run (new_AdminIO fd listener debug) ls s.

End LegacyIO.
