(* ===== verification/LegacyProps.v ===== *)
(** Properties of the earlier connection of [old/AdminIO.cc]: the life of its
    socket, the order and completeness of what it sends, its shutdown, and the
    messages its reader hands to the listener. *)

From S2P Require Import Prelude Decimal Utils TxContainer SamBuffer SamProtocol ReadBuffer Client Delivery LegacyIO.

Local Open Scope Z_scope.

Module LegacyProps.
Import LegacyIO.

(** * What the trace says *)

(** The life of the socket: open, closed, closed and reported to the listener.
    Data is sent only while it is open. *)
Inductive phase := Open | Closed | Reported.

Definition life_step (p : option phase) (e : event) : option phase :=
  match e, p with
  | Ev_sent _, Some Open | Ev_send_error, Some Open => Some Open
  | Ev_sent _, _ | Ev_send_error, _ => None
  | Ev_close, Some Open => Some Closed
  | Ev_close, _ => None
  | Ev_io_closed, Some Closed => Some Reported
  | Ev_io_closed, _ => None
  | _, p => p
  end.
Definition life (tr : list event) : option phase := foldl life_step (Some Open) tr.

Definition pushed (tr : list event) : list QueuedItem :=
  omap (fun e => match e with Ev_push i => Some i | _ => None end) tr.
Definition sent (tr : list event) : bytes :=
  flat_map (fun e => match e with Ev_sent d => d | _ => [] end) tr.
Definition send_failed (tr : list event) : bool :=
  existsb (fun e => match e with Ev_send_error => true | _ => false end) tr.
Definition bytes_read (tr : list event) : bytes :=
  flat_map (fun e => match e with Ev_read d => d | _ => [] end) tr.
Definition delivered (tr : list event) : list txMessage :=
  omap (fun e => match e with Ev_msg m => Some m | _ => None end) tr.

(** The bytes of an item. *)
Definition item_bytes (i : QueuedItem) : bytes := take (Z.to_nat (i_size i)) (item_buf i).
Definition items_bytes (l : list QueuedItem) : bytes := flat_map item_bytes l.
Definition items_size (l : list QueuedItem) : Z := foldr Z.add 0 (i_size <$> l).

(** What is left of the item the writer works on. *)
Definition current_rest (w : writer_state) : bytes :=
  match w with
  | W_inner _ i n | W_send _ i n => drop (Z.to_nat n) (item_bytes i)
  | _ => []
  end.

(** * The writer's side *)

(** What the writer's invariant is about: the other threads change it only by
    adding an item. *)
Definition wview (s : AdminIO) :=
  (q_items s, q_bytes_pending s, m_have_data s, m_is_stopping s, writer s, m_listener s,
   (life (io_trace s), pushed (io_trace s), sent (io_trace s), send_failed (io_trace s))).

Definition not_kill (i : QueuedItem) : Prop := is_kill i = false.

(** The items taken from the queue so far, by where the writer is: none of
    them ends the connection but perhaps the last. *)
Definition popped_shape (w : writer_state) (failed : bool) (popped : list QueuedItem) : Prop :=
  let killed := exists p i, popped = p ++ [i] /\ Forall not_kill p /\ is_kill i = true in
  match w with
  | W_none | W_start | W_lock _ | W_asleep _ | W_notified _ => Forall not_kill popped
  | W_inner _ i _ | W_send _ i _ | W_after _ i => exists p, popped = p ++ [i] /\ Forall not_kill p
  | W_kill _ i => exists p, popped = p ++ [i] /\ Forall not_kill p /\ is_kill i = true
  | W_loop c | W_finish c | W_last_close c => if c then killed else Forall not_kill popped
  | W_close => killed
  | W_callback | W_complete | W_exited => failed = true \/ killed
  | W_undefined _ => False
  end.

(** The flag, the socket and the item, by where the writer is. *)
Definition writer_ok (stopping failed listener : bool) (ph : option phase) (w : writer_state) : Prop :=
  match w with
  | W_none | W_start => stopping = false /\ ph = Some Open
  | W_lock c | W_asleep c | W_notified c => c = false /\ stopping = false /\ ph = Some Open
  | W_loop c | W_finish c | W_last_close c =>
      ph = Some (if c then Closed else Open) /\ (stopping = true -> c = true \/ failed = true) /\
      match w with W_loop _ => c = true -> stopping = true | _ => stopping = true end
  | W_inner c i n => c = false /\ ph = Some Open /\ item_ok i /\ 0 <= n <= i_size i /\ (stopping = true -> failed = true)
  | W_send c i n => c = false /\ ph = Some Open /\ item_ok i /\ 0 <= n < i_size i /\ stopping = false
  | W_after c i => c = false /\ ph = Some Open /\ (stopping = true -> failed = true)
  | W_kill c i => c = false /\ ph = Some Open
  | W_close => stopping = true /\ ph = Some Open
  | W_callback => stopping = true /\ ph = Some Closed
  | W_complete | W_exited => stopping = true /\ ph = Some (if listener then Reported else Closed)
  | W_undefined _ => False
  end.

Record out_inv (s : AdminIO) : Prop := {
  oi_data : m_have_data s = negb (bool_decide (length (q_items s) = 0%nat));
  oi_asleep : match writer s with W_asleep _ => q_items s = [] | _ => True end;
  oi_pending : q_bytes_pending s = size_t (items_size (q_items s));
  oi_ok : Forall item_ok (q_items s);
  oi_failed : send_failed (io_trace s) = true -> m_is_stopping s = true;
  oi_writer : writer_ok (m_is_stopping s) (send_failed (io_trace s)) (m_listener s) (life (io_trace s)) (writer s);
  oi_out : exists popped rest, pushed (io_trace s) = popped ++ q_items s /\
    items_bytes popped = sent (io_trace s) ++ rest /\
    (send_failed (io_trace s) = false -> rest = current_rest (writer s)) /\
    popped_shape (writer s) (send_failed (io_trace s)) popped }.

Lemma out_inv_view s s' : wview s' = wview s -> out_inv s -> out_inv s'.
Proof.
  unfold wview. intros E [H1 H2 H3 H4 Hf H5 H6]. injection E as E1 E2 E3 E4 E5 E6 E7 E8 E9 E10.
  split; rewrite ?E1, ?E2, ?E3, ?E4, ?E5, ?E6, ?E7, ?E8, ?E9, ?E10; assumption.
Qed.

(** Adding one event. *)
Lemma life_snoc tr e : life (tr ++ [e]) = life_step (life tr) e.
Proof. unfold life. by rewrite foldl_app. Qed.
Lemma pushed_snoc tr e : pushed (tr ++ [e]) = pushed tr ++ match e with Ev_push i => [i] | _ => [] end.
Proof. unfold pushed. rewrite omap_app. by destruct e. Qed.
Lemma sent_snoc tr e : sent (tr ++ [e]) = sent tr ++ match e with Ev_sent d => d | _ => [] end.
Proof. unfold sent. rewrite flat_map_app. cbn. by rewrite app_nil_r. Qed.
Lemma send_failed_snoc tr e :
  send_failed (tr ++ [e]) = send_failed tr || match e with Ev_send_error => true | _ => false end.
Proof. unfold send_failed. rewrite existsb_app. cbn. by rewrite orb_false_r. Qed.
Lemma bytes_read_snoc tr e : bytes_read (tr ++ [e]) = bytes_read tr ++ match e with Ev_read d => d | _ => [] end.
Proof. unfold bytes_read. rewrite flat_map_app. cbn. by rewrite app_nil_r. Qed.
Lemma delivered_snoc tr e : delivered (tr ++ [e]) = delivered tr ++ match e with Ev_msg m => [m] | _ => [] end.
Proof. unfold delivered. rewrite omap_app. by destruct e. Qed.

Create Rewrite HintDb legacy.
#[export] Hint Rewrite life_snoc pushed_snoc sent_snoc send_failed_snoc bytes_read_snoc delivered_snoc
  @app_nil_r orb_false_r : legacy.

(** Simplifies the state after a step. *)
Ltac io_cbn :=
  cbn [set_log set_stopping set_queue set_counts count_out count_in set_owner set_reader set_writer log
    m_fd m_listener want_debug m_log_io_events m_is_stopping q_items q_bytes_pending m_have_data lwp_count
    m_threads_complete m_bytesout m_bytesin m_last_write owner reader writer io_trace] in *;
  autorewrite with legacy in *.

Lemma items_size_snoc l i : items_size (l ++ [i]) = items_size l + i_size i.
Proof. unfold items_size. induction l as [|x l IH]; cbn; [lia|]. cbn in IH. lia. Qed.

Lemma size_t_add_l a b : size_t (size_t a + b) = size_t (a + b).
Proof. unfold size_t, wrap. apply Zplus_mod_idemp_l. Qed.
Lemma size_t_sub_l a b : size_t (size_t a - b) = size_t (a - b).
Proof. unfold size_t, wrap. apply Zminus_mod_idemp_l. Qed.

Lemma out_inv_start fd l d : out_inv (new_AdminIO fd l d).
Proof. split; cbn; try done. exists [], []. repeat split; constructor. Qed.

Lemma kill_item_ok : item_ok kill_item.
Proof. split; [|done]. cbn. split; [done|]. apply Zle_0_nat. Qed.

(** Adding an item. *)
Lemma out_inv_enqueue i s : item_ok i -> out_inv s -> out_inv (push_item i s).
Proof.
  intros Hi [H1 H2 H3 H4 Hf H5 (popped & rest & E1 & E2 & E3 & E4)]. unfold push_item. split; io_cbn.
  - rewrite bool_decide_false; [done|]. rewrite length_app. cbn. lia.
  - by destruct (writer s).
  - by rewrite H3, size_t_add_l, items_size_snoc.
  - apply Forall_app. split; [done|]. by constructor.
  - done.
  - by destruct (writer s).
  - exists popped, rest. rewrite E1, <-app_assoc. split; [done|]. split; [done|].
    by destruct (writer s).
Qed.

(** A step of the reader adds at most one item. *)
Lemma badmsg_item_ok : exists i, badmsg_item = Ok i /\ item_ok i /\ is_kill i = false.
Proof. eexists. split; [vm_compute; reflexivity|]. split; [|done]. vm_compute. done. Qed.

Lemma reader_step_wview n a s s' : reader_step n a s = Some s' ->
  wview s' = wview s \/ exists i, item_ok i /\ wview s' = wview (push_item i s).
Proof.
  unfold reader_step. destruct badmsg_item_ok as (bad & Ebad & Hbad & _). rewrite Ebad.
  destruct (reader s) as [| |b m|b m|b m|b m r|b m|b m k|e|e| | | |what]; intros Hs; try discriminate Hs;
    injection Hs as <-; try (left; reflexivity).
  - left. destruct (m_is_stopping s) eqn:E; [done|]. destruct (read_timeo _ _) as [[]|e]; done.
  - left. destruct (m_is_stopping s) eqn:E; [done|]. by destruct (make_room b).
  - left. unfold do_read, wview. destruct a; io_cbn; [done|]. by destruct (m_log_io_events s).
  - left. unfold after_read. destruct (m_is_stopping s) eqn:E; [done|].
    destruct r as [[|x data]|]; [done| |done]. by destruct (ReactorReadBuffer.write _ _).
  - left. unfold decode_one, end_round.
    destruct (ReadBuffer.bytesavail b =? 0); [by destruct (ReadBuffer.shift_pending_to_array_start b)|].
    destruct (decodeMsg _ _ _) as [[k m']|e]; [|by destruct (is_undefined e)].
    destruct (0 <? k); [done|]. by destruct (ReadBuffer.shift_pending_to_array_start b).
  - left. unfold wview. destruct (m_listener s) eqn:E; io_cbn; by rewrite ?E.
  - right. exists bad. split; [exact Hbad|reflexivity].
  - left. unfold wview. destruct e; io_cbn; done.
  - right. exists kill_item. split; [apply kill_item_ok|reflexivity].
Qed.

Lemma out_inv_reader n a s s' : reader_step n a s = Some s' -> out_inv s -> out_inv s'.
Proof.
  intros [E|(i & Hi & E)]%reader_step_wview H; eapply out_inv_view; [exact E|done|exact E|by apply out_inv_enqueue].
Qed.

(** Steps of the writer that leave the queue and the sent data alone. *)
Lemma out_inv_move w s s' : out_inv s ->
  q_items s' = q_items s -> q_bytes_pending s' = q_bytes_pending s -> m_have_data s' = m_have_data s ->
  m_listener s' = m_listener s -> pushed (io_trace s') = pushed (io_trace s) ->
  sent (io_trace s') = sent (io_trace s) -> writer s' = w ->
  match w with W_asleep _ => q_items s = [] | _ => True end ->
  (send_failed (io_trace s') = true -> m_is_stopping s' = true) ->
  writer_ok (m_is_stopping s') (send_failed (io_trace s')) (m_listener s) (life (io_trace s')) w ->
  (send_failed (io_trace s') = false -> send_failed (io_trace s) = false /\ current_rest w = current_rest (writer s)) ->
  (forall popped, popped_shape (writer s) (send_failed (io_trace s)) popped ->
    popped_shape w (send_failed (io_trace s')) popped) ->
  out_inv s'.
Proof.
  intros [H1 H2 H3 H4 Hf H5 (popped & rest & E1 & E2 & E3 & E4)] Eq Ep Eh El Epu Es Ew Ha Hf' Hw Hr Hp.
  split; rewrite ?Eq, ?Ep, ?Eh, ?El, ?Epu, ?Es, ?Ew; try assumption.
  exists popped, rest. split; [done|]. split; [done|]. split; [|auto].
  intros Hff. destruct (Hr Hff) as [Hf0 ->]. auto.
Qed.

Lemma items_size_cons i l : items_size (i :: l) = i_size i + items_size l.
Proof. done. Qed.

(** Taking an item, or going to sleep. *)
Lemma out_inv_pop c s : writer s = W_lock c \/ writer s = W_notified c -> out_inv s -> out_inv (wait_and_pop c s).
Proof.
  intros Hw Hs. pose proof Hs as [H1 H2 H3 H4 Hf H5 (popped & rest & E1 & E2 & E3 & E4)].
  assert (c = false /\ m_is_stopping s = false /\ life (io_trace s) = Some Open) as (-> & Hst & Hlife)
    by (destruct Hw as [E|E]; rewrite E in H5; done).
  assert (current_rest (writer s) = []) as Hrest by (by destruct Hw as [-> | ->]).
  assert (Forall not_kill popped) as Hnk by (by destruct Hw as [E|E]; rewrite E in E4).
  unfold wait_and_pop. rewrite H1. destruct (q_items s) as [|i items] eqn:Eq.
  - rewrite bool_decide_true by done. cbn [negb].
    apply (out_inv_move (W_asleep false) s); try reflexivity; [done|done|done|done| |].
    + intros Hff. by rewrite Hrest.
    + intros l Hl. cbn. by destruct Hw as [E|E]; rewrite E in Hl.
  - rewrite bool_decide_false by done. cbn [negb]. apply Forall_cons in H4 as [Hi H4].
    split; io_cbn; try done.
    + by destruct items.
    + rewrite H3, size_t_sub_l, items_size_cons. f_equal. lia.
    + destruct Hi as [[? ?] ?]. cbn. rewrite Hst. repeat (split; try done).
    + exists (popped ++ [i]), (rest ++ item_bytes i). rewrite E1, <-app_assoc. split; [done|].
      unfold items_bytes in *. rewrite flat_map_app, E2, <-app_assoc. cbn [flat_map]. rewrite app_nil_r.
      split; [done|]. split; [|cbn; by exists popped].
      intros Hff. rewrite (E3 Hff), Hrest. cbn. by rewrite drop_0.
Qed.

(** One call of [send]. *)
Lemma out_inv_send c i n r now s : writer s = W_send c i n -> out_inv s -> out_inv (send c i n r now s).
Proof.
  intros Hw Hs. pose proof Hs as [H1 H2 H3 H4 Hf H5 (popped & rest & E1 & E2 & E3 & E4)].
  rewrite Hw in *. destruct H5 as (-> & Hlife & Hi & Hn & Hst). pose proof Hi as [[Hi0 Hi1] Hi2].
  assert (send_failed (io_trace s) = false) as Hnf.
  { destruct (send_failed (io_trace s)); [|done]. by rewrite Hst in Hf; specialize (Hf eq_refl). }
  rewrite (E3 Hnf) in *. clear E3.
  unfold send. destruct (Z.ltb_spec (Z.of_nat (length (item_buf i))) (i_size i)); [lia|].
  destruct r as [k| |].
  - set (data := take _ _). set (m := Nat.min k (length data)).
    assert (data = drop (Z.to_nat n) (item_bytes i)) as Ed.
    { unfold data, item_bytes. rewrite skipn_firstn_comm. f_equal. lia. }
    assert (Z.of_nat (length data) = i_size i - n) as El.
    { unfold data. rewrite length_take, length_drop. lia. }
    assert (Z.of_nat m <= i_size i - n) by lia. rewrite size_t_small by lia.
    split; io_cbn; try done.
    + rewrite Hlife. cbn. rewrite Hst. repeat (split; try done); lia.
    + exists popped, (drop m data). split; [done|]. split; [|split; [|done]].
      * rewrite E2, <-app_assoc, take_drop. cbn [current_rest]. by rewrite Ed.
      * intros _. cbn [current_rest]. rewrite Ed, drop_drop. f_equal. lia.
  - apply (out_inv_move (W_inner false i n) s); try reflexivity; io_cbn; try done; rewrite ?Hw; try done.
    rewrite Hst. cbn. repeat (split; try done); lia.
  - apply (out_inv_move (W_inner false i n) s); try reflexivity; io_cbn; try done; rewrite ?Hw; try done.
    rewrite Hlife, Hnf. cbn. repeat (split; try done); lia.
Qed.

Lemma out_inv_writer r now s s' : writer_step r now s = Some s' -> out_inv s -> out_inv s'.
Proof.
  intros E Hs. pose proof (oi_writer s Hs) as Hw. pose proof (oi_failed s Hs) as Hf. unfold writer_step in E.
  destruct (writer s) as [| |c|c|c|c|c i n|c i n|c i|c i| |c|c| | | |] eqn:Ew; cbn [writer_ok] in Hw; try discriminate E;
    injection E as <-.
  - eapply (out_inv_move (W_loop false) s); try reflexivity; try done; rewrite ?Ew; try done. io_cbn. naive_solver.
  - destruct Hw as (Hl & Hst & Hc).
    eapply (out_inv_move _ s); try reflexivity; try done; rewrite ?Ew; io_cbn; destruct (m_is_stopping s) eqn:Est;
      try done; destruct c; naive_solver.
  - by apply out_inv_pop; [left|].
  - by apply out_inv_pop; [right|].
  - destruct Hw as (-> & Hl & Hi & Hn & Hst).
    destruct (negb (m_is_stopping s) && (n <? i_size i)) eqn:Ec.
    + apply andb_true_iff in Ec as [Hns%negb_true_iff Hlt%Z.ltb_lt].
      eapply (out_inv_move _ s); try reflexivity; try done; rewrite ?Ew; try done. io_cbn. cbn.
      split_and!; try done; lia.
    + eapply (out_inv_move _ s); try reflexivity; try done; rewrite ?Ew; try done. io_cbn. intros Hnf.
      split; [done|]. destruct (m_is_stopping s) eqn:Est; [specialize (Hst eq_refl); congruence|]. cbn [negb andb] in Ec. apply Z.ltb_ge in Ec.
      cbn [current_rest]. rewrite drop_ge; [done|]. unfold item_bytes. rewrite length_take. lia.
  - by apply out_inv_send.
  - destruct Hw as (-> & Hl & Hst). destruct (is_kill i) eqn:Ek.
    + eapply (out_inv_move _ s); try reflexivity; try done; rewrite ?Ew; try done.
      intros l (p & -> & Hp). exists p. done.
    + eapply (out_inv_move _ s); try reflexivity; try done; rewrite ?Ew; try done.
      * io_cbn. cbn. split; [done|]. split; [|done]. naive_solver.
      * intros l (p & -> & Hp). cbn. apply Forall_app. split; [done|]. by constructor.
  - destruct Hw as (-> & Hl). eapply (out_inv_move _ s); try reflexivity; try done; rewrite ?Ew; try done.
    intros l (p & -> & Hp & Hk). by exists p, i.
  - destruct Hw as (Hst & Hl).
    eapply (out_inv_move _ s); try reflexivity; io_cbn; try done; rewrite ?Ew; try done.
    rewrite Hl. cbn. split; [done|]. split; [by left|done].
  - destruct Hw as (Hl & Hc & Hst).
    eapply (out_inv_move _ s); try reflexivity; io_cbn; try done; rewrite ?Ew; try done. naive_solver.
  - destruct Hw as (Hl & Hc & Hst). destruct c; cbn [negb].
    + eapply (out_inv_move _ s); try reflexivity; io_cbn; try done; rewrite ?Ew; try done. by right.
    + eapply (out_inv_move _ s); try reflexivity; io_cbn; try done; rewrite ?Ew; try done.
      * rewrite Hl. done.
      * intros l _. left. by destruct (Hc Hst).
  - destruct Hw as (Hst & Hl). destruct (m_listener s) eqn:El; eapply (out_inv_move _ s); try reflexivity;
      io_cbn; try done; rewrite ?Ew, ?El; try done. by rewrite Hl.
  - destruct Hw as (Hst & Hl). eapply (out_inv_move _ s); try reflexivity; io_cbn; try done; rewrite ?Ew; done.
Qed.

(** * The threads *)

Definition reader_started (r : reader_state) : bool := match r with R_none | R_start => false | _ => true end.
Definition writer_started (w : writer_state) : bool := match w with W_none | W_start => false | _ => true end.
Definition reader_ended (r : reader_state) : bool := match r with R_exited => true | _ => false end.
Definition writer_ended (w : writer_state) : bool := match w with W_exited => true | _ => false end.

Record thr_inv (s : AdminIO) : Prop := {
  ti_owner :
    match owner s with
    | O_start_reader => reader s = R_none /\ writer s = W_none
    | O_start_writer => reader s <> R_none /\ writer s = W_none
    | O_body | O_wait _ | O_live | O_join_reader => reader s <> R_none /\ writer s <> W_none
    | O_join_writer => reader s = R_exited /\ writer s <> W_none
    | O_gone => reader s = R_exited /\ writer s = W_exited
    | O_failed => writer s = W_none
    end;
  ti_complete : m_threads_complete s = Z.b2z (reader_ended (reader s)) + Z.b2z (writer_ended (writer s));
  ti_count : lwp_count s = Z.b2z (reader_started (reader s)) + Z.b2z (writer_started (writer s)) }.

Lemma b2z_bound a b : 0 <= Z.b2z a + Z.b2z b <= 2.
Proof. destruct a, b; cbn; lia. Qed.

Lemma incr_b2z a b : incr (Z.b2z a + Z.b2z b) = Z.b2z a + Z.b2z b + 1.
Proof. unfold incr. pose proof (b2z_bound a b). rewrite int32_small; lia. Qed.

Lemma notify_one_started w : writer_started (notify_one w) = writer_started w /\
  writer_ended (notify_one w) = writer_ended w /\ (notify_one w = W_none <-> w = W_none) /\
  (notify_one w = W_exited <-> w = W_exited).
Proof. by destruct w. Qed.

Lemma thr_inv_notified s s' : owner s' = owner s -> reader s' = reader s -> writer s' = notify_one (writer s) ->
  m_threads_complete s' = m_threads_complete s -> lwp_count s' = lwp_count s -> thr_inv s -> thr_inv s'.
Proof.
  intros Eo Er Ew Ec En [H1 H2 H3]. destruct (notify_one_started (writer s)) as (N1 & N2 & N3 & N4).
  split; rewrite ?Eo, ?Er, ?Ec, ?En, ?Ew, ?N1, ?N2; try assumption. destruct (owner s); rewrite ?N3, ?N4; done.
Qed.

Lemma thr_inv_push i s : thr_inv s -> thr_inv (push_item i s).
Proof. by apply thr_inv_notified. Qed.

(** What a step of a thread does to the fields of this invariant. *)
Definition reader_moves (s s' : AdminIO) : Prop :=
  owner s' = owner s /\ (writer s' = writer s \/ writer s' = notify_one (writer s)) /\
  reader_started (reader s') = true /\
  lwp_count s' = (if reader_started (reader s) then lwp_count s else incr (lwp_count s)) /\
  m_threads_complete s' =
    (if reader_ended (reader s') then incr (m_threads_complete s) else m_threads_complete s).

Lemma throw_reader_moves e s : reader_started (reader s) = true -> reader_moves s (throw_reader e s).
Proof. intros H. unfold reader_moves, throw_reader. rewrite H. destruct (is_undefined e); io_cbn; auto 10. Qed.

Lemma reader_step_moves n a s s' : reader_step n a s = Some s' ->
  reader s <> R_none /\ reader s <> R_exited /\ reader_moves s s'.
Proof.
  unfold reader_step. destruct badmsg_item_ok as (bad & -> & _ & _).
  destruct (reader s) as [| |b m|b m|b m|b m r|b m|b m k|e|e| | | |what] eqn:Er; intros Hs; try discriminate Hs;
    injection Hs as <-; (split; [discriminate|]); (split; [discriminate|]);
    unfold do_read, after_read, decode_one, end_round;
    repeat (case_match; try (apply throw_reader_moves; by rewrite Er));
    unfold reader_moves; rewrite ?Er; io_cbn; cbn [reader_started reader_ended];
    rewrite ?Er; auto 10.
Qed.

Lemma thr_inv_reader n a s s' : reader_step n a s = Some s' -> thr_inv s -> thr_inv s'.
Proof.
  intros (Hn & Hx & Eo & Ew & Hst & El & Ec)%reader_step_moves [H1 H2 H3].
  assert (reader_ended (reader s) = false) as Hre by (by destruct (reader s)). rewrite Hre in H2.
  destruct (notify_one_started (writer s)) as (N1 & N2 & N3 & N4).
  assert (reader s' <> R_none) by (by destruct (reader s')).
  split.
  - rewrite Eo. destruct (owner s); destruct Ew as [-> | ->]; rewrite ?N3, ?N4; naive_solver.
  - rewrite Ec, H2, incr_b2z. destruct Ew as [-> | ->]; rewrite ?N2; destruct (reader_ended (reader s')); cbn; lia.
  - rewrite El, Hst, H3, incr_b2z. destruct Ew as [-> | ->]; rewrite ?N1;
      destruct (reader_started (reader s)); cbn; lia.
Qed.

Definition writer_moves (s s' : AdminIO) : Prop :=
  owner s' = owner s /\ reader s' = reader s /\ writer_started (writer s') = true /\
  lwp_count s' = (if writer_started (writer s) then lwp_count s else incr (lwp_count s)) /\
  m_threads_complete s' = (if writer_ended (writer s') then incr (m_threads_complete s) else m_threads_complete s).

Lemma writer_step_moves r now s s' : writer_step r now s = Some s' ->
  writer s <> W_none /\ writer s <> W_exited /\ writer_moves s s'.
Proof.
  unfold writer_step. destruct (writer s) as [| |c|c|c|c|c i n|c i n|c i|c i| |c|c| | | |] eqn:Ew; intros E;
    try discriminate E; injection E as <-; (split; [discriminate|]); (split; [discriminate|]);
    unfold wait_and_pop, send; repeat case_match; unfold writer_moves; rewrite Ew; io_cbn; auto 10.
Qed.

Lemma thr_inv_writer r now s s' : writer_step r now s = Some s' -> thr_inv s -> thr_inv s'.
Proof.
  intros (Hn & Hx & Eo & Er & Hst & El & Ec)%writer_step_moves [H1 H2 H3].
  assert (writer_ended (writer s) = false) as Hre by (by destruct (writer s)). rewrite Hre in H2.
  assert (writer s' <> W_none) by (by destruct (writer s')).
  split; rewrite ?Eo, ?Er.
  - destruct (owner s); naive_solver.
  - rewrite Ec, H2, incr_b2z. destruct (writer_ended (writer s')); cbn; lia.
  - rewrite El, Hst, H3, incr_b2z. destruct (writer_started (writer s)); cbn; lia.
Qed.

Lemma thr_inv_owner created s s' : owner_step created s = Some s' -> thr_inv s -> thr_inv s'.
Proof.
  intros E [H1 H2 H3]. unfold owner_step in E.
  destruct (owner s) eqn:Eo; try discriminate E.
  3, 4, 5: injection E as <-; split; io_cbn; repeat case_match; io_cbn; done.
  1, 2: destruct created; injection E as <-; destruct H1 as [Hr Hw]; split; io_cbn; rewrite ?Hr, ?Hw in *; done.
  - destruct (reader s) eqn:Er; try discriminate E. injection E as <-.
    split; io_cbn; rewrite ?Er in *; naive_solver.
  - destruct (writer s) eqn:Ew; try discriminate E. injection E as <-. split; io_cbn; rewrite ?Ew in *; naive_solver.
Qed.

Lemma out_inv_owner created s s' : owner_step created s = Some s' -> thr_inv s -> out_inv s -> out_inv s'.
Proof.
  intros E Ht Hs. unfold owner_step in E. pose proof (ti_owner s Ht) as Ho.
  destruct (owner s) eqn:Eo; try discriminate E.
  2: { destruct Ho as [_ Hw]. destruct created; injection E as <-.
    - eapply (out_inv_move W_start s); try reflexivity; try done; rewrite ?Hw; try done; apply Hs || idtac.
      pose proof (oi_writer s Hs) as H. rewrite Hw in H. exact H.
    - by apply (out_inv_view s). }
  all: repeat case_match; try discriminate E; injection E as <-; apply (out_inv_view s); done.
Qed.

(** * All steps *)

Record io_inv (s : AdminIO) : Prop := { io_out : out_inv s; io_thr : thr_inv s }.

Lemma io_inv_step s l s' : step s l s' -> io_inv s -> io_inv s'.
Proof.
  intros Hstep [Ho Ht].
  destruct Hstep as [s created s' E|s n a s' E|s r now s' E|s c Ew|s i Ha Hi|s Ha].
  - split; [by eapply out_inv_owner|by eapply thr_inv_owner].
  - split; [by eapply out_inv_reader|by eapply thr_inv_reader].
  - split; [by eapply out_inv_writer|by eapply thr_inv_writer].
  - split.
    + pose proof (oi_writer s Ho) as H. rewrite Ew in H.
      eapply (out_inv_move (W_notified c) s); try reflexivity; try done; rewrite ?Ew; try done; apply Ho.
    + apply (thr_inv_notified s); try done. io_cbn. by rewrite Ew.
  - split; [by apply out_inv_enqueue|by apply thr_inv_push].
  - split; [by apply out_inv_enqueue; [apply kill_item_ok|]|by apply thr_inv_push].
Qed.

Lemma io_inv_new fd l d : io_inv (new_AdminIO fd l d).
Proof. split; [apply out_inv_start|]. by split. Qed.

Lemma io_inv_run s ls s' : run s ls s' -> io_inv s -> io_inv s'.
Proof. induction 1; [done|]. eauto using io_inv_step. Qed.

Lemma io_inv_reachable fd l d s : reachable fd l d s -> io_inv s.
Proof. intros [ls Hr]. eapply io_inv_run; [exact Hr|apply io_inv_new]. Qed.

(** * Stopping: the writer *)

(** The end has been decided: by the writer, or by an item in the queue or in
    the writer's hands. *)
Definition stop_pending (s : AdminIO) : Prop :=
  m_is_stopping s = true \/ Exists (fun i => is_kill i = true) (q_items s) \/
  match writer s with
  | W_inner _ i _ | W_send _ i _ | W_after _ i | W_kill _ i => is_kill i = true
  | _ => False
  end.

(** A bound on the writer's steps until it ends, while the kernel takes at
    least one byte at a time: for the items up to the one that ends the
    connection, ... *)
Definition inner_work (i : QueuedItem) (n : Z) : nat := 2 * Z.to_nat (i_size i - n) + 1.
Fixpoint queue_work (l : list QueuedItem) : nat :=
  match l with
  | [] => 0
  | i :: l => inner_work i 0 + (if is_kill i then 8 else 3 + queue_work l)
  end.
Definition after_work (s : AdminIO) (i : QueuedItem) : nat :=
  if is_kill i then 8 else if m_is_stopping s then 6 else 3 + queue_work (q_items s).
(** ... and from where the writer is. *)
Definition writer_work (s : AdminIO) : nat :=
  let loop := if m_is_stopping s then 5%nat else (2 + queue_work (q_items s))%nat in
  match writer s with
  | W_none | W_start => 1 + loop
  | W_loop _ => loop
  | W_lock _ | W_asleep _ | W_notified _ => 1 + queue_work (q_items s)
  | W_inner _ i n => (if m_is_stopping s then 1 else inner_work i n) + after_work s i
  | W_send _ i n => 2 * Z.to_nat (i_size i - n) + after_work s i
  | W_after _ i => after_work s i
  | W_kill _ _ => 7
  | W_close => 6
  | W_finish _ => 4
  | W_last_close _ => 3
  | W_callback => 2
  | W_complete => 1
  | W_exited | W_undefined _ => 0
  end.

(** The kernel took something, or refused for good. *)
Definition makes_progress (l : label) : Prop :=
  match l with
  | L_writer (SendOk k) _ => (0 < k)%nat
  | L_writer SendAgain _ => False
  | _ => True
  end.

Lemma queue_work_kill l : Exists (fun i => is_kill i = true) l -> (9 <= queue_work l)%nat.
Proof.
  induction 1 as [i l Hi|i l Hl IH]; cbn [queue_work]; unfold inner_work; [rewrite Hi; lia|].
  destruct (is_kill i); lia.
Qed.

Lemma queue_work_app l k : Exists (fun i => is_kill i = true) l -> queue_work (l ++ k) = queue_work l.
Proof.
  induction 1 as [i l Hi|i l Hl IH]; cbn [app queue_work]; [by rewrite Hi|]. by rewrite IH.
Qed.

Lemma stop_pending_push i s : stop_pending s -> stop_pending (push_item i s).
Proof.
  unfold stop_pending, push_item. io_cbn. intros [H|[H|H]]; [by left|right; left|right; right].
  - apply Exists_app. by left.
  - by destruct (writer s).
Qed.

Lemma writer_work_push i s : io_inv s -> stop_pending s -> writer_work (push_item i s) = writer_work s.
Proof.
  intros [Ho _] Hp. pose proof (oi_writer s Ho) as Hw. unfold writer_work, after_work, push_item. io_cbn.
  destruct (m_is_stopping s) eqn:Est.
  { destruct (writer s); cbn [notify_one] in *; try done; cbn in Hw; destruct Hw as (_ & ? & _); done. }
  assert (is_kill_or : Exists (fun i => is_kill i = true) (q_items s) \/
    match writer s with
    | W_inner _ i _ | W_send _ i _ | W_after _ i | W_kill _ i => is_kill i = true
    | _ => False
    end) by (by destruct Hp as [Hp|Hp]; [rewrite Est in Hp|]).
  destruct is_kill_or as [Hk|Hk]; [rewrite (queue_work_app _ _ Hk); by destruct (writer s)|].
  destruct (writer s); cbn [notify_one]; try done; by rewrite Hk.
Qed.

Lemma stop_view s s' : wview s' = wview s ->
  writer_work s' = writer_work s /\ (stop_pending s -> stop_pending s').
Proof.
  unfold wview. intros E. injection E as E1 _ _ E2 E3 _ _ _ _ _.
  unfold writer_work, after_work, stop_pending. by rewrite E1, E2, E3.
Qed.

(** While the end is pending the queue is not empty when the writer looks. *)
Lemma stop_pending_lock s c : out_inv s -> writer s = W_lock c \/ writer s = W_notified c \/ writer s = W_asleep c ->
  stop_pending s -> exists i items, q_items s = i :: items.
Proof.
  intros Ho Hw Hp. pose proof (oi_writer s Ho) as Hok.
  assert (m_is_stopping s = false) as Est.
  { destruct Hw as [E|[E|E]]; rewrite E in Hok; by destruct Hok as (_ & ? & _). }
  destruct Hp as [Hp|[Hp|Hp]]; [congruence| |by destruct Hw as [E|[E|E]]; rewrite E in Hp].
  destruct (q_items s) as [|i items]; [by apply Exists_nil in Hp|eauto].
Qed.

(** Taking an item and a call of [send] bring the end closer. *)
Lemma pop_work c s : out_inv s -> stop_pending s -> writer s = W_lock c \/ writer s = W_notified c ->
  (writer_work (wait_and_pop c s) < writer_work s)%nat /\ stop_pending (wait_and_pop c s).
Proof.
  intros Ho Hp Hw. destruct (stop_pending_lock s c Ho) as (i & items & Eq); [tauto|done|].
  pose proof (oi_writer s Ho) as Hok. pose proof (oi_data s Ho) as Hd. rewrite Eq in Hd.
  rewrite bool_decide_false in Hd by done. cbn [negb] in Hd. unfold wait_and_pop. rewrite Hd, Eq.
  assert (m_is_stopping s = false) as Est by (destruct Hw as [E|E]; rewrite E in Hok; by destruct Hok as (_ & ? & _)).
  split.
  - unfold writer_work, after_work at 1. io_cbn. rewrite Est, Eq. cbn [queue_work].
    destruct Hw as [E|E]; rewrite E; destruct (is_kill i); lia.
  - unfold stop_pending in *. io_cbn. right. destruct Hp as [Hp|[Hp|Hp]]; [congruence| |].
    + rewrite Eq in Hp. apply Exists_cons in Hp as [Hp|Hp]; [by right|by left].
    + by destruct Hw as [E|E]; rewrite E in Hp.
Qed.

Lemma send_work c i n r now s : out_inv s -> stop_pending s -> writer s = W_send c i n ->
  makes_progress (L_writer r now) ->
  (writer_work (send c i n r now s) < writer_work s)%nat /\ stop_pending (send c i n r now s).
Proof.
  intros Ho Hp Ew Hr. pose proof (oi_writer s Ho) as Hok. rewrite Ew in Hok.
  destruct Hok as (_ & _ & [[_ Hi1] Hi2] & Hn & Est).
  unfold send. destruct (Z.ltb_spec (Z.of_nat (length (item_buf i))) (i_size i)); [lia|].
  destruct r as [k| |]; [|done|].
  - cbn [makes_progress] in Hr. set (data := take _ _).
    assert (Z.of_nat (length data) = i_size i - n) as El by (unfold data; rewrite length_take, length_drop; lia).
    rewrite size_t_small by lia. split.
    + unfold writer_work, after_work. io_cbn. rewrite Ew, Est. unfold inner_work. lia.
    + unfold stop_pending in *. io_cbn. rewrite Ew in Hp. done.
  - split; [|by left]. unfold writer_work, after_work. io_cbn. rewrite Ew, Est. destruct (is_kill i) eqn:Ek; [lia|].
    unfold stop_pending in Hp. rewrite Ew, Est, Ek in Hp. destruct Hp as [?|[Hp|?]]; [done| |done].
    pose proof (queue_work_kill _ Hp). lia.
Qed.

(** Every step of the writer brings its end closer. *)
Lemma writer_step_work r now s s' : io_inv s -> stop_pending s -> makes_progress (L_writer r now) ->
  writer_step r now s = Some s' -> (writer_work s' < writer_work s)%nat /\ stop_pending s'.
Proof.
  intros [Ho Ht] Hp Hr E. pose proof (oi_writer s Ho) as Hok. unfold writer_step in E.
  destruct (writer s) as [| |c|c|c|c|c i n|c i n|c i|c i| |c|c| | | |] eqn:Ew; try discriminate E;
    injection E as <-; try (by apply pop_work; auto); try (by apply send_work; auto);
    (split; [unfold writer_work, after_work; io_cbn; rewrite Ew; try lia|]); try by left.
  - unfold stop_pending in *. io_cbn. rewrite Ew in Hp. tauto.
  - destruct (m_is_stopping s); lia.
  - unfold stop_pending in *. io_cbn. rewrite Ew in Hp. destruct (m_is_stopping s) eqn:Est; tauto.
  - unfold inner_work. destruct (m_is_stopping s); cbn [negb andb]; [lia|]. destruct (n <? i_size i); lia.
  - unfold stop_pending in *. io_cbn. rewrite Ew in Hp. by destruct (negb _ && _).
  - destruct (is_kill i) eqn:Ek; [lia|]. destruct (m_is_stopping s) eqn:Est; lia.
  - unfold stop_pending in *. io_cbn. rewrite Ew in Hp. destruct (is_kill i) eqn:Ek; [by right; right|].
    destruct Hp as [?|[?|?]]; [by left|by right; left|done].
  - destruct Hok as [-> _]. lia.
  - left. by destruct Hok as [? _].
  - left. destruct c; io_cbn; by destruct Hok as (_ & _ & ?).
  - left. destruct (m_listener s); io_cbn; by destruct Hok as [? _].
  - left. by destruct Hok as [? _].
Qed.

(** The other threads do not move it away. *)
Lemma other_step_work s l s' : io_inv s -> stop_pending s -> step s l s' ->
  match l with L_writer _ _ => True | _ => writer_work s' = writer_work s /\ stop_pending s' end.
Proof.
  intros Hi Hp Hstep. pose proof Hi as [Ho Ht].
  destruct Hstep as [s created s' E|s n a s' E|s r now s' E|s c Ew|s i Ha Hit|s Ha]; [| |done| | |].
  - pose proof (ti_owner s Ht) as Hw. unfold owner_step in E.
    destruct (owner s) eqn:Eo; try discriminate E; repeat (case_match; try discriminate E); injection E as <-.
    all: try (destruct (stop_view s) as [Hv Hs]; [reflexivity|done]).
    all: try (match goal with |- _ = _ /\ stop_pending ?s2 => destruct (stop_view s s2 eq_refl); auto end).
    destruct Hw as [_ Hw]. unfold writer_work, stop_pending, after_work in *. io_cbn. rewrite Hw in *. done.
  - destruct (reader_step_wview _ _ _ _ E) as [Hv|(i & _ & Hv)]; destruct (stop_view _ _ Hv) as [Hw Hs].
    + auto.
    + rewrite Hw, writer_work_push by done. split; [done|]. by apply Hs, stop_pending_push.
  - destruct (stop_pending_lock s c Ho) as (i & items & Eq); [tauto|done|].
    pose proof (oi_asleep s Ho) as Ha. rewrite Ew, Eq in Ha. done.
  - split; [by apply writer_work_push|by apply stop_pending_push].
  - split; [by apply writer_work_push|by apply stop_pending_push].
Qed.

Definition is_writer (l : label) : bool := match l with L_writer _ _ => true | _ => false end.
Definition is_reader (l : label) : bool := match l with L_reader _ _ => true | _ => false end.
(** How often a thread moves in a run. *)
Definition steps_of (p : label -> bool) (ls : list label) : nat := length (filter (fun l => p l = true) ls).

Lemma steps_of_snoc p ls l : steps_of p (ls ++ [l]) = (steps_of p ls + if p l then 1 else 0)%nat.
Proof.
  unfold steps_of. rewrite filter_app, length_app. f_equal. unfold filter. cbn.
  destruct (decide (p l = true)) as [->|Hn]; [done|]. by apply not_true_is_false in Hn as ->.
Qed.

(** Once the end is pending, the writer takes a bounded number of steps. *)
Lemma writer_run_bounded s ls s' : run s ls s' -> io_inv s -> stop_pending s -> Forall makes_progress ls ->
  (steps_of is_writer ls + writer_work s' <= writer_work s)%nat /\ stop_pending s' /\ io_inv s'.
Proof.
  induction 1 as [|ls s1 l s2 Hrun IH Hstep]; intros Hi Hp Hprog; [cbn; auto|].
  apply Forall_app in Hprog as [Hprog Hl]. apply Forall_cons in Hl as [Hl _].
  destruct (IH Hi Hp Hprog) as (Hle & Hp1 & Hi1). rewrite steps_of_snoc.
  pose proof (other_step_work _ _ _ Hi1 Hp1 Hstep) as Hother.
  pose proof (io_inv_step _ _ _ Hstep Hi1) as Hi2.
  destruct l as [cr|n a|r now| |i|]; cbn [is_writer]; try (split; [destruct Hother; lia|exact (conj (proj2 Hother) Hi2)]).
  inversion Hstep as [| |? ? ? ? E| | |]; subst. destruct (writer_step_work r now s1 s2 Hi1 Hp1 Hl E). split; [lia|done].
Qed.

(** It is never stuck before it ends. *)
Lemma writer_enabled r now s : io_inv s -> stop_pending s -> writer s <> W_none -> writer s <> W_exited ->
  is_Some (writer_step r now s).
Proof.
  intros [Ho _] Hp Hn Hx. pose proof (oi_writer s Ho) as Hok. unfold writer_step.
  destruct (writer s) as [| |c|c|c|c|c i n|c i n|c i|c i| |c|c| | | |] eqn:Ew; eauto; try done.
  destruct (stop_pending_lock s c Ho) as (i & items & Eq); [tauto|done|].
  pose proof (oi_asleep s Ho) as Ha. by rewrite Ew, Eq in Ha.
Qed.

End LegacyProps.
