(* ===== verification/LegacyReader.v ===== *)
(** The reader thread of [old/AdminIO.cc]: what it has in its buffer, the
    messages it hands to the listener, and its end after the writer's. *)

From S2P Require Import Prelude Decimal Utils TxContainer SamBuffer SamProtocol ReadBuffer Client Delivery LegacyIO LegacyProps.

Local Open Scope Z_scope.

Module LegacyReader.
Import LegacyIO LegacyProps.

(** * The buffer *)

(** Between rounds: the bytes [l] at the start of the array. *)
Definition at_start (b : ReadBuffer.t) (l : bytes) : Prop :=
  ReactorReadBuffer.data b l /\ ReactorReadBuffer.m_rp b = 0 /\ ReactorReadBuffer.m_buf_cap b < 2 ^ 52.

(** The bytes read and not yet consumed, by where the reader is. *)
Definition buffered (r : reader_state) (l : bytes) : Prop :=
  match r with
  | R_poll b _ | R_ready b _ | R_check b _ (inr _) => at_start b l
  | R_read b _ => at_start b l /\ ReadBuffer.space_remain b <> 0
  | R_check b _ (inl d) =>
      exists l0, l = l0 ++ d /\ at_start b l0 /\ Z.of_nat (length d) <= ReadBuffer.space_remain b
  | R_decode b _ => ReactorReadBuffer.data b l /\ ReactorReadBuffer.m_buf_cap b < 2 ^ 52
  | R_msg b _ k =>
      (ReactorReadBuffer.data b l /\ ReactorReadBuffer.m_buf_cap b < 2 ^ 52) /\ 0 < k <= Z.of_nat (length l)
  | _ => True
  end.

Lemma at_start_new : at_start (ReadBuffer.zero ReadBuffer.new) [].
Proof. split; [by apply (ReactorReadBuffer.data_new 4096)|done]. Qed.

Lemma space_eq b l : at_start b l ->
  ReadBuffer.space_remain b = ReactorReadBuffer.m_buf_cap b - Z.of_nat (length l) /\
  Z.of_nat (length l) <= ReactorReadBuffer.m_buf_cap b.
Proof.
  intros ([pre post Hb Hr Ha Hc Hm] & H0 & _). unfold ReadBuffer.space_remain, ReactorReadBuffer.space_remain.
  rewrite Ha. rewrite Hb, !length_app in Hc. rewrite size_t_small by lia. lia.
Qed.

(** A full buffer is made larger before the next read. *)
Lemma make_room_ok b l : at_start b l -> Z.of_nat (length l) < 2 ^ 50 ->
  exists b', make_room b = Ok b' /\ at_start b' l /\ ReadBuffer.space_remain b' <> 0.
Proof.
  intros Hb Hl. unfold make_room. destruct (space_eq b l Hb) as [Hs Hc].
  destruct (Z.eqb_spec (ReadBuffer.space_remain b) 0) as [H0|H0].
  - destruct Hb as (Hd & Hr & Hm).
    destruct (ReactorReadBuffer.data_grow b l Hd Hm) as (b1 & E & Hd1 & Hr1 & Hc1).
    unfold ReadBuffer.grow. rewrite E. cbn [mbind result_bind].
    assert (at_start b1 l) as Hb1 by (split; [done|]; split; [congruence|lia]).
    destruct (space_eq b1 l Hb1) as [Hs1 _]. destruct (Z.eqb_spec (ReadBuffer.space_remain b1) 0); [lia|].
    by exists b1.
  - cbn [mbind result_bind]. destruct (Z.eqb_spec (ReadBuffer.space_remain b) 0); [done|]. by exists b.
Qed.

Lemma end_round_ok b l msg s : ReactorReadBuffer.data b l -> ReactorReadBuffer.m_buf_cap b < 2 ^ 52 ->
  exists b', end_round b msg s = set_reader (R_poll b' msg) s /\ at_start b' l.
Proof.
  intros Hd Hc. destruct (ReactorReadBuffer.data_shift b l Hd) as (b' & E & Hd' & Hr' & Hc').
  exists b'. unfold end_round, ReadBuffer.shift_pending_to_array_start. rewrite E. split; [done|].
  split; [done|]. split; [done|]. by rewrite Hc'.
Qed.

Lemma decode_consumed b l msg k msg' : ReactorReadBuffer.data b l ->
  decodeMsg (ReadBuffer.rp b) msg (Z.to_nat (ReadBuffer.bytesavail b)) = Ok (k, msg') ->
  0 <= k <= Z.of_nat (length l).
Proof.
  intros Hd E. destruct (ReactorReadBuffer.data_rp b l Hd) as [junk Hrp].
  pose proof (ReactorReadBuffer.data_avail b l Hd) as Hav. unfold ReadBuffer.rp, ReadBuffer.bytesavail in E.
  rewrite Hav, Nat2Z.id, Hrp in E. eapply decodeMsg_consumed; [|exact E]. rewrite length_app. lia.
Qed.

(** The bytes a step consumes. *)
Definition consumes (r : reader_state) (l : bytes) : bytes :=
  match r with R_msg _ _ k => take (Z.to_nat k) l | _ => [] end.

(** After a step from a state in which [old] was consumed and [l] buffered. *)
Definition buffered_after (old : bytes) (s : AdminIO) : Prop :=
  exists l, bytes_read (io_trace s) = old ++ l /\ buffered (reader s) l.

Lemma buffered_done old l s : bytes_read (io_trace s) = old ++ l -> (forall l, buffered (reader s) l) -> buffered_after old s.
Proof. intros E Hb. by exists l. Qed.

Lemma buffered_throw old l e s : bytes_read (io_trace s) = old ++ l -> buffered_after old (throw_reader e s).
Proof. intros E. apply (buffered_done _ l); [by unfold throw_reader|]. unfold throw_reader. by destruct (is_undefined e). Qed.

Section buffer_steps.
Context (s : AdminIO) (old l : bytes) (E : bytes_read (io_trace s) = old ++ l).

Lemma do_read_buffered a b m : buffered (R_read b m) l -> buffered_after old (do_read a b m s).
Proof using E.
  intros [Hb Hsp]. unfold do_read. destruct a as [d|e].
  - exists (l ++ take (Z.to_nat (ReadBuffer.space_remain b)) d). io_cbn. rewrite E, app_assoc. split; [done|].
    exists l. split; [done|]. split; [done|]. pose proof (space_eq b l Hb). rewrite length_take. lia.
  - destruct (m_log_io_events s); [by apply (buffered_done _ l)|]. by exists l.
Qed.

Lemma after_read_buffered b m r : buffered (R_check b m r) l -> buffered_after old (after_read b m r s).
Proof using E.
  intros Hb. unfold after_read. destruct (m_is_stopping s); [by apply (buffered_done _ l)|].
  destruct r as [[|x d]|e]; [by apply (buffered_done _ l)| |by apply (buffered_done _ l)].
  destruct Hb as (l0 & -> & (Hd & Hr & Hc) & Hsp).
  destruct (ReactorReadBuffer.data_write b l0 (x :: d) Hd Hr Hsp) as (b1 & -> & Hd1 & _ & Hc1).
  exists (l0 ++ x :: d). split; [done|]. io_cbn. split; [done|lia].
Qed.

Lemma decode_one_buffered b m : buffered (R_decode b m) l -> buffered_after old (decode_one b m s).
Proof using E.
  intros [Hd Hc]. unfold decode_one. destruct (end_round_ok b l m s Hd Hc) as (b1 & -> & Hb1).
  destruct (_ =? 0); [by exists l|].
  destruct (decodeMsg _ _ _) as [[k m']|e] eqn:Ed; [|destruct (is_undefined e); by apply (buffered_done _ l)].
  pose proof (decode_consumed b l m k m' Hd Ed).
  destruct (Z.ltb_spec 0 k); [exists l; split; [done|]; io_cbn; split; [done|lia]|].
  destruct (end_round_ok b l m' s Hd Hc) as (b2 & -> & Hb2). by exists l.
Qed.

Lemma msg_buffered b m k : buffered (R_msg b m k) l ->
  buffered_after (old ++ take (Z.to_nat k) l)
    (set_reader (R_decode (ReadBuffer.consume k b) m) (if m_listener s then log (Ev_msg m) s else s)).
Proof using E.
  intros [[Hd Hc] Hk]. exists (drop (Z.to_nat k) l). rewrite <-app_assoc, take_drop.
  split; [destruct (m_listener s); io_cbn; done|].
  split; [|done]. replace k with (Z.of_nat (length (take (Z.to_nat k) l))) at 1 by (rewrite length_take; lia).
  apply ReactorReadBuffer.data_consume. by rewrite take_drop.
Qed.

(** Every step of the reader keeps account of the bytes. *)
Lemma reader_step_buffered n a s' : Z.of_nat (length l) < 2 ^ 50 -> buffered (reader s) l -> (reader s = R_start -> l = []) ->
  reader_step n a s = Some s' -> buffered_after (old ++ consumes (reader s) l) s'.
Proof using E.
  unfold reader_step. destruct badmsg_item_ok as (bad & -> & _). intros Hl Hb Hst Hs.
  destruct (reader s) as [| |b m|b m|b m|b m r|b m|b m k|e|e| | | |what] eqn:Er; try discriminate Hs;
    injection Hs as <-; cbn [consumes]; rewrite ?app_nil_r; try (by apply (buffered_done _ l));
    [| | |by apply do_read_buffered|by apply after_read_buffered|by apply decode_one_buffered|by apply msg_buffered|..].
  - exists []. rewrite (Hst eq_refl) in E. split; [done|]. apply at_start_new.
  - destruct (m_is_stopping s); [by apply (buffered_done _ l)|].
    destruct (read_timeo _ _) as [[]|e]; [by exists l|exists l; by rewrite Er|by apply (buffered_throw _ l)].
  - destruct (m_is_stopping s); [by apply (buffered_done _ l)|].
    destruct (make_room_ok b l Hb Hl) as (b1 & -> & Hb1). by exists l.
  - apply (buffered_done _ l); [|done]. unfold enqueue, push_item. io_cbn. done.
  - apply (buffered_done _ l); [|done]. destruct e; io_cbn; done.
  - apply (buffered_done _ l); [|done]. unfold request_stop, push_item. io_cbn. done.
Qed.

End buffer_steps.

(** * What the other steps leave alone *)

Definition input_side (s : AdminIO) := (m_fd s, m_listener s, bytes_read (io_trace s), delivered (io_trace s)).

Lemma push_input i s : input_side (push_item i s) = input_side s.
Proof. unfold input_side, push_item. io_cbn. done. Qed.

Lemma writer_input r now s s' : writer_step r now s = Some s' -> input_side s' = input_side s.
Proof.
  unfold writer_step, wait_and_pop, send, input_side. intros E.
  repeat (case_match; try discriminate E); injection E as <-; io_cbn; congruence.
Qed.

Lemma owner_input created s s' : owner_step created s = Some s' -> thr_inv s -> input_side s' = input_side s /\
  (reader s' = reader s \/ reader s = R_none /\ reader s' = R_start).
Proof.
  intros E Ht. pose proof (ti_owner s Ht) as Ho. unfold owner_step in E.
  destruct (owner s); repeat (case_match; try discriminate E); try discriminate E; injection E as <-;
    (split; [reflexivity|]); auto. right. by destruct Ho.
Qed.

Lemma other_step_input s l s' : step s l s' -> thr_inv s -> is_reader l = false -> input_side s' = input_side s /\
  (reader s' = reader s \/ reader s = R_none /\ reader s' = R_start).
Proof.
  intros Hstep Ht Hl. destruct Hstep as [s created s' E|s n a s' E|s r now s' E|s c Ew|s i Ha Hit|s Ha]; try done.
  - by eapply owner_input.
  - split; [by eapply writer_input|]. left. by destruct (writer_step_moves _ _ _ _ E) as (_ & _ & _ & ? & _).
  - auto.
  - split; [by apply push_input|]. by left.
  - split; [by apply push_input|]. by left.
Qed.

(** A step of the reader reads more, or nothing; the listener gets a message
    when one has been decoded. *)
Lemma reader_step_input n a s s' : reader_step n a s = Some s' ->
  m_fd s' = m_fd s /\ m_listener s' = m_listener s /\
  bytes_read (io_trace s) `prefix_of` bytes_read (io_trace s') /\
  delivered (io_trace s') = delivered (io_trace s) ++
    match reader s with R_msg _ m _ => if m_listener s then [m] else [] | _ => [] end.
Proof.
  unfold reader_step. destruct badmsg_item_ok as (bad & -> & _).
  destruct (reader s) as [| |b m|b m|b m|b m r|b m|b m k|e|e| | | |what] eqn:Er; intros Hs; try discriminate Hs;
    injection Hs as <-; unfold do_read, after_read, decode_one, end_round, throw_reader, enqueue, request_stop, push_item;
    repeat case_match; io_cbn; repeat (split; try done); by apply prefix_app_r.
Qed.

Lemma step_bytes_read s l s' : step s l s' -> thr_inv s ->
  bytes_read (io_trace s) `prefix_of` bytes_read (io_trace s') /\ m_fd s' = m_fd s /\ m_listener s' = m_listener s.
Proof.
  intros Hstep Ht. destruct (is_reader l) eqn:El.
  - inversion Hstep; subst; try done. destruct (reader_step_input _ _ _ _ H) as (? & ? & ? & _). done.
  - destruct (other_step_input _ _ _ Hstep Ht El) as [E _]. unfold input_side in E. injection E as -> -> -> _. done.
Qed.

(** * The invariant of the buffer *)

Definition before_start (r : reader_state) : bool := match r with R_none | R_start => true | _ => false end.

(** Every byte read is consumed or buffered. *)
Record read_state (s : AdminIO) (old l : bytes) : Prop := {
  rs_bytes : bytes_read (io_trace s) = old ++ l;
  rs_buffered : buffered (reader s) l;
  rs_start : before_start (reader s) = true -> old ++ l = [] }.

Definition small (s : AdminIO) : Prop := Z.of_nat (length (bytes_read (io_trace s))) < 2 ^ 50.

Lemma small_before s l s' : step s l s' -> thr_inv s -> small s' -> small s.
Proof.
  intros Hstep Ht Hs. destruct (step_bytes_read _ _ _ Hstep Ht) as [Hp _]. unfold small in *.
  apply prefix_length in Hp. lia.
Qed.

Lemma read_state_reader n a s s' old l : reader_step n a s = Some s' -> small s -> read_state s old l ->
  exists l', read_state s' (old ++ consumes (reader s) l) l'.
Proof.
  intros Hs Hsm [E Hb Hst]. unfold small in Hsm. rewrite E, length_app in Hsm.
  destruct (reader_step_buffered s old l E n a s') as (l' & E' & Hb'); [lia|done| |done|].
  { intros Hr. rewrite Hr in Hst. by apply app_eq_nil in Hst as [_ ?]. }
  exists l'. split; [done|done|]. intros Hbs.
  destruct (reader_step_moves _ _ _ _ Hs) as (_ & _ & _ & _ & Hm & _). by destruct (reader s').
Qed.

Lemma read_state_other s lb s' old l : step s lb s' -> thr_inv s -> is_reader lb = false -> read_state s old l ->
  read_state s' old l.
Proof.
  intros Hstep Ht Hl [E Hb Hst]. destruct (other_step_input _ _ _ Hstep Ht Hl) as [Ei Er].
  unfold input_side in Ei. injection Ei as _ _ Ei _. destruct Er as [Er|[Er Er']].
  - split; rewrite ?Ei, ?Er; done.
  - split; rewrite ?Ei, ?Er'; [done|done|]. intros _. apply Hst. by rewrite Er.
Qed.

Definition read_inv (s : AdminIO) : Prop := small s -> exists old l, read_state s old l.

Lemma read_inv_step s lb s' : step s lb s' -> io_inv s -> read_inv s -> read_inv s'.
Proof.
  intros Hstep [_ Ht] Hi Hsm. pose proof (small_before _ _ _ Hstep Ht Hsm) as Hsm0. destruct (Hi Hsm0) as (old & l & Hr).
  destruct (is_reader lb) eqn:El; [|by exists old, l; eapply read_state_other].
  inversion Hstep; subst; try done. destruct (read_state_reader _ _ _ _ old l H Hsm0 Hr) as [l' Hl']. eauto.
Qed.

Lemma read_inv_new fd li d : read_inv (new_AdminIO fd li d).
Proof. intros _. by exists [], []. Qed.

Lemma read_inv_run s ls s' : run s ls s' -> io_inv s -> read_inv s -> read_inv s'.
Proof.
  induction 1 as [|ls s1 lb s2 Hrun IH Hstep]; [done|]. intros Hi Hr.
  eapply read_inv_step; [exact Hstep| |auto]. by eapply io_inv_run.
Qed.

(** * Stopping: the reader *)

(** A bound on the reader's steps once the writer has set [m_is_stopping]. *)
Definition reader_work (r : reader_state) : nat :=
  match r with
  | R_start => 3
  | R_poll _ _ | R_ready _ _ | R_check _ _ _ | R_stop => 2
  | R_read _ _ | R_badmsg _ => 4
  | R_throw _ => 3
  | R_decode b _ => 2 * Z.to_nat (ReadBuffer.bytesavail b) + 5
  | R_msg b _ k => 2 * Z.to_nat (ReadBuffer.bytesavail b - k) + 6
  | R_complete => 1
  | R_none | R_exited | R_undefined _ => 0
  end.

Lemma throw_reader_work e s : (reader_work (reader (throw_reader e s)) <= 3)%nat.
Proof. unfold throw_reader. destruct (is_undefined e); cbn; lia. Qed.

Lemma end_round_work b m s : (reader_work (reader (end_round b m s)) <= 3)%nat.
Proof.
  unfold end_round. destruct (ReadBuffer.shift_pending_to_array_start b); [cbn; lia|apply throw_reader_work].
Qed.

Lemma decode_one_work b m s l : ReactorReadBuffer.data b l ->
  (reader_work (reader (decode_one b m s)) < reader_work (R_decode b m))%nat.
Proof.
  intros Hd. pose proof (ReactorReadBuffer.data_avail b l Hd) as Hav. unfold decode_one.
  pose proof (end_round_work b m s). cbn [reader_work]. destruct (_ =? 0); [lia|].
  destruct (decodeMsg _ _ _) as [[k m']|e] eqn:Ed; [|destruct (is_undefined e); cbn [set_reader reader reader_work]; lia].
  pose proof (decode_consumed b l m k m' Hd Ed). pose proof (end_round_work b m' s).
  destruct (Z.ltb_spec 0 k); [|lia]. cbn [set_reader reader reader_work]. unfold ReadBuffer.bytesavail in *. lia.
Qed.

Lemma reader_step_work n a s s' l : m_is_stopping s = true -> buffered (reader s) l ->
  reader_step n a s = Some s' -> (reader_work (reader s') < reader_work (reader s))%nat.
Proof.
  intros Hst Hb. unfold reader_step. destruct badmsg_item_ok as (bad & -> & _). rewrite Hst.
  destruct (reader s) as [| |b m|b m|b m|b m r|b m|b m k|e|e| | | |what] eqn:Er; intros Hs; try discriminate Hs;
    injection Hs as <-; try (cbn; lia).
  - unfold do_read. destruct a; [cbn; lia|]. destruct (m_log_io_events s); cbn; lia.
  - unfold after_read. rewrite Hst. cbn. lia.
  - apply (decode_one_work b m s l). apply Hb.
  - destruct Hb as [[Hd _] Hk]. pose proof (ReactorReadBuffer.data_avail b l Hd) as Hav.
    cbn [set_reader reader reader_work]. unfold ReadBuffer.bytesavail, ReadBuffer.consume in *.
    assert (ReactorReadBuffer.bytesavail (ReactorReadBuffer.consume k b) = ReactorReadBuffer.bytesavail b - k) as ->;
      [|lia].
    destruct Hd as [pre post Eb _ _ Hc Hm]. rewrite Eb, !length_app in Hc.
    unfold ReactorReadBuffer.consume, ReactorReadBuffer.bytesavail in *. cbn [ReactorReadBuffer.m_bytesavail].
    rewrite size_t_small; lia.
Qed.

Lemma reader_enabled n a s : reader s <> R_none -> reader s <> R_exited -> (forall w, reader s <> R_undefined w) ->
  is_Some (reader_step n a s).
Proof. intros H1 H2 H3. unfold reader_step. destruct (reader s) eqn:E; eauto; naive_solver. Qed.

(** Stopping starts with the writer, so both threads exist. *)
Lemma stopping_started s : io_inv s -> m_is_stopping s = true -> reader s <> R_none /\ writer s <> W_none.
Proof.
  intros [Ho Ht] Hst. pose proof (oi_writer s Ho) as Hw. pose proof (ti_owner s Ht) as Hown.
  assert (writer s <> W_none) as Hn by (intros E; rewrite E, Hst in Hw; by destruct Hw).
  split; [|done]. destruct (owner s); try (by destruct Hown); destruct Hown as [-> _]; done.
Qed.

Lemma stopping_step s lb s' : step s lb s' -> m_is_stopping s = true -> m_is_stopping s' = true.
Proof.
  intros Hstep Hst. destruct Hstep as [s created s' E|s n a s' E|s r now s' E|s c Ew|s i Ha Hit|s Ha]; try done.
  - unfold owner_step in E. by repeat (case_match; try discriminate E); injection E as <-.
  - destruct (reader_step_wview _ _ _ _ E) as [Hv|(i & _ & Hv)]; unfold wview in Hv; injection Hv as _ _ _ Hv _ _ _ _ _ _;
      by rewrite Hv.
  - unfold writer_step, wait_and_pop, send in E. by repeat (case_match; try discriminate E); injection E as <-.
Qed.

Lemma writer_ended_run s ls s' : run s ls s' -> io_inv s -> writer s = W_exited -> writer s' = W_exited.
Proof.
  induction 1 as [|ls s1 lb s2 Hrun IH Hstep]; [done|]. intros Hi Hw.
  pose proof (io_inv_run _ _ _ Hrun Hi) as [_ Ht]. specialize (IH Hi Hw).
  destruct Hstep as [s1 created s2 E|s1 n a s2 E|s1 r now s2 E|s1 c Ew|s1 i Ha Hit|s1 Ha]; try congruence.
  - pose proof (ti_owner s1 Ht) as Ho. unfold owner_step in E.
    destruct (owner s1); repeat (case_match; try discriminate E); try discriminate E; injection E as <-; try done.
    destruct Ho. congruence.
  - destruct (reader_step_moves _ _ _ _ E) as (_ & _ & _ & [->| ->] & _); by rewrite ?IH.
  - unfold writer_step in E. by rewrite IH in E.
  - unfold enqueue, push_item. io_cbn. by rewrite IH.
  - unfold request_stop, push_item. io_cbn. by rewrite IH.
Qed.

Lemma reader_run_bounded s ls s'  : run s ls s' -> io_inv s -> read_inv s -> m_is_stopping s = true -> small s' ->
  (steps_of is_reader ls + reader_work (reader s') <= reader_work (reader s))%nat /\ m_is_stopping s' = true.
Proof.
  induction 1 as [|ls s1 lb s2 Hrun IH Hstep]; intros Hi Hr Hst Hsm; [cbn; auto|].
  pose proof (io_inv_run _ _ _ Hrun Hi) as Hi1. pose proof (read_inv_run _ _ _ Hrun Hi Hr) as Hr1.
  pose proof Hi1 as [_ Ht1]. pose proof (small_before _ _ _ Hstep Ht1 Hsm) as Hsm1.
  destruct (IH Hi Hr Hst Hsm1) as [Hle Hst1]. rewrite steps_of_snoc. split; [|by eapply stopping_step].
  destruct (is_reader lb) eqn:El.
  - inversion Hstep as [|? n a ? E| | | |]; subst; try done. destruct (Hr1 Hsm1) as (old & l & Hrs).
    pose proof (reader_step_work n a s1 s2 l Hst1 (rs_buffered _ _ _ Hrs) E). lia.
  - destruct (other_step_input _ _ _ Hstep Ht1 El) as [_ [->|[E _]]]; [lia|].
    by destruct (stopping_started s1 Hi1 Hst1).
Qed.

(** * Messages *)

(** The reader has handed over [ms1] of the messages and works on the rest. *)
Record deliv_state (ms : list txMessage) (s : AdminIO) (ms1 ms2 : list txMessage) (l : bytes) : Prop := {
  ds_split : ms = ms1 ++ ms2;
  ds_read : read_state s (stream ms1) l;
  ds_delivered : delivered (io_trace s) = ms1;
  ds_reader : match reader s with
    | R_poll _ _ | R_ready _ _ | R_read _ _ => partial l ms2
    | R_msg _ m k => exists ms3, ms2 = m :: ms3 /\ k = wire_length m
    | R_badmsg _ | R_undefined _ => False
    | _ => True
    end }.

Lemma prefix_of_stream ms1 ms2 l : stream ms1 ++ l `prefix_of` stream (ms1 ++ ms2) -> l `prefix_of` stream ms2.
Proof. unfold stream. rewrite flat_map_app. apply prefix_app_inv. Qed.

(** What the decoder does with a beginning of a stream: it takes the first
    message when it is complete, and waits otherwise. *)
Lemma decode_stream b l msg ms : ReactorReadBuffer.data b l -> l <> [] -> Forall sendable ms -> l `prefix_of` stream ms ->
  let r := decodeMsg (ReadBuffer.rp b) msg (Z.to_nat (ReadBuffer.bytesavail b)) in
  (r = Ok (0, msg) /\ partial l ms) \/
  exists m ms3 l', ms = m :: ms3 /\ l = wire m ++ l' /\ r = Ok (wire_length m, m).
Proof.
  intros Hd Hne Hs Hp. cbv zeta. destruct (ReactorReadBuffer.data_rp b l Hd) as [junk Hrp].
  pose proof (ReactorReadBuffer.data_avail b l Hd) as Hav.
  unfold ReadBuffer.rp, ReadBuffer.bytesavail. rewrite Hrp, Hav, Nat2Z.id.
  destruct (stream_split ms l Hp) as (ms1 & ms2 & part & -> & -> & Hpart). destruct ms1 as [|m ms1].
  - left. cbn [app stream flat_map] in *. destruct ms2 as [|m ms2]; [by rewrite Hpart in Hne|].
    split; [|done]. destruct Hpart as [[k Hk] Hlt]. apply Forall_cons in Hs as [(_ & _ & Hmax) _].
    pose proof (length_wire m). apply (decodeMsg_wire_prefix m); [|done|lia].
    by rewrite Hk, !take_app_length.
  - right. cbn [app] in Hs. apply Forall_cons in Hs as [(Hc & Hw & Hmax) _]. cbn [stream flat_map app] in *.
    exists m, (ms1 ++ ms2), (flat_map wire ms1 ++ part). rewrite <-app_assoc. split; [done|]. split; [done|].
    rewrite <-(app_assoc (wire m) _ junk). apply decodeMsg_wire; [done|done|done|].
    pose proof (length_wire m). rewrite !length_app. lia.
Qed.

Lemma partial_nil ms : partial [] ms.
Proof. destruct ms as [|m ms]; [done|]. split; [apply prefix_nil|apply length_wire_pos]. Qed.

(** The loop over the buffer. *)
Lemma decode_one_deliv ms s ms1 ms2 l b m s' : deliv_state ms s ms1 ms2 l -> reader s = R_decode b m ->
  Forall sendable ms -> bytes_read (io_trace s) `prefix_of` stream ms -> s' = decode_one b m s ->
  match reader s' with
  | R_poll _ _ => partial l ms2
  | R_msg _ m k => exists ms3, ms2 = m :: ms3 /\ k = wire_length m
  | _ => False
  end.
Proof.
  intros [-> [E Hb _] _ _] Er Hs Hp ->. rewrite Er in Hb. destruct Hb as [Hd Hc]. rewrite E in Hp.
  apply prefix_of_stream in Hp. apply Forall_app in Hs as [_ Hs]. unfold decode_one.
  destruct (end_round_ok b l m s Hd Hc) as (b1 & -> & _).
  pose proof (ReactorReadBuffer.data_avail b l Hd) as Hav.
  destruct (Z.eqb_spec (ReadBuffer.bytesavail b) 0) as [H0|H0]; unfold ReadBuffer.bytesavail in H0; rewrite Hav in H0.
  { destruct l; [apply partial_nil|done]. }
  destruct (decode_stream b l m ms2 Hd) as [[-> Hpart]|(m1 & ms3 & l' & -> & -> & ->)]; [by intros ->|done|done| |].
  - cbn [Z.ltb Z.compare]. by destruct (end_round_ok b l m s Hd Hc) as (b2 & -> & _).
  - pose proof (length_wire m1). pose proof (length_wire_pos m1). destruct (Z.ltb_spec 0 (wire_length m1)); [|lia].
    io_cbn. eauto.
Qed.

(** A step that leaves the loop over the buffer, under the invariant: no error
    but what the socket reports. *)
Definition settled (l l' : bytes) (r r' : reader_state) : Prop :=
  match r' with
  | R_poll _ _ | R_ready _ _ | R_read _ _ =>
      l' = l /\ match r with R_start => l = [] | R_poll _ _ | R_ready _ _ | R_read _ _ => True | _ => False end
  | R_msg _ _ _ | R_badmsg _ | R_undefined _ => False
  | _ => True
  end.

Lemma reader_step_settled n a s s' old l l' : reader_step n a s = Some s' -> 0 <= m_fd s < FD_SETSIZE ->
  read_state s old l -> Z.of_nat (length l) < 2 ^ 50 -> bytes_read (io_trace s') = (old ++ consumes (reader s) l) ++ l' ->
  match reader s with R_decode _ _ | R_msg _ _ _ | R_badmsg _ => True | r => settled l l' r (reader s') end.
Proof.
  intros Hs Hfd [E Hb Hst] Hl E'. unfold reader_step in Hs. destruct badmsg_item_ok as (bad & Ebad & _).
  rewrite Ebad in Hs. clear Ebad.
  destruct (reader s) as [| |b m|b m|b m|b m r|b m|b m k|e|e| | | |what] eqn:Er; try discriminate Hs;
    injection Hs as <-; cbn [consumes] in E'; rewrite ?app_nil_r in E'; try exact I.
  - specialize (Hst eq_refl). change (bytes_read (io_trace s) = old ++ l') in E'. rewrite Hst in E.
    rewrite E in E'. symmetry in E'. apply app_eq_nil in E' as [_ ->]. apply app_eq_nil in Hst as [_ ->]. split; reflexivity.
  - destruct (m_is_stopping s); [done|]. unfold read_timeo in *.
    destruct (Z.leb_spec 0 (m_fd s)); [|lia]. destruct (Z.ltb_spec (m_fd s) FD_SETSIZE); [|lia]. cbn [andb] in *.
    destruct (0 <? n); io_cbn; rewrite ?Er; rewrite E in E'; apply app_inv_head in E'; by subst.
  - destruct (m_is_stopping s); [done|]. destruct (make_room_ok b l Hb Hl) as (b1 & E1 & _). rewrite E1 in *.
    io_cbn. rewrite E in E'. apply app_inv_head in E'. by subst.
  - unfold do_read in *. destruct a; [done|]. by destruct (m_log_io_events s).
  - unfold after_read. destruct (m_is_stopping s); [done|]. destruct r as [[|x d]|e]; [done| |done].
    destruct Hb as (l0 & _ & (Hd & Hr & _) & Hsp).
    by destruct (ReactorReadBuffer.data_write b l0 (x :: d) Hd Hr Hsp) as (b1 & -> & _).
Qed.

Lemma stream_snoc ms m : stream (ms ++ [m]) = stream ms ++ wire m.
Proof. unfold stream. rewrite flat_map_app. cbn. by rewrite app_nil_r. Qed.

(** Handing over a message. *)
Lemma deliv_msg ms n a s s' ms1 ms2 l b m k : reader_step n a s = Some s' -> reader s = R_msg b m k ->
  m_listener s = true -> bytes_read (io_trace s') `prefix_of` stream ms -> small s ->
  deliv_state ms s ms1 ms2 l -> exists ms2' l', deliv_state ms s' (ms1 ++ [m]) ms2' l'.
Proof.
  intros Hs Er Hli Hp Hsm [Hms Hrs Hdel Hrd].
  destruct (read_state_reader _ _ _ _ _ _ Hs Hsm Hrs) as [l' Hrs'].
  destruct (reader_step_input _ _ _ _ Hs) as (_ & _ & Hpre & Hdel').
  pose proof Hrs as [E Hb _]. rewrite Er in *. rewrite Hli, Hdel in Hdel'. cbn [consumes] in Hrs'.
  destruct Hrd as (ms3 & -> & ->). destruct Hb as [_ Hk]. exists ms3, l'.
  assert (l `prefix_of` stream (m :: ms3)) as [z Hz].
  { apply (prefix_of_stream ms1). rewrite <-Hms, <-E. by etransitivity. }
  pose proof (length_wire m) as Hlw. rewrite <-Hlw, Nat2Z.id in Hrs'. cbn [stream flat_map] in Hz.
  apply (f_equal (take (length (wire m)))) in Hz. rewrite take_app_length, take_app_le in Hz by lia.
  rewrite <-Hz in Hrs'. split; [by rewrite <-app_assoc|by rewrite stream_snoc|done|].
  unfold reader_step in Hs. rewrite Er in Hs. by injection Hs as <-.
Qed.

(** Looking for the next message. *)
Lemma deliv_decode ms n a s s' ms1 ms2 l b m : reader_step n a s = Some s' -> reader s = R_decode b m ->
  Forall sendable ms -> bytes_read (io_trace s') `prefix_of` stream ms -> small s ->
  deliv_state ms s ms1 ms2 l -> deliv_state ms s' ms1 ms2 l.
Proof.
  intros Hs Er Hsend Hp Hsm Hds. pose proof Hds as [Hms Hrs Hdel _].
  destruct (read_state_reader _ _ _ _ _ _ Hs Hsm Hrs) as [l' Hrs'].
  destruct (reader_step_input _ _ _ _ Hs) as (_ & _ & Hpre & Hdel'). rewrite Er in *.
  cbn [consumes] in Hrs'. rewrite app_nil_r in *.
  unfold reader_step in Hs. rewrite Er in Hs. injection Hs as <-.
  assert (l' = l) as ->.
  { assert (bytes_read (io_trace (decode_one b m s)) = bytes_read (io_trace s)) as Eb.
    { unfold decode_one, end_round, throw_reader. by repeat case_match. }
    apply (app_inv_head (stream ms1)). by rewrite <-(rs_bytes _ _ _ Hrs'), Eb, (rs_bytes _ _ _ Hrs). }
  split; [done|done|congruence|].
  pose proof (decode_one_deliv ms s ms1 ms2 l b m _ Hds Er Hsend ltac:(by etransitivity) eq_refl) as H.
  by destruct (reader (decode_one b m s)).
Qed.

(** The messages, after a step of the reader. *)
Lemma deliv_reader ms n a s s' ms1 ms2 l : reader_step n a s = Some s' -> 0 <= m_fd s < FD_SETSIZE ->
  m_listener s = true -> Forall sendable ms -> bytes_read (io_trace s') `prefix_of` stream ms -> small s ->
  deliv_state ms s ms1 ms2 l -> exists ms1' ms2' l', deliv_state ms s' ms1' ms2' l'.
Proof.
  intros Hs Hfd Hli Hsend Hp Hsm Hds. pose proof Hds as [Hms Hrs Hdel Hrd].
  destruct (reader s) as [| |b m|b m|b m|b m r|b m|b m k|e|e| | | |what] eqn:Er; try (by destruct Hrd).
  7: by exists ms1, ms2, l; eapply deliv_decode.
  7: by exists (ms1 ++ [m]); eapply deliv_msg.
  all: destruct (read_state_reader _ _ _ _ _ _ Hs Hsm Hrs) as [l' Hrs'];
    destruct (reader_step_input _ _ _ _ Hs) as (_ & _ & Hpre & Hdel');
    assert (Z.of_nat (length l) < 2 ^ 50) as Hl
      by (unfold small in Hsm; rewrite (rs_bytes _ _ _ Hrs), length_app in Hsm; lia);
    pose proof (reader_step_settled _ _ _ _ _ _ _ Hs Hfd Hrs Hl (rs_bytes _ _ _ Hrs')) as Hset;
    rewrite Er in *; cbn [consumes] in *; rewrite ?app_nil_r in *;
    exists ms1, ms2, l'; (split; [done|done|congruence|]).
  all: destruct (reader s'); cbn [settled] in Hset; try exact I; try (by destruct Hset); destruct Hset as [-> Hset];
    try (by destruct Hset); try (rewrite Hset; apply partial_nil); exact Hrd.
Qed.

Definition deliv_inv (ms : list txMessage) (s : AdminIO) : Prop :=
  bytes_read (io_trace s) `prefix_of` stream ms -> small s -> exists ms1 ms2 l, deliv_state ms s ms1 ms2 l.

Lemma deliv_step ms s lb s' : step s lb s' -> io_inv s -> 0 <= m_fd s < FD_SETSIZE -> m_listener s = true ->
  Forall sendable ms -> deliv_inv ms s -> deliv_inv ms s'.
Proof.
  intros Hstep [_ Ht] Hfd Hli Hsend Hi Hp Hsm. pose proof (small_before _ _ _ Hstep Ht Hsm) as Hsm0.
  destruct (step_bytes_read _ _ _ Hstep Ht) as (Hpre & _ & _).
  destruct Hi as (ms1 & ms2 & l & Hds); [by etransitivity|done|]. destruct (is_reader lb) eqn:El.
  - inversion Hstep as [|? n a ? E| | | |]; subst; try done. by eapply deliv_reader.
  - destruct Hds as [Hms Hrs Hdel Hrd]. exists ms1, ms2, l.
    destruct (other_step_input _ _ _ Hstep Ht El) as [Ei Er]. unfold input_side in Ei. injection Ei as _ _ _ Ei.
    split; [done|by eapply read_state_other|congruence|]. destruct Er as [-> | [_ ->]]; done.
Qed.

Lemma deliv_run ms s ls s' : run s ls s' -> io_inv s -> 0 <= m_fd s < FD_SETSIZE -> m_listener s = true ->
  Forall sendable ms -> deliv_inv ms s -> deliv_inv ms s'.
Proof.
  intros Hrun Hi Hfd Hli Hsend Hd.
  enough (deliv_inv ms s' /\ m_fd s' = m_fd s /\ m_listener s' = m_listener s) by tauto.
  induction Hrun as [|ls s1 lb s2 Hrun IH Hstep]; [done|]. destruct IH as (H1 & H2 & H3).
  pose proof (io_inv_run _ _ _ Hrun Hi) as Hi1.
  destruct (step_bytes_read _ _ _ Hstep (io_thr _ Hi1)) as (_ & -> & ->).
  split; [|done]. eapply deliv_step; [exact Hstep|done|by rewrite H2|by rewrite H3|done|done].
Qed.

Lemma deliv_inv_new ms fd li d : deliv_inv ms (new_AdminIO fd li d).
Proof. intros _ _. exists [], ms, []. split; done. Qed.

(** * A sample connection *)

(** Runs the labels one after the other, where each is possible. *)
Definition exec1 (s : AdminIO) (l : label) : option AdminIO :=
  match l with
  | L_owner created => owner_step created s
  | L_reader nready a => reader_step nready a s
  | L_writer r now => writer_step r now s
  | L_wake => match writer s with W_asleep c => Some (set_writer (W_notified c) s) | _ => None end
  | L_enqueue i =>
      if alive s && bool_decide (0 <= i_size i <= Z.of_nat (length (item_buf i)) /\ i_size i < 2 ^ 63)
      then Some (enqueue i s) else None
  | L_request_stop => if alive s then Some (request_stop s) else None
  end.

Fixpoint exec (s : AdminIO) (ls : list label) : option AdminIO :=
  match ls with
  | [] => Some s
  | l :: ls => match exec1 s l with Some s => exec s ls | None => None end
  end.

Lemma exec1_step s l s' : exec1 s l = Some s' -> step s l s'.
Proof.
  intros E. destruct l; cbn [exec1] in E; try (by constructor).
  - destruct (writer s) eqn:Ew; try done. injection E as <-. by constructor.
  - destruct (alive s) eqn:Ea; [|done]. cbn [andb] in E. case_bool_decide as Hi; [|done]. injection E as <-.
    by constructor.
  - destruct (alive s) eqn:Ea; [|done]. injection E as <-. by constructor.
Qed.

Lemma run_app s ls1 s1 ls2 s2 : run s ls1 s1 -> run s1 ls2 s2 -> run s (ls1 ++ ls2) s2.
Proof. intros H1. induction 1; [by rewrite app_nil_r|]. rewrite app_assoc. by econstructor. Qed.

Lemma exec_run s ls s' : exec s ls = Some s' -> run s ls s'.
Proof.
  revert s. induction ls as [|l ls IH]; intros s E; cbn [exec] in E; [injection E as <-; constructor|].
  destruct (exec1 s l) as [s1|] eqn:E1; [|done]. apply (run_app s [l] s1 ls s'); [|by apply IH].
  apply (run_snoc s [] s l s1); [constructor|by apply exec1_step].
Qed.

(** * Properties *)

Lemma const_run fd li d s : reachable fd li d s -> m_fd s = fd /\ m_listener s = li.
Proof.
  intros [ls Hrun]. induction Hrun as [|ls s1 lb s2 Hrun IH Hstep]; [done|].
  pose proof (io_inv_run _ _ _ Hrun (io_inv_new fd li d)) as [_ Ht].
  by destruct (step_bytes_read _ _ _ Hstep Ht) as (_ & -> & ->).
Qed.

(** Both threads are done when the object may be deleted. *)
Lemma both_ended s : io_inv s -> safe_to_delete s = true \/ owner s = O_gone ->
  reader s = R_exited /\ writer s = W_exited.
Proof.
  intros [_ Ht] [Hs|Ho]; [|pose proof (ti_owner s Ht) as H; by rewrite Ho in H].
  apply andb_true_iff in Hs as [_ Hc%Z.eqb_eq]. rewrite (ti_complete s Ht) in Hc. unfold NumberInternalThreads in Hc.
  destruct (reader_ended (reader s)) eqn:Er, (writer_ended (writer s)) eqn:Ew; cbn in Hc; try lia.
  by destruct (reader s), (writer s).
Qed.

(** An item that holds a message. *)
Definition message_item (m : txMessage) : result QueuedItem :=
  '(size, sb) ← encodeMsg m (i_sb new_item); mret (MkItem size 0 sb).

Definition hello : txMessage := new_message "hello".
Definition hello_item : QueuedItem := match message_item hello with Ok i => i | Throw _ => new_item end.

(** The threads start, a message arrives in two reads, one is sent in two
    parts, the peer closes, everything ends and the object is deleted. *)
Definition start_labels : list label :=
  [L_owner true; L_owner true; L_owner true; L_reader 0 (Got []); L_writer SendAgain 0; L_owner true].
Definition talk_labels : list label :=
  [L_enqueue hello_item; L_reader 1 (Got []); L_reader 1 (Got []); L_reader 1 (Got (take 7 (wire hello)));
   L_reader 1 (Got []); L_reader 1 (Got []); L_writer SendAgain 0; L_writer SendAgain 0; L_writer SendAgain 0;
   L_writer (SendOk 5) 0; L_writer SendAgain 0; L_reader 1 (Got []); L_reader 1 (Got []); L_reader 1 (Got (drop 7 (wire hello)));
   L_writer (SendOk 100) 0; L_reader 1 (Got []); L_reader 1 (Got []); L_reader 1 (Got []); L_reader 1 (Got [])].
(** The peer closes: the reader sees it and puts the item that ends the writer
    into the queue. *)
Definition eof_labels : list label :=
  replicate 6 (L_reader 1 (Got [])).
Definition end_labels : list label :=
  replicate 13 (L_writer (SendOk 1) 0) ++ [L_reader 1 (Got []); L_owner true; L_owner true; L_owner true].

Definition state_of (s : option AdminIO) : AdminIO := default (new_AdminIO 0 false false) s.
Definition sample_start : AdminIO := state_of (exec (new_AdminIO 5 true false) start_labels).
Definition sample_talk : AdminIO := state_of (exec sample_start talk_labels).
Definition sample_eof : AdminIO := state_of (exec sample_talk eof_labels).
Definition sample_end : AdminIO := state_of (exec sample_eof end_labels).

Lemma sample_runs : exec (new_AdminIO 5 true false) start_labels = Some sample_start /\
  exec sample_start talk_labels = Some sample_talk /\ exec sample_talk eof_labels = Some sample_eof /\
  exec sample_eof end_labels = Some sample_end.
Proof. split_and!; vm_compute; reflexivity. Qed.

Lemma sample_reachable : reachable 5 true false sample_talk /\ reachable 5 true false sample_eof /\
  reachable 5 true false sample_end.
Proof.
  destruct sample_runs as (E1 & E2 & E3 & E4).
  pose proof (run_app _ _ _ _ _ (exec_run _ _ _ E1) (exec_run _ _ _ E2)) as R2.
  pose proof (run_app _ _ _ _ _ R2 (exec_run _ _ _ E3)) as R3.
  pose proof (run_app _ _ _ _ _ R3 (exec_run _ _ _ E4)) as R4. by split_and!; eexists.
Qed.



(** C26. What an [AdminIO] sends: the bytes handed to the kernel are always a
    beginning of the bytes of the items enqueued, in that order, and
    [bytes_pending] is the sum of the sizes of those that wait (in the width
    of the counter).  When the socket has been closed and no [send] failed,
    everything enqueued before the request to stop has been sent. *)
Theorem legacy_output_in_order (fd : Z) (li d : bool) (s : AdminIO) : reachable fd li d s ->
  sent (io_trace s) `prefix_of` items_bytes (pushed (io_trace s)) /\
  bytes_pending s = size_t (items_size (q_items s)) /\
  (life (io_trace s) <> Some Open -> send_failed (io_trace s) = false ->
   exists p i, pushed (io_trace s) = p ++ i :: q_items s /\ is_kill i = true /\ Forall not_kill p /\
     sent (io_trace s) = items_bytes (p ++ [i])).
Proof.
  intros Hr. pose proof (io_out s (io_inv_reachable _ _ _ _ Hr)) as Ho.
  destruct (oi_out s Ho) as (popped & rest & E1 & E2 & E3 & E4). pose proof (oi_writer s Ho) as Hw.
  split; [|split; [apply Ho|]].
  - exists (rest ++ items_bytes (q_items s)). unfold items_bytes in *. by rewrite E1, flat_map_app, E2, app_assoc.
  - intros Hnl Hf. specialize (E3 Hf).
    assert (exists p i, popped = p ++ [i] /\ Forall not_kill p /\ is_kill i = true /\ current_rest (writer s) = [])
      as (p & i & -> & Hp & Hk & Hcr).
    { rewrite Hf in *.
      destruct (writer s) as [| |c|c|c|c|c i n|c i n|c i|c i| |c|c| | | |]; cbn [writer_ok popped_shape] in *;
        try (destruct c); destruct_and?; try done; [| | |destruct E4 as [?|E4]..]; try done;
        destruct E4 as (p & i & -> & ? & ?); by exists p, i. }
    rewrite E3, Hcr, app_nil_r in E2. exists p, i. rewrite <-app_assoc in E1. done.
Qed.

Lemma legacy_output_in_order_witness :
  sent (io_trace sample_end) = wire hello /\ life (io_trace sample_end) = Some Reported /\
  exists p i, pushed (io_trace sample_end) = p ++ i :: q_items sample_end /\ is_kill i = true /\ Forall not_kill p /\
    sent (io_trace sample_end) = items_bytes (p ++ [i]).
Proof.
  split; [vm_compute; reflexivity|]. split; [vm_compute; reflexivity|].
  apply (proj2 (proj2 (legacy_output_in_order 5 true false sample_end (proj2 (proj2 sample_reachable))))).
  - assert (life (io_trace sample_end) = Some Reported) as -> by (vm_compute; reflexivity). discriminate.
  - vm_compute. reflexivity.
Defined.


(** The peer has closed; the writer, then the reader go to their ends. *)
Definition writer_end : list label := replicate 13 (L_writer (SendOk 1) 0).
Definition sample_written : AdminIO := state_of (exec sample_eof writer_end).
Definition sample_read : AdminIO := state_of (exec sample_written [L_reader 1 (Got [])]).


(** C25. What the listener gets: while the bytes that arrive are the beginning
    of a sequence of messages, cut into reads in any way, the messages handed
    to [io_onmsg] are always the first of them, each once and in order; the
    reader reports no protocol error and reads nothing outside its buffer; and
    whenever it waits for input all complete messages have been handed over. *)
Theorem legacy_messages_delivered (fd : Z) (d : bool) (s : AdminIO) (ms : list txMessage) :
  0 <= fd < FD_SETSIZE -> reachable fd true d s -> Forall sendable ms ->
  bytes_read (io_trace s) `prefix_of` stream ms -> small s ->
  exists ms1 ms2 l, ms = ms1 ++ ms2 /\ bytes_read (io_trace s) = stream ms1 ++ l /\
    delivered (io_trace s) = ms1 /\ (forall b m, reader s = R_poll b m -> partial l ms2) /\
    (forall e, reader s <> R_badmsg e) /\ (forall what, reader s <> R_undefined what).
Proof.
  intros Hfd [ls Hrun] Hs Hp Hsm.
  destruct (deliv_run ms _ _ _ Hrun (io_inv_new fd true d) Hfd eq_refl Hs (deliv_inv_new _ _ _ _) Hp Hsm)
    as (ms1 & ms2 & l & [Hms [E _ _] Hd Hr]).
  exists ms1, ms2, l. split; [done|]. split; [done|]. split; [done|].
  destruct (reader s); split_and!; done.
Qed.

Lemma hello_sendable : sendable hello.
Proof. split; [vm_compute; reflexivity|]. split; [apply wf_new_container|vm_compute; discriminate]. Qed.

Lemma legacy_messages_delivered_witness : delivered (io_trace sample_talk) = [hello] /\
  exists ms1 ms2 l, [hello] = ms1 ++ ms2 /\ bytes_read (io_trace sample_talk) = stream ms1 ++ l /\
    delivered (io_trace sample_talk) = ms1.
Proof.
  split; [vm_compute; reflexivity|].
  destruct (legacy_messages_delivered 5 false sample_talk [hello]) as (ms1 & ms2 & l & H1 & H2 & H3 & _).
  - unfold FD_SETSIZE. lia.
  - exact (proj1 sample_reachable).
  - constructor; [exact hello_sendable|constructor].
  - exists []. vm_compute. reflexivity.
  - vm_compute. reflexivity.
  - exact (ex_intro _ ms1 (ex_intro _ ms2 (ex_intro _ l (conj H1 (conj H2 H3))))).
Defined.

(** * Flaws *)

(** The reader can read from the descriptor after the writer has closed it:
    the tests of [m_is_stopping] narrow the window and do not shut it. *)
Definition reader_ready : AdminIO :=
  state_of (exec sample_start [L_reader 1 (Got []); L_reader 1 (Got []); L_request_stop]).
Lemma legacy_read_after_close : exists s s', reachable 5 true false s /\ life (io_trace s) = Some Reported /\
  step s (L_reader 1 (Got (str "x"))) s' /\ bytes_read (io_trace s') = str "x".
Proof.
  set (s := state_of (exec reader_ready (replicate 11 (L_writer (SendOk 1) 0)))).
  exists s, (state_of (reader_step 1 (Got (str "x")) s)). split_and!; [|vm_compute; reflexivity| |vm_compute; reflexivity].
  - exists (start_labels ++ ([L_reader 1 (Got []); L_reader 1 (Got []); L_request_stop] ++ replicate 11 (L_writer (SendOk 1) 0))).
    apply (run_app _ _ sample_start); [apply exec_run, sample_runs|].
    apply (run_app _ _ reader_ready); apply exec_run; vm_compute; reflexivity.
  - apply step_reader. vm_compute. reflexivity.
Qed.

(** [select] cannot watch a descriptor of 1024 or more. *)
Lemma legacy_large_descriptor n : read_timeo 1024 n = Throw (undefined_behaviour "descriptor outside the fd_set").
Proof. done. Qed.

(** When the writer's thread cannot be created the constructor throws while
    the reader's thread runs. *)
Lemma legacy_constructor_failure : exists s, reachable 5 true false s /\ owner s = O_failed /\ reader s = R_start.
Proof.
  exists (state_of (exec (new_AdminIO 5 true false) [L_owner true; L_owner false])).
  split; [|done]. exists [L_owner true; L_owner false]. apply exec_run. reflexivity.
Qed.

(** With debug logging a failed [read] is reported as something else. *)
Lemma legacy_read_error_lost e b m s : m_log_io_events s = true ->
  reader (do_read (ReadFails e) b m s) = R_throw (std_exception (out_of_range "basic_string: construction from -1 bytes")).
Proof. intros H. unfold do_read. by rewrite H. Qed.

End LegacyReader.
