(* ===== verification/Reactor.v ===== *)
(** The event loop and its threads: [ReactorMsg], [ReactorNotifQ] and [Reactor]
    of [Reactor.h] and [Reactor.cc], and the run state of [ReactorClient]
    ([Client.cc]).

    One IO thread, a pool of workers and the application share the clients.
    The program is a transition system: every critical section or call on a
    client is one step, and steps of different threads interleave freely.
    Between two steps nothing outside a critical section is shared, except
    where a comment says why two sections are one step. *)

From S2P Require Import Prelude ReadBuffer Client.

Local Open Scope Z_scope.

(** * Data *)

(** [m_runstate]: idle, queued, running. *)
Inductive runstate := RS_N | RS_Q | RS_R.
#[global] Instance runstate_eq_dec : EqDecision runstate.
Proof. solve_decision. Defined.

Inductive ReactorMsg :=
| eNoEvent | eClose (p : Z) | eAdd (p : Z) | eAttn | eDelete (p : Z) | eTerminate.
#[global] Instance ReactorMsg_eq_dec : EqDecision ReactorMsg.
Proof. solve_decision. Defined.

(** The notifications waiting and the bytes in the pipe that wakes [poll]. *)
Record ReactorNotifQ := NotifQ { nq_pending : list ReactorMsg; nq_pipe : Z }.

(** A client object with its run state. *)
Record object := Object { ob_client : Client; ob_run : runstate }.

(** Where a worker thread is: waiting, holding a client it has taken off the
    queue, about to call [do_work], about to update the run state, ended. *)
Inductive worker := WIdle | WPopped (p : Z) | WRunning (p : Z) | WWorked (p : Z) | WExited.

(** Where the IO thread is: about to test [m_is_stopping], building the poll set
    ([asked] are the clients for which it wants to know when they can send, of
    those before [todo]), in [poll], handling what [poll] reported, searching
    the clients for work, in the destruction cycle, ended. *)
Inductive io_thread :=
| IoPoll | IoAsk (todo asked : list Z) | IoWait (asked : list Z) | IoEvents | IoSearch (todo : list Z)
| IoDestroy (todo : list Z) | IoExited.

(** It is about to wait in [poll] or waits. *)
Definition polling (io : io_thread) : bool := match io with IoPoll | IoAsk _ _ | IoWait _ => true | _ => false end.

#[global] Instance worker_eq_dec : EqDecision worker.
Proof. solve_decision. Defined.
#[global] Instance io_thread_eq_dec : EqDecision io_thread.
Proof. solve_decision. Defined.

Section reactor.
Context {T : Type} {CB : ClientCallback T}.

Record Reactor := MkReactor {
  r_objects : gmap Z object;
  r_clients : list Z; r_destroying : list Z; r_last_cleanup : Z; r_is_stopping : bool;
  r_notifq : ReactorNotifQ;
  r_runq : list (option Z); r_itemcount : Z;
  r_workers : list worker; r_io : io_thread;
  r_world : T  (** what the callbacks act on *) }.

Definition set_objects (x : gmap Z object) (r : Reactor) : Reactor :=
  MkReactor x (r_clients r) (r_destroying r) (r_last_cleanup r) (r_is_stopping r) (r_notifq r)
    (r_runq r) (r_itemcount r) (r_workers r) (r_io r) (r_world r).
Definition set_clients (x : list Z) (r : Reactor) : Reactor :=
  MkReactor (r_objects r) x (r_destroying r) (r_last_cleanup r) (r_is_stopping r) (r_notifq r)
    (r_runq r) (r_itemcount r) (r_workers r) (r_io r) (r_world r).
Definition set_destroying (x : list Z) (r : Reactor) : Reactor :=
  MkReactor (r_objects r) (r_clients r) x (r_last_cleanup r) (r_is_stopping r) (r_notifq r)
    (r_runq r) (r_itemcount r) (r_workers r) (r_io r) (r_world r).
Definition set_last_cleanup (x : Z) (r : Reactor) : Reactor :=
  MkReactor (r_objects r) (r_clients r) (r_destroying r) x (r_is_stopping r) (r_notifq r)
    (r_runq r) (r_itemcount r) (r_workers r) (r_io r) (r_world r).
Definition set_stopping (r : Reactor) : Reactor :=
  MkReactor (r_objects r) (r_clients r) (r_destroying r) (r_last_cleanup r) true (r_notifq r)
    (r_runq r) (r_itemcount r) (r_workers r) (r_io r) (r_world r).
Definition set_notifq (x : ReactorNotifQ) (r : Reactor) : Reactor :=
  MkReactor (r_objects r) (r_clients r) (r_destroying r) (r_last_cleanup r) (r_is_stopping r) x
    (r_runq r) (r_itemcount r) (r_workers r) (r_io r) (r_world r).
Definition set_runq (x : list (option Z)) (n : Z) (r : Reactor) : Reactor :=
  MkReactor (r_objects r) (r_clients r) (r_destroying r) (r_last_cleanup r) (r_is_stopping r) (r_notifq r)
    x n (r_workers r) (r_io r) (r_world r).
Definition set_worker (i : nat) (x : worker) (r : Reactor) : Reactor :=
  MkReactor (r_objects r) (r_clients r) (r_destroying r) (r_last_cleanup r) (r_is_stopping r) (r_notifq r)
    (r_runq r) (r_itemcount r) (<[i := x]> (r_workers r)) (r_io r) (r_world r).
Definition set_io (x : io_thread) (r : Reactor) : Reactor :=
  MkReactor (r_objects r) (r_clients r) (r_destroying r) (r_last_cleanup r) (r_is_stopping r) (r_notifq r)
    (r_runq r) (r_itemcount r) (r_workers r) x (r_world r).
Definition set_world (x : T) (r : Reactor) : Reactor :=
  MkReactor (r_objects r) (r_clients r) (r_destroying r) (r_last_cleanup r) (r_is_stopping r) (r_notifq r)
    (r_runq r) (r_itemcount r) (r_workers r) (r_io r) x.
Definition set_object_at (p : Z) (o : object) (r : Reactor) : Reactor :=
  set_objects (<[p := o]> (r_objects r)) r.

Definition new_reactor (nworkers : nat) (world : T) : Reactor :=
  MkReactor ∅ [] [] 0 false (NotifQ [] 0) [] 0 (replicate nworkers WIdle) IoPoll world.

(** * Notifications *)

(** The pipe is non-blocking: a byte that does not fit is lost. *)
Definition PIPE_CAPACITY : Z := 65536.

Definition push_msg (m : ReactorMsg) (q : ReactorNotifQ) : ReactorNotifQ :=
  if bool_decide (m = eNoEvent) && negb (bool_decide (nq_pending q = [])) then q
  else NotifQ (nq_pending q ++ [m])
         (if nq_pipe q <? PIPE_CAPACITY then nq_pipe q + 1 else nq_pipe q).

(** [pull]: the messages and the emptied queue. *)
Definition pull (q : ReactorNotifQ) : list ReactorMsg * ReactorNotifQ := (nq_pending q, NotifQ [] 0).

Definition notify (m : ReactorMsg) (r : Reactor) : Reactor := set_notifq (push_msg m (r_notifq r)) r.
Definition add_client (p : Z) (r : Reactor) : Reactor := notify (eAdd p) r.
Definition invalidate (r : Reactor) : Reactor := notify eNoEvent r.
Definition request_attn (r : Reactor) : Reactor := notify eAttn r.

(** A call on a client, with the notifications it makes. *)
Definition notification (e : io_event) : option ReactorMsg :=
  match e with Invalidate => Some eNoEvent | RequestAttn => Some eAttn | _ => None end.
Definition notify_list (ms : list ReactorMsg) (r : Reactor) : Reactor :=
  set_notifq (foldl (fun q m => push_msg m q) (r_notifq r) ms) r.
Definition client_call (p : Z) (o : object) (c : Client) (r : Reactor) : Reactor :=
  notify_list (omap notification (io_added (ob_client o) c)) (set_object_at p (Object c (ob_run o)) r).

(** Whether the poll set asks for output of a client. *)
Definition asks_output (r : Reactor) (p : Z) : bool :=
  match r_objects r !! p with Some o => wants_output (ob_client o) | None => false end.

(** Entering a client into the set [m_destroying]. *)
Definition set_insert (p : Z) (l : list Z) : list Z := if decide (p ∈ l) then l else l ++ [p].

Definition wants_delete (r : Reactor) (p : Z) : bool :=
  match r_objects r !! p with
  | Some o => negb (Z.land (m_attn_flags (ob_client o)) eWantDelete =? 0)
  | None => false
  end.

Definition attend_clients (r : Reactor) : Reactor :=
  set_destroying (foldl (fun d p => if wants_delete r p then set_insert p d else d)
                    (r_destroying r) (r_clients r)) r.

Definition handle_reactor_msg (m : ReactorMsg) (r : Reactor) : Reactor :=
  match m with
  | eAdd p => set_clients (r_clients r ++ [p]) r
  | eTerminate => set_stopping r
  | eAttn => attend_clients r
  | _ => r
  end.

(** * Clients *)

(** What the loop does with one entry of the poll set: [inp] and [outp] are the
    system's answers when POLLIN or POLLOUT is set, [hup] whether one of
    POLLRDHUP, POLLERR, POLLHUP and POLLNVAL is. *)
Definition handle_revents (now : Z) (inp : option read_result) (outp : option (list send_result)) (hup : bool)
    (c : Client) : result Client :=
  let '(c, st1) := match inp with
                   | Some r => if io_open c then handle_input now r c else (c, IO_default)
                   | None => (c, IO_default)
                   end in
  '(c, st2) ← match outp with
              | Some s => if io_open c then handle_output now s c else Ok (c, IO_default)
              | None => Ok (c, IO_default)
              end;
  let is_state st x := match st, x with
                       | IO_close, IO_close | IO_read_again, IO_read_again => true
                       | _, _ => false
                       end in
  let again := is_state st1 IO_read_again || is_state st2 IO_read_again in
  let close := is_state st1 IO_close || is_state st2 IO_close in
  Ok (if (hup && negb again) || close then handle_close c else c).

Definition update_run_state_for_reactor (o : object) : object :=
  if has_work (ob_client o) && bool_decide (ob_run o = RS_N) then Object (ob_client o) RS_Q else o.

Definition update_run_state_for_worker (o : object) : object :=
  if has_work (ob_client o) then o else Object (ob_client o) RS_N.

(** The search, for one client: the run state and the run queue.  No other
    thread touches an idle client's run state, so both sections are one step. *)
Definition search_client (p : Z) (r : Reactor) : Reactor :=
  match r_objects r !! p with
  | Some o =>
      let o' := update_run_state_for_reactor o in
      let r := set_object_at p o' r in
      if bool_decide (ob_run o = RS_N /\ ob_run o' = RS_Q)
      then set_runq (r_runq r ++ [Some p]) (size_t (r_itemcount r + 1)) r else r
  | None => r
  end.

(** The destruction cycle, for one client; only this thread could move it out
    of the idle state before it is deleted, so the check and the deletion are
    one step. *)
Definition destroy_client (now : Z) (p : Z) (r : Reactor) : Reactor :=
  match r_objects r !! p with
  | Some o =>
      let '(c, ready) := destroy_cycle now (ob_client o) in
      let r := set_object_at p (Object c (ob_run o)) r in
      if (ready : bool) && bool_decide (ob_run o = RS_N) then
        set_objects (delete p (r_objects r))
          (set_destroying (filter (fun q => q <> p) (r_destroying r))
             (set_clients (filter (fun q => q <> p) (r_clients r)) r))
      else r
  | None => r
  end.

(** The milliseconds [poll] waits; -1 is no limit. *)
Definition poll_timeout (r : Reactor) : Z := if bool_decide (r_destroying r = []) then -1 else 1000.

(** When the destruction cycle runs. *)
Definition cleanup_due (now : Z) (r : Reactor) : bool :=
  negb (bool_decide (r_destroying r = [])) &&
  (((r_last_cleanup r <? now) && (2 <? now - r_last_cleanup r)) || (now <? r_last_cleanup r)).

(** * Steps *)

(** Worker [i], [worker_TEP_impl]: it takes the front item or ends, marks the
    client as running, and works until the client has nothing left. *)
Inductive worker_step (i : nat) : Reactor -> Reactor -> Prop :=
| step_pop r p items :
    r_workers r !! i = Some WIdle -> r_itemcount r <> 0 -> r_runq r = Some p :: items ->
    worker_step i r (set_worker i (WPopped p) (set_runq items (size_t (r_itemcount r - 1)) r))
| step_exit r items :
    r_workers r !! i = Some WIdle -> r_itemcount r <> 0 -> r_runq r = None :: items ->
    worker_step i r (set_worker i WExited r)
| step_run r p o :
    r_workers r !! i = Some (WPopped p) -> r_objects r !! p = Some o ->
    worker_step i r (set_worker i (WRunning p) (set_object_at p (Object (ob_client o) RS_R) r))
| step_work r p o c w :
    r_workers r !! i = Some (WRunning p) -> r_objects r !! p = Some o ->
    do_work (ob_client o) (r_world r) = Ok (c, w) ->
    worker_step i r (set_worker i (WWorked p) (set_world w (client_call p o c r)))
(** An exception (the buffer cannot grow) is caught; whatever it leaves of the
    world, and whatever the calls made by then leave of the client, the worker
    goes on. *)
| step_work_throws r p o c w e :
    r_workers r !! i = Some (WRunning p) -> r_objects r !! p = Some o ->
    do_work (ob_client o) (r_world r) = Throw e -> notified (ob_client o) c ->
    worker_step i r (set_worker i (WWorked p) (set_world w (client_call p o c r)))
| step_update r p o :
    r_workers r !! i = Some (WWorked p) -> r_objects r !! p = Some o ->
    let o' := update_run_state_for_worker o in
    worker_step i r (set_worker i (if bool_decide (ob_run o' = RS_R) then WRunning p else WIdle) (set_object_at p o' r)).

(** The application and other threads: calls on the reactor and on its clients.  A new client is made and given to the
    reactor once. *)
Inductive app_step : Reactor -> Reactor -> Prop :=
| app_new_client r p fd now cb :
    r_objects r !! p = None ->
    app_step r (add_client p (set_object_at p (Object (new_client fd now cb) RS_N) r))
| app_queue r p o buf cl :
    r_objects r !! p = Some o ->
    app_step r (client_call p o (queue buf cl (ob_client o)).1 r)
| app_release r p o now :
    r_objects r !! p = Some o ->
    app_step r (client_call p o (release now (ob_client o)) r)
| app_invalidate r : app_step r (invalidate r).

(** The IO thread, [reactor_main_loop].  [poll] may return at any time; that it
    returns when there is a byte in the pipe matters only for progress. *)
Inductive io_step : Reactor -> Reactor -> Prop :=
| io_ask_start r : r_io r = IoPoll -> r_is_stopping r = false -> io_step r (set_io (IoAsk (r_clients r) []) r)
| io_ask r p todo asked :
    r_io r = IoAsk (p :: todo) asked ->
    io_step r (set_io (IoAsk todo (if asks_output r p then asked ++ [p] else asked)) r)
| io_wait r asked : r_io r = IoAsk [] asked -> io_step r (set_io (IoWait asked) r)
| io_stop r : r_io r = IoPoll -> r_is_stopping r = true -> io_step r (set_io IoExited r)
| io_ready r asked : r_io r = IoWait asked -> io_step r (set_io IoEvents r)
| io_event r p o now inp outp hup c :
    r_io r = IoEvents -> p ∈ r_clients r -> r_objects r !! p = Some o ->
    handle_revents now inp outp hup (ob_client o) = Ok c ->
    io_step r (set_object_at p (Object c (ob_run o)) r)
| io_messages r :
    r_io r = IoEvents ->
    io_step r (foldl (fun r m => handle_reactor_msg m r) (set_notifq (pull (r_notifq r)).2 r) (pull (r_notifq r)).1)
| io_search_start r : r_io r = IoEvents -> io_step r (set_io (IoSearch (r_clients r)) r)
| io_search r p todo : r_io r = IoSearch (p :: todo) -> io_step r (set_io (IoSearch todo) (search_client p r))
| io_destroy_start r now :
    r_io r = IoSearch [] -> cleanup_due now r = true ->
    io_step r (set_io (IoDestroy (r_destroying r)) (set_last_cleanup now r))
| io_loop r now : r_io r = IoSearch [] -> cleanup_due now r = false -> io_step r (set_io IoPoll r)
| io_destroy r now p todo :
    r_io r = IoDestroy (p :: todo) -> io_step r (set_io (IoDestroy todo) (destroy_client now p r))
| io_destroy_end r : r_io r = IoDestroy [] -> io_step r (set_io IoPoll r).

(** The destructor tells the IO thread to stop, and the workers once the IO
    thread has ended. *)
Definition end_workers (r : Reactor) : Reactor :=
  set_runq (r_runq r ++ [None]) (size_t (r_itemcount r + 1)) r.

Inductive step : Reactor -> Reactor -> Prop :=
| step_app r r' : app_step r r' -> step r r'
| step_io r r' : io_step r r' -> step r r'
| step_worker r r' i : worker_step i r r' -> step r r'
| step_stopping r : step r (set_stopping r)
| step_terminate r : step r (notify eTerminate r)
| step_end_workers r : r_io r = IoExited -> step r (end_workers r).

Inductive reachable (nworkers : nat) (w : T) : Reactor -> Prop :=
| reach_new : reachable nworkers w (new_reactor nworkers w)
| reach_step r r' : reachable nworkers w r -> step r r' -> reachable nworkers w r'.

End reactor.
