(* ===== verification/ReactorProps.v ===== *)
(** What the reactor's threads guarantee each other, for every interleaving:
    a client is worked on by one thread at a time and is not deleted while it
    is queued or worked on; inbound data of a client is never left without a
    thread that will look at it; a notification always wakes [poll]. *)

From S2P Require Import Prelude ReadBuffer Client Reactor.

Local Open Scope Z_scope.

(** * Who has a client *)

(** The client a worker holds, and the run state that goes with it. *)
Definition worker_client (w : worker) : option Z :=
  match w with WPopped p | WRunning p | WWorked p => Some p | _ => None end.
Definition worker_run (w : worker) : runstate :=
  match w with WPopped _ => RS_Q | WRunning _ | WWorked _ => RS_R | _ => RS_N end.

Definition held (ws : list worker) : list Z := omap worker_client ws.
Definition queued (q : list (option Z)) : list Z := omap id q.

Lemma held_insert ws i w :
  ws !! i = Some w ->
  exists rest, held ws ≡ₚ option_list (worker_client w) ++ rest /\
    forall w', held (<[i := w']> ws) ≡ₚ option_list (worker_client w') ++ rest.
Proof.
  intros Hi. exists (held (take i ws) ++ held (drop (S i) ws)).
  assert (Hsplit : forall w', held (take i ws ++ w' :: drop (S i) ws) ≡ₚ
            option_list (worker_client w') ++ held (take i ws) ++ held (drop (S i) ws)).
  { intros w'. unfold held. rewrite omap_app; simpl.
    destruct (worker_client w'); simpl; [solve_Permutation | done]. }
  split.
  - rewrite <- (take_drop_middle ws i w Hi) at 1. apply Hsplit.
  - intros w'. rewrite insert_take_drop by (by eapply lookup_lt_Some). apply Hsplit.
Qed.

Lemma held_lookup ws i w p : ws !! i = Some w -> worker_client w = Some p -> p ∈ held ws.
Proof. intros Hi Hp. apply list_elem_of_omap. exists w. split; [by eapply list_elem_of_lookup_2 | done]. Qed.

Lemma held_unique ws i j w w' p :
  NoDup (held ws) -> ws !! i = Some w -> ws !! j = Some w' ->
  worker_client w = Some p -> worker_client w' = Some p -> i = j.
Proof.
  intros Hnd Hi Hj Hw Hw'. destruct (decide (i = j)) as [|Hne]; [done|exfalso].
  destruct (held_insert ws i w Hi) as (rest & Hperm & Hrest). rewrite Hw in Hperm. simpl in Hperm.
  rewrite Hperm in Hnd. apply NoDup_cons in Hnd as [Hnot _]. apply Hnot.
  pose proof (held_lookup (<[i := WIdle]> ws) j w' p) as Hin.
  rewrite list_lookup_insert_ne in Hin by done. specialize (Hin Hj Hw'). by rewrite Hrest in Hin.
Qed.

(** * The scheduling discipline *)

(** [runs] is the run state of every client object. *)
Record sched (runs : gmap Z runstate) (q : list (option Z)) (ws : list worker) : Prop := {
  s_nodup : NoDup (queued q ++ held ws);
  s_queued : forall p, p ∈ queued q -> runs !! p = Some RS_Q;
  s_worker : forall i w p, ws !! i = Some w -> worker_client w = Some p -> runs !! p = Some (worker_run w);
  s_busy : forall p s, runs !! p = Some s -> s <> RS_N -> p ∈ queued q ++ held ws }.

Lemma sched_free runs q ws p :
  sched runs q ws -> (runs !! p = None \/ runs !! p = Some RS_N) -> p ∉ queued q ++ held ws.
Proof.
  intros Hs Hp Hin. apply elem_of_app in Hin as [Hin|Hin].
  - apply (s_queued _ _ _ Hs) in Hin. destruct Hp; congruence.
  - apply list_elem_of_omap in Hin as (w & Hw & Hc). apply list_elem_of_lookup in Hw as [i Hi].
    pose proof (s_worker _ _ _ Hs i w p Hi Hc) as Hr. destruct w; simpl in *; destruct Hp; congruence.
Qed.

(** Entering, or giving another idle state to, a client nobody has. *)
Lemma sched_idle_insert runs q ws p :
  sched runs q ws -> p ∉ queued q ++ held ws -> sched (<[p := RS_N]> runs) q ws.
Proof.
  intros Hs Hfree. rewrite elem_of_app in Hfree. split.
  - apply Hs.
  - intros x Hx. rewrite lookup_insert_ne by (intros ->; tauto). by apply Hs.
  - intros i w x Hi Hx. rewrite lookup_insert_ne; [by eapply Hs|].
    intros ->. apply Hfree. right. by eapply held_lookup.
  - intros x s Hx Hne. destruct (decide (p = x)) as [->|Hpx].
    + rewrite lookup_insert_eq in Hx. congruence.
    + rewrite lookup_insert_ne in Hx by done. by eapply Hs.
Qed.

Lemma sched_delete runs q ws p :
  sched runs q ws -> runs !! p = Some RS_N -> sched (delete p runs) q ws.
Proof.
  intros Hs Hp. pose proof (sched_free runs q ws p Hs (or_intror Hp)) as Hfree.
  rewrite elem_of_app in Hfree. split.
  - apply Hs.
  - intros x Hx. rewrite lookup_delete_ne by (intros ->; tauto). by apply Hs.
  - intros i w x Hi Hx. rewrite lookup_delete_ne; [by eapply Hs|].
    intros ->. apply Hfree. right. by eapply held_lookup.
  - intros x s Hx Hne. apply lookup_delete_Some in Hx as [_ Hx]. by eapply Hs.
Qed.

(** The reactor queues an idle client. *)
Lemma sched_enqueue runs q ws p :
  sched runs q ws -> runs !! p = Some RS_N -> sched (<[p := RS_Q]> runs) (q ++ [Some p]) ws.
Proof.
  intros Hs Hp. pose proof (sched_free runs q ws p Hs (or_intror Hp)) as Hfree.
  assert (Hq : queued (q ++ [Some p]) = queued q ++ [p]) by (unfold queued; by rewrite omap_app).
  split; rewrite ?Hq.
  - assert (Hperm : (queued q ++ [p]) ++ held ws ≡ₚ p :: queued q ++ held ws) by solve_Permutation.
    rewrite Hperm. apply NoDup_cons. split; [done | apply Hs].
  - intros x [Hx | ->%list_elem_of_singleton]%elem_of_app; [|by rewrite lookup_insert_eq].
    rewrite lookup_insert_ne; [by apply Hs|]. intros ->. set_solver.
  - intros i w x Hi Hx. rewrite lookup_insert_ne; [by eapply Hs|].
    intros ->. apply Hfree, elem_of_app. right. by eapply held_lookup.
  - intros x s Hx Hne. destruct (decide (p = x)) as [->|Hpx]; [set_solver|].
    rewrite lookup_insert_ne in Hx by done. pose proof (s_busy _ _ _ Hs x s Hx Hne). set_solver.
Qed.

(** The end-of-work item is no client. *)
Lemma sched_end runs q ws : sched runs q ws -> sched runs (q ++ [None]) ws.
Proof.
  assert (Hq : queued (q ++ [None]) = queued q)
    by (unfold queued; rewrite omap_app; simpl; by rewrite app_nil_r).
  intros Hs. split; rewrite ?Hq; apply Hs.
Qed.

(** A worker takes the client at the front of the queue. *)
Lemma sched_pop runs q ws i p :
  sched runs (Some p :: q) ws -> ws !! i = Some WIdle -> sched runs q (<[i := WPopped p]> ws).
Proof.
  intros Hs Hi. destruct (held_insert ws i WIdle Hi) as (rest & Hh & Hrest).
  specialize (Hrest (WPopped p)). simpl in Hh, Hrest.
  assert (Hall : queued (Some p :: q) ++ held ws ≡ₚ queued q ++ held (<[i := WPopped p]> ws)).
  { rewrite Hh, Hrest. unfold queued; simpl. solve_Permutation. }
  split.
  - rewrite <- Hall. apply Hs.
  - intros x Hx. apply Hs. unfold queued in *; simpl. set_solver.
  - intros j w x Hj Hx. destruct (decide (i = j)) as [<-|Hij].
    + rewrite list_lookup_insert_eq in Hj by (by eapply lookup_lt_Some).
      simplify_eq; simpl in Hx; simplify_eq; simpl. apply Hs. unfold queued; simpl. set_solver.
    + rewrite list_lookup_insert_ne in Hj by done. by eapply Hs.
  - intros x s Hx Hne. rewrite <- Hall. by eapply Hs.
Qed.

(** A worker ends. *)
Lemma sched_exit runs q ws i :
  sched runs q ws -> ws !! i = Some WIdle -> sched runs q (<[i := WExited]> ws).
Proof.
  intros Hs Hi. destruct (held_insert ws i WIdle Hi) as (rest & Hh & Hrest).
  specialize (Hrest WExited). simpl in Hh, Hrest.
  assert (Hall : held ws ≡ₚ held (<[i := WExited]> ws)) by (by rewrite Hh, Hrest).
  split.
  - rewrite <- Hall. apply Hs.
  - apply Hs.
  - intros j w x Hj Hx. destruct (decide (i = j)) as [<-|Hij].
    + rewrite list_lookup_insert_eq in Hj by (by eapply lookup_lt_Some). by simplify_eq.
    + rewrite list_lookup_insert_ne in Hj by done. by eapply Hs.
  - intros x s Hx Hne. rewrite <- Hall. by eapply Hs.
Qed.

(** The worker holding [p] goes on with it. *)
Lemma sched_hold runs q ws i w w' p :
  sched runs q ws -> ws !! i = Some w -> worker_client w = Some p -> worker_client w' = Some p ->
  sched (<[p := worker_run w']> runs) q (<[i := w']> ws).
Proof.
  intros Hs Hi Hw Hw'. destruct (held_insert ws i w Hi) as (rest & Hh & Hrest).
  specialize (Hrest w'). rewrite Hw in Hh. rewrite Hw' in Hrest.
  assert (Hall : held ws ≡ₚ held (<[i := w']> ws)) by (by rewrite Hh, Hrest).
  pose proof (s_nodup _ _ _ Hs) as Hnd. apply NoDup_app in Hnd as (_ & Hdisj & Hnd).
  pose proof (held_lookup _ _ _ _ Hi Hw) as Hin.
  split.
  - rewrite <- Hall. apply Hs.
  - intros x Hx. rewrite lookup_insert_ne by (intros ->; by apply (Hdisj x)). by apply Hs.
  - intros j v x Hj Hx. destruct (decide (i = j)) as [<-|Hij].
    + rewrite list_lookup_insert_eq in Hj by (by eapply lookup_lt_Some). simplify_eq.
      by rewrite lookup_insert_eq.
    + rewrite list_lookup_insert_ne in Hj by done.
      rewrite lookup_insert_ne; [by eapply Hs|]. intros ->. apply Hij. by eapply held_unique.
  - intros x s Hx Hne. rewrite <- Hall. destruct (decide (p = x)) as [->|Hpx]; [set_solver|].
    rewrite lookup_insert_ne in Hx by done. by eapply Hs.
Qed.

(** The worker holding [p] is done with it. *)
Lemma sched_done runs q ws i w p :
  sched runs q ws -> ws !! i = Some w -> worker_client w = Some p ->
  sched (<[p := RS_N]> runs) q (<[i := WIdle]> ws).
Proof.
  intros Hs Hi Hw. destruct (held_insert ws i w Hi) as (rest & Hh & Hrest).
  specialize (Hrest WIdle). rewrite Hw in Hh. simpl in Hh, Hrest.
  pose proof (s_nodup _ _ _ Hs) as Hnd. rewrite Hh in Hnd.
  assert (Hperm : queued q ++ p :: rest ≡ₚ p :: queued q ++ rest) by solve_Permutation.
  assert (Hnd' := Hnd). rewrite Hperm in Hnd'. apply NoDup_cons in Hnd' as [Hfree Hnd'].
  split.
  - by rewrite Hrest.
  - intros x Hx. rewrite lookup_insert_ne by (intros ->; set_solver). by apply Hs.
  - intros j v x Hj Hx. destruct (decide (i = j)) as [<-|Hij].
    + rewrite list_lookup_insert_eq in Hj by (by eapply lookup_lt_Some). by simplify_eq.
    + assert (Hx' : x ∈ held (<[i := WIdle]> ws)) by (by eapply held_lookup).
      rewrite list_lookup_insert_ne in Hj by done. rewrite Hrest in Hx'.
      rewrite lookup_insert_ne; [by eapply Hs|]. intros ->. set_solver.
  - intros x s Hx Hne. rewrite Hrest. destruct (decide (p = x)) as [->|Hpx].
    + rewrite lookup_insert_eq in Hx. congruence.
    + rewrite lookup_insert_ne in Hx by done. pose proof (s_busy _ _ _ Hs x s Hx Hne) as Hin.
      rewrite Hh in Hin. set_solver.
Qed.

(** * Which clients exist *)

Definition added_client (m : ReactorMsg) : option Z := match m with eAdd p => Some p | _ => None end.
Definition adds (ms : list ReactorMsg) : list Z := omap added_client ms.

(** The clients alive are those in the list and those about to be entered into
    it; those being destroyed and those the IO thread still has to visit are
    among them. *)
Record known (runs : gmap Z runstate) (clients toadd destroying : list Z) (io : io_thread) : Prop := {
  k_clients : forall p, p ∈ clients ++ toadd <-> is_Some (runs !! p);
  k_nodup : NoDup (clients ++ toadd);
  k_destroying : destroying ⊆ clients;
  k_dnodup : NoDup destroying;
  k_io : match io with
         | IoSearch todo => todo ⊆ clients
         | IoDestroy todo => todo ⊆ destroying /\ NoDup todo
         | _ => True
         end }.

Lemma known_insert runs clients toadd destroying io p s :
  known runs clients toadd destroying io -> is_Some (runs !! p) ->
  known (<[p := s]> runs) clients toadd destroying io.
Proof.
  intros [H1 H2 H3 H4 H5] Hp. split; try done.
  intros x. rewrite H1, lookup_insert_is_Some. destruct (decide (p = x)) as [->|]; intuition.
Qed.

Lemma known_new runs clients toadd destroying io p s :
  known runs clients toadd destroying io -> runs !! p = None ->
  known (<[p := s]> runs) clients (toadd ++ [p]) destroying io.
Proof.
  intros [H1 H2 H3 H4 H5] Hp. split; rewrite ?app_assoc; try done.
  - intros x. rewrite elem_of_app, H1, lookup_insert_is_Some, list_elem_of_singleton.
    destruct (decide (p = x)) as [->|]; intuition.
  - apply NoDup_app. split; [done|]. split; [|apply NoDup_singleton].
    intros x Hx ->%list_elem_of_singleton. apply H1 in Hx as [? Hx]. congruence.
Qed.

Lemma known_io runs clients toadd destroying io io' :
  known runs clients toadd destroying io ->
  match io' with
  | IoSearch todo => todo ⊆ clients
  | IoDestroy todo => todo ⊆ destroying /\ NoDup todo
  | _ => True
  end -> known runs clients toadd destroying io'.
Proof. intros [H1 H2 H3 H4 H5] Hio. by split. Qed.

Lemma known_delete runs clients toadd destroying p todo :
  known runs clients toadd destroying (IoDestroy (p :: todo)) ->
  known (delete p runs) (filter (fun q => q <> p) clients) toadd
    (filter (fun q => q <> p) destroying) (IoDestroy todo).
Proof.
  intros [H1 H2 H3 H4 [H5 H6]]. apply NoDup_cons in H6 as [Hp H6].
  pose proof (NoDup_app clients toadd) as [Hsplit _]. destruct (Hsplit H2) as (Hnc & Hd & Hna).
  assert (Hpc : p ∈ clients) by (apply H3, H5; set_solver).
  split.
  - intros x. rewrite lookup_delete_is_Some, <- H1, !elem_of_app, list_elem_of_filter.
    specialize (Hd p Hpc). split; naive_solver.
  - apply NoDup_app. split; [by apply NoDup_filter|]. split; [|done].
    intros x [_ Hx]%list_elem_of_filter. by apply Hd.
  - intros x [Hne Hx]%list_elem_of_filter. apply list_elem_of_filter. auto.
  - by apply NoDup_filter.
  - split; [|done]. intros x Hx. apply list_elem_of_filter.
    split; [intros ->; done | apply H5; set_solver].
Qed.

Lemma set_insert_elem p l x : x ∈ set_insert p l <-> x = p \/ x ∈ l.
Proof. unfold set_insert. destruct (decide (p ∈ l)); set_solver. Qed.
Lemma set_insert_nodup p l : NoDup l -> NoDup (set_insert p l).
Proof.
  intros Hl. unfold set_insert. destruct (decide (p ∈ l)); [done|].
  apply NoDup_app. split; [done|]. split; [set_solver | apply NoDup_singleton].
Qed.

(** Notifications: a waiting message has left a byte in the pipe. *)
Definition wakes (q : ReactorNotifQ) : Prop := 0 <= nq_pipe q /\ (nq_pending q <> [] -> 0 < nq_pipe q).

Lemma push_msg_wakes m q : wakes q -> wakes (push_msg m q).
Proof.
  intros [H0 H1]. unfold push_msg, wakes.
  destruct (bool_decide (m = eNoEvent) && negb (bool_decide (nq_pending q = []))); [done|]. cbn.
  destruct (Z.ltb_spec (nq_pipe q) PIPE_CAPACITY); unfold PIPE_CAPACITY in *; split; intros; lia.
Qed.

Lemma push_msg_adds m q :
  adds (nq_pending (push_msg m q)) = adds (nq_pending q) ++ option_list (added_client m).
Proof.
  unfold push_msg. destruct m; simpl; try destruct (bool_decide _); simpl; unfold adds;
    rewrite ?omap_app; simpl; by rewrite ?app_nil_r.
Qed.

(** * The invariant *)

Section props.
Context {T : Type} {CB : ClientCallback T}.
Implicit Types r : Reactor (T := T).

Definition runs (r : Reactor (T := T)) : gmap Z runstate := ob_run <$> r_objects r.

(** The IO thread will look at client [p] before it next waits without a
    timeout. *)
Definition attended (r : Reactor (T := T)) (p : Z) : Prop :=
  match r_io r with IoEvents => True | IoSearch todo => p ∈ todo | _ => False end \/ p ∈ r_destroying r.

Record inv (r : Reactor (T := T)) : Prop := {
  inv_sched : sched (runs r) (r_runq r) (r_workers r);
  inv_count : r_itemcount r = size_t (Z.of_nat (length (r_runq r)));
  inv_known : known (runs r) (r_clients r) (adds (nq_pending (r_notifq r))) (r_destroying r) (r_io r);
  inv_wakes : wakes (r_notifq r);
  inv_work : forall p o, p ∈ r_clients r -> r_objects r !! p = Some o ->
    has_work (ob_client o) = true -> ob_run o = RS_N -> attended r p }.

Lemma runs_lookup r p o : r_objects r !! p = Some o -> runs r !! p = Some (ob_run o).
Proof. intros Hp. unfold runs. by rewrite lookup_fmap, Hp. Qed.

Lemma runs_set r p o : runs (set_object_at p o r) = <[p := ob_run o]> (runs r).
Proof. unfold runs, set_object_at. cbn. by rewrite fmap_insert. Qed.

Lemma runs_keep r p o c : r_objects r !! p = Some o -> runs (set_object_at p (Object c (ob_run o)) r) = runs r.
Proof. intros Hp. rewrite runs_set. cbn. apply insert_id. by apply runs_lookup. Qed.

Lemma new_reactor_inv n w : inv (new_reactor n w).
Proof.
  assert (Hheld : held (replicate n WIdle) = []) by (induction n; simpl; [done | done]).
  split; cbn.
  - split; unfold runs; cbn; rewrite ?Hheld.
    + constructor.
    + set_solver.
    + intros i x p Hi Hp. apply lookup_replicate in Hi as [-> _]. done.
    + intros p s Hp. by rewrite fmap_empty, lookup_empty in Hp.
  - done.
  - split; cbn; try set_solver; [|constructor..].
    intros p. unfold runs; cbn. rewrite fmap_empty, lookup_empty. split; [set_solver | by intros []].
  - by split.
  - set_solver.
Qed.

(** A client object changes, its run state kept: nothing is lost if the new
    work is attended. *)
Lemma inv_set_client r p o c :
  inv r -> r_objects r !! p = Some o ->
  (has_work c = true -> ob_run o = RS_N -> p ∈ r_clients r -> has_work (ob_client o) = true \/ attended r p) ->
  inv (set_object_at p (Object c (ob_run o)) r).
Proof.
  intros [H1 H2 H3 H4 H5] Hp Hwork. split; rewrite ?(runs_keep r p o c Hp); try done.
  intros x ox Hx Hox Hw Hn. cbn in *. destruct (decide (p = x)) as [->|Hne].
  - rewrite lookup_insert_eq in Hox. simplify_eq; cbn in *.
    destruct (Hwork Hw Hn Hx) as [Hold|Hold]; [by eapply H5 | exact Hold].
  - rewrite lookup_insert_ne in Hox by done. exact (H5 x ox Hx Hox Hw Hn).
Qed.

Lemma inv_notify r m : inv r -> added_client m = None -> inv (notify m r).
Proof.
  intros [H1 H2 H3 H4 H5] Hm. split; try done.
  - cbn. rewrite push_msg_adds, Hm. cbn. by rewrite app_nil_r.
  - by apply push_msg_wakes.
Qed.

Lemma notification_no_client es : Forall (fun m => added_client m = None) (omap notification es).
Proof. induction es as [|[] es IH]; cbn; try done; by constructor. Qed.

Lemma inv_notify_list r ms : inv r -> Forall (fun m => added_client m = None) ms -> inv (notify_list ms r).
Proof.
  intros Hr Hms. revert r Hr. induction Hms as [|m ms Hm _ IH]; intros r Hr; [by destruct r|].
  apply (IH (notify m r)). by apply inv_notify.
Qed.

Lemma inv_client_call r p o c :
  inv r -> r_objects r !! p = Some o ->
  (has_work c = true -> ob_run o = RS_N -> p ∈ r_clients r -> has_work (ob_client o) = true \/ attended r p) ->
  inv (client_call p o c r).
Proof. intros. apply inv_notify_list; [by apply inv_set_client|apply notification_no_client]. Qed.

Lemma inv_add r p c :
  inv r -> r_objects r !! p = None -> inv (add_client p (set_object_at p (Object c RS_N) r)).
Proof.
  intros [H1 H2 H3 H4 H5] Hp.
  assert (Hruns : runs r !! p = None) by (unfold runs; by rewrite lookup_fmap, Hp).
  assert (Hset : runs (add_client p (set_object_at p (Object c RS_N) r)) = <[p := RS_N]> (runs r))
    by apply runs_set.
  split; rewrite ?Hset.
  - apply sched_idle_insert; [done|]. eapply sched_free; eauto.
  - done.
  - cbn. rewrite push_msg_adds. by apply known_new.
  - by apply push_msg_wakes.
  - intros x o Hx Ho Hw Hn. cbn in *. rewrite lookup_insert_ne in Ho; [exact (H5 x o Hx Ho Hw Hn)|].
    intros ->. destruct (proj1 (k_clients _ _ _ _ _ H3 x)); [set_solver | congruence].
Qed.

(** The IO thread moves on. *)
Lemma inv_set_io r io :
  inv r ->
  match io with
  | IoSearch todo => todo ⊆ r_clients r
  | IoDestroy todo => todo ⊆ r_destroying r /\ NoDup todo
  | _ => True
  end ->
  (forall p o, p ∈ r_clients r -> r_objects r !! p = Some o -> has_work (ob_client o) = true ->
     ob_run o = RS_N -> attended r p -> attended (set_io io r) p) ->
  inv (set_io io r).
Proof.
  intros [H1 H2 H3 H4 H5] Hio Hatt. split; try done.
  - cbn. by eapply known_io.
  - intros p o Hp Ho Hw Hn. by eapply Hatt, H5.
Qed.

(** * The IO thread *)

Lemma attend_fold r l d :
  NoDup d ->
  let d' := foldl (fun d p => if wants_delete r p then set_insert p d else d) d l in
  NoDup d' /\ d ⊆ d' /\ d' ⊆ d ++ l.
Proof.
  revert d. induction l as [|p l IH]; intros d Hd; cbn [foldl]; [rewrite app_nil_r; set_solver|].
  destruct (wants_delete r p).
  - destruct (IH (set_insert p d) (set_insert_nodup p d Hd)) as (Hn & Hs & Hb).
    split; [done|]. split.
    + intros x Hx. apply Hs, set_insert_elem. tauto.
    + intros x Hx. apply Hb in Hx. rewrite elem_of_app, set_insert_elem in Hx. set_solver.
  - destruct (IH d Hd) as (Hn & Hs & Hb). split; [done|]. split; [done|]. set_solver.
Qed.

Lemma handle_reactor_msg_frame m r :
  let r' := handle_reactor_msg m r in
  r_objects r' = r_objects r /\ r_runq r' = r_runq r /\ r_itemcount r' = r_itemcount r /\
  r_workers r' = r_workers r /\ r_io r' = r_io r /\ r_notifq r' = r_notifq r.
Proof. by destruct m. Qed.

Lemma handle_messages_frame ms r :
  let r' := foldl (fun r m => handle_reactor_msg m r) r ms in
  r_objects r' = r_objects r /\ r_runq r' = r_runq r /\ r_itemcount r' = r_itemcount r /\
  r_workers r' = r_workers r /\ r_io r' = r_io r /\ r_notifq r' = r_notifq r.
Proof.
  revert r. induction ms as [|m ms IH]; intros r; cbn [foldl]; [done|].
  destruct (handle_reactor_msg_frame m r) as (F1 & F2 & F3 & F4 & F5 & F6).
  rewrite <- F1, <- F2, <- F3, <- F4, <- F5, <- F6. apply IH.
Qed.

Lemma handle_reactor_msg_known m ms r :
  known (runs r) (r_clients r) (adds (m :: ms)) (r_destroying r) IoEvents ->
  let r' := handle_reactor_msg m r in
  known (runs r') (r_clients r') (adds ms) (r_destroying r') IoEvents.
Proof.
  intros [H1 H2 H3 H4 _]. destruct m; cbn in *; try (split; done).
  - split; cbn; rewrite <- ?app_assoc; cbn; try done. set_solver.
  - destruct (attend_fold r (r_clients r) (r_destroying r) H4) as (Hn & _ & Hb).
    split; cbn; try done. set_solver.
Qed.

Lemma handle_messages ms r :
  known (runs r) (r_clients r) (adds ms) (r_destroying r) IoEvents ->
  let r' := foldl (fun r m => handle_reactor_msg m r) r ms in
  known (runs r') (r_clients r') [] (r_destroying r') IoEvents.
Proof.
  revert r. induction ms as [|m ms IH]; intros r Hk; cbn [foldl]; [done|].
  apply IH. by apply handle_reactor_msg_known.
Qed.

Lemma inv_messages r :
  inv r -> r_io r = IoEvents ->
  inv (foldl (fun r m => handle_reactor_msg m r) (set_notifq (pull (r_notifq r)).2 r) (pull (r_notifq r)).1).
Proof.
  intros [H1 H2 H3 H4 H5] Hio. rewrite Hio in H3.
  pose proof (handle_messages (pull (r_notifq r)).1 (set_notifq (pull (r_notifq r)).2 r) H3) as Hk.
  destruct (handle_messages_frame (pull (r_notifq r)).1 (set_notifq (pull (r_notifq r)).2 r)) as
    (F1 & F2 & F3 & F4 & F5 & F6).
  set (r' := foldl _ _ _) in *.
  assert (Hruns : runs r' = runs r) by (unfold runs; by rewrite F1).
  assert (Hwakes : wakes (pull (r_notifq r)).2) by (destruct H4; split; cbn; done).
  split; rewrite ?F2, ?F3, ?F4, ?F5, ?F6, ?Hruns; try done.
  - rewrite <- Hruns. cbn. by rewrite Hio.
  - intros p o _ _ _ _. left. rewrite F5. cbn. by rewrite Hio.
Qed.

Lemma size_t_succ a : size_t (size_t a + 1) = size_t (a + 1).
Proof. unfold size_t, wrap. by rewrite Zplus_mod_idemp_l. Qed.
Lemma size_t_pred a : size_t (size_t a - 1) = size_t (a - 1).
Proof. unfold size_t, wrap. by rewrite Zminus_mod_idemp_l. Qed.

Lemma inv_search r p todo :
  inv r -> r_io r = IoSearch (p :: todo) -> inv (set_io (IoSearch todo) (search_client p r)).
Proof.
  intros Hinv Hio. pose proof Hinv as [H1 H2 H3 H4 H5]. rewrite Hio in H3.
  pose proof (k_io _ _ _ _ _ H3) as Htodo. cbn in Htodo.
  assert (Hatt : forall q, q <> p -> attended r q -> attended (set_io (IoSearch todo) (search_client p r)) q).
  { intros q Hq [Ha|Ha]; [left|right].
    - cbn. rewrite Hio in Ha. set_solver.
    - unfold search_client. destruct (r_objects r !! p); [|done]. by case_bool_decide. }
  unfold search_client in *. destruct (r_objects r !! p) as [o|] eqn:Ho.
  2:{ destruct (proj1 (k_clients _ _ _ _ _ H3 p)) as [x Hx]; [set_solver|].
      unfold runs in Hx. by rewrite lookup_fmap, Ho in Hx. }
  set (o' := update_run_state_for_reactor o) in *.
  case_bool_decide as Hq.
  - destruct Hq as [Hn Hq]. split; cbn.
    + change (sched (runs (set_object_at p o' r)) (r_runq r ++ [Some p]) (r_workers r)).
      rewrite runs_set, Hq. apply sched_enqueue; [done|].
      rewrite (runs_lookup r p o Ho). by rewrite Hn.
    + rewrite H2, length_app, size_t_succ. f_equal. cbn. lia.
    + change (known (runs (set_object_at p o' r)) (r_clients r) (adds (nq_pending (r_notifq r)))
                (r_destroying r) (IoSearch todo)).
      rewrite runs_set. apply known_insert; [|rewrite (runs_lookup r p o Ho); eauto].
      eapply known_io; [done|]. set_solver.
    + done.
    + intros q oq Hin Hoq Hw Hrun. destruct (decide (p = q)) as [->|Hne].
      * rewrite lookup_insert_eq in Hoq. injection Hoq as <-. congruence.
      * rewrite lookup_insert_ne in Hoq by done. apply Hatt; [done|]. by eapply H5.
  - assert (Ho' : o' = o /\ ~ (has_work (ob_client o) = true /\ ob_run o = RS_N)).
    { unfold o', update_run_state_for_reactor in *. destruct (has_work (ob_client o)); cbn in *; [|intuition congruence].
      case_bool_decide; cbn in *; intuition congruence. }
    destruct Ho' as [Ho' Hidle]. rewrite Ho' in *. clear Hq.
    assert (Hsame : set_object_at p o r = r).
    { unfold set_object_at, set_objects. rewrite insert_id by done. by destruct r. }
    rewrite Hsame in *. apply inv_set_io; [done | set_solver |].
    intros q oq Hin Hoq Hw Hrun Ha. destruct (decide (p = q)) as [->|Hne].
    + simplify_eq. by destruct Hidle.
    + by apply Hatt.
Qed.

Lemma inv_destroy r now p todo :
  inv r -> r_io r = IoDestroy (p :: todo) -> inv (set_io (IoDestroy todo) (destroy_client now p r)).
Proof.
  intros Hinv Hio. pose proof Hinv as [H1 H2 H3 H4 H5]. rewrite Hio in H3.
  pose proof (k_io _ _ _ _ _ H3) as [Htodo Hnd]. apply NoDup_cons in Hnd as [_ Hnd].
  assert (Hkeep : forall r', r_io r' = IoDestroy (p :: todo) -> r_destroying r' = r_destroying r ->
            inv r' -> inv (set_io (IoDestroy todo) r')).
  { intros r' Hio' Hd Hr'. apply inv_set_io; [done | rewrite Hd; set_solver |].
    intros q o _ _ _ _ [Ha|Ha]; [by rewrite Hio' in Ha | by right]. }
  unfold destroy_client. destruct (r_objects r !! p) as [o|] eqn:Ho; [|by apply Hkeep].
  destruct (destroy_cycle now (ob_client o)) as [c ready] eqn:Hc.
  destruct (ready && bool_decide (ob_run o = RS_N)) eqn:Hdel.
  - apply andb_prop in Hdel as [_ Hn%bool_decide_eq_true].
    assert (Hruns : ob_run <$> delete p (<[p := Object c (ob_run o)]> (r_objects r)) = delete p (runs r)).
    { unfold runs. by rewrite delete_insert_eq, fmap_delete. }
    split; cbn; unfold runs; cbn; rewrite ?Hruns; try done.
    + apply sched_delete; [done|]. by rewrite (runs_lookup r p o Ho), Hn.
    + by apply known_delete.
    + intros q oq [Hqp Hq]%list_elem_of_filter Hoq Hw Hrun. right. cbn.
      rewrite lookup_delete_ne, lookup_insert_ne in Hoq by done.
      destruct (H5 q oq Hq Hoq Hw Hrun) as [Ha|Ha]; [by rewrite Hio in Ha|].
      by apply list_elem_of_filter.
  - apply Hkeep; [done..|]. apply inv_set_client; [done..|].
    intros _ _ _. right. right. set_solver.
Qed.

(** * The workers *)

Lemma inv_pop r i p items :
  inv r -> r_workers r !! i = Some WIdle -> r_runq r = Some p :: items ->
  inv (set_worker i (WPopped p) (set_runq items (size_t (r_itemcount r - 1)) r)).
Proof.
  intros [H1 H2 H3 H4 H5] Hi Hq. rewrite Hq in H1, H2. split; try done.
  - by apply sched_pop.
  - cbn. rewrite H2, size_t_pred. f_equal. cbn [length]. lia.
Qed.

(** A worker that holds [p] changes the object and its own place. *)
Lemma inv_hold r i w w' p o c world :
  inv r -> r_workers r !! i = Some w -> worker_client w = Some p -> worker_client w' = Some p ->
  r_objects r !! p = Some o ->
  inv (set_worker i w' (set_world world (set_object_at p (Object c (worker_run w')) r))).
Proof.
  intros [H1 H2 H3 H4 H5] Hi Hw Hw' Ho.
  assert (Hruns : runs (set_worker i w' (set_world world (set_object_at p (Object c (worker_run w')) r))) =
            <[p := worker_run w']> (runs r)) by apply runs_set.
  split; rewrite ?Hruns; try done.
  - by eapply sched_hold.
  - apply known_insert; [done|]. rewrite (runs_lookup r p o Ho). eauto.
  - intros q oq Hq Hoq Hwk Hn. cbn in *. destruct (decide (p = q)) as [->|Hne].
    + rewrite lookup_insert_eq in Hoq. injection Hoq as <-. cbn in Hn. by destruct w'.
    + rewrite lookup_insert_ne in Hoq by done. exact (H5 q oq Hq Hoq Hwk Hn).
Qed.

Lemma inv_done r i w p o :
  inv r -> r_workers r !! i = Some w -> worker_client w = Some p -> r_objects r !! p = Some o ->
  has_work (ob_client o) = false ->
  inv (set_worker i WIdle (set_object_at p (Object (ob_client o) RS_N) r)).
Proof.
  intros [H1 H2 H3 H4 H5] Hi Hw Ho Hno.
  assert (Hruns : runs (set_worker i WIdle (set_object_at p (Object (ob_client o) RS_N) r)) =
            <[p := RS_N]> (runs r)) by apply runs_set.
  split; rewrite ?Hruns; try done.
  - by eapply sched_done.
  - apply known_insert; [done|]. rewrite (runs_lookup r p o Ho). eauto.
  - intros q oq Hq Hoq Hwk Hn. cbn in *. destruct (decide (p = q)) as [->|Hne].
    + rewrite lookup_insert_eq in Hoq. injection Hoq as <-. cbn in Hwk. congruence.
    + rewrite lookup_insert_ne in Hoq by done. exact (H5 q oq Hq Hoq Hwk Hn).
Qed.

(** The run state of a held client's object. *)
Lemma inv_worker_run r i w p o :
  inv r -> r_workers r !! i = Some w -> worker_client w = Some p -> r_objects r !! p = Some o ->
  ob_run o = worker_run w.
Proof.
  intros Hinv Hi Hw Ho. pose proof (s_worker _ _ _ (inv_sched r Hinv) i w p Hi Hw) as Hr.
  rewrite (runs_lookup r p o Ho) in Hr. congruence.
Qed.

Lemma inv_update r i p o :
  inv r -> r_workers r !! i = Some (WWorked p) -> r_objects r !! p = Some o ->
  let o' := update_run_state_for_worker o in
  inv (set_worker i (if bool_decide (ob_run o' = RS_R) then WRunning p else WIdle) (set_object_at p o' r)).
Proof.
  intros Hinv Hi Ho. pose proof (inv_worker_run r i _ p o Hinv Hi eq_refl Ho) as Hrun.
  unfold update_run_state_for_worker. destruct (has_work (ob_client o)) eqn:Hw; cbn.
  - rewrite bool_decide_eq_true_2 by done.
    pose proof (inv_hold r i (WWorked p) (WRunning p) p o (ob_client o) (r_world r) Hinv Hi eq_refl eq_refl Ho) as H.
    destruct o as [c run]; cbn in Hrun; subst run. by destruct r.
  - by eapply (inv_done r i (WWorked p)).
Qed.

Lemma queue_has_work buf cl c : has_work (queue buf cl c).1 = has_work c.
Proof.
  unfold queue, do_shutdown_SHUT_WR. repeat (case_match; try done).
Qed.
Lemma release_has_work now c : has_work (release now c) = has_work c.
Proof. unfold release, do_shutdown_SHUT_WR. repeat (case_match; try done). Qed.

(** * Every step keeps the invariant *)

Lemma inv_worked r i p o c w : inv r -> r_workers r !! i = Some (WRunning p) -> r_objects r !! p = Some o ->
  inv (set_worker i (WWorked p) (set_world w (client_call p o c r))).
Proof.
  intros Hr Hi Ho. unfold client_call. rewrite (inv_worker_run r i (WRunning p) p o) by done.
  change (inv (notify_list (omap notification (io_added (ob_client o) c))
    (set_worker i (WWorked p) (set_world w (set_object_at p (Object c (worker_run (WWorked p))) r))))).
  apply inv_notify_list; [by apply (inv_hold r i (WRunning p) (WWorked p) p o)|apply notification_no_client].
Qed.

Lemma worker_step_inv i r r' : inv r -> worker_step i r r' -> inv r'.
Proof.
  intros Hinv Hstep. destruct Hstep.
  - by apply inv_pop.
  - destruct Hinv as [H2 H3 H4 H5 H6]. split; try done. by apply sched_exit.
  - pose proof (inv_hold r i (WPopped p) (WRunning p) p o (ob_client o) (r_world r) Hinv H eq_refl eq_refl H0).
    by destruct r.
  - by eapply inv_worked.
  - by eapply inv_worked.
  - by apply inv_update.
Qed.

Lemma app_step_inv r r' : inv r -> app_step r r' -> inv r'.
Proof.
  intros Hinv Hstep. destruct Hstep.
  - by apply inv_add.
  - apply inv_client_call; [done..|]. rewrite queue_has_work. auto.
  - apply inv_client_call; [done..|]. rewrite release_has_work. auto.
  - by apply inv_notify.
Qed.

Lemma io_step_inv r r' : inv r -> io_step r r' -> inv r'.
Proof.
  intros Hinv Hstep. destruct Hstep.
  - apply inv_set_io; [done..|]. intros p o _ _ _ _ [Ha|Ha]; [by rewrite H in Ha | by right].
  - apply inv_set_io; [done..|]. intros p' o _ _ _ _ [Ha|Ha]; [by rewrite H in Ha | by right].
  - apply inv_set_io; [done..|]. intros p o _ _ _ _ [Ha|Ha]; [by rewrite H in Ha | by right].
  - apply inv_set_io; [done..|]. intros p o _ _ _ _ [Ha|Ha]; [by rewrite H in Ha | by right].
  - apply inv_set_io; [done..|]. intros. by left.
  - apply inv_set_client; [done..|]. intros _ _ _. right. left. by rewrite H.
  - by apply inv_messages.
  - apply inv_set_io; [done..|]. intros. by left.
  - by apply inv_search.
  - apply (inv_set_io (set_last_cleanup now r)); [by destruct Hinv | split; [done|] |].
    + by destruct Hinv as [_ _ [] _ _].
    + intros p o _ _ _ _ [Ha|Ha]; [|by right]. cbn in Ha. rewrite H in Ha. set_solver.
  - apply inv_set_io; [done..|]. intros p o _ _ _ _ [Ha|Ha]; [|by right]. rewrite H in Ha. set_solver.
  - by apply inv_destroy.
  - apply inv_set_io; [done..|]. intros p o _ _ _ _ [Ha|Ha]; [by rewrite H in Ha | by right].
Qed.

Lemma step_inv r r' : inv r -> step r r' -> inv r'.
Proof.
  intros Hinv Hstep. destruct Hstep.
  - by eapply app_step_inv.
  - by eapply io_step_inv.
  - by eapply worker_step_inv.
  - by destruct Hinv.
  - by apply inv_notify.
  - destruct Hinv as [H2 H3 H4 H5 H6]. split; try done; cbn.
    + by apply sched_end.
    + rewrite H3, length_app, size_t_succ. f_equal. cbn. lia.
Qed.

(** The IO thread builds its poll set when nobody interferes. *)
Definition poll_asks (r : Reactor (T := T)) (todo : list Z) : list Z := filter (fun p => asks_output r p = true) todo.

Lemma ask_all r todo : forall asked, r_io r = IoAsk todo asked ->
  rtc io_step r (set_io (IoWait (asked ++ poll_asks r todo)) r).
Proof.
  revert r. induction todo as [|p todo IH]; intros r asked Hio.
  - unfold poll_asks. cbn. rewrite app_nil_r. by apply rtc_once, io_wait.
  - eapply rtc_l; [by apply io_ask|]. unfold poll_asks. rewrite filter_cons.
    destruct (asks_output r p) eqn:E; [rewrite decide_True by done|rewrite decide_False by done].
    + pose proof (IH (set_io (IoAsk todo (asked ++ [p])) r) (asked ++ [p]) eq_refl) as H.
      rewrite <-app_assoc in H. exact H.
    + exact (IH (set_io (IoAsk todo asked) r) asked eq_refl).
Qed.

Lemma through_asks r : r_io r = IoPoll -> r_is_stopping r = false ->
  rtc step r (set_io (IoWait (poll_asks r (r_clients r))) r).
Proof.
  intros Hio Hs. eapply rtc_l; [by apply step_io, io_ask_start|]. apply (rtc_subrel io_step); [exact step_io|].
  exact (ask_all (set_io (IoAsk (r_clients r) []) r) (r_clients r) [] eq_refl).
Qed.

(** It goes through [poll]. *)
Lemma through_poll r : r_io r = IoPoll -> r_is_stopping r = false -> rtc step r (set_io IoEvents r).
Proof.
  intros Hio Hs. etransitivity; [by apply through_asks|].
  apply rtc_once. exact (step_io _ _ (io_ready (set_io (IoWait (poll_asks r (r_clients r))) r) _ eq_refl)).
Qed.

Lemma reach_steps n w r r' : reachable n w r -> rtc step r r' -> reachable n w r'.
Proof. intros Hr Hs. induction Hs as [|x y z Hxy _ IH]; [done|]. apply IH. by eapply reach_step. Qed.

Lemma reach_poll n w r : reachable n w r -> r_io r = IoPoll -> r_is_stopping r = false ->
  reachable n w (set_io IoEvents r).
Proof. intros Hr Hio Hs. eapply reach_steps; [done|]. by apply through_poll. Qed.

Lemma reachable_inv n w r : reachable n w r -> inv r.
Proof. induction 1; [apply new_reactor_inv | by eapply step_inv]. Qed.

Lemma queued_elem p q : Some p ∈ q <-> p ∈ queued q.
Proof. unfold queued. rewrite list_elem_of_omap. split; [by exists (Some p) | intros (x & Hx & Hp); by destruct x; cbn in Hp; simplify_eq]. Qed.

(** C7.  One thread at a time: in every reachable state of the reactor and its
    workers no two workers hold the same client, a held client is not in the
    run queue, and the objects held or queued are alive with the run state that
    says so; the clients the event loop visits are alive; and a worker that
    finds the item counter non-zero finds an item. *)
Theorem reactor_exclusive n w r :
  reachable n w r ->
  (forall i j wi wj p, r_workers r !! i = Some wi -> r_workers r !! j = Some wj ->
     worker_client wi = Some p -> worker_client wj = Some p -> i = j) /\
  (forall i wi p, r_workers r !! i = Some wi -> worker_client wi = Some p ->
     (Some p ∉ r_runq r) /\ exists o, r_objects r !! p = Some o /\ ob_run o = worker_run wi) /\
  (forall p, Some p ∈ r_runq r -> exists o, r_objects r !! p = Some o /\ ob_run o = RS_Q) /\
  (forall p, p ∈ r_clients r -> is_Some (r_objects r !! p)) /\
  (r_itemcount r <> 0 -> r_runq r <> []).
Proof.
  intros Hr. apply reachable_inv in Hr as [H1 H2 H3 H4 H5].
  pose proof (s_nodup _ _ _ H1) as (_ & Hdisj & Hnd)%NoDup_app.
  assert (Hobj : forall p s, runs r !! p = Some s -> exists o, r_objects r !! p = Some o /\ ob_run o = s).
  { intros p s Hp. unfold runs in Hp. apply lookup_fmap_Some in Hp as (o & <- & Ho). eauto. }
  repeat split.
  - intros. by eapply held_unique.
  - intros Hin%queued_elem. eapply Hdisj; [exact Hin | by eapply held_lookup].
  - by eapply Hobj, H1.
  - intros p Hin%queued_elem. by eapply Hobj, H1.
  - intros p Hp. destruct (proj1 (k_clients _ _ _ _ _ H3 p)) as [s Hs]; [set_solver|].
    destruct (Hobj p s Hs) as (o & Ho & _). eauto.
  - intros Hc Hq. apply Hc. by rewrite H2, Hq.
Qed.

(** C8.  No inbound work is lost: whenever the event loop is about to wait or
    waits in [poll], a client that has unprocessed input or an unprocessed close is in
    the run queue, or held by a worker, or among the clients being destroyed
    (and [poll] then waits at most a second), whatever the workers and the application
    did meanwhile. *)
Theorem no_lost_work n w r p o :
  reachable n w r -> polling (r_io r) = true ->
  p ∈ r_clients r -> r_objects r !! p = Some o -> has_work (ob_client o) = true ->
  Some p ∈ r_runq r \/
  (exists i wi, r_workers r !! i = Some wi /\ worker_client wi = Some p) \/
  (p ∈ r_destroying r /\ poll_timeout r = 1000).
Proof.
  intros Hr Hio Hp Ho Hw. apply reachable_inv in Hr as [H1 H2 H3 H4 H5].
  destruct (decide (ob_run o = RS_N)) as [Hn|Hn].
  - destruct (H5 p o Hp Ho Hw Hn) as [Ha|Ha]; [by destruct (r_io r)|].
    right. right. split; [done|]. unfold poll_timeout. rewrite bool_decide_eq_false_2; [done|].
    intros Hd. rewrite Hd in Ha. set_solver.
  - pose proof (s_busy _ _ _ H1 p _ (runs_lookup r p o Ho) Hn) as [Hq|Hh]%elem_of_app.
    + left. by apply queued_elem.
    + right. left. apply list_elem_of_omap in Hh as (wi & Hin & Hc).
      apply list_elem_of_lookup in Hin as [i Hi]. eauto.
Qed.

Lemma lookup_insert_not_None {A} (m : gmap Z A) p q x y : m !! p = Some x -> <[q := y]> m !! p <> None.
Proof. intros Hp Hn. apply lookup_insert_None in Hn as [Hn _]. congruence. Qed.

(** The only step that takes an object away. *)
Lemma step_vanish r r' p o :
  inv r -> step r r' -> r_objects r !! p = Some o -> r_objects r' !! p = None ->
  exists now todo, r_io r = IoDestroy (p :: todo) /\ r' = set_io (IoDestroy todo) (destroy_client now p r).
Proof.
  intros Hinv Hstep Ho Hnone. destruct Hstep as [? ? H|? ? H|? ? ? H| | |]; [destruct H..| | |];
    cbn in Hnone;
    try (exfalso; exact (lookup_insert_not_None _ _ _ _ _ Ho Hnone)); try congruence.
  - destruct (handle_messages_frame (nq_pending (r_notifq r)) (set_notifq (pull (r_notifq r)).2 r)) as (F & _).
    cbn in F. rewrite F in Hnone. congruence.
  - exfalso. unfold search_client in Hnone. destruct (r_objects r !! p0) eqn:Hp0; [|congruence].
    case_bool_decide; cbn in Hnone; exact (lookup_insert_not_None _ _ _ _ _ Ho Hnone).
  - destruct (decide (p0 = p)) as [->|Hne]; [by eauto|]. exfalso.
    unfold destroy_client in Hnone. destruct (r_objects r !! p0) as [o0|] eqn:Hp0; [|congruence].
    destruct (destroy_cycle now (ob_client o0)) as [c ready]. destruct (ready && _); cbn in Hnone.
    + rewrite lookup_delete_ne in Hnone by done. exact (lookup_insert_not_None _ _ _ _ _ Ho Hnone).
    + exact (lookup_insert_not_None _ _ _ _ _ Ho Hnone).
Qed.

Lemma destroy_cycle_ready now c c' : destroy_cycle now c = (c', true) -> m_io_closed c = true.
Proof.
  unfold destroy_cycle, io_open. intros H. case_match; [|done].
  cbn in H. by destruct (m_io_closed c).
Qed.

Lemma destroyed_client r now p todo o :
  inv r -> r_io r = IoDestroy (p :: todo) -> r_objects r !! p = Some o ->
  let r' := set_io (IoDestroy todo) (destroy_client now p r) in
  r_objects r' !! p = None ->
  p ∈ r_destroying r /\ ob_run o = RS_N /\ m_io_closed (ob_client o) = true /\
  (Some p ∉ r_runq r') /\ (p ∉ held (r_workers r')) /\ (p ∉ r_clients r').
Proof.
  intros Hinv Hio Ho. cbn. pose proof Hinv as [H1 _ H3 _ _]. rewrite Hio in H3.
  unfold destroy_client. rewrite Ho. destruct (destroy_cycle now (ob_client o)) as [c ready] eqn:Hc.
  destruct (ready && bool_decide (ob_run o = RS_N)) eqn:Hdel; cbn; intros Hnone;
    [|by rewrite lookup_insert_eq in Hnone].
  apply andb_prop in Hdel as [-> Hn%bool_decide_eq_true].
  assert (Hfree := sched_free _ _ _ p H1 (or_intror (eq_trans (runs_lookup r p o Ho) (f_equal Some Hn)))).
  rewrite elem_of_app, <- queued_elem in Hfree.
  split; [apply (k_io _ _ _ _ _ H3); set_solver|]. split; [done|]. split; [by eapply destroy_cycle_ready|].
  split; [tauto|]. split; [tauto|]. rewrite list_elem_of_filter. tauto.
Qed.

(** C31.  No client object is forgotten and no notification sleeps: in every
    reachable state a live client is in the event loop's list or in a waiting
    "add" notification, and while any notification waits the pipe that wakes
    [poll] holds a byte.  A client object disappears only in a destruction
    cycle, after a request to delete was seen, with its socket closed, idle, in
    no queue and in no worker's hands. *)
Theorem clients_registered_until_done n w r :
  reachable n w r ->
  (forall p o, r_objects r !! p = Some o ->
     p ∈ r_clients r \/ (eAdd p ∈ nq_pending (r_notifq r) /\ 0 < nq_pipe (r_notifq r))) /\
  (nq_pending (r_notifq r) <> [] -> 0 < nq_pipe (r_notifq r)) /\
  (forall r' p o, step r r' -> r_objects r !! p = Some o -> r_objects r' !! p = None ->
     p ∈ r_destroying r /\ ob_run o = RS_N /\ m_io_closed (ob_client o) = true /\
     (Some p ∉ r_runq r') /\ (p ∉ held (r_workers r')) /\ (p ∉ r_clients r')).
Proof.
  intros Hr. pose proof (reachable_inv n w r Hr) as Hinv. pose proof Hinv as [H1 H2 H3 [H4 H4'] H5].
  split; [|split; [done|]].
  - intros p o Ho. destruct (proj1 (elem_of_app _ _ _) (proj2 (k_clients _ _ _ _ _ H3 p)
      (mk_is_Some _ _ (runs_lookup r p o Ho)))) as [Hp|Hp]; [by left|].
    right. apply list_elem_of_omap in Hp as (m & Hm & Hp). destruct m; simplify_eq/=.
    split; [done|]. apply H4'. intros Hnil. rewrite Hnil in Hm. set_solver.
  - intros r' p o Hstep Ho Hnone. destruct (step_vanish r r' p o) as (now & todo & Hio & ->); [done..|].
    by apply destroyed_client.
Qed.

End props.

(** * A run of one client through one worker *)

#[local] Instance no_callback : ClientCallback unit :=
  {| process_input c s _ n := Ok (c, s, Some n); process_close c s := Ok (c, s) |}.

Definition demo_obj (r : Reactor (T := unit)) : object :=
  default (Object (new_client 0 0 false) RS_N) (r_objects r !! 1).

(** Registered; released; closed by the first destruction cycle; queued. *)
Definition demo_added : Reactor (T := unit) :=
  let r := add_client 1 (set_object_at 1 (Object (new_client 7 0 true) RS_N) (new_reactor 1 tt)) in
  let r := set_io IoEvents r in
  foldl (fun r m => handle_reactor_msg m r) (set_notifq (pull (r_notifq r)).2 r) (pull (r_notifq r)).1.
Definition demo_released : Reactor (T := unit) :=
  let r := demo_added in
  let r := client_call 1 (demo_obj r) (release 0 (ob_client (demo_obj r))) r in
  foldl (fun r m => handle_reactor_msg m r) (set_notifq (pull (r_notifq r)).2 r) (pull (r_notifq r)).1.
Definition demo_closed : Reactor (T := unit) :=
  let r := set_io (IoSearch (r_clients demo_released)) demo_released in
  let r := set_io (IoSearch []) (search_client 1 r) in
  let r := set_io (IoDestroy (r_destroying r)) (set_last_cleanup 100 r) in
  set_io IoPoll (set_io (IoDestroy []) (destroy_client 100 1 r)).
Definition demo_queued : Reactor (T := unit) :=
  let r := set_io IoEvents demo_closed in
  set_io (IoSearch []) (search_client 1 (set_io (IoSearch (r_clients r)) r)).
Definition demo_waiting : Reactor (T := unit) := set_io IoPoll demo_queued.
Definition demo_running : Reactor (T := unit) :=
  let r := set_worker 0 (WPopped 1) (set_runq [] (size_t (r_itemcount demo_waiting - 1)) demo_waiting) in
  set_worker 0 (WRunning 1) (set_object_at 1 (Object (ob_client (demo_obj r)) RS_R) r).
Definition demo_worked : Reactor (T := unit) :=
  let r := demo_running in
  set_worker 0 (WWorked 1) (set_world tt (client_call 1 (demo_obj r) (clear_fifo (ob_client (demo_obj r))) r)).
Definition demo_done : Reactor (T := unit) :=
  let r := demo_worked in
  let o' := update_run_state_for_worker (demo_obj r) in
  let r := set_worker 0 (if bool_decide (ob_run o' = RS_R) then WRunning 1 else WIdle) (set_object_at 1 o' r) in
  let r := set_io IoEvents r in
  let r := set_io (IoSearch (r_clients r)) r in
  let r := set_io (IoSearch []) (search_client 1 r) in
  set_io (IoDestroy (r_destroying r)) (set_last_cleanup 200 r).

Lemma demo_added_reachable : reachable 1 tt demo_added.
Proof.
  eapply reach_step; [|by apply step_io, io_messages]. eapply reach_poll; [|done..].
  eapply reach_step; [|by apply step_app, app_new_client]. apply reach_new.
Qed.
Lemma demo_closed_reachable : reachable 1 tt demo_closed.
Proof.
  eapply reach_step; [|by apply step_io, io_destroy_end].
  eapply reach_step; [|apply step_io, io_destroy; vm_compute; reflexivity].
  eapply reach_step; [|apply step_io, io_destroy_start; vm_compute; reflexivity].
  eapply reach_step; [|apply step_io, io_search; vm_compute; reflexivity].
  eapply reach_step; [|apply step_io, io_search_start; vm_compute; reflexivity].
  eapply reach_step; [|apply step_io, io_messages; vm_compute; reflexivity].
  eapply reach_step; [|apply step_app, app_release; vm_compute; reflexivity].
  apply demo_added_reachable.
Qed.
Lemma demo_waiting_reachable : reachable 1 tt demo_waiting.
Proof.
  eapply reach_step; [|apply step_io, (io_loop _ 100); vm_compute; reflexivity].
  eapply reach_step; [|apply step_io, io_search; vm_compute; reflexivity].
  eapply reach_step; [|apply step_io, io_search_start; vm_compute; reflexivity].
  eapply reach_poll; [|vm_compute; reflexivity..].
  apply demo_closed_reachable.
Qed.
Lemma demo_running_reachable : reachable 1 tt demo_running.
Proof.
  eapply reach_step; [|eapply step_worker, step_run; vm_compute; reflexivity].
  eapply reach_step; [|eapply step_worker, step_pop; [vm_compute; reflexivity | vm_compute; discriminate | vm_compute; reflexivity]].
  apply demo_waiting_reachable.
Qed.
Lemma demo_done_reachable : reachable 1 tt demo_done.
Proof.
  eapply reach_step; [|apply step_io, io_destroy_start; vm_compute; reflexivity].
  eapply reach_step; [|apply step_io, io_search; vm_compute; reflexivity].
  eapply reach_step; [|apply step_io, io_search_start; vm_compute; reflexivity].
  eapply reach_poll; [|vm_compute; reflexivity..].
  eapply reach_step; [|eapply step_worker, (step_update 0 demo_worked); vm_compute; reflexivity].
  apply (reach_step 1 tt demo_running); [apply demo_running_reachable|]. eapply step_worker.
  apply (step_work 0 demo_running 1 (demo_obj demo_running) (clear_fifo (ob_client (demo_obj demo_running))) tt);
    vm_compute; reflexivity.
Qed.

Lemma reactor_exclusive_witness :
  r_workers demo_running !! 0%nat = Some (WRunning 1) /\ (Some 1 ∉ r_runq demo_running) /\
  exists o, r_objects demo_running !! 1 = Some o /\ ob_run o = RS_R.
Proof.
  split; [reflexivity|]. destruct (reactor_exclusive 1 tt demo_running demo_running_reachable) as (_ & H & _).
  apply (H 0%nat (WRunning 1) 1); reflexivity.
Defined.

Lemma no_lost_work_witness :
  has_work (ob_client (demo_obj demo_waiting)) = true /\
  (Some 1 ∈ r_runq demo_waiting \/
   (exists i wi, r_workers demo_waiting !! i = Some wi /\ worker_client wi = Some 1) \/
   (1 ∈ r_destroying demo_waiting /\ poll_timeout demo_waiting = 1000)).
Proof.
  split; [vm_compute; reflexivity|].
  apply (no_lost_work 1 tt demo_waiting 1 (demo_obj demo_waiting) demo_waiting_reachable).
  - reflexivity.
  - apply list_elem_of_In. vm_compute. auto.
  - vm_compute. reflexivity.
  - vm_compute. reflexivity.
Defined.

Lemma clients_registered_until_done_witness :
  r_objects (set_io (IoDestroy []) (destroy_client 200 1 demo_done)) !! 1 = None /\
  m_io_closed (ob_client (demo_obj demo_done)) = true.
Proof.
  split; [vm_compute; reflexivity|].
  destruct (clients_registered_until_done 1 tt demo_done demo_done_reachable) as (_ & _ & H).
  destruct (H (set_io (IoDestroy []) (destroy_client 200 1 demo_done)) 1 (demo_obj demo_done)) as (_ & _ & Hc & _).
  - apply step_io, io_destroy. vm_compute. reflexivity.
  - vm_compute. reflexivity.
  - vm_compute. reflexivity.
  - exact Hc.
Defined.
