(* ===== verification/ReactorLoop.v ===== *)
(** The loop of the IO thread: [Reactor::reactor_main_loop] of [Reactor.cc] as
    it runs, one round at a time, and the end of [Reactor::~Reactor].

    Reactor.v has the threads as steps that interleave; here a round of the
    loop is a function of what the system answers, with the poll set, the map
    from descriptors to clients and the two passes of the destruction cycle
    written out.  The round is shown to be a run of the steps, so everything
    proved of their interleavings holds of the loop. *)

From S2P Require Import Prelude ReadBuffer Client Reactor ReactorProps.

Local Open Scope Z_scope.

(** * The poll set *)

Definition POLLIN : Z := 1.
Definition POLLPRI : Z := 2.
Definition POLLOUT : Z := 4.
Definition POLLERR : Z := 8.
Definition POLLHUP : Z := 16.
Definition POLLNVAL : Z := 32.
Definition POLLRDHUP : Z := 8192.

Definition has_flag (e flag : Z) : bool := negb (Z.land e flag =? 0).

(** [eventstr]: the names of the flags that are set. *)
Definition eventstr (e : Z) : string :=
  String.concat "|" (snd <$> filter (fun x => has_flag e x.1 = true)
    [(POLLIN, "POLLIN"); (POLLPRI, "POLLPRI"); (POLLOUT, "POLLOUT"); (POLLRDHUP, "POLLRDHUP");
     (POLLERR, "POLLERR"); (POLLHUP, "POLLHUP"); (POLLNVAL, "POLLNVAL")]).

(** [ReactorMsg::str]. *)
Definition msg_str (m : ReactorMsg) : string :=
  match m with
  | eNoEvent => "eNoEvent"
  | eClose _ => "eClose"
  | eAdd _ => "eAdd"
  | eAttn => "eAttn"
  | eDelete _ => "eDelete"
  | eTerminate => "eTerminate"
  end.

Record pollfd := PollFd { pf_fd : Z; pf_events : Z; pf_revents : Z }.

Definition stdevents : Z := Z.lor (Z.lor (Z.lor POLLRDHUP POLLERR) POLLHUP) POLLNVAL.

(** [Client::events()] as flags. *)
Definition event_flags (c : Client) : Z :=
  let '(i, o) := events c in Z.lor (if i then POLLIN else 0) (if o then POLLOUT else 0).

Section loop.
Context {T : Type} {CB : ClientCallback T}.

(** The loop over [m_clients] that fills [fdset] and [fdmap]. *)
Fixpoint poll_clients (r : Reactor (T := T)) (clients : list Z) (fdset : list pollfd) (fdmap : gmap Z Z)
    : result (list pollfd * gmap Z Z) :=
  match clients with
  | [] => Ok (fdset, fdmap)
  | p :: clients =>
      match r_objects r !! p with
      | None => Throw (undefined_behaviour "no client object")
      | Some o =>
          let c := ob_client o in
          if io_open c
          then poll_clients r clients (fdset ++ [PollFd (m_fd c) (Z.lor (event_flags c) stdevents) 0])
                 (<[m_fd c := p]> fdmap)
          else poll_clients r clients fdset fdmap
      end
  end.

(** [pipein] is [m_pipefd[0]]. *)
Definition poll_set (pipein : Z) (r : Reactor (T := T)) : result (list pollfd * gmap Z Z) :=
  poll_clients r (r_clients r) [PollFd pipein (Z.lor POLLIN POLLHUP) 0] ∅.

(** * What the system answers in a round *)

Record os_round := OsRound {
  ro_nready : Z; ro_revents : list Z;  (** [poll] *)
  ro_read : Z -> read_result; ro_sends : Z -> list send_result;  (** by descriptor *)
  ro_io_time : Z; ro_now : Z  (** the clock while reading and writing, and at the end *) }.

(** [poll] writes [revents] into every entry. *)
Definition polled (os : os_round) (fdset : list pollfd) : list pollfd :=
  imap (fun i pf => PollFd (pf_fd pf) (pf_events pf) (default 0 (ro_revents os !! i))) fdset.

(** The loop over [fdset], which skips the pipe. *)
Fixpoint handle_fds (os : os_round) (pipein : Z) (fdmap : gmap Z Z) (fdset : list pollfd) (r : Reactor (T := T))
    : result (Reactor (T := T)) :=
  match fdset with
  | [] => Ok r
  | pf :: fdset =>
      if pf_fd pf =? pipein then handle_fds os pipein fdmap fdset r
      else
        match fdmap !! pf_fd pf with
        | None => Throw (undefined_behaviour "null client")
        | Some p =>
            match r_objects r !! p with
            | None => Throw (undefined_behaviour "no client object")
            | Some o =>
                let e := pf_revents pf in
                c ← handle_revents (ro_io_time os)
                      (if has_flag e POLLIN then Some (ro_read os (pf_fd pf)) else None)
                      (if has_flag e POLLOUT then Some (ro_sends os (pf_fd pf)) else None)
                      (has_flag e POLLRDHUP || has_flag e POLLERR || has_flag e POLLHUP || has_flag e POLLNVAL)
                      (ob_client o);
                handle_fds os pipein fdmap fdset (set_object_at p (Object c (ob_run o)) r)
            end
        end
  end.

(** The messages of the notification queue. *)
Definition handle_messages_now (r : Reactor (T := T)) : Reactor (T := T) :=
  foldl (fun r m => handle_reactor_msg m r) (set_notifq (pull (r_notifq r)).2 r) (pull (r_notifq r)).1.

(** The search for clients with work to do. *)
Definition search_clients (r : Reactor (T := T)) : Reactor (T := T) :=
  foldl (fun r p => search_client p r) r (r_clients r).

(** First pass of the destruction cycle: the clients to delete now. *)
Fixpoint collect_deletions (now : Z) (todo : list Z) (r : Reactor (T := T)) (deletenow : list Z)
    : Reactor (T := T) * list Z :=
  match todo with
  | [] => (r, deletenow)
  | p :: todo =>
      match r_objects r !! p with
      | Some o =>
          let '(c, ready) := destroy_cycle now (ob_client o) in
          collect_deletions now todo (set_object_at p (Object c (ob_run o)) r)
            (if (ready : bool) && bool_decide (ob_run o = RS_N) then deletenow ++ [p] else deletenow)
      | None => collect_deletions now todo r deletenow
      end
  end.

(** Second pass: the client list is rebuilt and the clients are deleted. *)
Definition delete_now (deletenow : list Z) (r : Reactor (T := T)) : Reactor (T := T) :=
  set_objects (foldr delete (r_objects r) deletenow)
    (set_destroying (filter (fun q => q ∉ deletenow) (r_destroying r))
       (set_clients (filter (fun q => q ∉ deletenow) (r_clients r)) r)).

Definition destruction_cycle (now : Z) (r : Reactor (T := T)) : Reactor (T := T) :=
  if cleanup_due now r then
    let '(r, deletenow) := collect_deletions now (r_destroying r) (set_last_cleanup now r) [] in
    delete_now deletenow r
  else r.

(** One round of the [while] loop of [reactor_main_loop]. *)
Definition loop_round (pipein : Z) (os : os_round) (r : Reactor (T := T)) : result (Reactor (T := T)) :=
  '(fdset, fdmap) ← poll_set pipein r;
  let fdset := polled os fdset in
  r ← (if ro_nready os <=? 0 then Ok r
       else
         r ← handle_fds os pipein fdmap fdset r;
         Ok (match fdset with
             | pf :: _ => if pf_revents pf =? 0 then r else handle_messages_now r
             | [] => r
             end));
  Ok (destruction_cycle (ro_now os) (search_clients r)).

(** The end of [~Reactor], when all threads have ended: the clients that are
    left are closed and deleted. *)
Fixpoint close_clients (clients : list Z) (r : Reactor (T := T)) (closed : list Client)
    : result (Reactor (T := T) * list Client) :=
  match clients with
  | [] => Ok (r, closed)
  | p :: clients =>
      match r_objects r !! p with
      | None => Throw (undefined_behaviour "no client object")
      | Some o =>
          close_clients clients (set_objects (delete p (r_objects r)) r) (closed ++ [handle_close (ob_client o)])
      end
  end.
Definition destroy_reactor (r : Reactor (T := T)) : result (Reactor (T := T) * list Client) :=
  close_clients (r_clients r) r [].

(** * The poll set covers the open clients *)

(** The entry of a client, while its socket is open. *)
Definition poll_entry (r : Reactor (T := T)) (p : Z) : option pollfd :=
  o ← r_objects r !! p;
  if io_open (ob_client o)
  then Some (PollFd (m_fd (ob_client o)) (Z.lor (event_flags (ob_client o)) stdevents) 0) else None.

Definition alive (r : Reactor (T := T)) (l : list Z) : Prop := forall p, p ∈ l -> is_Some (r_objects r !! p).

Lemma poll_clients_spec r l : forall fdset fdmap, alive r l -> exists m,
  poll_clients r l fdset fdmap = Ok (fdset ++ omap (poll_entry r) l, m) /\
  (forall fd p, m !! fd = Some p -> (p ∈ l /\ exists pf, poll_entry r p = Some pf /\ pf_fd pf = fd) \/ fdmap !! fd = Some p) /\
  (forall fd, is_Some (fdmap !! fd) -> is_Some (m !! fd)) /\
  (forall pf, pf ∈ omap (poll_entry r) l -> is_Some (m !! pf_fd pf)).
Proof.
  induction l as [|p l IH]; intros fdset fdmap Hl; cbn [poll_clients].
  { exists fdmap. rewrite app_nil_r. split_and!; eauto. intros pf Hpf. by apply not_elem_of_nil in Hpf. }
  destruct (Hl p ltac:(by left)) as [o Ho]. rewrite Ho.
  assert (alive r l) as Hl' by (intros q Hq; apply Hl; by right).
  assert (poll_entry r p = if io_open (ob_client o)
    then Some (PollFd (m_fd (ob_client o)) (Z.lor (event_flags (ob_client o)) stdevents) 0) else None) as He
    by (unfold poll_entry; by rewrite Ho). cbn [omap list_omap]. rewrite He.
  destruct (io_open (ob_client o)).
  - edestruct (IH (fdset ++ [PollFd (m_fd (ob_client o)) (Z.lor (event_flags (ob_client o)) stdevents) 0])
      (<[m_fd (ob_client o) := p]> fdmap) Hl') as (m & -> & Hm1 & Hm2 & Hm3).
    exists m. rewrite <-app_assoc. split; [done|]. split; [|split].
    + intros fd q Hq. destruct (Hm1 fd q Hq) as [[Hin Hpf]|Hin]; [left; split; [by right|done]|].
      apply lookup_insert_Some in Hin as [[<- <-]|[_ Hin]]; [|by right].
      left. split; [by left|]. by eexists.
    + intros fd Hfd. apply Hm2. destruct (decide (m_fd (ob_client o) = fd)) as [->|].
      * rewrite lookup_insert_eq. by eexists.
      * by rewrite lookup_insert_ne.
    + intros pf [->|Hpf]%elem_of_cons; [|by apply Hm3]. apply Hm2. cbn. rewrite lookup_insert_eq. by eexists.
  - destruct (IH fdset fdmap Hl') as (m & -> & Hm1 & Hm2 & Hm3). exists m. split; [done|]. split; [|done].
    intros fd q Hq. destruct (Hm1 fd q Hq) as [[Hin Hpf]|Hin]; [left; split; [by right|done]|by right].
Qed.

Lemma poll_set_spec pipein r : alive r (r_clients r) -> exists m,
  poll_set pipein r = Ok (PollFd pipein (Z.lor POLLIN POLLHUP) 0 :: omap (poll_entry r) (r_clients r), m) /\
  (forall fd p, m !! fd = Some p -> p ∈ r_clients r /\ exists pf, poll_entry r p = Some pf /\ pf_fd pf = fd) /\
  (forall pf, pf ∈ omap (poll_entry r) (r_clients r) -> is_Some (m !! pf_fd pf)).
Proof.
  intros Hl. destruct (poll_clients_spec r (r_clients r) [PollFd pipein (Z.lor POLLIN POLLHUP) 0] ∅ Hl)
    as (m & E & H1 & _ & H2). exists m. split; [done|]. split; [|done].
  intros fd p Hp. destruct (H1 fd p Hp) as [H|H]; [done|]. by rewrite lookup_empty in H.
Qed.

(** * A round is a run of steps *)

(** The output queues of the clients are consistent. *)
Definition outputs_ok (r : Reactor (T := T)) : Prop :=
  forall p o, r_objects r !! p = Some o -> out_inv (ob_client o).

Lemma handle_revents_ok now inp outp hup c : out_inv c ->
  exists c', handle_revents now inp outp hup c = Ok c' /\ out_inv c'.
Proof.
  intros Hc. unfold handle_revents.
  set (x := match inp with Some r => _ | None => _ end). assert (out_inv x.1) as Hx.
  { unfold x. destruct inp as [r|]; [|done]. destruct (io_open c); [|done].
    destruct (handle_input_out now r c) as (Hq & Hm & _). by apply (out_inv_ext c). }
  destruct x as [c1 st1]. cbn [fst] in Hx.
  set (y := match outp with Some s => _ | None => _ end). assert (exists c2 st2, y = Ok (c2, st2) /\ out_inv c2) as (c2 & st2 & Hy & Hc2).
  { unfold y. destruct outp as [s|]; [|by eexists _, _]. destruct (io_open c1); [|by eexists _, _].
    destruct (handle_output_out now s c1 Hx) as (c2 & st2 & E & Ho & _). by exists c2, st2. }
  rewrite Hy. cbn [mbind result_bind]. eexists. split; [done|].
  destruct (_ || _); [|done]. destruct (handle_close_out c2) as (Hq & Hm & _). by apply (out_inv_ext c2).
Qed.

Lemma outputs_ok_set r p o : outputs_ok r -> out_inv (ob_client o) -> outputs_ok (set_object_at p o r).
Proof.
  intros Hr Ho q o'. cbn. intros [[_ <-]|[_ H]]%lookup_insert_Some; [done|by apply (Hr q)].
Qed.

Lemma alive_set r p o l : alive r l -> alive (set_object_at p o r) l.
Proof.
  intros Hl q Hq. cbn. destruct (decide (p = q)) as [->|].
  - rewrite lookup_insert_eq. by eexists.
  - rewrite lookup_insert_ne by done. by apply Hl.
Qed.

Lemma handle_fds_run os pipein fdmap fdset : forall r,
  (forall pf, pf ∈ fdset -> pf_fd pf = pipein \/ is_Some (fdmap !! pf_fd pf)) ->
  (forall fd p, fdmap !! fd = Some p -> p ∈ r_clients r) -> alive r (r_clients r) -> outputs_ok r ->
  exists r', handle_fds os pipein fdmap fdset r = Ok r' /\
    rtc step (set_io IoEvents r) (set_io IoEvents r') /\ r_io r' = r_io r.
Proof.
  induction fdset as [|pf fdset IH]; intros r Hset Hmap Hl Ho; cbn [handle_fds].
  { exists r. split; [done|]. split; [apply rtc_refl|done]. }
  assert (forall pf, pf ∈ fdset -> pf_fd pf = pipein \/ is_Some (fdmap !! pf_fd pf)) as Hset'
    by (intros x Hx; apply Hset; by right).
  destruct (Z.eqb_spec (pf_fd pf) pipein) as [_|Hne]; [by apply IH|].
  destruct (Hset pf ltac:(by left)) as [?|[p Hp]]; [done|]. rewrite Hp.
  pose proof (Hmap _ _ Hp) as Hin. destruct (Hl p Hin) as [o Hob]. rewrite Hob.
  match goal with |- context [handle_revents ?n ?i ?ou ?h ?c0] =>
    destruct (handle_revents_ok n i ou h c0 (Ho p o Hob)) as (c & E & Hc) end.
  rewrite E. cbn [mbind result_bind]. set (r1 := set_object_at p (Object c (ob_run o)) r).
  destruct (IH r1) as (r' & E' & Hrun & Hio); [done|done|by apply alive_set|by apply outputs_ok_set|].
  exists r'. split; [done|]. split; [|done]. eapply rtc_l; [|exact Hrun].
  exact (step_io _ _ (io_event (set_io IoEvents r) p o _ _ _ _ c eq_refl Hin Hob E)).
Qed.

Lemma handle_reactor_msg_io m x (r : Reactor (T := T)) : handle_reactor_msg m (set_io x r) = set_io x (handle_reactor_msg m r).
Proof. by destruct m. Qed.

Lemma handle_messages_io x (r : Reactor (T := T)) : handle_messages_now (set_io x r) = set_io x (handle_messages_now r).
Proof.
  unfold handle_messages_now. change (r_notifq (set_io x r)) with (r_notifq r).
  change (set_notifq (pull (r_notifq r)).2 (set_io x r)) with (set_io x (set_notifq (pull (r_notifq r)).2 r)).
  generalize (set_notifq (pull (r_notifq r)).2 r). induction (pull (r_notifq r)).1 as [|m ms IH]; intros r1; [done|].
  cbn [foldl]. by rewrite handle_reactor_msg_io, IH.
Qed.

Lemma search_client_io p x (r : Reactor (T := T)) : search_client p (set_io x r) = set_io x (search_client p r).
Proof. unfold search_client. cbn. destruct (r_objects r !! p); [|done]. by case_bool_decide. Qed.

Lemma search_run todo : forall r : Reactor (T := T),
  rtc step (set_io (IoSearch todo) r) (set_io (IoSearch []) (foldl (fun r p => search_client p r) r todo)).
Proof.
  induction todo as [|p todo IH]; intros r; cbn [foldl]; [apply rtc_refl|].
  eapply rtc_l; [exact (step_io _ _ (io_search (set_io (IoSearch (p :: todo)) r) p todo eq_refl))|].
  rewrite search_client_io. exact (IH (search_client p r)).
Qed.

Lemma destroy_client_io now p x (r : Reactor (T := T)) : destroy_client now p (set_io x r) = set_io x (destroy_client now p r).
Proof.
  unfold destroy_client. cbn. destruct (r_objects r !! p); [|done].
  destruct (destroy_cycle now (ob_client o)) as [c ready]. by destruct (_ && _).
Qed.

Lemma destroy_run now todo : forall r : Reactor (T := T),
  rtc step (set_io (IoDestroy todo) r) (set_io (IoDestroy []) (foldl (fun r p => destroy_client now p r) r todo)).
Proof.
  induction todo as [|p todo IH]; intros r; cbn [foldl]; [apply rtc_refl|].
  eapply rtc_l; [exact (step_io _ _ (io_destroy (set_io (IoDestroy (p :: todo)) r) now p todo eq_refl))|].
  rewrite destroy_client_io. exact (IH (destroy_client now p r)).
Qed.

(** ** The two passes of the destruction cycle *)

(** Reactors are equal when their parts are. *)
Lemma reactor_ext (r r' : Reactor (T := T)) :
  r_objects r = r_objects r' -> r_clients r = r_clients r' -> r_destroying r = r_destroying r' ->
  (r_last_cleanup r, r_is_stopping r, r_notifq r, r_runq r, r_itemcount r, r_workers r, r_io r, r_world r) =
  (r_last_cleanup r', r_is_stopping r', r_notifq r', r_runq r', r_itemcount r', r_workers r', r_io r', r_world r') ->
  r = r'.
Proof. destruct r, r'. cbn. intros. simplify_eq. done. Qed.

Lemma lookup_delete_all {A} (l : list Z) (m : gmap Z A) q :
  foldr delete m l !! q = if decide (q ∈ l) then None else m !! q.
Proof.
  induction l as [|p l IH]; cbn [foldr]; [by rewrite decide_False by apply not_elem_of_nil|].
  destruct (decide (p = q)) as [->|Hne].
  - by rewrite lookup_delete_eq, decide_True by left.
  - rewrite lookup_delete_ne, IH by done. destruct (decide (q ∈ l)) as [Hin|Hin].
    + by rewrite decide_True by (by right).
    + rewrite decide_False; [done|]. intros [->|?]%elem_of_cons; done.
Qed.

Lemma filter_not_in_app p acc (l : list Z) :
  filter (fun q => q <> p) (filter (fun q => q ∉ acc) l) = filter (fun q => q ∉ acc ++ [p]) l.
Proof.
  rewrite list_filter_filter. apply list_filter_iff. intros q. rewrite elem_of_app, list_elem_of_singleton. tauto.
Qed.

(** Deleting one more client. *)
Lemma delete_now_snoc acc p o (r : Reactor (T := T)) :
  delete_now (acc ++ [p]) (set_object_at p o r) =
  let r2 := set_object_at p o (delete_now acc r) in
  set_objects (delete p (r_objects r2))
    (set_destroying (filter (fun q => q <> p) (r_destroying r2))
       (set_clients (filter (fun q => q <> p) (r_clients r2)) r2)).
Proof.
  cbv zeta. apply reactor_ext; [|by cbn; rewrite filter_not_in_app|by cbn; rewrite filter_not_in_app|done].
  cbn. apply map_eq. intros q. rewrite lookup_delete_all. destruct (decide (p = q)) as [->|Hne].
  - rewrite lookup_delete_eq, decide_True; [done|]. apply elem_of_app. right. by left.
  - rewrite lookup_delete_ne, !lookup_insert_ne, lookup_delete_all by done.
    destruct (decide (q ∈ acc)) as [Hin|Hin].
    + by rewrite decide_True by (apply elem_of_app; by left).
    + rewrite decide_False; [done|]. rewrite elem_of_app, list_elem_of_singleton. intros [?|?]; congruence.
Qed.

Lemma delete_now_set acc p o (r : Reactor (T := T)) :
  p ∉ acc -> delete_now acc (set_object_at p o r) = set_object_at p o (delete_now acc r).
Proof.
  intros Hp. apply reactor_ext; [|done..]. cbn. apply map_eq. intros q.
  rewrite lookup_delete_all. destruct (decide (p = q)) as [->|Hne].
  - by rewrite !lookup_insert_eq, decide_False.
  - by rewrite !lookup_insert_ne, lookup_delete_all by done.
Qed.

(** Both passes together delete the clients one at a time. *)
Lemma collect_is_destroy now todo : forall (r : Reactor (T := T)) acc, NoDup todo -> (forall p, p ∈ todo -> p ∉ acc) ->
  let '(r', deletenow) := collect_deletions now todo r acc in
  delete_now deletenow r' = foldl (fun r p => destroy_client now p r) (delete_now acc r) todo.
Proof.
  induction todo as [|p todo IH]; intros r acc Hnd Hacc; cbn [collect_deletions foldl]; [done|].
  apply NoDup_cons in Hnd as [Hp Hnd]. pose proof (Hacc p ltac:(by left)) as Hpa.
  assert (r_objects (delete_now acc r) !! p = r_objects r !! p) as Hob
    by (cbn; by rewrite lookup_delete_all, decide_False).
  unfold destroy_client at 2. rewrite Hob. destruct (r_objects r !! p) as [o|].
  2: { apply IH; [done|]. intros q Hq. apply Hacc. by right. }
  destruct (destroy_cycle now (ob_client o)) as [c ready].
  destruct ((ready : bool) && bool_decide (ob_run o = RS_N)).
  - specialize (IH (set_object_at p (Object c (ob_run o)) r) (acc ++ [p]) Hnd).
    rewrite delete_now_snoc in IH. apply IH.
    intros q Hq. rewrite elem_of_app, list_elem_of_singleton. intros [?| ->]; [|done].
    apply (Hacc q); [by right|done].
  - rewrite <-delete_now_set by done. apply IH; [done|]. intros q Hq. apply Hacc. by right.
Qed.

Lemma delete_now_nil (r : Reactor (T := T)) : delete_now [] r = r.
Proof.
  assert (forall l : list Z, filter (fun q => q ∉ []) l = l) as Hf.
  { intros l. induction l as [|q l IH]; [done|]. rewrite filter_cons_True by apply not_elem_of_nil. by rewrite IH. }
  apply reactor_ext; [done|by cbn; rewrite Hf|by cbn; rewrite Hf|done].
Qed.

Lemma destruction_run now (r : Reactor (T := T)) : NoDup (r_destroying r) ->
  rtc step (set_io (IoSearch []) r) (set_io IoPoll (destruction_cycle now r)).
Proof.
  intros Hnd. unfold destruction_cycle. destruct (cleanup_due now r) eqn:Ed.
  2: { apply rtc_once. exact (step_io _ _ (io_loop (set_io (IoSearch []) r) now eq_refl Ed)). }
  pose proof (collect_is_destroy now (r_destroying r) (set_last_cleanup now r) [] Hnd) as Hc.
  destruct (collect_deletions now (r_destroying r) (set_last_cleanup now r) []) as [r' dn].
  rewrite Hc, delete_now_nil by (intros p _; apply not_elem_of_nil).
  eapply rtc_l; [exact (step_io _ _ (io_destroy_start (set_io (IoSearch []) r) now eq_refl Ed))|].
  eapply rtc_r; [exact (destroy_run now (r_destroying r) (set_last_cleanup now r))|].
  exact (step_io _ _ (io_destroy_end (set_io (IoDestroy []) _) eq_refl)).
Qed.

Lemma io_same (f : Reactor (T := T) -> Reactor (T := T)) r :
  (forall x r, f (set_io x r) = set_io x (f r)) -> r_io (f r) = r_io r.
Proof.
  intros Hf. assert (set_io (r_io r) r = r) as Hr by (by destruct r). rewrite <-Hr at 1. by rewrite Hf.
Qed.

Lemma fold_io (f : Z -> Reactor (T := T) -> Reactor (T := T)) l r :
  (forall p x r, f p (set_io x r) = set_io x (f p r)) -> r_io (foldl (fun r p => f p r) r l) = r_io r.
Proof.
  intros Hf. revert r. induction l as [|p l IH]; intros r; [done|]. cbn [foldl]. rewrite IH. apply io_same. auto.
Qed.

Lemma destruction_io now (r : Reactor (T := T)) : NoDup (r_destroying r) -> r_io (destruction_cycle now r) = r_io r.
Proof.
  intros Hnd. unfold destruction_cycle. destruct (cleanup_due now r); [|done].
  pose proof (collect_is_destroy now (r_destroying r) (set_last_cleanup now r) [] Hnd) as Hc.
  destruct (collect_deletions now (r_destroying r) (set_last_cleanup now r) []) as [r' dn].
  rewrite Hc, delete_now_nil by (intros p _; apply not_elem_of_nil).
  by rewrite fold_io by (intros; apply destroy_client_io).
Qed.

Lemma rtc_inv (r r' : Reactor (T := T)) : inv r -> rtc step r r' -> inv r'.
Proof. intros Hr Hs. induction Hs as [|x y z Hxy _ IH]; [done|]. apply IH. by eapply step_inv. Qed.

Lemma inv_alive (r : Reactor (T := T)) : inv r -> alive r (r_clients r).
Proof.
  intros Hr p Hp. assert (is_Some (runs r !! p)) as [x Hx]
    by (apply (k_clients _ _ _ _ _ (inv_known r Hr)), elem_of_app; by left).
  unfold runs in Hx. rewrite lookup_fmap in Hx. destruct (r_objects r !! p); [by eexists|done].
Qed.

Lemma polled_fd os fdset pf : pf ∈ polled os fdset -> exists pf0, pf0 ∈ fdset /\ pf_fd pf = pf_fd pf0.
Proof.
  intros [i Hi]%list_elem_of_lookup. unfold polled in Hi. rewrite list_lookup_imap in Hi.
  destruct (fdset !! i) as [pf0|] eqn:E; [|done]. injection Hi as <-. exists pf0.
  split; [by eapply list_elem_of_lookup_2|done].
Qed.

(** The part of a round up to the search. *)
Lemma events_run pipein os (r : Reactor (T := T)) : inv r -> r_io r = IoPoll -> outputs_ok r ->
  exists fdset fdmap r1, poll_set pipein r = Ok (fdset, fdmap) /\
    (if ro_nready os <=? 0 then Ok r
     else
       r ← handle_fds os pipein fdmap (polled os fdset) r;
       Ok (match polled os fdset with
           | pf :: _ => if pf_revents pf =? 0 then r else handle_messages_now r
           | [] => r
           end)) = Ok r1 /\
    rtc step (set_io IoEvents r) (set_io IoEvents r1) /\ r_io r1 = IoPoll.
Proof.
  intros Hr Hio Ho. destruct (poll_set_spec pipein r (inv_alive r Hr)) as (m & Ep & Hm1 & Hm2).
  eexists _, m. destruct (ro_nready os <=? 0).
  { exists r. do 2 (split; [done|]). split; [apply rtc_refl|done]. }
  match type of Ep with _ = Ok (?l, _) => set (fdset := l) in * end.
  destruct (handle_fds_run os pipein m (polled os fdset) r) as (r1 & E1 & Hs1 & Hio1).
  - intros pf Hpf. destruct (polled_fd os fdset pf Hpf) as (pf0 & Hin & ->).
    apply elem_of_cons in Hin as [->|Hin]; [by left|right; by apply Hm2].
  - intros fd p Hp. by apply (Hm1 fd p).
  - by apply inv_alive.
  - done.
  - rewrite E1. cbn [mbind result_bind].
    assert (exists r2, (match polled os fdset with
      | pf :: _ => if pf_revents pf =? 0 then r1 else handle_messages_now r1 | [] => r1 end) = r2 /\
      (r2 = r1 \/ r2 = handle_messages_now r1)) as (r2 & -> & [->| ->]).
    { eexists. split; [done|]. destruct (polled os fdset) as [|pf ?]; [by left|]. destruct (_ =? 0); [by left|by right]. }
    + exists r1. split; [done|]. split; [done|]. split; [done|congruence].
    + exists (handle_messages_now r1). split; [done|]. split; [done|]. split.
      * eapply rtc_r; [exact Hs1|]. rewrite <-handle_messages_io.
        exact (step_io _ _ (io_messages (set_io IoEvents r1) eq_refl)).
      * rewrite (io_same handle_messages_now); [congruence|]. intros. apply handle_messages_io.
Qed.

Lemma round_run pipein os (r : Reactor (T := T)) : inv r -> r_io r = IoPoll -> r_is_stopping r = false -> outputs_ok r ->
  exists r', loop_round pipein os r = Ok r' /\ rtc step r r' /\ r_io r' = IoPoll.
Proof.
  intros Hr Hio Hstop Ho. destruct (events_run pipein os r Hr Hio Ho) as (fdset & m & r1 & Ep & E1 & Hs1 & Hio1).
  assert (rtc step r (set_io (IoSearch []) (search_clients r1))) as Hs.
  { etransitivity; [exact (through_poll r Hio Hstop)|]. etransitivity; [exact Hs1|].
    eapply rtc_l; [exact (step_io _ _ (io_search_start (set_io IoEvents r1) eq_refl))|]. exact (search_run (r_clients r1) r1). }
  assert (NoDup (r_destroying (search_clients r1))) as Hnd
    by (exact (k_dnodup _ _ _ _ _ (inv_known _ (rtc_inv _ _ Hr Hs)))).
  assert (r_io (destruction_cycle (ro_now os) (search_clients r1)) = IoPoll) as Hio2.
  { rewrite destruction_io by done. unfold search_clients. by rewrite fold_io by (intros; apply search_client_io). }
  exists (destruction_cycle (ro_now os) (search_clients r1)). split; [|split; [|done]].
  - unfold loop_round. rewrite Ep. cbn [mbind result_bind] in *. by rewrite E1.
  - etransitivity; [exact Hs|]. replace (destruction_cycle (ro_now os) (search_clients r1))
      with (set_io IoPoll (destruction_cycle (ro_now os) (search_clients r1))); [by apply destruction_run|].
    rewrite <-Hio2. by destruct (destruction_cycle (ro_now os) (search_clients r1)).
Qed.

(** * The end of the reactor *)

Lemma close_clients_spec l : forall (r : Reactor (T := T)) closed, NoDup l -> alive r l -> exists r' done_,
  close_clients l r closed = Ok (r', closed ++ done_) /\ length done_ = length l /\
  Forall (fun c => io_open c = false) done_ /\
  forall q, r_objects r' !! q = if decide (q ∈ l) then None else r_objects r !! q.
Proof.
  induction l as [|p l IH]; intros r closed Hnd Hl; cbn [close_clients].
  { exists r, []. rewrite app_nil_r. do 2 (split; [done|]). split; [constructor|]. intros q.
    by rewrite decide_False by apply not_elem_of_nil. }
  apply NoDup_cons in Hnd as [Hp Hnd]. destruct (Hl p ltac:(by left)) as [o Ho]. rewrite Ho.
  destruct (IH (set_objects (delete p (r_objects r)) r) (closed ++ [handle_close (ob_client o)]) Hnd)
    as (r' & ds & E & Hlen & Hc & Hq).
  { intros q Hq. cbn. rewrite lookup_delete_ne by (intros ->; done). apply Hl. by right. }
  exists r', (handle_close (ob_client o) :: ds). rewrite E, <-app_assoc. split; [done|].
  split; [cbn [length]; by rewrite Hlen|]. split.
  - constructor; [|done]. unfold handle_close. by destruct (io_open (ob_client o)) eqn:Eo.
  - intros q. rewrite Hq. cbn. destruct (decide (p = q)) as [->|Hne].
    + rewrite (decide_True (P := q ∈ q :: l)) by left. by destruct (decide (q ∈ l)); [|rewrite lookup_delete_eq].
    + rewrite lookup_delete_ne by done. destruct (decide (q ∈ l)).
      * by rewrite decide_True by (by right).
      * rewrite decide_False; [done|]. intros [->|?]%elem_of_cons; done.
Qed.

(** The final loop, from any state the steps keep. *)
Lemma destroy_reactor_spec (r : Reactor (T := T)) : inv r -> exists r' closed,
  destroy_reactor r = Ok (r', closed) /\ length closed = length (r_clients r) /\
  Forall (fun c => io_open c = false) closed /\
  forall p, is_Some (r_objects r' !! p) <-> p ∈ adds (nq_pending (r_notifq r)).
Proof.
  intros Hi. destruct (inv_known r Hi) as [Hk Hnd _ _ _]. apply NoDup_app in Hnd as (Hnd & Hdis & _).
  destruct (close_clients_spec (r_clients r) r [] Hnd (inv_alive r Hi)) as (r' & closed & E & Hlen & Hc & Hq).
  exists r', closed. split; [done|]. split; [done|]. split; [done|]. intros p. rewrite Hq.
  specialize (Hk p). rewrite elem_of_app in Hk. unfold runs in Hk. rewrite lookup_fmap, fmap_is_Some in Hk.
  destruct (decide (p ∈ r_clients r)) as [Hp|Hp]; [|tauto].
  split; [by intros [? ?]|]. intros Ha. by destruct (Hdis p Hp).
Qed.

End loop.

(** * Properties *)

Section properties.
Context {T : Type} {CB : ClientCallback T}.

(** C11. The loop of the IO thread, as it is written, is a run of the interleaved
    steps: from every reachable state in which it may start a round, whatever
    [poll], [read], [send] and the clock answer, the round ends without
    undefined behaviour (no null client from the descriptor map, no deleted
    object, no front of an empty queue) in a state the steps reach, before the
    next [poll]. *)
Theorem loop_round_refines (n : nat) (w : T) (r : Reactor (T := T)) (pipein : Z) (os : os_round) :
  reachable n w r -> r_io r = IoPoll -> r_is_stopping r = false -> outputs_ok r ->
  exists r', loop_round pipein os r = Ok r' /\ rtc step r r' /\ reachable n w r' /\ r_io r' = IoPoll.
Proof.
  intros Hr Hio Hs Ho. destruct (round_run pipein os r (reachable_inv n w r Hr) Hio Hs Ho) as (r' & E & Hst & Hio').
  exists r'. split; [done|]. split; [done|]. split; [|done].
  by eapply reach_steps.
Qed.

(** The poll set: the pipe comes first and asks for input; every registered
    client whose socket is open has an entry, which asks for input, and for
    output exactly when it has something queued; a client whose socket is
    closed has none; and when the open sockets are distinct the map leads from
    each of them back to its client. *)
Theorem open_clients_polled (n : nat) (w : T) (r : Reactor (T := T)) (pipein : Z) :
  reachable n w r -> outputs_ok r -> exists fds fdmap,
  poll_set pipein r = Ok (PollFd pipein (Z.lor POLLIN POLLHUP) 0 :: fds, fdmap) /\
  (forall p o, p ∈ r_clients r -> r_objects r !! p = Some o -> io_open (ob_client o) = true ->
     exists pf, pf ∈ fds /\ pf_fd pf = m_fd (ob_client o) /\ has_flag (pf_events pf) POLLIN = true /\
       (has_flag (pf_events pf) POLLOUT = true <-> oq_items (m_out_q (ob_client o)) <> [])) /\
  (forall pf, pf ∈ fds -> exists p o, p ∈ r_clients r /\ r_objects r !! p = Some o /\
     io_open (ob_client o) = true /\ pf_fd pf = m_fd (ob_client o)) /\
  ((forall p q o o', r_objects r !! p = Some o -> r_objects r !! q = Some o' -> io_open (ob_client o) = true ->
     io_open (ob_client o') = true -> m_fd (ob_client o) = m_fd (ob_client o') -> p = q) ->
   forall p o, p ∈ r_clients r -> r_objects r !! p = Some o -> io_open (ob_client o) = true ->
     fdmap !! m_fd (ob_client o) = Some p).
Proof.
  intros Hr Ho. pose proof (inv_alive r (reachable_inv n w r Hr)) as Hal.
  destruct (poll_set_spec pipein r Hal) as (m & Ep & Hm1 & Hm2). exists (omap (poll_entry r) (r_clients r)), m.
  assert (forall p o, p ∈ r_clients r -> r_objects r !! p = Some o -> io_open (ob_client o) = true ->
    PollFd (m_fd (ob_client o)) (Z.lor (event_flags (ob_client o)) stdevents) 0 ∈ omap (poll_entry r) (r_clients r)) as Hin.
  { intros p o Hp Hob Hop. apply list_elem_of_omap. exists p. split; [done|]. unfold poll_entry. rewrite Hob. cbn.
    by rewrite Hop. }
  split; [done|]. split; [|split].
  - intros p o Hp Hob Hop. eexists. split; [by apply (Hin p o)|]. cbn [pf_fd pf_events]. split; [done|].
    unfold event_flags, events. rewrite Hop, (has_items _ (Ho p o Hob)).
    destruct (oq_items (m_out_q (ob_client o))); by cbn.
  - intros pf (p & Hp & Hpf)%list_elem_of_omap. destruct (Hal p Hp) as [o Hob]. exists p, o.
    unfold poll_entry in Hpf. rewrite Hob in Hpf. cbn in Hpf. destruct (io_open (ob_client o)) eqn:Eo; [|done].
    by injection Hpf as <-.
  - intros Hinj p o Hp Hob Hop. destruct (Hm2 _ (Hin p o Hp Hob Hop)) as [q Hq]. cbn [pf_fd] in Hq. rewrite Hq.
    f_equal. destruct (Hm1 _ _ Hq) as (Hqc & pf & Hpf & Hfd). destruct (Hal q Hqc) as [o' Hob'].
    unfold poll_entry in Hpf. rewrite Hob' in Hpf. cbn in Hpf. destruct (io_open (ob_client o')) eqn:Eo'; [|done].
    injection Hpf as <-. cbn in Hfd. by apply (Hinj q p o' o).
Qed.

(** When all threads have ended, the destructor closes and deletes every
    registered client; the clients whose registration is still among the
    notifications are the ones that are left. *)
Theorem destructor_frees_registered (n : nat) (w : T) (r : Reactor (T := T)) : reachable n w r ->
  exists r' closed, destroy_reactor r = Ok (r', closed) /\ length closed = length (r_clients r) /\
    Forall (fun c => io_open c = false) closed /\
    forall p, is_Some (r_objects r' !! p) <-> p ∈ adds (nq_pending (r_notifq r)).
Proof. intros Hr. apply destroy_reactor_spec. by apply (reachable_inv n w). Qed.

End properties.

(** * A round *)

#[local] Instance loop_callback : ClientCallback unit :=
  {| process_input c s _ n := Ok (c, s, Some n); process_close c s := Ok (c, s) |}.

(** A client has been made and its registration is on its way. *)
Definition demo_new : Reactor (T := unit) :=
  add_client 1 (set_object_at 1 (Object (new_client 7 0 true) RS_N) (new_reactor 1 tt)).
Lemma demo_new_reachable : reachable 1 tt demo_new.
Proof. eapply reach_step; [|by apply step_app, app_new_client]. apply reach_new. Qed.
Lemma demo_new_outputs : outputs_ok demo_new.
Proof.
  intros p o. unfold demo_new. cbn. intros [[_ <-]|[_ H]]%lookup_insert_Some; [apply out_inv_new|].
  by rewrite lookup_empty in H.
Qed.

(** Only the pipe is ready. *)
Definition demo_round : os_round := OsRound 1 [POLLIN] (fun _ => ReadError) (fun _ => []) 0 0.

Lemma loop_round_refines_witness : exists r', loop_round 3 demo_round demo_new = Ok r' /\ rtc step demo_new r' /\
  loop_round 3 demo_round demo_new = Ok (set_clients [1] (set_notifq (NotifQ [] 0) demo_new)).
Proof.
  destruct (loop_round_refines 1 tt demo_new 3 demo_round demo_new_reachable) as (r' & E & Hs & _).
  - reflexivity.
  - reflexivity.
  - exact demo_new_outputs.
  - exists r'. split; [exact E|]. split; [exact Hs|]. vm_compute. reflexivity.
Defined.

(** The state after that round. *)
Definition demo_registered : Reactor (T := unit) := set_clients [1] (set_notifq (NotifQ [] 0) demo_new).
Lemma demo_registered_reachable : reachable 1 tt demo_registered.
Proof.
  eapply (reach_step 1 tt (set_io (IoSearch []) demo_registered));
    [|exact (step_io _ _ (io_loop (set_io (IoSearch []) demo_registered) 0 eq_refl eq_refl))].
  eapply (reach_step 1 tt (set_io (IoSearch [1]) demo_registered)).
  2: { exact (step_io _ _ (io_search (set_io (IoSearch [1]) demo_registered) 1 [] eq_refl)). }
  eapply (reach_step 1 tt (set_io IoEvents demo_registered)).
  2: { exact (step_io _ _ (io_search_start (set_io IoEvents demo_registered) eq_refl)). }
  eapply (reach_step 1 tt (set_io IoEvents demo_new)).
  2: { exact (step_io _ _ (io_messages (set_io IoEvents demo_new) eq_refl)). }
  apply reach_poll; [apply demo_new_reachable|done..].
Qed.

Lemma open_clients_polled_witness : exists fds fdmap,
  poll_set 3 demo_registered = Ok (PollFd 3 (Z.lor POLLIN POLLHUP) 0 :: fds, fdmap) /\ fdmap !! 7 = Some 1.
Proof.
  destruct (open_clients_polled 1 tt demo_registered 3 demo_registered_reachable) as (fds & fdmap & E & _ & _ & H).
  - exact demo_new_outputs.
  - exists fds, fdmap. split; [exact E|].
    apply (H ltac:(intros p q o o' Hp Hq _ _ _; cbn in Hp, Hq;
      apply lookup_insert_Some in Hp as [[<- _]|[_ Hp]]; [|by rewrite lookup_empty in Hp];
      apply lookup_insert_Some in Hq as [[<- _]|[_ Hq]]; [reflexivity|by rewrite lookup_empty in Hq])
      1 (Object (new_client 7 0 true) RS_N)); [by left|reflexivity|reflexivity].
Defined.
