(* ===== verification/ReactorOutput.v ===== *)
(** Output is never left behind while the event loop waits: [Client::queue],
    which any thread may call, and [Reactor::invalidate] against the poll set
    of [reactor_main_loop] ([Client.cc], [Reactor.cc]).

    The IO thread asks one client after the other whether [poll] should report
    its socket as writable, without a lock that would keep the other threads
    from queueing output for a client it has already asked.  What saves that output is the notification
    [queue] makes: it puts a byte into the pipe, which [poll] always reports. *)

From S2P Require Import Prelude ReadBuffer Client Reactor ReactorProps ReactorLoop.

Local Open Scope Z_scope.

Lemma push_msg_pending m (q : ReactorNotifQ) : nq_pending (push_msg m q) <> [].
Proof.
  unfold push_msg. destruct (bool_decide (m = eNoEvent) && _) eqn:E.
  - apply andb_true_iff in E as [_ E]. apply negb_true_iff, bool_decide_eq_false in E. done.
  - cbn. by destruct (nq_pending q).
Qed.

Lemma push_msgs_pending ms : forall q : ReactorNotifQ, nq_pending q <> [] \/ ms <> [] ->
  nq_pending (foldl (fun q m => push_msg m q) q ms) <> [].
Proof.
  induction ms as [|m ms IH]; intros q Hq; cbn [foldl]; [by destruct Hq|]. apply IH. left. apply push_msg_pending.
Qed.

Section output.
Context {T : Type} {CB : ClientCallback T}.
Implicit Types r : Reactor (T := T).

(** What [poll] is asked for a client is what [asks_output] says. *)
Lemma poll_entry_asks r p pf : poll_entry r p = Some pf -> has_flag (pf_events pf) POLLOUT = asks_output r p.
Proof.
  unfold poll_entry, asks_output, wants_output. destruct (r_objects r !! p) as [o|]; [|done]. cbn [mbind option_bind].
  destruct (io_open (ob_client o)); [intros [= <-]|done]. cbn [pf_events]. unfold event_flags.
  by destruct (events (ob_client o)) as [[] []].
Qed.

(** The clients the loop has asked about or will. *)
Definition asks_about (io : io_thread) : option (list Z) :=
  match io with IoAsk todo asked => Some (todo ++ asked) | IoWait asked => Some asked | _ => None end.

(** Whoever has output while the loop builds its poll set, or waits, is asked
    about, or a notification is on its way. *)
Definition output_seen r : Prop := forall l p o, asks_about (r_io r) = Some l -> p ∈ r_clients r ->
  r_objects r !! p = Some o -> wants_output (ob_client o) = true -> p ∈ l \/ nq_pending (r_notifq r) <> [].

(** A step that is not one of a client's calls. *)
Lemma output_seen_mono r r' : output_seen r -> r_io r' = r_io r -> r_clients r' = r_clients r ->
  (forall p o', r_objects r' !! p = Some o' -> exists o, r_objects r !! p = Some o /\ ob_client o' = ob_client o) ->
  r_notifq r' = r_notifq r -> output_seen r'.
Proof.
  intros Hr Hio Hc Ho Hq l p o' E Hp Hpo Hw. rewrite Hio in E. rewrite Hc in Hp. rewrite Hq.
  destruct (Ho p o' Hpo) as (o & Hpo' & Hob). rewrite Hob in Hw. by eapply Hr.
Qed.

Lemma output_seen_notified r : nq_pending (r_notifq r) <> [] -> output_seen r.
Proof. intros H l p o _ _ _ _. by right. Qed.

Lemma output_seen_elsewhere r : asks_about (r_io r) = None -> output_seen r.
Proof. intros H l p o E. congruence. Qed.

(** Any thread calls a client: what it queues is notified. *)
Lemma output_seen_call r r' p o c : output_seen r -> r_objects r !! p = Some o -> notified (ob_client o) c ->
  r_io r' = r_io r -> r_clients r' = r_clients r -> r_objects r' = r_objects (client_call p o c r) ->
  r_notifq r' = r_notifq (client_call p o c r) -> output_seen r'.
Proof.
  intros Hr Ho Hw Eio Ec Eo Eq l q oq E Hq Hoq Hwant. rewrite Eio in E. rewrite Ec in Hq. rewrite Eo in Hoq. rewrite Eq.
  cbn in Hoq |- *. assert (nq_pending (r_notifq r) <> [] -> q ∈ l \/
    nq_pending (foldl (fun q m => push_msg m q) (r_notifq r) (omap notification (io_added (ob_client o) c))) <> []) as Hkeep
    by (intros ?; right; apply push_msgs_pending; by left).
  destruct (decide (p = q)) as [->|Hne].
  - rewrite lookup_insert_eq in Hoq. injection Hoq as <-. cbn in Hwant.
    destruct (notified_added _ _ Hw) as [_ Hi]. destruct (Hi Hwant) as [Hold|Hinv].
    + destruct (Hr l q o E Hq Ho Hold) as [|]; [by left|by apply Hkeep].
    + right. apply push_msgs_pending. right. intros Hnil.
      assert (eNoEvent ∈ omap notification (io_added (ob_client o) c)) as Hin
        by (apply list_elem_of_omap; by exists Invalidate).
      rewrite Hnil in Hin. by apply not_elem_of_nil in Hin.
  - rewrite lookup_insert_ne in Hoq by done. destruct (Hr l q oq E Hq Hoq Hwant) as [|]; [by left|by apply Hkeep].
Qed.

Lemma same_client_insert r p o o' : r_objects r !! p = Some o -> ob_client o' = ob_client o ->
  forall q oq, <[p := o']> (r_objects r) !! q = Some oq -> exists o, r_objects r !! q = Some o /\ ob_client oq = ob_client o.
Proof.
  intros Ho Hc q oq Hq. destruct (decide (p = q)) as [->|Hne].
  - rewrite lookup_insert_eq in Hq. injection Hq as <-. by exists o.
  - rewrite lookup_insert_ne in Hq by done. by exists oq.
Qed.

Lemma app_step_output r r' : app_step r r' -> output_seen r -> output_seen r'.
Proof.
  intros [r1 p fd now cb H|r1 p o buf cl H|r1 p o now H|r1] Hr.
  - apply output_seen_notified. apply push_msg_pending.
  - by eapply (output_seen_call r1 _ p o); [| |apply queue_notified|..].
  - by eapply (output_seen_call r1 _ p o); [| |apply release_notified|..].
  - apply output_seen_notified. apply push_msg_pending.
Qed.

(** The IO thread asks every client in turn, and one with output is remembered. *)
Lemma io_step_output r r' : io_step r r' -> output_seen r -> output_seen r'.
Proof.
  intros Hs Hr. destruct Hs as [r H Hns|r q todo asked H|r asked H|r H _|r a H|r p o now inp outp hup c H|r H|r H
    |r p todo H|r now H|r now H|r now p todo H|r H]; try (apply output_seen_elsewhere; cbn; by rewrite ?H).
  - intros l p o [= <-] Hp _ _. left. by rewrite app_nil_r.
  - intros l p o [= <-] Hp Ho Hw. destruct (Hr _ p o (f_equal asks_about H) Hp Ho Hw) as [Hin|]; [|by right]. left.
    cbn [asks_about app] in Hin. apply elem_of_cons in Hin as [->|[Hin|Hin]%elem_of_app].
    + unfold asks_output. cbn in Ho. rewrite Ho, Hw. apply elem_of_app. right. apply elem_of_app. right. by left.
    + apply elem_of_app. by left.
    + apply elem_of_app. right. destruct (asks_output r q); [apply elem_of_app; by left|done].
  - intros l p o [= <-] Hp Ho Hw. exact (Hr _ p o (f_equal asks_about H) Hp Ho Hw).
  - apply output_seen_elsewhere.
    destruct (handle_messages_frame (pull (r_notifq r)).1 (set_notifq (pull (r_notifq r)).2 r)) as (_ & _ & _ & _ & F & _).
    cbn in F |- *. by rewrite F, H.
Qed.

Context {WC : WakingCallback T}.

Lemma worker_step_output i r r' : worker_step i r r' -> output_seen r -> output_seen r'.
Proof.
  intros [r1 p items Hi Hc Hq|r1 items Hi Hc Hq|r1 p o Hi Ho|r1 p o c w Hi Ho Hw|r1 p o c w e Hi Ho Hw Hk|r1 p o Hi Ho o'] Hr.
  - eapply output_seen_mono; [exact Hr|done..| |done]. intros q oq Hoq. by exists oq.
  - eapply output_seen_mono; [exact Hr|done..| |done]. intros q oq Hoq. by exists oq.
  - eapply output_seen_mono; [exact Hr|done..|exact (same_client_insert r1 p o (Object (ob_client o) RS_R) Ho eq_refl)|done].
  - eapply (output_seen_call r1 _ p o c); [done|done|by eapply do_work_notified|done..].
  - by eapply (output_seen_call r1 _ p o c).
  - eapply output_seen_mono; [exact Hr|done..| |done]. apply (same_client_insert r1 p o o' Ho).
    unfold o', update_run_state_for_worker. by destruct (has_work _).
Qed.

Lemma step_output r r' : step r r' -> output_seen r -> output_seen r'.
Proof.
  intros [r1 r2 Hs|r1 r2 Hs|r1 r2 i Hs|r1|r1|r1 Hio] Hr.
  - by eapply app_step_output.
  - by eapply io_step_output.
  - by eapply worker_step_output.
  - eapply output_seen_mono; [exact Hr|done..| |done]. intros q oq Hoq. by exists oq.
  - apply output_seen_notified. apply push_msg_pending.
  - apply output_seen_elsewhere. cbn. by rewrite Hio.
Qed.

Lemma reachable_output n w r : reachable n w r -> output_seen r.
Proof.
  induction 1 as [|r r' _ IH Hs]; [by apply output_seen_elsewhere|by eapply step_output].
Qed.


End output.
