(* ===== verification/RunQueue.v ===== *)
(** The run queue of the reactor at the level of its mutex and its condition
    variable: [RunQ] of [Reactor.h], the parts of [reactor_main_loop] and
    [~Reactor] that add items, [worker_TEP] and [worker_TEP_impl] of
    [Reactor.cc], and [condition_variable] of libcpp11.

    Reactor.v treats taking an item as one step.  Here a worker locks, tests,
    sleeps, is woken (also for no reason), locks again and takes the item; the
    thread that adds an item holds the mutex while it does so.  The theorems
    show that no wake-up is missed, that the workers end when the reactor is
    destroyed, and that the queue does what Reactor.v assumes. *)

From S2P Require Import Prelude Decimal Utils SamBuffer SamProtocol ReadBuffer Client Reactor Sync.

Local Open Scope Z_scope.

(** * State *)

(** Where a worker thread is. *)
Inductive wstate :=
| W_start  (** before it has locked the mutex *)
| W_locked  (** has the mutex, about to test [itemcount] *)
| W_asleep  (** in [cond.wait], not notified *)
| W_notified  (** in [cond.wait], woken, has to lock the mutex again *)
| W_busy (p : Z)  (** works on client [p], without the mutex *)
| W_exited.

#[global] Instance wstate_eq_dec : EqDecision wstate.
Proof. solve_decision. Defined.

(** Where the thread is that adds an item: the IO thread, and the thread in
    the destructor once the IO thread has ended.  [None] is the null pointer
    that ends the workers. *)
Inductive pusher := P_idle | P_locked (x : option Z) | P_added (x : option Z) | P_notified.

Record RunQ := MkRunQ {
  q_mutex : mutex; q_items : list (option Z); q_itemcount : Z;
  q_workers : list wstate;  (** [cond]: those that are [W_asleep] *)
  q_pusher : pusher }.

Definition new_RunQ (nworkers : nat) : RunQ :=
  MkRunQ (Mutex PTHREAD_MUTEX_DEFAULT None) [] 0 (replicate nworkers W_start) P_idle.

(** Thread numbers. *)
Definition worker_thread (i : nat) : Z := Z.of_nat i + 1.
Definition pusher_thread : Z := 0.

Definition set_worker_state (i : nat) (s : wstate) (q : RunQ) : RunQ :=
  MkRunQ (q_mutex q) (q_items q) (q_itemcount q) (<[i := s]> (q_workers q)) (q_pusher q).
Definition set_mutex (m : mutex) (q : RunQ) : RunQ :=
  MkRunQ m (q_items q) (q_itemcount q) (q_workers q) (q_pusher q).
Definition set_items (l : list (option Z)) (n : Z) (q : RunQ) : RunQ :=
  MkRunQ (q_mutex q) l n (q_workers q) (q_pusher q).
Definition set_workers (l : list wstate) (q : RunQ) : RunQ :=
  MkRunQ (q_mutex q) (q_items q) (q_itemcount q) l (q_pusher q).
Definition set_pusher (p : pusher) (q : RunQ) : RunQ :=
  MkRunQ (q_mutex q) (q_items q) (q_itemcount q) (q_workers q) p.

(** * The condition variable *)

(** [pthread_cond_signal] wakes one of the threads that wait, if any;
    [pthread_cond_broadcast] all of them. *)
Inductive notify_one : list wstate -> list wstate -> Prop :=
| notify_some l i : l !! i = Some W_asleep -> notify_one l (<[i := W_notified]> l)
| notify_nobody l : (W_asleep ∉ l) -> notify_one l l.

Definition woken (s : wstate) : wstate := match s with W_asleep => W_notified | s => s end.
Definition notify_all (l : list wstate) : list wstate := woken <$> l.

(** [pthread_cond_wait] gives the mutex back as it goes to sleep. *)
Definition wait_begin (t : Z) (m : mutex) : result mutex := unlock t m.

(** * Steps *)

(** The lock object of a worker that has the mutex. *)
Definition held_lock : unique_lock := MkUniqueLock true true.

Inductive runq_worker (i : nat) : RunQ -> RunQ -> Prop :=
| rw_lock q u m :
    q_workers q !! i = Some W_start -> unique_lock_new (worker_thread i) (q_mutex q) = Returns (Ok (u, m)) ->
    runq_worker i q (set_mutex m (set_worker_state i W_locked q))
| rw_wait q m :
    q_workers q !! i = Some W_locked -> q_itemcount q = 0 -> wait_begin (worker_thread i) (q_mutex q) = Ok m ->
    runq_worker i q (set_mutex m (set_worker_state i W_asleep q))
| rw_spurious q :
    q_workers q !! i = Some W_asleep -> runq_worker i q (set_worker_state i W_notified q)
| rw_wake q m :
    q_workers q !! i = Some W_notified -> lock (worker_thread i) (q_mutex q) = Returns (Ok m) ->
    runq_worker i q (set_mutex m (set_worker_state i W_locked q))
| rw_pop q p items m :
    q_workers q !! i = Some W_locked -> q_itemcount q <> 0 -> q_items q = Some p :: items ->
    unique_lock_delete (worker_thread i) held_lock (q_mutex q) = Ok m ->
    runq_worker i q (set_mutex m (set_worker_state i (W_busy p) (set_items items (size_t (q_itemcount q - 1)) q)))
| rw_exit q items m :
    q_workers q !! i = Some W_locked -> q_itemcount q <> 0 -> q_items q = None :: items ->
    unique_lock_delete (worker_thread i) held_lock (q_mutex q) = Ok m ->
    runq_worker i q (set_mutex m (set_worker_state i W_exited q))
(** The work is done, or an exception of it was caught: next round. *)
| rw_done q p :
    q_workers q !! i = Some (W_busy p) -> runq_worker i q (set_worker_state i W_start q).

(** Adding an item under a [lock_guard]: one waiting worker is notified, or
    all when the item is the null pointer. *)
Inductive runq_push : RunQ -> RunQ -> Prop :=
| rp_lock q x m :
    q_pusher q = P_idle -> lock_guard_new pusher_thread (q_mutex q) = Returns (Ok m) ->
    runq_push q (set_mutex m (set_pusher (P_locked x) q))
(** An item takes more than a byte of memory, so there are fewer than 2^64. *)
| rp_add q x :
    q_pusher q = P_locked x -> Z.of_nat (length (q_items q)) + 1 < 2 ^ 64 ->
    runq_push q (set_pusher (P_added x) (set_items (q_items q ++ [x]) (size_t (q_itemcount q + 1)) q))
| rp_notify_one q p l :
    q_pusher q = P_added (Some p) -> notify_one (q_workers q) l ->
    runq_push q (set_pusher P_notified (set_workers l q))
| rp_notify_all q :
    q_pusher q = P_added None -> runq_push q (set_pusher P_notified (set_workers (notify_all (q_workers q)) q))
| rp_unlock q m :
    q_pusher q = P_notified -> lock_guard_delete pusher_thread (q_mutex q) = Ok m ->
    runq_push q (set_mutex m (set_pusher P_idle q)).

Inductive runq_step : RunQ -> RunQ -> Prop :=
| rs_worker i q q' : runq_worker i q q' -> runq_step q q'
| rs_push q q' : runq_push q q' -> runq_step q q'.

Inductive runq_reachable (nworkers : nat) : RunQ -> Prop :=
| runq_new : runq_reachable nworkers (new_RunQ nworkers)
| runq_next q q' : runq_reachable nworkers q -> runq_step q q' -> runq_reachable nworkers q'.

(** * Counting workers *)

Lemma sum_list_with_insert {A} (f : A -> nat) l i x y : l !! i = Some x ->
  (sum_list_with f (<[i := y]> l) + f x = sum_list_with f l + f y)%nat.
Proof.
  revert i. induction l as [|a l IH]; intros [|i] Hi; try done.
  - injection Hi as ->. change (f y + sum_list_with f l + f x = f x + sum_list_with f l + f y)%nat. lia.
  - specialize (IH i Hi). change (f a + sum_list_with f (<[i:=y]> l) + f x = f a + sum_list_with f l + f y)%nat. lia.
Qed.

Lemma elem_of_insert {A} (l : list A) i x a : a ∈ <[i := x]> l -> a = x \/ a ∈ l.
Proof.
  intros [j Hj]%list_elem_of_lookup. apply list_lookup_insert_Some in Hj as [(-> & -> & _)|[_ Hj]]; [by left|].
  right. by eapply list_elem_of_lookup_2.
Qed.

(** Workers that will look at the queue without being notified. *)
Definition ready (s : wstate) : bool :=
  match s with W_start | W_locked | W_notified => true | _ => false end.
Definition ready_workers (l : list wstate) : nat := sum_list_with (fun s => if ready s then 1 else 0)%nat l.
(** Items added for which nobody has been notified yet. *)
Definition unannounced (p : pusher) : nat := match p with P_added _ => 1 | _ => 0 end.

(** * The invariant *)

(** The threads in a critical section. *)
Definition holds (q : RunQ) (t : Z) : Prop :=
  (t = pusher_thread /\ q_pusher q <> P_idle) \/
  exists i, t = worker_thread i /\ q_workers q !! i = Some W_locked.

Record runq_inv (q : RunQ) : Prop := {
  rq_count : q_itemcount q = Z.of_nat (length (q_items q));
  rq_bound : q_itemcount q < 2 ^ 64;
  rq_type : mx_type (q_mutex q) = PTHREAD_MUTEX_DEFAULT;
  (** The mutex is owned exactly by the thread in its critical section. *)
  rq_owner : forall t n, mx_owner (q_mutex q) = Some (t, n) <-> n = 1 /\ holds q t;
  (** While a worker sleeps there is a worker on its way for every item. *)
  rq_wake : W_asleep ∈ q_workers q ->
    (length (q_items q) <= ready_workers (q_workers q) + unannounced (q_pusher q))%nat;
  (** Nobody sleeps once the workers have been told to end. *)
  rq_sentinel : None ∈ q_items q -> (W_asleep ∉ q_workers q) \/ q_pusher q = P_added None }.

Section invariant.
Implicit Types (q : RunQ) (i : nat) (t : Z).

Lemma worker_not_pusher i : worker_thread i <> pusher_thread.
Proof. unfold worker_thread, pusher_thread. lia. Qed.

Lemma lock_acquired q t m : runq_inv q -> lock t (q_mutex q) = Returns (Ok m) ->
  m = Mutex PTHREAD_MUTEX_DEFAULT (Some (t, 1)) /\ forall t', ~ holds q t'.
Proof.
  intros Hq. rewrite lock_default by apply Hq. destruct (mx_owner (q_mutex q)) as [[o n]|] eqn:E; [done|].
  intros [= <-]. split; [done|]. intros t' Ht'. by rewrite (proj2 (rq_owner q Hq t' 1) (conj eq_refl Ht')) in E.
Qed.

Lemma unlock_released q t m : runq_inv q -> holds q t -> unlock t (q_mutex q) = Ok m ->
  m = Mutex PTHREAD_MUTEX_DEFAULT None /\ forall t', holds q t' -> t' = t.
Proof.
  intros Hq Ht. pose proof (proj2 (rq_owner q Hq t 1) (conj eq_refl Ht)) as Ho.
  rewrite unlock_default by (done || apply Hq). intros [= <-]. split; [done|]. intros t' Ht'.
  pose proof (proj2 (rq_owner q Hq t' 1) (conj eq_refl Ht')). congruence.
Qed.

Lemma unique_lock_new_acquires q t u m : unique_lock_new t (q_mutex q) = Returns (Ok (u, m)) ->
  lock t (q_mutex q) = Returns (Ok m).
Proof. unfold unique_lock_new, unique_lock_lock. cbn. destruct (lock t (q_mutex q)) as [[]|]; naive_solver. Qed.

Lemma unique_lock_delete_releases t m m' : unique_lock_delete t held_lock m = Ok m' -> unlock t m = Ok m'.
Proof. unfold unique_lock_delete, unique_lock_unlock. cbn. intros E. by destruct (unlock t m); inv_ok. Qed.

Lemma worker_holds q i : q_workers q !! i = Some W_locked -> holds q (worker_thread i).
Proof. intros Hi. right. by exists i. Qed.

Lemma holds_workers q q' : q_workers q' = q_workers q -> q_pusher q' = q_pusher q -> forall t, holds q' t <-> holds q t.
Proof. intros Hw Hp t. unfold holds. by rewrite Hw, Hp. Qed.

(** Worker [i] enters or leaves its critical section. *)
Lemma holds_enter q i s m : q_workers q !! i = Some s -> (forall t, ~ holds q t) ->
  forall t, holds (set_mutex m (set_worker_state i W_locked q)) t <-> t = worker_thread i.
Proof.
  intros Hi Hno t. split.
  - intros [[-> Hp]|(j & -> & Hj)]; [exfalso; apply (Hno pusher_thread); by left|].
    cbn in Hj. apply list_lookup_insert_Some in Hj as [(<- & _ & _)|[_ Hj]]; [done|].
    exfalso. apply (Hno (worker_thread j)). by apply worker_holds.
  - intros ->. right. exists i. split; [done|]. cbn. apply list_lookup_insert_eq. by eapply lookup_lt_Some.
Qed.

Lemma holds_leave q q' i s : q_workers q !! i = Some W_locked -> s <> W_locked ->
  (forall t, holds q t -> t = worker_thread i) ->
  q_workers q' = <[i := s]> (q_workers q) -> q_pusher q' = q_pusher q -> forall t, ~ holds q' t.
Proof.
  intros Hi Hs Huniq Hw Hp t. unfold holds. rewrite Hw, Hp. intros [[-> Hn]|(j & -> & Hj)].
  - apply (worker_not_pusher i). symmetry. apply Huniq. by left.
  - apply list_lookup_insert_Some in Hj as [(<- & Hj & _)|[Hne Hj]]; [done|].
    pose proof (Huniq _ (worker_holds q j Hj)) as E. unfold worker_thread in E. lia.
Qed.

(** Changes of a worker outside critical sections. *)
Lemma holds_other q i s s' : q_workers q !! i = Some s -> s <> W_locked -> s' <> W_locked ->
  forall t, holds (set_worker_state i s' q) t <-> holds q t.
Proof.
  intros Hi Hs Hs' t. unfold holds. cbn [set_worker_state q_workers q_pusher].
  assert (forall j, <[i:=s']> (q_workers q) !! j = Some W_locked <-> q_workers q !! j = Some W_locked) as Hl.
  { intros j. destruct (decide (i = j)) as [<-|Hne]; [|by rewrite list_lookup_insert_ne].
    rewrite list_lookup_insert_eq by (by eapply lookup_lt_Some). naive_solver. }
  setoid_rewrite Hl. done.
Qed.

Lemma pusher_idle q i : runq_inv q -> q_workers q !! i = Some W_locked -> q_pusher q = P_idle.
Proof.
  intros Hq Hi. destruct (q_pusher q) eqn:E; [done| | |]; exfalso.
  all: assert (holds q pusher_thread) as Hp by (left; by rewrite E);
    pose proof (proj2 (rq_owner q Hq _ 1) (conj eq_refl Hp)) as H1;
    pose proof (proj2 (rq_owner q Hq _ 1) (conj eq_refl (worker_holds q i Hi))) as H2;
    rewrite H1 in H2; injection H2 as H2; by apply (worker_not_pusher i).
Qed.

End invariant.

(** * Every step keeps the invariant *)

Section preservation.
Implicit Types (q : RunQ) (i : nat) (t : Z).

Local Ltac rq_cbn := cbn [set_mutex set_worker_state set_items set_workers set_pusher q_mutex q_items q_itemcount
  q_workers q_pusher].

Lemma ready_insert l i x y : l !! i = Some x ->
  (ready_workers (<[i := y]> l) + (if ready x then 1 else 0) =
   ready_workers l + (if ready y then 1 else 0))%nat.
Proof. apply (sum_list_with_insert (fun s => if ready s then 1 else 0)%nat). Qed.

(** A worker enters its critical section. *)
Lemma inv_enter q i s m : runq_inv q -> q_workers q !! i = Some s -> ready s = true ->
  lock (worker_thread i) (q_mutex q) = Returns (Ok m) ->
  runq_inv (set_mutex m (set_worker_state i W_locked q)).
Proof.
  intros Hq Hi Hs Hl. destruct (lock_acquired q _ m Hq Hl) as [-> Hno]. split; try apply Hq.
  - done.
  - intros t n. rewrite (holds_enter q i s _ Hi Hno). cbn. naive_solver.
  - rq_cbn. intros [?|Ha]%elem_of_insert; [done|]. pose proof (rq_wake q Hq Ha).
    pose proof (ready_insert _ _ _ W_locked Hi) as Hr. rewrite Hs in Hr. cbn [ready] in Hr. lia.
  - rq_cbn. intros Hn. destruct (rq_sentinel q Hq Hn) as [Ha|]; [left|by right].
    by intros [?|?]%elem_of_insert.
Qed.

(** A worker leaves its critical section with the items [items]. *)
Lemma inv_leave q i s m items n : runq_inv q -> q_workers q !! i = Some W_locked -> s <> W_locked ->
  unlock (worker_thread i) (q_mutex q) = Ok m ->
  n = Z.of_nat (length items) -> n < 2 ^ 64 ->
  (W_asleep ∈ <[i := s]> (q_workers q) -> length items <= ready_workers (<[i := s]> (q_workers q)))%nat ->
  (None ∈ items -> W_asleep ∉ <[i := s]> (q_workers q)) ->
  runq_inv (set_mutex m (set_worker_state i s (set_items items n q))).
Proof.
  intros Hq Hi Hs Hu Hn Hb Hwake Hsent.
  destruct (unlock_released q _ m Hq (worker_holds q i Hi) Hu) as [-> Huniq].
  split; cbn [set_mutex set_worker_state set_items q_mutex q_items q_itemcount q_workers q_pusher]; try done.
  - intros t k. cbn [mx_owner].
    pose proof (holds_leave q (set_mutex (Mutex PTHREAD_MUTEX_DEFAULT None) (set_worker_state i s (set_items items n q)))
      i s Hi Hs Huniq eq_refl eq_refl t). naive_solver.
  - intros Ha. specialize (Hwake Ha). lia.
  - intros Hnone. left. by apply Hsent.
Qed.

Lemma itemcount_empty q : runq_inv q -> q_itemcount q = 0 -> q_items q = [].
Proof. intros Hq H0. pose proof (rq_count q Hq). destruct (q_items q); [done|cbn in *; lia]. Qed.

Lemma runq_worker_inv i q q' : runq_inv q -> runq_worker i q q' -> runq_inv q'.
Proof.
  intros Hq Hstep. destruct Hstep as [q u m Hi Hl|q m Hi H0 Hu|q Hi|q m Hi Hl|q p items m Hi Hn0 Hit Hu
    |q items m Hi Hn0 Hit Hu|q p Hi].
  - apply unique_lock_new_acquires in Hl. by eapply inv_enter.
  - pose proof (itemcount_empty q Hq H0) as Hemp.
    replace q with (set_items (q_items q) (q_itemcount q) q) at 1 by (by destruct q).
    eapply inv_leave; try done; try apply Hq; rewrite Hemp; [cbn; lia|]. set_solver.
  - split; try apply Hq.
    + intros t n. rewrite (holds_other q i W_asleep) by done. apply Hq.
    + rq_cbn. intros _. pose proof (rq_wake q Hq ltac:(by eapply list_elem_of_lookup_2)).
      pose proof (ready_insert _ _ _ W_notified Hi) as Hr. cbn [ready] in Hr. lia.
    + rq_cbn. intros Hn. destruct (rq_sentinel q Hq Hn) as [Ha|]; [|by right]. exfalso. apply Ha.
      by eapply list_elem_of_lookup_2.
  - by eapply inv_enter.
  - apply unique_lock_delete_releases in Hu. pose proof (rq_count q Hq) as Hc. pose proof (rq_bound q Hq) as Hb.
    rewrite Hit in Hc. cbn [length] in Hc.
    eapply inv_leave; try done.
    + rewrite size_t_small by lia. lia.
    + rewrite size_t_small by lia. lia.
    + intros [?|Ha]%elem_of_insert; [done|]. pose proof (rq_wake q Hq Ha) as Hw.
      rewrite Hit, (pusher_idle q i Hq Hi) in Hw. cbn [length unannounced] in Hw.
      pose proof (ready_insert _ _ _ (W_busy p) Hi) as Hr. cbn [ready] in Hr. lia.
    + intros Hn. destruct (rq_sentinel q Hq) as [Ha|Hp]; [rewrite Hit; by right| |by rewrite (pusher_idle q i Hq Hi) in Hp].
      by intros [?|?]%elem_of_insert.
  - apply unique_lock_delete_releases in Hu.
    assert (W_asleep ∉ q_workers q) as Hno.
    { destruct (rq_sentinel q Hq) as [Ha|Hp]; [rewrite Hit; by left|done|by rewrite (pusher_idle q i Hq Hi) in Hp]. }
    replace q with (set_items (q_items q) (q_itemcount q) q) at 1 by (by destruct q).
    eapply inv_leave; try done; try apply Hq; intros Hx; [apply elem_of_insert in Hx as [?|?]|intros [?|?]%elem_of_insert]; done.
  - split; try apply Hq.
    + intros t n. rewrite (holds_other q i (W_busy p)) by done. apply Hq.
    + rq_cbn. intros [?|Ha]%elem_of_insert; [done|]. pose proof (rq_wake q Hq Ha).
      pose proof (ready_insert _ _ _ W_start Hi) as Hr. cbn [ready] in Hr. lia.
    + rq_cbn. intros Hn. destruct (rq_sentinel q Hq Hn) as [Ha|]; [left|by right]. by intros [?|?]%elem_of_insert.
Qed.

Lemma pusher_holds q : q_pusher q <> P_idle -> holds q pusher_thread.
Proof. intros Hp. by left. Qed.

(** The pusher moves on inside its critical section. *)
Lemma holds_push q q' : q_pusher q <> P_idle -> q_pusher q' <> P_idle ->
  (forall j, q_workers q' !! j = Some W_locked <-> q_workers q !! j = Some W_locked) ->
  forall t, holds q' t <-> holds q t.
Proof.
  intros Hp Hp' Hl t. unfold holds. setoid_rewrite Hl.
  split; (intros [[-> _]|H]; [by left|by right]).
Qed.

Lemma notify_one_spec l l' : notify_one l l' ->
  (forall j, l' !! j = Some W_locked <-> l !! j = Some W_locked) /\
  (W_asleep ∈ l' -> W_asleep ∈ l) /\
  (W_asleep ∈ l' -> ready_workers l' = S (ready_workers l)).
Proof.
  intros [k i Hi|k Hno].
  - split; [|split].
    + intros j. destruct (decide (i = j)) as [<-|Hne]; [|by rewrite list_lookup_insert_ne].
      rewrite list_lookup_insert_eq by (by eapply lookup_lt_Some). naive_solver.
    + by intros [?|?]%elem_of_insert.
    + intros _. pose proof (ready_insert _ _ _ W_notified Hi) as Hr. cbn [ready] in Hr. lia.
  - split; [done|]. split; [done|]. by intros ?%Hno.
Qed.

Lemma notify_all_spec l :
  (forall j, notify_all l !! j = Some W_locked <-> l !! j = Some W_locked) /\ (W_asleep ∉ notify_all l).
Proof.
  unfold notify_all. split.
  - intros j. rewrite list_lookup_fmap. destruct (l !! j) as [[]|]; cbn; naive_solver.
  - intros (s & Hs & _)%list_elem_of_fmap. by destruct s.
Qed.

Lemma runq_push_inv q q' : runq_inv q -> runq_push q q' -> runq_inv q'.
Proof.
  intros Hq Hstep. destruct Hstep as [q x m Hp Hl|q x Hp Hb|q p l Hp Hn|q Hp|q m Hp Hu].
  - destruct (lock_acquired q _ m Hq Hl) as [-> Hno]. split; try apply Hq; [done| | |].
    + intros t n. cbn [set_mutex q_mutex mx_owner].
      assert (holds (set_mutex (Mutex PTHREAD_MUTEX_DEFAULT (Some (pusher_thread, 1))) (set_pusher (P_locked x) q)) t <->
        t = pusher_thread) as ->; [|naive_solver].
      split; [|intros ->; by left]. intros [[-> _]|(j & -> & Hj)]; [done|]. exfalso.
      apply (Hno (worker_thread j)). by apply worker_holds.
    + rq_cbn. intros Ha. pose proof (rq_wake q Hq Ha) as Hw. rewrite Hp in Hw. done.
    + rq_cbn. intros Hn. destruct (rq_sentinel q Hq Hn) as [Ha|Ha]; [by left|congruence].
  - pose proof (rq_count q Hq) as Hc. split.
    + rq_cbn. rewrite length_app, size_t_small by (rewrite Hc; lia). rewrite Hc. cbn. lia.
    + rq_cbn. rewrite size_t_small by (rewrite Hc; lia). lia.
    + apply Hq.
    + intros t n. rewrite (holds_push q) by (done || cbn; congruence). apply Hq.
    + rq_cbn. intros Ha. pose proof (rq_wake q Hq Ha) as Hw. rewrite Hp in Hw. rewrite length_app. cbn [unannounced length] in *. lia.
    + rq_cbn. intros [Hn|Hn]%elem_of_app.
      * destruct (rq_sentinel q Hq Hn) as [Ha|Ha]; [by left|congruence].
      * apply list_elem_of_singleton in Hn as <-. by right.
  - destruct (notify_one_spec _ _ Hn) as (Hl & Ha & Hr). split; try apply Hq.
    + intros t n. rewrite (holds_push q) by (done || cbn; congruence). apply Hq.
    + cbn [set_pusher set_workers q_items q_workers q_pusher unannounced]. intros Hin.
      pose proof (rq_wake q Hq (Ha Hin)) as Hw. rewrite Hp in Hw. cbn [unannounced] in Hw. specialize (Hr Hin). lia.
    + cbn [set_pusher set_workers q_items q_workers q_pusher]. intros Hnone.
      destruct (rq_sentinel q Hq Hnone) as [Hx|Hx]; [left; by intros ?%Ha|congruence].
  - destruct (notify_all_spec (q_workers q)) as [Hl Ha]. split; try apply Hq.
    + intros t n. rewrite (holds_push q) by (done || cbn; congruence). apply Hq.
    + by intros ?%Ha.
    + intros _. by left.
  - destruct (unlock_released q _ m Hq ltac:(apply pusher_holds; congruence) Hu) as [-> Huniq]. split; try apply Hq; [done| | |].
    + intros t n. cbn. split; [done|]. intros [_ [[_ H]|(j & -> & Hj)]]; [done|].
      by destruct (worker_not_pusher j (Huniq _ (worker_holds q j Hj))).
    + rq_cbn. intros Ha. pose proof (rq_wake q Hq Ha) as Hw. rewrite Hp in Hw. done.
    + rq_cbn. intros Hn. destruct (rq_sentinel q Hq Hn) as [Ha|Ha]; [by left|congruence].
Qed.

Lemma new_runq_inv n : runq_inv (new_RunQ n).
Proof.
  split; try done.
  - intros t k. cbn. split; [done|]. intros [_ [[_ H]|(j & _ & [Hj _]%lookup_replicate)]]; done.
  - rq_cbn. intros [? _]%elem_of_replicate. done.
  - cbn. by intros ?%not_elem_of_nil.
Qed.

Lemma runq_reachable_inv n q : runq_reachable n q -> runq_inv q.
Proof.
  induction 1 as [|q q' _ Hq Hs]; [apply new_runq_inv|].
  destruct Hs; [by eapply runq_worker_inv|by eapply runq_push_inv].
Qed.

End preservation.

(** * What the queue guarantees *)

(** C14. In every interleaving the workers and the thread that adds items are
    in their critical sections one at a time, [itemcount] is the number of
    items, no wake-up is missed (while any worker sleeps, every item has a
    worker on its way that will look at the queue without being notified), and
    no worker sleeps once the null item is in the queue and announced. *)
Theorem no_missed_wakeup n q : runq_reachable n q ->
  (forall t t', holds q t -> holds q t' -> t = t') /\
  q_itemcount q = Z.of_nat (length (q_items q)) /\
  (W_asleep ∈ q_workers q ->
   (length (q_items q) <= ready_workers (q_workers q) + unannounced (q_pusher q))%nat) /\
  (None ∈ q_items q -> q_pusher q <> P_added None -> W_asleep ∉ q_workers q).
Proof.
  intros Hr. pose proof (runq_reachable_inv n q Hr) as Hq. split.
  - intros t t' Ht Ht'. pose proof (proj2 (rq_owner q Hq t 1) (conj eq_refl Ht)).
    pose proof (proj2 (rq_owner q Hq t' 1) (conj eq_refl Ht')). congruence.
  - split; [apply Hq|]. split; [apply Hq|]. intros Hn Hp. by destruct (rq_sentinel q Hq Hn).
Qed.

(** * Ending the workers *)

(** The steps left when nothing more is added: those of the workers, and the
    end of the critical section in which the null item was added. *)
Inductive drain_step : RunQ -> RunQ -> Prop :=
| ds_worker i q q' : runq_worker i q q' -> drain_step q q'
| ds_unlock q q' : q_pusher q = P_notified -> runq_push q q' -> drain_step q q'.

Definition worker_weight (s : wstate) : nat :=
  match s with
  | W_exited => 0 | W_locked => 1 | W_start | W_notified => 2 | W_asleep | W_busy _ => 3
  end.
(** How much is left to do. *)
Definition remaining (q : RunQ) : nat :=
  sum_list_with worker_weight (q_workers q) + 3 * length (q_items q) +
  match q_pusher q with P_notified => 1 | _ => 0 end.

(** The null item has been added and announced. *)
Definition ending (q : RunQ) : Prop :=
  runq_inv q /\ None ∈ q_items q /\ (q_pusher q = P_idle \/ q_pusher q = P_notified).

Lemma ending_awake q : ending q -> W_asleep ∉ q_workers q.
Proof. intros (Hq & Hn & Hp). destruct (rq_sentinel q Hq Hn) as [?|Hp']; [done|]. rewrite Hp' in Hp. naive_solver. Qed.

Lemma ending_items q : ending q -> q_itemcount q <> 0.
Proof. intros (Hq & Hn & _) H0. rewrite (itemcount_empty q Hq H0) in Hn. by apply not_elem_of_nil in Hn. Qed.

(** A step keeps the queue ending and makes progress. *)
Lemma drain_step_progress q q' : ending q -> drain_step q q' -> ending q' /\ (remaining q' < remaining q)%nat.
Proof.
  intros He Hs. destruct (He) as (Hq & Hn & Hp).
  assert (forall i x y (l := q_workers q), l !! i = Some x ->
    (sum_list_with worker_weight (<[i := y]> l) + worker_weight x = sum_list_with worker_weight l + worker_weight y)%nat)
    as Hw by (intros i x y l; apply sum_list_with_insert).
  destruct Hs as [i q q' Hs|q q' Hpu Hs].
  - assert (runq_inv q') as Hq' by (by eapply runq_worker_inv). unfold remaining.
    destruct Hs as [q u m Hi Hl|q m Hi H0 Hu|q Hi|q m Hi Hl|q p items m Hi Hn0 Hit Hu|q items m Hi Hn0 Hit Hu|q p Hi].
    2: by destruct (ending_items q He).
    2: { destruct (ending_awake q He). by eapply list_elem_of_lookup_2. }
    4: { pose proof (Hw i _ W_exited Hi) as Hwi. cbn [worker_weight] in Hwi.
         split; [by split|]. cbn [set_mutex set_worker_state q_workers q_items q_pusher]. lia. }
    3: { pose proof (Hw i _ (W_busy p) Hi) as Hwi. cbn [worker_weight] in Hwi. rewrite Hit in Hn.
         apply elem_of_cons in Hn as [?|Hn]; [done|].
         split; [by split|]. cbn [set_mutex set_worker_state set_items q_workers q_items q_pusher]. rewrite Hit.
         cbn [length]. lia. }
    all: match goal with |- context [set_worker_state _ ?y _] => pose proof (Hw _ _ y Hi) as Hwi end;
         cbn [worker_weight] in Hwi;
         (split; [by split|]); cbn [set_mutex set_worker_state q_workers q_items q_pusher]; lia.
  - assert (runq_inv q') as Hq' by (by eapply runq_push_inv).
    destruct Hs as [q x m Hp' Hl|q x Hp' Hb|q p l Hp' Hno|q Hp'|q m Hp' Hu]; try congruence.
    split; [split; [done|]; split; [done|by left]|]. unfold remaining.
    cbn [set_mutex set_pusher q_workers q_items q_pusher]. rewrite Hp'. lia.
Qed.

(** A worker in its critical section can leave it. *)
Lemma locked_can_step q i : ending q -> q_workers q !! i = Some W_locked -> exists q', runq_worker i q q'.
Proof.
  intros He Hi. destruct (He) as (Hq & Hn & _). pose proof (ending_items q He) as H0.
  pose proof (proj2 (rq_owner q Hq _ 1) (conj eq_refl (worker_holds q i Hi))) as Ho.
  assert (unique_lock_delete (worker_thread i) held_lock (q_mutex q) = Ok (Mutex PTHREAD_MUTEX_DEFAULT None)) as Hu.
  { unfold unique_lock_delete, unique_lock_unlock. cbn [held_lock ul_owns ul_device negb].
    by rewrite unlock_default by (done || apply Hq). }
  destruct (q_items q) as [|[p|] items] eqn:E; [by apply not_elem_of_nil in Hn| |]; eexists.
  - by eapply rw_pop.
  - by eapply rw_exit.
Qed.

Lemma lock_free t m : mx_type m = PTHREAD_MUTEX_DEFAULT -> mx_owner m = None ->
  lock t m = Returns (Ok (Mutex PTHREAD_MUTEX_DEFAULT (Some (t, 1)))).
Proof. intros Ht Ho. by rewrite lock_default, Ho. Qed.

(** There is a step while a worker has not ended. *)
Lemma ending_can_step q i s : ending q -> q_workers q !! i = Some s -> s <> W_exited -> exists q', drain_step q q'.
Proof.
  intros He Hi Hs. destruct (He) as (Hq & Hn & Hp).
  destruct (mx_owner (q_mutex q)) as [[t n]|] eqn:Ho.
  - (* The owner can go on. *)
    destruct (proj1 (rq_owner q Hq t n) Ho) as [-> [[-> Hpu]|(j & -> & Hj)]].
    + destruct Hp as [Hp|Hp]; [done|]. eexists. apply ds_unlock; [done|]. eapply rp_unlock; [done|].
      apply unlock_default; [apply Hq|done].
    + destruct (locked_can_step q j He Hj) as [q' Hq']. eexists. by eapply ds_worker.
  - assert (forall t, lock t (q_mutex q) = Returns (Ok (Mutex PTHREAD_MUTEX_DEFAULT (Some (t, 1))))) as Hl
      by (intros t; apply lock_free; [apply Hq|done]).
    destruct s; [..|done].
    + eexists. eapply ds_worker, rw_lock; [done|]. unfold unique_lock_new, unique_lock_lock. cbn. by rewrite Hl.
    + destruct (locked_can_step q i He Hi) as [q' Hq']. eexists. by eapply ds_worker.
    + destruct (ending_awake q He). by eapply list_elem_of_lookup_2.
    + eexists. eapply ds_worker, rw_wake; done.
    + eexists. by eapply ds_worker, rw_done.
Qed.

Lemma all_exited_or_step q : ending q ->
  Forall (eq W_exited) (q_workers q) \/ exists q', drain_step q q'.
Proof.
  intros He. destruct (decide (Forall (eq W_exited) (q_workers q))) as [?|Hn]; [by left|right].
  apply not_Forall_Exists in Hn; [|apply _]. apply Exists_exists in Hn as (s & [i Hi]%list_elem_of_lookup & Hs).
  apply (ending_can_step q i s); [done|done|]. intros ->. by apply Hs.
Qed.

Lemma drain_steps_ending q q' : ending q -> rtc drain_step q q' -> ending q'.
Proof. intros He. induction 1 as [|q1 q2 q3 H1 _ IH]; [done|]. apply IH. by destruct (drain_step_progress q1 q2 He H1). Qed.

Lemma drain_completes q : ending q -> exists q', rtc drain_step q q' /\ Forall (eq W_exited) (q_workers q').
Proof.
  remember (remaining q) as n eqn:En. revert q En. induction (lt_wf n) as [n _ IH]. intros q -> He.
  destruct (all_exited_or_step q He) as [?|[q1 H1]]; [by exists q|].
  destruct (drain_step_progress q q1 He H1) as [He1 Hlt]. destruct (IH _ Hlt q1 eq_refl He1) as (q' & Hr & Ha).
  exists q'. split; [by eapply rtc_l|done].
Qed.


(** * The queue of the reactor *)

Section refinement.
Context {T : Type} {CB : ClientCallback T}.

(** Waiting for an item is one state of Reactor.v. *)
Definition state_matches (s : wstate) (a : worker) : Prop :=
  match s with
  | W_start | W_locked | W_asleep | W_notified => a = WIdle
  | W_busy p => a = WPopped p \/ a = WRunning p \/ a = WWorked p
  | W_exited => a = WExited
  end.

Definition queue_matches (q : RunQ) (r : Reactor (T := T)) : Prop :=
  r_runq r = q_items q /\ r_itemcount r = q_itemcount q /\
  length (r_workers r) = length (q_workers q) /\
  forall i s, q_workers q !! i = Some s -> exists a, r_workers r !! i = Some a /\ state_matches s a.

Lemma matches_set q r i s a : queue_matches q r -> state_matches s a -> (i < length (q_workers q))%nat ->
  forall q' r', q_workers q' = <[i := s]> (q_workers q) -> r_workers r' = <[i := a]> (r_workers r) ->
  r_runq r' = q_items q' -> r_itemcount r' = q_itemcount q' -> queue_matches q' r'.
Proof.
  intros (_ & _ & Hlen & Hw) Hm Hi q' r' Hq' Hr' H1 H2. split; [done|]. split; [done|]. rewrite Hq', Hr'.
  split; [by rewrite !length_insert|]. intros j t Hj.
  apply list_lookup_insert_Some in Hj as [(<- & -> & _)|[Hne Hj]].
  - exists a. split; [|done]. apply list_lookup_insert_eq. lia.
  - destruct (Hw j t Hj) as (b & Hb & Hbm). exists b. by rewrite list_lookup_insert_ne.
Qed.

(** A change of worker [i] that Reactor.v does not see. *)
Lemma matches_stutter q r i s s' q' : queue_matches q r -> q_workers q !! i = Some s ->
  (forall a, state_matches s a -> state_matches s' a) ->
  q_workers q' = <[i := s']> (q_workers q) -> q_items q' = q_items q -> q_itemcount q' = q_itemcount q ->
  queue_matches q' r.
Proof.
  intros Hm Hi Hss Hw Hit Hc. destruct (Hm) as (Hr & Hn & Hlen & Hws).
  destruct (Hws i s Hi) as (a & Ha & Has). eapply (matches_set q r i s' a); eauto; try congruence.
  - by eapply lookup_lt_Some.
  - by rewrite list_insert_id.
Qed.

(** C22. The queue with its mutex and condition variable refines the one-step
    queue of Reactor.v: a step of a worker that is not working on a client is
    invisible there or is that worker's step there; when a worker is done with
    a client the states still match once the reactor's worker is idle; and
    adding an item is what the search for work, or the destructor, does. *)
Theorem runq_refines_reactor i q q' (r : Reactor (T := T)) : queue_matches q r ->
  (runq_worker i q q' ->
    queue_matches q' r \/ (exists r', worker_step i r r' /\ queue_matches q' r') \/
    (exists p, q_workers q !! i = Some (W_busy p) /\
       forall r', r_workers r' = <[i := WIdle]> (r_workers r) -> r_runq r' = r_runq r ->
         r_itemcount r' = r_itemcount r -> queue_matches q' r')) /\
  (runq_push q q' ->
    queue_matches q' r \/
    (exists x, queue_matches q' (set_runq (r_runq r ++ [x]) (size_t (r_itemcount r + 1)) r))).
Proof.
  intros Hm. destruct (Hm) as (Hr & Hn & Hlen & Hws). split.
  - intros Hs. destruct Hs as [q u m Hi Hl|q m Hi H0 Hu|q Hi|q m Hi Hl|q p items m Hi Hn0 Hit Hu
      |q items m Hi Hn0 Hit Hu|q p Hi].
    + left. by apply (matches_stutter q r i W_start W_locked).
    + left. by apply (matches_stutter q r i W_locked W_asleep).
    + left. by apply (matches_stutter q r i W_asleep W_notified).
    + left. by apply (matches_stutter q r i W_notified W_locked).
    + right. left. destruct (Hws i _ Hi) as (a & Ha & ->). eexists. split.
      * apply step_pop; [done|congruence|by rewrite Hr].
      * apply (matches_set q r i (W_busy p) (WPopped p)); [done|by left|by eapply lookup_lt_Some|done..|].
        cbn. by rewrite Hn.
    + right. left. destruct (Hws i _ Hi) as (a & Ha & ->). eexists. split.
      * eapply step_exit; [done|congruence|by rewrite Hr].
      * apply (matches_set q r i W_exited WExited); [done|done|by eapply lookup_lt_Some|done..].
    + right. right. exists p. split; [done|]. intros r' H1 H2 H3.
      apply (matches_set q r i W_start WIdle); [done|done|by eapply lookup_lt_Some|done|done|cbn; congruence..].
  - intros Hs. destruct Hs as [q x m Hp Hl|q x Hp Hb|q p l Hp Hno|q Hp|q m Hp Hu].
    + by left.
    + right. exists x. split; [by cbn; rewrite Hr|]. split; [by cbn; rewrite Hn|]. done.
    + left. inversion Hno as [l0 j Hj|l0 Hnone]; subst; [|done].
      by eapply (matches_stutter q r j W_asleep W_notified).
    + left. split; [done|]. split; [done|]. cbn. unfold notify_all. rewrite length_fmap. split; [done|].
      intros j s. rewrite list_lookup_fmap. destruct (q_workers q !! j) as [s0|] eqn:Ej; [|done]. cbn. intros [= <-].
      destruct (Hws j s0 Ej) as (a & Ha & Has). exists a. split; [done|]. by destruct s0.
    + by left.
Qed.

End refinement.

(** * Examples *)

(** One worker waits; an item comes, the worker is notified. *)
Definition waiting_queue : RunQ := MkRunQ (Mutex PTHREAD_MUTEX_DEFAULT None) [] 0 [W_asleep] P_idle.

Lemma waiting_reachable : runq_reachable 1 waiting_queue.
Proof.
  eapply runq_next; [eapply runq_next; [apply runq_new|]|].
  - eapply (rs_worker 0), rw_lock; reflexivity.
  - eapply (rs_worker 0), rw_wait; reflexivity.
Qed.

Definition ended_queue : RunQ :=
  MkRunQ (Mutex PTHREAD_MUTEX_DEFAULT (Some (pusher_thread, 1))) [None] 1 [W_notified] P_notified.

Lemma ended_reachable : runq_reachable 1 ended_queue.
Proof.
  eapply runq_next; [eapply runq_next; [eapply runq_next; [apply waiting_reachable|]|]|].
  - eapply rs_push, (rp_lock waiting_queue None); reflexivity.
  - eapply rs_push, rp_add; [reflexivity|reflexivity].
  - eapply rs_push, rp_notify_all; reflexivity.
Qed.

Lemma no_missed_wakeup_witness : W_asleep ∈ q_workers waiting_queue /\
  (length (q_items waiting_queue) <= ready_workers (q_workers waiting_queue) + unannounced (q_pusher waiting_queue))%nat.
Proof. split; [by left|]. apply (no_missed_wakeup 1 waiting_queue waiting_reachable). by left. Defined.


#[local] Instance idle_callback : ClientCallback unit :=
  {| process_input := fun c s _ _ => Ok (c, s, Some 0); process_close := fun c s => Ok (c, s) |}.

(** A worker about to take client 5. *)
Definition loaded_queue : RunQ :=
  MkRunQ (Mutex PTHREAD_MUTEX_DEFAULT (Some (worker_thread 0, 1))) [Some 5] 1 [W_locked] P_idle.
Definition taken_queue : RunQ := MkRunQ (Mutex PTHREAD_MUTEX_DEFAULT None) [] 0 [W_busy 5] P_idle.
Definition loaded_reactor : Reactor (T := unit) := set_runq [Some 5] 1 (new_reactor 1 ()).

Lemma loaded_matches : queue_matches loaded_queue loaded_reactor.
Proof. do 3 (split; [reflexivity|]). intros [|i] s [= <-]. by exists WIdle. Qed.

Lemma loaded_taken : runq_worker 0 loaded_queue taken_queue.
Proof. apply (rw_pop 0 loaded_queue 5 [] (Mutex PTHREAD_MUTEX_DEFAULT None)); [reflexivity|discriminate|reflexivity..]. Qed.

Lemma runq_refines_reactor_witness : exists r', worker_step 0 loaded_reactor r' /\ queue_matches taken_queue r'.
Proof.
  destruct (runq_refines_reactor 0 loaded_queue taken_queue loaded_reactor loaded_matches) as [H _].
  destruct (H loaded_taken) as [[Hr _]|[H1|(p & Hp & _)]].
  - discriminate Hr.
  - exact H1.
  - discriminate Hp.
Defined.
