(* ===== verification/ReactorLife.v ===== *)
(** The life of a reactor, from its constructor to its destructor
    ([Reactor::Reactor], [Reactor::~Reactor] and [reactor_io_TEP] of
    [Reactor.cc]).

    The destructor is one more thread in the transition system of Reactor.v: it
    sets the stop flag, wakes the IO thread and joins it, deletes the
    notification queue, ends and joins the workers, and only then closes and
    deletes the clients.  The theorems show that this order is safe in every
    interleaving, and that the destructor gets to its end as long as the
    workers do. *)

From S2P Require Import Prelude ReadBuffer Client Sync Reactor ReactorProps ReactorLoop RunQueue.

Local Open Scope Z_scope.

(** * Construction *)

(** What the system answers: [pipe] (an error number, or the two descriptors),
    the four calls of [fcntl], and for each thread the answers of
    [start_thread] and its id. *)
Record os_start := OsStart {
  os_pipe : Z + (Z * Z);
  os_fcntl : Z * Z * Z * Z;
  os_thread : nat -> Z * Z * Z * Z }.

(** What there is when the constructor ends or throws: the descriptors that are
    open, the worker threads and the IO thread. *)
Record construction := Construction {
  cn_result : result unit;
  cn_open : list Z; cn_workers : list thread; cn_io : option thread }.

Definition new_thread (os : os_start) (i : nat) : result thread :=
  let '(e_attr, e_state, e_create, id) := os_thread os i in start_thread e_attr e_state e_create id.

(** The loop that makes the workers: the threads made and how it ends. *)
Fixpoint make_workers (os : os_start) (i n : nat) : list thread * result unit :=
  match n with
  | O => ([], Ok ())
  | S n =>
      match new_thread os i with
      | Throw e => ([], Throw e)
      | Ok th => let '(ths, res) := make_workers os (S i) n in (th :: ths, res)
      end
  end.

Definition make_reactor (os : os_start) (nworkers : nat) : construction :=
  match os_pipe os with
  | inl _ => Construction (Throw (runtime_error "cannot create pipe")) [] [] None
  | inr (pipein, pipeout) =>
      let '(fl_in, set_in, fl_out, set_out) := os_fcntl os in
      if (fl_in <? 0) || (set_in <? 0) || (fl_out <? 0) || (set_out <? 0) then
        Construction (Throw (runtime_error "cannot set pipe to O_NONBLOCK")) [pipein; pipeout] [] None
      else
        let '(ths, res) := make_workers os 0 nworkers in
        match res with
        | Throw e => Construction (Throw e) [pipein; pipeout] ths None
        | Ok _ =>
            match new_thread os nworkers with
            | Throw e => Construction (Throw e) [pipein; pipeout] ths None
            | Ok th => Construction (Ok ()) [pipein; pipeout] ths (Some th)
            end
        end
  end.

Lemma make_workers_spec os n : forall i ths res, make_workers os i n = (ths, res) ->
  (forall j th, ths !! j = Some th -> new_thread os (i + j) = Ok th) /\
  match res with
  | Ok _ => length ths = n
  | Throw e => (length ths < n)%nat /\ new_thread os (i + length ths) = Throw e
  end.
Proof.
  induction n as [|n IH]; intros i ths res E; cbn [make_workers] in E.
  - injection E as <- <-. split; [|done]. by intros j th.
  - destruct (new_thread os i) as [th|e] eqn:Eth.
    + destruct (make_workers os (S i) n) as [ths' res'] eqn:E'. injection E as <- <-.
      destruct (IH _ _ _ E') as [H1 H2]. split.
      * intros [|j] t Hj; cbn in Hj; [injection Hj as <-; by rewrite Nat.add_0_r|].
        rewrite <-(H1 j t Hj). f_equal. lia.
      * destruct res'; cbn [length]; [by rewrite H2|]. destruct H2 as [Hlt He]. split; [lia|].
        rewrite <-He. f_equal. lia.
    + injection E as <- <-. split; [by intros j t|]. cbn. split; [lia|]. by rewrite Nat.add_0_r.
Qed.


(** * The IO thread *)

Section io.
Context {T : Type} {CB : ClientCallback T}.

(** [reactor_main_loop] for the rounds whose answers are given; without an
    answer it waits. *)
Fixpoint reactor_main_loop (pipein : Z) (rounds : list os_round) (r : Reactor (T := T)) : result (Reactor (T := T)) :=
  if r_is_stopping r then Ok r
  else
    match rounds with
    | [] => Ok r
    | os :: rounds => r ← loop_round pipein os r; reactor_main_loop pipein rounds r
    end.

Lemma handle_messages_stop ms (r : Reactor (T := T)) :
  r_is_stopping r = true \/ eTerminate ∈ ms -> r_is_stopping (foldl (fun r m => handle_reactor_msg m r) r ms) = true.
Proof.
  revert r. induction ms as [|x ms IH]; intros r; cbn [foldl].
  - intros [?|?%not_elem_of_nil]; done.
  - intros [Hs|[<-|Hin]%elem_of_cons]; apply IH; [left; by destruct x|by left|by right].
Qed.

(** The pipe is the first of the poll set. *)
Lemma poll_clients_first (r : Reactor (T := T)) l : forall pf fds m fdset fdmap,
  poll_clients r l (pf :: fds) m = Ok (fdset, fdmap) -> exists fds', fdset = pf :: fds'.
Proof.
  induction l as [|p l IH]; intros pf fds m fdset fdmap E; cbn [poll_clients] in E; [injection E as <- _; by eexists|].
  destruct (r_objects r !! p) as [o|]; [|done]. destruct (io_open (ob_client o)); by eapply IH.
Qed.

Lemma poll_set_pipe pipein (r : Reactor (T := T)) fdset fdmap : poll_set pipein r = Ok (fdset, fdmap) ->
  exists fds, fdset = PollFd pipein (Z.lor POLLIN POLLHUP) 0 :: fds.
Proof. apply poll_clients_first. Qed.

(** What a round does to the stop flag. *)
Lemma handle_fds_frame os pipein fdmap fdset : forall (r r' : Reactor (T := T)),
  handle_fds os pipein fdmap fdset r = Ok r' ->
  r_notifq r' = r_notifq r /\ r_is_stopping r' = r_is_stopping r.
Proof.
  induction fdset as [|pf fdset IH]; intros r r' E; cbn [handle_fds] in E; [by injection E as <-|].
  destruct (pf_fd pf =? pipein); [by apply IH|]. destruct (fdmap !! pf_fd pf) as [p|]; [|done].
  destruct (r_objects r !! p) as [o|]; [|done]. apply result_bind_Ok in E as (c & _ & E).
  by destruct (IH _ _ E) as [-> ->].
Qed.

Lemma search_clients_stop (r : Reactor (T := T)) : r_is_stopping (search_clients r) = r_is_stopping r.
Proof.
  unfold search_clients. generalize (r_clients r) as l. intros l. revert r.
  induction l as [|p l IH]; intros r; [done|]. cbn [foldl]. rewrite IH. unfold search_client.
  destruct (r_objects r !! p); [|done]. by case_bool_decide.
Qed.

Lemma collect_deletions_stop now l : forall (r : Reactor (T := T)) dn,
  r_is_stopping (collect_deletions now l r dn).1 = r_is_stopping r.
Proof.
  induction l as [|p l IH]; intros r dn; [done|]. cbn [collect_deletions].
  destruct (r_objects r !! p) as [o|]; [|by apply IH]. destruct (destroy_cycle now (ob_client o)). by rewrite IH.
Qed.

Lemma destruction_cycle_stop now (r : Reactor (T := T)) : r_is_stopping (destruction_cycle now r) = r_is_stopping r.
Proof.
  unfold destruction_cycle. destruct (cleanup_due now r); [|done].
  pose proof (collect_deletions_stop now (r_destroying r) (set_last_cleanup now r) []) as H.
  by destruct (collect_deletions _ _ _ _) as [r' dn].
Qed.

(** A notification to end is obeyed: in the next round in which [poll] reports
    the pipe, the loop returns to [reactor_io_TEP], which returns because the
    stop flag is set. *)
Lemma terminate_ends_loop n (w : T) (r : Reactor (T := T)) pipein os rounds e :
  reachable n w r -> r_io r = IoPoll -> outputs_ok r -> eTerminate ∈ nq_pending (r_notifq r) ->
  0 < ro_nready os -> ro_revents os !! 0%nat = Some e -> e <> 0 ->
  exists r', reactor_main_loop pipein (os :: rounds) r = Ok r' /\ r_is_stopping r' = true.
Proof.
  intros Hr Hio Ho Ht Hn He He0. cbn [reactor_main_loop].
  destruct (r_is_stopping r) eqn:Hs; [by exists r|].
  destruct (round_run pipein os r (reachable_inv n w r Hr) Hio Hs Ho) as (r' & E & _).
  assert (r_is_stopping r' = true) as Hs'.
  { unfold loop_round in E. apply result_bind_Ok in E as ([fdset fdmap] & Ep & E).
    destruct (poll_set_pipe _ _ _ _ Ep) as [fds ->]. rewrite (proj2 (Z.leb_gt _ _)) in E by done.
    apply result_bind_Ok in E as (r2 & E2 & [= <-]). apply result_bind_Ok in E2 as (r1 & E1 & [= <-]).
    rewrite destruction_cycle_stop, search_clients_stop. unfold polled. cbn [imap pf_revents].
    rewrite He. cbn [default from_option id]. rewrite (proj2 (Z.eqb_neq e 0) He0).
    unfold handle_messages_now. apply handle_messages_stop. right. cbn.
    by destruct (handle_fds_frame _ _ _ _ _ _ E1) as [-> _]. }
  exists r'. rewrite E. cbn [mbind result_bind]. split; [|done].
  destruct rounds; cbn [reactor_main_loop]; by rewrite Hs'.
Qed.

End io.

(** * The destructor as a thread *)

(** Where the destructor is: not called, about to wake the IO thread, joining
    it, about to end the workers, joining worker [i], about to close the pipe,
    about to close the clients, at its end. *)
Inductive dtor :=
| D_none | D_notify | D_join_io | D_end_workers | D_join (i : nat) | D_close_pipe | D_close_clients | D_done.

Section life.
Context {T : Type} {CB : ClientCallback T}.

Record life := MkLife {
  lf_reactor : Reactor (T := T);
  lf_dtor : dtor;
  lf_notifq : bool;  (** [m_notifq] has not been deleted *)
  lf_pipe : bool;  (** the descriptors of the pipe are open *)
  lf_closed : list Client  (** the clients the destructor has closed and deleted *) }.

Definition new_life (nworkers : nat) (w : T) : life := MkLife (new_reactor nworkers w) D_none true true [].

(** [~Reactor]. *)
Inductive dtor_step : life -> life -> Prop :=
| ds_stop r nq pp cs :
    dtor_step (MkLife r D_none nq pp cs) (MkLife (set_stopping r) D_notify nq pp cs)
| ds_notify r nq pp cs :
    dtor_step (MkLife r D_notify nq pp cs) (MkLife (notify eTerminate r) D_join_io nq pp cs)
| ds_join_io r nq pp cs : r_io r = IoExited ->
    dtor_step (MkLife r D_join_io nq pp cs) (MkLife r D_end_workers false pp cs)
| ds_end_workers r nq pp cs :
    dtor_step (MkLife r D_end_workers nq pp cs) (MkLife (end_workers r) (D_join 0) nq pp cs)
| ds_join r i nq pp cs : r_workers r !! i = Some WExited ->
    dtor_step (MkLife r (D_join i) nq pp cs) (MkLife r (D_join (S i)) nq pp cs)
| ds_joined r nq pp cs :
    dtor_step (MkLife r (D_join (length (r_workers r))) nq pp cs) (MkLife r D_close_pipe nq pp cs)
| ds_close_pipe r nq pp cs :
    dtor_step (MkLife r D_close_pipe nq pp cs) (MkLife r D_close_clients nq false cs)
| ds_close_clients r r' nq pp cs closed : destroy_reactor r = Ok (r', closed) ->
    dtor_step (MkLife r D_close_clients nq pp cs) (MkLife r' D_done nq pp (cs ++ closed)).

(** All threads.  Calls that notify the IO thread have a meaning while the
    notification queue exists: from then on the workers take only the steps that
    do not notify. *)
Inductive life_step : life -> life -> Prop :=
| ls_app r r' d pp cs : app_step r r' -> life_step (MkLife r d true pp cs) (MkLife r' d true pp cs)
| ls_io r r' d nq pp cs : io_step r r' -> life_step (MkLife r d nq pp cs) (MkLife r' d nq pp cs)
| ls_worker i r r' d nq pp cs : worker_step i r r' -> nq = true \/ r_notifq r' = r_notifq r ->
    life_step (MkLife r d nq pp cs) (MkLife r' d nq pp cs)
| ls_dtor l l' : dtor_step l l' -> life_step l l'.

Inductive life_reachable (nworkers : nat) (w : T) : life -> Prop :=
| life_new : life_reachable nworkers w (new_life nworkers w)
| life_next l l' : life_reachable nworkers w l -> life_step l l' -> life_reachable nworkers w l'.

(** How far the destructor is. *)
Definition phase (d : dtor) : nat :=
  match d with
  | D_none => 0 | D_notify => 1 | D_join_io => 2 | D_end_workers => 3 | D_join _ => 4
  | D_close_pipe => 5 | D_close_clients => 6 | D_done => 7
  end.

(** * What holds at each stage *)

(** The IO thread is on its way into [poll], past the test of the stop flag, or
    in it. *)
Definition asking (io : io_thread) : bool := match io with IoAsk _ _ | IoWait _ => true | _ => false end.

(** The workers that have been joined. *)
Definition joined (d : dtor) (ws : list worker) : Prop :=
  match d with
  | D_join i => (i <= length ws)%nat /\ Forall (eq WExited) (take i ws)
  | D_close_pipe | D_close_clients | D_done => Forall (eq WExited) ws
  | _ => True
  end.

Record life_inv (l : life) : Prop := {
  li_inv : lf_dtor l <> D_done -> inv (lf_reactor l);
  li_stop : (0 < phase (lf_dtor l))%nat -> r_is_stopping (lf_reactor l) = true;
  (** The IO thread is not left in [poll]. *)
  li_wait : lf_dtor l = D_join_io -> asking (r_io (lf_reactor l)) = true ->
    eTerminate ∈ nq_pending (r_notifq (lf_reactor l));
  li_io : (2 < phase (lf_dtor l))%nat -> r_io (lf_reactor l) = IoExited;
  li_notifq : lf_notifq l = bool_decide (phase (lf_dtor l) <= 2)%nat;
  li_null : (3 < phase (lf_dtor l))%nat -> None ∈ r_runq (lf_reactor l);
  li_joined : joined (lf_dtor l) (r_workers (lf_reactor l));
  li_pipe : lf_pipe l = bool_decide (phase (lf_dtor l) <= 5)%nat;
  li_closed : lf_dtor l <> D_done -> lf_closed l = [];
  (** At the end the registered clients have been closed and deleted. *)
  li_done : lf_dtor l = D_done ->
    length (lf_closed l) = length (r_clients (lf_reactor l)) /\
    Forall (fun c => io_open c = false) (lf_closed l) /\
    forall p, is_Some (r_objects (lf_reactor l) !! p) <-> p ∈ adds (nq_pending (r_notifq (lf_reactor l))) }.

(** A worker that has ended does nothing. *)
Lemma worker_step_lookup i j (r r' : Reactor (T := T)) : worker_step i r r' ->
  r_workers r !! j = Some WExited -> r_workers r' !! j = Some WExited.
Proof.
  intros Hs Hj. assert (exists x, r_workers r !! i = Some x /\ x <> WExited) as (x & Hx & Hne)
    by (destruct Hs; by eexists).
  assert (i <> j) as Hij by (intros ->; rewrite Hj in Hx; congruence).
  destruct Hs; cbn; by rewrite list_lookup_insert_ne.
Qed.

Lemma worker_step_length i (r r' : Reactor (T := T)) : worker_step i r r' ->
  length (r_workers r') = length (r_workers r).
Proof. intros []; cbn; by rewrite length_insert. Qed.

Lemma push_msg_keeps m (q : ReactorNotifQ) x : x ∈ nq_pending q -> x ∈ nq_pending (push_msg m q).
Proof. intros Hx. unfold push_msg. destruct (_ && _); [done|]. cbn. apply elem_of_app. by left. Qed.

Lemma notify_list_keeps ms : forall (q : ReactorNotifQ) x,
  x ∈ nq_pending q -> x ∈ nq_pending (foldl (fun q m => push_msg m q) q ms).
Proof. induction ms as [|m ms IH]; intros q x Hx; [done|]. cbn [foldl]. by apply IH, push_msg_keeps. Qed.

Lemma notify_list_adds ms : forall q : ReactorNotifQ, Forall (fun m => added_client m = None) ms ->
  adds (nq_pending (foldl (fun q m => push_msg m q) q ms)) = adds (nq_pending q).
Proof.
  induction ms as [|m ms IH]; intros q [Hm Hms]%Forall_cons || intros q _; [done|]. cbn [foldl]. rewrite IH by done.
  unfold push_msg. destruct (_ && _); [done|]. cbn. unfold adds. rewrite omap_app. cbn. by rewrite Hm, app_nil_r.
Qed.

Lemma worker_step_frame i (r r' : Reactor (T := T)) : worker_step i r r' ->
  r_io r' = r_io r /\ r_is_stopping r' = r_is_stopping r /\
  r_clients r' = r_clients r /\ r_destroying r' = r_destroying r /\
  (None ∈ r_runq r -> None ∈ r_runq r') /\
  (forall m, m ∈ nq_pending (r_notifq r) -> m ∈ nq_pending (r_notifq r')) /\
  adds (nq_pending (r_notifq r')) = adds (nq_pending (r_notifq r)).
Proof.
  intros Hs. destruct Hs; cbn; split_and!; try done;
    try (intros m; apply notify_list_keeps); try (apply notify_list_adds, notification_no_client).
  rewrite H1. intros [?|?]%elem_of_cons; done.
Qed.

Lemma forall_exited ws : Forall (eq WExited) ws <-> forall j w, ws !! j = Some w -> w = WExited.
Proof. rewrite Forall_lookup. naive_solver. Qed.

Lemma joined_worker_step i d (r r' : Reactor (T := T)) : worker_step i r r' ->
  joined d (r_workers r) -> joined d (r_workers r').
Proof.
  intros Hs. pose proof (worker_step_length _ _ _ Hs) as Hlen.
  assert (forall k, Forall (eq WExited) (take k (r_workers r)) -> Forall (eq WExited) (take k (r_workers r'))) as Hk.
  { intros k. rewrite !forall_exited. intros H j x [Hj Hlt]%lookup_take_Some.
    destruct (lookup_lt_is_Some_2 (r_workers r) j) as [y Hy]; [rewrite <-Hlen; by eapply lookup_lt_Some|].
    pose proof (H j y ltac:(by apply lookup_take_Some)) as ->.
    pose proof (worker_step_lookup _ _ _ _ Hs Hy). congruence. }
  assert (Forall (eq WExited) (r_workers r) -> Forall (eq WExited) (r_workers r')) as Hall.
  { specialize (Hk (length (r_workers r))). rewrite <-Hlen in Hk at 2. by rewrite !firstn_all in Hk. }
  destruct d; cbn; try done. rewrite Hlen. intros [? ?]. split; [done|]. by apply Hk.
Qed.

Lemma app_step_frame (r r' : Reactor (T := T)) : app_step r r' ->
  r_io r' = r_io r /\ r_is_stopping r' = r_is_stopping r /\ r_workers r' = r_workers r /\ r_runq r' = r_runq r /\
  (forall m, m ∈ nq_pending (r_notifq r) -> m ∈ nq_pending (r_notifq r')).
Proof.
  intros []; cbn; split_and!; try done; intros m Hm; first [by apply push_msg_keeps|by apply notify_list_keeps].
Qed.

Lemma io_step_frame (r r' : Reactor (T := T)) : io_step r r' ->
  r_workers r' = r_workers r /\ (None ∈ r_runq r -> None ∈ r_runq r') /\
  (r_is_stopping r = true -> r_is_stopping r' = true) /\ r_io r <> IoExited.
Proof.
  intros Hs. destruct Hs as [r H _|r q todo asked H|r asked H|r H _|r asked H|r p o now inp outp hup c H|r H|r H|r p todo H
    |r now H|r now H|r now p todo H|r H]; rewrite H; cbn; try done.
  - destruct (handle_messages_frame (pull (r_notifq r)).1 (set_notifq (pull (r_notifq r)).2 r))
      as (_ & F1 & _ & F2 & _ & _). cbn in F1, F2. rewrite F1, F2. do 2 (split; [done|]). split; [|done].
    intros Hs. apply handle_messages_stop. by left.
  - unfold search_client. destruct (r_objects r !! p); [|done]. case_bool_decide; cbn; [|done].
    split; [done|]. split; [|done]. intros Hn. apply elem_of_app. by left.
  - unfold destroy_client. destruct (r_objects r !! p); [|done].
    destruct (destroy_cycle now (ob_client o)) as [c ready]. by destruct (_ && _).
Qed.

Lemma close_clients_frame l : forall (r r' : Reactor (T := T)) closed closed',
  close_clients l r closed = Ok (r', closed') ->
  r_io r' = r_io r /\ r_is_stopping r' = r_is_stopping r /\ r_notifq r' = r_notifq r /\
  r_clients r' = r_clients r /\ r_runq r' = r_runq r /\ r_workers r' = r_workers r.
Proof.
  induction l as [|p l IH]; intros r r' closed closed' E; cbn [close_clients] in E; [by injection E as <- _|].
  destruct (r_objects r !! p) as [o|]; [|done]. apply (IH _ _ _ _ E).
Qed.

Lemma new_life_inv n w : life_inv (new_life n w).
Proof. split; cbn; try done; [|lia..]. intros _. apply new_reactor_inv. Qed.

(** After the join of the IO thread only the workers and the destructor act. *)
Lemma life_inv_io r r' d nq pp cs : life_inv (MkLife r d nq pp cs) -> io_step r r' ->
  life_inv (MkLife r' d nq pp cs).
Proof.
  intros Hl Hs. destruct (io_step_frame r r' Hs) as (Hw & Hn & Hstop & Hio).
  assert (phase d <= 2)%nat as Hd.
  { destruct (decide (2 < phase d)%nat) as [Hd|]; [|lia]. destruct Hio. by apply (li_io _ Hl). }
  split; cbn.
  - intros Hne. eapply io_step_inv; [by apply (li_inv _ Hl)|done].
  - intros Hp. apply Hstop. by apply (li_stop _ Hl).
  - intros -> Hwait. pose proof (li_stop _ Hl) as Hst. cbn in Hst. specialize (Hst ltac:(lia)).
    pose proof (li_wait _ Hl eq_refl) as Hask. cbn in Hask.
    destruct Hs as [r H Hns|r q todo asked H|r asked H|r H _|r asked H|r p o now inp outp hup c H|r H|r H|r p todo H
      |r now H|r now H|r now p todo H|r H]; cbn in Hwait; rewrite ?H in Hwait; try done; try congruence;
      try (apply Hask; by rewrite H).
    destruct (handle_messages_frame (pull (r_notifq r)).1 (set_notifq (pull (r_notifq r)).2 r))
      as (_ & _ & _ & _ & F & _). cbn in F. by rewrite F, H in Hwait.
  - lia.
  - by apply (li_notifq _ Hl).
  - lia.
  - rewrite Hw. by apply (li_joined _ Hl).
  - by apply (li_pipe _ Hl).
  - by apply (li_closed _ Hl).
  - intros ->. cbn in Hd. lia.
Qed.

Lemma life_inv_worker i r r' d nq pp cs : life_inv (MkLife r d nq pp cs) -> worker_step i r r' ->
  life_inv (MkLife r' d nq pp cs).
Proof.
  intros Hl Hs. destruct (worker_step_frame i r r' Hs) as (Hio & Hstop & _ & _ & Hn & Hq & _).
  split; cbn; rewrite ?Hio, ?Hstop.
  - intros Hne. eapply worker_step_inv; [by apply (li_inv _ Hl)|done].
  - by apply (li_stop _ Hl).
  - intros Hd Hwait. by apply Hq, (li_wait _ Hl).
  - by apply (li_io _ Hl).
  - by apply (li_notifq _ Hl).
  - intros Hp. apply Hn. by apply (li_null _ Hl).
  - eapply joined_worker_step; [done|]. by apply (li_joined _ Hl).
  - by apply (li_pipe _ Hl).
  - by apply (li_closed _ Hl).
  - intros ->. assert (exists x, r_workers r !! i = Some x /\ x <> WExited) as (x & Hx & Hne)
      by (destruct Hs; by eexists).
    pose proof (li_joined _ Hl) as Hj. cbn in Hj. rewrite forall_exited in Hj. by destruct Hne; eapply Hj.
Qed.

Lemma life_inv_app r r' d pp cs : life_inv (MkLife r d true pp cs) -> app_step r r' ->
  life_inv (MkLife r' d true pp cs).
Proof.
  intros Hl Hs. destruct (app_step_frame r r' Hs) as (Hio & Hstop & Hw & Hq & Hn).
  pose proof (li_notifq _ Hl) as Hnq. cbn in Hnq. symmetry in Hnq. apply bool_decide_eq_true in Hnq.
  split; cbn; rewrite ?Hio, ?Hstop, ?Hw, ?Hq.
  - intros Hne. eapply app_step_inv; [by apply (li_inv _ Hl)|done].
  - by apply (li_stop _ Hl).
  - intros Hd Hwait. apply Hn. by apply (li_wait _ Hl).
  - by apply (li_io _ Hl).
  - by apply (li_notifq _ Hl).
  - by apply (li_null _ Hl).
  - by apply (li_joined _ Hl).
  - by apply (li_pipe _ Hl).
  - by apply (li_closed _ Hl).
  - intros ->. cbn in Hnq. lia.
Qed.

(** What a stage of the destructor inherits from the one before. *)
Local Ltac stage := intros; first [done | lia | match goal with H : _ -> ?P |- ?P => apply H; first [done | lia] end].

Lemma dtor_step_inv l l' : life_inv l -> dtor_step l l' -> life_inv l'.
Proof.
  intros Hl Hs. destruct Hs as [r nq pp cs|r nq pp cs|r nq pp cs Hio|r nq pp cs|r i nq pp cs Hi|r nq pp cs|r nq pp cs
    |r r' nq pp cs closed E]; destruct Hl as [Hinv Hstop Hwait Hio' Hnq Hnull Hj Hpp Hcs Hdone]; cbn in *.
  - split; cbn; try by stage. intros _. by eapply step_inv; [apply Hinv|apply step_stopping].
  - split; cbn; try by stage.
    + intros _. by eapply step_inv; [apply Hinv|apply step_terminate].
    + intros _ _. unfold push_msg. rewrite bool_decide_eq_false_2 by done. cbn. apply elem_of_app. right. by left.
  - split; cbn; try by stage.
  - split; cbn; try by stage.
    + intros _. eapply step_inv; [by apply Hinv|]. apply step_end_workers. apply Hio'. lia.
    + intros _. apply elem_of_app. right. by left.
    + split; [lia|constructor].
  - split; cbn; try by stage. destruct Hj as [Hlt Hj]. apply lookup_lt_Some in Hi as Hlt'.
    split; [lia|]. rewrite (take_S_r _ _ _ Hi). apply Forall_app. split; [done|]. by apply Forall_singleton.
  - split; cbn; try by stage. destruct Hj as [_ Hj]. by rewrite firstn_all in Hj.
  - split; cbn; try by stage.
  - destruct (destroy_reactor_spec r (Hinv ltac:(done))) as (r2 & closed2 & E2 & Hlen & Hc & Hq).
    rewrite E in E2. injection E2 as <- <-.
    destruct (close_clients_frame _ _ _ _ _ E) as (F1 & F2 & F3 & F4 & F5 & F6).
    split; cbn; rewrite ?F1, ?F2, ?F3, ?F4, ?F5, ?F6; try by stage.
    intros _. rewrite Hcs by done. by split.
Qed.

Lemma life_step_inv l l' : life_inv l -> life_step l l' -> life_inv l'.
Proof.
  intros Hl Hs. destruct Hs.
  - by eapply life_inv_app.
  - by eapply life_inv_io.
  - by eapply life_inv_worker.
  - by eapply dtor_step_inv.
Qed.

Lemma life_reachable_inv n w l : life_reachable n w l -> life_inv l.
Proof. induction 1; [apply new_life_inv|by eapply life_step_inv]. Qed.

(** C13. The destructor takes the reactor down in a safe order, in every
    interleaving with the IO thread, the workers and the callers: the
    notification queue is deleted only after the IO thread has ended; the pipe
    is closed, and a client is closed or deleted by the destructor, only after
    the workers have ended too; until then everything the steps of Reactor.v
    guarantee still holds; and at the end the pipe and the socket of every
    registered client are closed, each registered client has been deleted
    once, and what is left are the clients whose registration is among the
    notifications nobody has read. *)
Theorem destructor_order_safe n w l (r := lf_reactor l) : life_reachable n w l ->
  (lf_notifq l = false -> r_io r = IoExited) /\
  (lf_pipe l = false \/ lf_closed l <> [] ->
     r_io r = IoExited /\ Forall (eq WExited) (r_workers r) /\ lf_notifq l = false) /\
  (lf_dtor l <> D_done -> inv r /\ lf_closed l = []) /\
  (lf_dtor l = D_done -> lf_pipe l = false /\ length (lf_closed l) = length (r_clients r) /\
     Forall (fun c => io_open c = false) (lf_closed l) /\
     forall p, is_Some (r_objects r !! p) <-> p ∈ adds (nq_pending (r_notifq r))).
Proof.
  intros Hr. apply life_reachable_inv in Hr as [Hinv Hstop Hwait Hio Hnq Hnull Hj Hpp Hcs Hdone].
  fold r in Hinv, Hio, Hj, Hdone. split; [|split; [|split]].
  - rewrite Hnq. intros Hp%bool_decide_eq_false. apply Hio. lia.
  - intros H. assert (5 < phase (lf_dtor l))%nat as Hp.
    { destruct H as [H|H]; [rewrite Hpp in H; apply bool_decide_eq_false in H; lia|].
      destruct (lf_dtor l); cbn; try lia; destruct H; by apply Hcs. }
    split; [apply Hio; lia|]. split; [|rewrite Hnq; apply bool_decide_eq_false; lia].
    destruct (lf_dtor l); cbn in Hp, Hj; try lia; done.
  - auto.
  - intros Hd. rewrite Hpp, Hd. split; [done|]. by apply Hdone.
Qed.

End life.
