(* ===== verification/ReactorEnd.v ===== *)
(** The destructor of the reactor gets to its end ([Reactor::~Reactor]).

    Once the destructor has begun, every step of the IO thread, of a worker that
    leaves its client without work, and of the destructor itself brings the end
    nearer by a measure; and until the end such a step is possible, unless a
    worker has a client it cannot finish with.  The measure is the argument for
    termination: no step is scheduled, only counted. *)

From S2P Require Import Prelude ReadBuffer Client Sync Reactor ReactorProps ReactorLoop RunQueue ReactorLife.

Local Open Scope Z_scope.

Section ending.
Context {T : Type} {CB : ClientCallback T}.
Implicit Types (r : Reactor (T := T)) (l : life (T := T)).

(** * The steps that are left *)

(** The steps of the IO thread other than handling what [poll] reports for the
    clients: [poll] returns because of the pipe, and the notifications are read
    when there are some. *)
Definition io_ends r r' : Prop :=
  io_step r r' /\
  match r_io r with
  | IoWait _ => 0 < nq_pipe (r_notifq r)
  | IoEvents => r' = set_io (IoSearch (r_clients r)) r \/
      (nq_pending (r_notifq r) <> [] /\ r' = handle_messages_now r)
  | _ => True
  end.

(** The outcome of [do_work] leaves nothing to do, and a client that notifies
    finds the notification queue. *)
Definition finishes (nq : bool) (c : Client) (w : T) : bool :=
  match do_work c w with
  | Ok (c', _) => negb (has_work c') && (nq || bool_decide (omap notification (io_added c c') = []))
  | Throw _ => false
  end.

(** The steps of worker [i], where the work of a client gets done. *)
Definition worker_ends (nq : bool) (i : nat) r r' : Prop :=
  worker_step i r r' /\
  match r_workers r !! i with
  | Some (WRunning p) => exists o, r_objects r !! p = Some o /\ finishes nq (ob_client o) (r_world r) = true
  | _ => True
  end.

Inductive ending_step : life -> life -> Prop :=
| es_io r r' d nq pp cs : io_ends r r' -> ending_step (MkLife r d nq pp cs) (MkLife r' d nq pp cs)
| es_worker i r r' d nq pp cs : worker_ends nq i r r' -> ending_step (MkLife r d nq pp cs) (MkLife r' d nq pp cs)
| es_dtor l l' : dtor_step l l' -> ending_step l l'.

Lemma worker_ends_notifq i r r' nq : worker_ends nq i r r' -> nq = true \/ r_notifq r' = r_notifq r.
Proof.
  intros [Hs Hend]. destruct nq; [by left|right]. destruct Hs as [| | |r p o c w Hi Ho Hw|r p o c w e Hi Ho Hw _|]; try done.
  all: rewrite Hi in Hend; destruct Hend as (o1 & Ho1 & Hf); simplify_eq; unfold finishes in Hf; rewrite Hw in Hf; try done.
  apply andb_true_iff in Hf as [_ Hf%bool_decide_eq_true]. cbn. unfold client_call. by rewrite Hf.
Qed.

Lemma ending_life_step l l' : ending_step l l' -> life_step l l'.
Proof.
  intros [r r' d nq pp cs [H _]|i r r' d nq pp cs H|? ? H].
  - by apply ls_io.
  - eapply ls_worker; [exact (proj1 H)|by eapply worker_ends_notifq].
  - by apply ls_dtor.
Qed.

(** A worker holds a client with which it does not finish: [do_work] throws, or
    leaves work, or calls the reactor through the notification queue that the
    destructor has deleted. *)
Definition stuck (nq : bool) r : Prop :=
  exists i p o, r_workers r !! i = Some (WRunning p) /\ r_objects r !! p = Some o /\
    finishes nq (ob_client o) (r_world r) = false.
Definition held_up l : Prop := stuck (lf_notifq l) (lf_reactor l).

(** * How much is left *)

Definition working r (p : Z) : bool :=
  match r_objects r !! p with Some o => has_work (ob_client o) | None => false end.

(** For the workers and the run queue: a worker that has worked may leave a
    notification, which weighs [K] more than another step. *)
Definition worker_left (K : nat) r (x : worker) : nat :=
  match x with
  | WExited => 0 | WIdle => 1
  | WWorked p => if working r p then K + 5 else 2
  | WRunning _ => K + 4 | WPopped _ => K + 5
  end.
Definition workers_left (K : nat) r : nat := sum_list_with (worker_left K r) (r_workers r).

(** For each client to destroy: every worker may get one round more. *)
Definition per_destroy r : nat := 1 + 3 * length (r_workers r).

(** The clients registered and still to be registered, and the notifications
    that wait. *)
Definition registered r : nat := length (r_clients r) + length (adds (nq_pending (r_notifq r))).
Definition unread r : nat := if bool_decide (nq_pending (r_notifq r) = []) then 0 else 1.

Definition io_left r : nat :=
  let d := per_destroy r in
  match r_io r with
  | IoExited => 0
  | IoPoll => 1
  | IoDestroy todo => 2 + d * length todo
  | IoSearch todo => 3 + 6 * length todo + d * length (r_destroying r)
  | IoEvents => 4 + (6 + d) * registered r
  | IoWait _ => 5 + (6 + d) * registered r
  | IoAsk todo _ => 6 + length todo + (6 + d) * registered r
  end.

(** What is left for the workers, and for them and the IO thread. *)
Definition queue_left (K : nat) r : nat := workers_left K r + (K + 5) * length (r_runq r) + (K + 1) * unread r.
Definition threads_left r : nat := queue_left 0 r + io_left r.

Definition dtor_left r (d : dtor) : nat :=
  let n := length (r_workers r) in
  match d with
  | D_none => 13 + n
  | D_notify => 12 + n
  | D_join_io => 10 + n
  | D_end_workers => 9 + n
  | D_join i => 3 + (n - i)
  | D_close_pipe => 2
  | D_close_clients => 1
  | D_done => 0
  end.

Definition left l : nat :=
  let r := lf_reactor l in
  match lf_dtor l with
  | D_done => 0
  | d => threads_left r + dtor_left r d
  end.

(** * Every step brings the end nearer *)

Lemma worker_left_le K r r' x : (forall q, working r' q = true -> working r q = true) ->
  (worker_left K r' x <= worker_left K r x)%nat.
Proof.
  intros Hle. destruct x as [| | |q|]; cbn; try lia. specialize (Hle q).
  destruct (working r' q); [by rewrite Hle|]. destruct (working r q); lia.
Qed.

Lemma workers_left_set K r r' i x y : r_workers r !! i = Some x -> r_workers r' = <[i := y]> (r_workers r) ->
  (forall q, working r' q = true -> working r q = true) ->
  (workers_left K r' + worker_left K r x <= workers_left K r + worker_left K r' y)%nat.
Proof.
  intros Hi Hw Hle. unfold workers_left. rewrite Hw.
  pose proof (sum_list_with_insert (worker_left K r') (r_workers r) i x y Hi).
  assert (forall ws, sum_list_with (worker_left K r') ws <= sum_list_with (worker_left K r) ws)%nat as H1.
  { induction ws as [|z ws IH]; [done|]. cbn. pose proof (worker_left_le K r r' z Hle). lia. }
  assert (forall ws j, ws !! j = Some x -> sum_list_with (worker_left K r') ws + worker_left K r x <=
    sum_list_with (worker_left K r) ws + worker_left K r' x)%nat as H2.
  { induction ws as [|z ws IH]; intros [|j] Hj; try done; cbn in Hj |- *.
    - injection Hj as ->. specialize (H1 ws). lia.
    - specialize (IH j Hj). pose proof (worker_left_le K r r' z Hle). lia. }
  specialize (H2 _ i Hi). lia.
Qed.

Lemma workers_left_ext K r r' : r_workers r' = r_workers r -> (forall p, working r' p = working r p) ->
  workers_left K r' = workers_left K r.
Proof.
  intros Hw Hp. unfold workers_left. rewrite Hw. clear Hw. induction (r_workers r) as [|x l IH]; [done|]. cbn. rewrite IH. f_equal.
  destruct x; try done. cbn. by rewrite Hp.
Qed.

Lemma workers_left_bound K r r' : r_workers r' = r_workers r ->
  (workers_left K r' <= workers_left K r + (K + 3) * length (r_workers r))%nat.
Proof.
  intros Hw. unfold workers_left. rewrite Hw. clear Hw. induction (r_workers r) as [|x l IH]; [cbn; lia|].
  cbn [sum_list_with length]. assert (worker_left K r' x <= worker_left K r x + (K + 3))%nat; [|nia].
  destruct x; cbn; try lia. destruct (working r' p), (working r p); lia.
Qed.

(** Setting an object of which only the run state changes. *)
Lemma working_set r p o o' : r_objects r !! p = Some o -> ob_client o' = ob_client o ->
  forall q, working (set_object_at p o' r) q = working r q.
Proof.
  intros Hp Hc q. unfold working. cbn. destruct (decide (p = q)) as [<-|].
  - by rewrite lookup_insert_eq, Hp, Hc.
  - by rewrite lookup_insert_ne.
Qed.

Lemma queue_left_step K r r' i x y : r_workers r !! i = Some x -> r_workers r' = <[i := y]> (r_workers r) ->
  r_runq r' = r_runq r -> (forall q, working r' q = true -> working r q = true) ->
  (worker_left K r' y + (K + 1) * unread r' < worker_left K r x + (K + 1) * unread r)%nat ->
  (queue_left K r' < queue_left K r)%nat.
Proof. intros Hi Hw Hq Hle Hlt. pose proof (workers_left_set K r r' i x y Hi Hw Hle). unfold queue_left. rewrite Hq. lia. Qed.

Lemma unread_le r : (unread r <= 1)%nat.
Proof. unfold unread. case_bool_decide; lia. Qed.

Lemma worker_ends_left K nq i r r' : worker_ends nq i r r' -> (queue_left K r' < queue_left K r)%nat.
Proof.
  intros [Hs Hend]. destruct Hs as [r p items Hi Hc Hq|r items Hi Hc Hq|r p o Hi Ho|r p o c w Hi Ho Hw
    |r p o c w e Hi Ho Hw _|r p o Hi Ho o']; rewrite Hi in Hend.
  - set (r' := set_worker i (WPopped p) (set_runq items (size_t (r_itemcount r - 1)) r)).
    pose proof (workers_left_set K r r' i _ (WPopped p) Hi eq_refl (fun _ H => H)) as H. cbn [worker_left] in H.
    unfold queue_left. change (unread r') with (unread r). change (r_runq r') with items. rewrite Hq. cbn [length]. nia.
  - eapply queue_left_step; [done..|]. change (unread (set_worker i WExited r)) with (unread r). cbn [worker_left]. lia.
  - eapply queue_left_step; [done..| |unfold unread; cbn [worker_left]; cbn -[Nat.mul]; lia].
    intros q Hq. rewrite <-Hq. symmetry. by apply (working_set r p o (Object (ob_client o) RS_R)).
  - destruct Hend as (o1 & Ho1 & Hf). rewrite Ho in Ho1. injection Ho1 as <-. unfold finishes in Hf. rewrite Hw in Hf.
    apply andb_true_iff in Hf as [Hf%negb_true_iff _].
    eapply queue_left_step; [done..| |].
    + intros q. unfold working. cbn. destruct (decide (p = q)) as [<-|]; [by rewrite lookup_insert_eq; cbn; rewrite Hf|].
      by rewrite lookup_insert_ne.
    + pose proof (unread_le (set_worker i (WWorked p) (set_world w (client_call p o c r)))).
      assert (worker_left K (set_worker i (WWorked p) (set_world w (client_call p o c r))) (WWorked p) = 2)%nat as ->
        by (cbn; unfold working; cbn; rewrite lookup_insert_eq; cbn; by rewrite Hf).
      cbn [worker_left]. nia.
  - destruct Hend as (o1 & Ho1 & Hf). rewrite Ho in Ho1. injection Ho1 as <-. unfold finishes in Hf. by rewrite Hw in Hf.
  - assert (ob_client o' = ob_client o) as Hc by (unfold o', update_run_state_for_worker; by destruct (has_work _)).
    eapply queue_left_step; [done..| |].
    + intros q Hq. rewrite <-Hq. symmetry. by apply (working_set r p o o').
    + unfold unread. cbn -[Nat.mul]. unfold working. rewrite Ho. unfold o', update_run_state_for_worker.
      destruct (has_work (ob_client o)); cbn -[Nat.mul].
      * destruct (bool_decide _); cbn -[Nat.mul]; lia.
      * rewrite bool_decide_eq_false_2 by done. cbn -[Nat.mul]. lia.
Qed.

(** Of the IO thread: the search puts at most one item into the queue, and a
    destroyed client may give its worker one round more. *)
Lemma search_client_left K p r : (length (r_runq (search_client p r)) <= length (r_runq r) + 1)%nat /\
  workers_left K (search_client p r) = workers_left K r /\ r_destroying (search_client p r) = r_destroying r /\
  r_notifq (search_client p r) = r_notifq r.
Proof.
  unfold search_client. destruct (r_objects r !! p) as [o|] eqn:Ho; [|split_and!; [lia|done..]].
  assert (ob_client (update_run_state_for_reactor o) = ob_client o) as Hc
    by (unfold update_run_state_for_reactor; by destruct (_ && _)).
  assert (workers_left K (set_object_at p (update_run_state_for_reactor o) r) = workers_left K r) as Hw
    by (apply workers_left_ext; [done|]; by apply (working_set r p o)).
  case_bool_decide; cbn [set_runq set_object_at set_objects r_runq]; [|split_and!; [lia|done..]].
  rewrite length_app. cbn [length]. split; [lia|]. split; [|done]. rewrite <-Hw. by apply workers_left_ext.
Qed.

Lemma destroy_client_left now p r : r_runq (destroy_client now p r) = r_runq r /\
  r_workers (destroy_client now p r) = r_workers r /\ r_notifq (destroy_client now p r) = r_notifq r.
Proof.
  unfold destroy_client. destruct (r_objects r !! p) as [o|]; [|done].
  destruct (destroy_cycle now (ob_client o)) as [c ready]. by destruct (_ && _).
Qed.

Lemma handle_messages_left ms : forall r (r' := foldl (fun r m => handle_reactor_msg m r) r ms),
  length (r_clients r') = (length (r_clients r) + length (adds ms))%nat.
Proof.
  induction ms as [|m ms IH]; intros r; cbn [foldl]; [cbn; lia|].
  cbn zeta in IH. rewrite (IH (handle_reactor_msg m r)). unfold adds. destruct m; cbn; rewrite ?length_app; cbn; lia.
Qed.

Lemma destroying_length r : inv r -> (length (r_destroying r) <= length (r_clients r))%nat.
Proof.
  intros Hr. destruct (inv_known r Hr) as [_ _ Hd Hn _]. apply submseteq_length, NoDup_submseteq; [done|].
  intros x. apply Hd.
Qed.

Lemma io_events_left r r' : inv r -> r_io r = IoEvents ->
  r' = set_io (IoSearch (r_clients r)) r \/ (nq_pending (r_notifq r) <> [] /\ r' = handle_messages_now r) ->
  (threads_left r' < threads_left r)%nat.
Proof.
  intros Hr H. pose proof (destroying_length r Hr) as Hdl. intros [->|[Hne ->]].
  - unfold threads_left. change (queue_left 0 (set_io ?x r)) with (queue_left 0 r). unfold io_left. rewrite H.
    change (per_destroy (set_io ?x r)) with (per_destroy r). unfold registered. cbn [set_io r_io r_destroying]. nia.
  - unfold handle_messages_now. set (r0 := set_notifq (pull (r_notifq r)).2 r).
    destruct (handle_messages_frame (pull (r_notifq r)).1 r0) as (F1 & F2 & _ & F4 & F5 & F6).
    pose proof (handle_messages_left (pull (r_notifq r)).1 r0) as Hlen. cbn zeta in Hlen.
    set (r' := foldl _ _ _) in *. change (r_clients r0) with (r_clients r) in Hlen.
    change (pull (r_notifq r)).1 with (nq_pending (r_notifq r)) in Hlen.
    assert (workers_left 0 r' = workers_left 0 r) as Hw
      by (apply workers_left_ext; [by rewrite F4|]; intros p; unfold working; by rewrite F1).
    assert (per_destroy r' = per_destroy r) as Hd by (unfold per_destroy; by rewrite F4).
    assert (registered r' = registered r) as Hg by (unfold registered; rewrite Hlen, F6; cbn; lia).
    unfold threads_left, queue_left, unread. rewrite Hw, F2. change (r_runq r0) with (r_runq r). unfold io_left.
    rewrite F5, F6, Hd, Hg. change (r_io r0) with (r_io r). rewrite H. cbn [r0 set_notifq r_notifq pull snd nq_pending].
    rewrite bool_decide_eq_true_2, bool_decide_eq_false_2 by done. lia.
Qed.

Lemma io_ends_left r r' : inv r -> r_is_stopping r = true -> io_ends r r' -> (threads_left r' < threads_left r)%nat.
Proof.
  intros Hr Hstop [Hs Hend].
  assert (forall x s, workers_left 0 (set_io x s) = workers_left 0 s) as Hw by done.
  assert (forall x s, unread (set_io x s) = unread s) as Hu by done.
  assert (forall x s, registered (set_io x s) = registered s) as Hg by done.
  assert (forall x s, per_destroy (set_io x s) = per_destroy s) as Hd by done.
  destruct Hs as [r H Hns|r q todo asked H|r asked H|r H _|r asked H|r p o now inp outp hup c H|r H|r H|r p todo H
    |r now H|r now H|r now p todo H|r H]; rewrite H in Hend; try by apply io_events_left.
  all: unfold threads_left, queue_left; rewrite ?Hw, ?Hu; unfold io_left; rewrite H, ?Hd, ?Hg; cbn [set_io r_io r_runq].
  - congruence.
  - cbn [length]. lia.
  - cbn [length]. lia.
  - lia.
  - lia.
  - destruct (search_client_left 0 p r) as (Hq & -> & Hds & Hn). cbn [set_io r_destroying]. rewrite Hds. unfold unread.
    rewrite Hn. cbn [length]. assert (per_destroy (search_client p r) = per_destroy r) as ->; [|lia].
    unfold per_destroy. unfold search_client. destruct (r_objects r !! p); [|done]. by case_bool_decide.
  - cbn [set_last_cleanup r_destroying length]. change (per_destroy (set_last_cleanup now r)) with (per_destroy r).
    change (workers_left 0 (set_last_cleanup now r)) with (workers_left 0 r).
    change (unread (set_last_cleanup now r)) with (unread r). cbn. lia.
  - lia.
  - destruct (destroy_client_left now p r) as (-> & Hws & Hn). pose proof (workers_left_bound 0 r (destroy_client now p r) Hws).
    assert (per_destroy (destroy_client now p r) = per_destroy r) as -> by (unfold per_destroy; by rewrite Hws).
    unfold unread, per_destroy. rewrite Hn. cbn [length]. nia.
  - lia.
Qed.

Lemma dtor_left_workers r r' d : length (r_workers r') = length (r_workers r) -> dtor_left r' d = dtor_left r d.
Proof. intros H. unfold dtor_left, per_destroy. by rewrite H. Qed.

Lemma left_threads l l' : lf_dtor l <> D_done -> lf_dtor l' = lf_dtor l ->
  length (r_workers (lf_reactor l')) = length (r_workers (lf_reactor l)) ->
  (threads_left (lf_reactor l') < threads_left (lf_reactor l))%nat -> (left l' < left l)%nat.
Proof.
  intros Hd He Hw Hlt. unfold left. rewrite He.
  destruct (lf_dtor l); rewrite ?(dtor_left_workers _ _ _ Hw); (done || lia).
Qed.

Lemma worker_step_not_exited i r r' : worker_step i r r' -> exists x, r_workers r !! i = Some x /\ x <> WExited.
Proof. intros []; by eexists. Qed.

(** A notification that adds no client is one more thing to read. *)
Lemma notify_left m r : added_client m = None ->
  (threads_left (notify m r) <= threads_left r + 1)%nat.
Proof.
  intros Hm. unfold threads_left, queue_left. change (workers_left 0 (notify m r)) with (workers_left 0 r).
  change (r_runq (notify m r)) with (r_runq r). pose proof (unread_le (notify m r)).
  assert (registered (notify m r) = registered r) as Hg.
  { unfold registered. cbn. unfold push_msg. destruct (_ && _); [done|]. cbn. unfold adds. rewrite omap_app. cbn.
    by rewrite Hm, app_nil_r. }
  assert (io_left (notify m r) = io_left r) as ->; [|lia].
  unfold io_left. by rewrite Hg.
Qed.

Lemma dtor_step_left l l' : life_inv l -> dtor_step l l' -> (left l' < left l)%nat.
Proof.
  intros Hl Hs. destruct Hs as [r nq pp cs|r nq pp cs|r nq pp cs Hio|r nq pp cs|r i nq pp cs Hi|r nq pp cs|r nq pp cs
    |r r' nq pp cs closed E]; unfold left; cbn [lf_reactor lf_dtor].
  - change (threads_left (set_stopping r)) with (threads_left r). cbn. lia.
  - pose proof (notify_left eTerminate r eq_refl). cbn [dtor_left].
    change (r_workers (notify eTerminate r)) with (r_workers r). lia.
  - cbn. lia.
  - unfold threads_left, queue_left. change (workers_left 0 (end_workers r)) with (workers_left 0 r).
    change (unread (end_workers r)) with (unread r).
    change (io_left (end_workers r)) with (io_left r). cbn [end_workers set_runq r_runq dtor_left r_workers].
    rewrite length_app. cbn [length]. lia.
  - cbn. apply lookup_lt_Some in Hi. lia.
  - cbn. lia.
  - cbn. lia.
  - cbn. lia.
Qed.

Lemma dtor_step_phase l l' : dtor_step l l' -> (phase (lf_dtor l) <= phase (lf_dtor l'))%nat /\
  (0 < phase (lf_dtor l'))%nat.
Proof. intros []; cbn; lia. Qed.

Lemma ending_step_left l l' : life_inv l -> (0 < phase (lf_dtor l))%nat -> ending_step l l' ->
  life_inv l' /\ (0 < phase (lf_dtor l'))%nat /\ (left l' < left l)%nat.
Proof.
  intros Hl Hp Hs. assert (life_inv l') as Hl' by (by eapply life_step_inv, ending_life_step). split; [done|].
  destruct Hs as [r r' d nq pp cs Hs|i r r' d nq pp cs Hs|? ? Hs].
  - destruct (io_step_frame r r' (proj1 Hs)) as (Hw & _ & _ & Hio). split; [done|].
    assert (d <> D_done) as Hd by (intros ->; apply Hio; apply (li_io _ Hl); cbn; lia).
    apply left_threads; [done|done|cbn; by rewrite Hw|]. apply io_ends_left; [by apply (li_inv _ Hl)| |done].
    by apply (li_stop _ Hl).
  - split; [done|]. destruct (worker_step_not_exited i r r' (proj1 Hs)) as (x & Hx & Hne).
    assert (d <> D_done) as Hd.
    { intros ->. pose proof (li_joined _ Hl) as Hj. cbn in Hj. rewrite forall_exited in Hj. by apply Hne, (Hj i). }
    pose proof (worker_ends_left 0 nq i r r' Hs) as Hlt.
    destruct (worker_step_frame i r r' (proj1 Hs)) as (F1 & _ & F4 & F5 & _ & _ & F3).
    pose proof (worker_step_length i r r' (proj1 Hs)) as Hlen.
    apply left_threads; [done..|]. cbn. unfold threads_left.
    assert (io_left r' = io_left r) as ->; [|lia]. unfold io_left, per_destroy, registered. by rewrite F1, F3, F4, F5, Hlen.
  - split; [by destruct (dtor_step_phase _ _ Hs)|]. by apply dtor_step_left.
Qed.

(** * Until the end something can be done *)

Lemma io_can_end r : inv r -> r_is_stopping r = true -> r_io r <> IoExited ->
  (asking (r_io r) = true -> eTerminate ∈ nq_pending (r_notifq r)) -> exists r', io_ends r r'.
Proof.
  intros Hr Hs Hne Hwait. destruct (r_io r) as [|[|p todo] asked|asked| |[|p todo]|[|p todo]|] eqn:E; [..|done].
  - exists (set_io IoExited r). split; [by apply io_stop|]. by rewrite E.
  - exists (set_io (IoWait asked) r). split; [by apply io_wait|]. by rewrite E.
  - eexists. split; [by apply io_ask|]. by rewrite E.
  - exists (set_io IoEvents r). split; [by eapply io_ready|]. rewrite E. apply (inv_wakes r Hr).
    intros Hnil. specialize (Hwait eq_refl). rewrite Hnil in Hwait. by apply not_elem_of_nil in Hwait.
  - exists (set_io (IoSearch (r_clients r)) r). split; [by apply io_search_start|]. rewrite E. by left.
  - destruct (cleanup_due 0 r) eqn:Ec.
    + exists (set_io (IoDestroy (r_destroying r)) (set_last_cleanup 0 r)). split; [by apply io_destroy_start|]. by rewrite E.
    + exists (set_io IoPoll r). split; [by eapply io_loop|]. by rewrite E.
  - exists (set_io (IoSearch todo) (search_client p r)). split; [by apply io_search|]. by rewrite E.
  - exists (set_io IoPoll r). split; [by apply io_destroy_end|]. by rewrite E.
  - exists (set_io (IoDestroy todo) (destroy_client 0 p r)). split; [by apply io_destroy|]. by rewrite E.
Qed.

Lemma worker_object r i x p : inv r -> r_workers r !! i = Some x -> worker_client x = Some p ->
  exists o, r_objects r !! p = Some o.
Proof.
  intros Hr Hi Hp. pose proof (s_worker _ _ _ (inv_sched r Hr) i x p Hi Hp) as H. unfold runs in H.
  rewrite lookup_fmap in H. destruct (r_objects r !! p) as [o|]; [by exists o|done].
Qed.

Lemma worker_can_end nq i x r : inv r -> r_workers r !! i = Some x -> x <> WExited ->
  (x = WIdle -> r_runq r <> []) -> Z.of_nat (length (r_runq r)) < 2 ^ 64 ->
  (exists r', worker_ends nq i r r') \/ stuck nq r.
Proof.
  intros Hr Hi Hx Hn Hb. destruct x as [|p|p|p|]; [..|done].
  - left. assert (r_itemcount r <> 0) as Hc.
    { rewrite (inv_count r Hr), size_t_small by lia. destruct (r_runq r); [by destruct Hn|cbn; lia]. }
    destruct (r_runq r) as [|[p|] items] eqn:E; [by destruct Hn| |]; eexists; (split; [|by rewrite Hi]).
    + by apply step_pop.
    + by eapply step_exit.
  - left. destruct (worker_object r i _ p Hr Hi eq_refl) as [o Ho]. eexists. split; [by apply step_run|]. by rewrite Hi.
  - destruct (worker_object r i _ p Hr Hi eq_refl) as [o Ho].
    destruct (finishes nq (ob_client o) (r_world r)) eqn:Hf; [|right; by exists i, p, o].
    left. pose proof Hf as Hf'. unfold finishes in Hf'. destruct (do_work (ob_client o) (r_world r)) as [[c w]|] eqn:Ew; [|done].
    eexists. split; [by eapply step_work|]. rewrite Hi. by exists o.
  - left. destruct (worker_object r i _ p Hr Hi eq_refl) as [o Ho]. eexists. split; [by apply step_update|]. by rewrite Hi.
Qed.

Lemma can_end l : life_inv l -> (0 < phase (lf_dtor l))%nat -> Z.of_nat (left l) < 2 ^ 64 ->
  lf_dtor l = D_done \/ (exists l', ending_step l l') \/ held_up l.
Proof.
  intros Hl Hp Hb. destruct (Hl) as [Hinv Hstop Hwait Hio Hnq Hnull Hj _ _ _].
  destruct l as [r d nq pp cs]; cbn in *. destruct d as [| | | |i| | |]; [cbn in Hp; lia|right..|by left].
  - left. eexists. apply es_dtor, ds_notify.
  - left. destruct (decide (r_io r = IoExited)) as [He|He]; [eexists; by apply es_dtor, ds_join_io|].
    destruct (io_can_end r) as [r' Hr']; [by auto..|]. eexists. by apply es_io.
  - left. eexists. apply es_dtor, ds_end_workers.
  - destruct Hj as [Hle Hj]. destruct (r_workers r !! i) as [x|] eqn:Ei.
    + destruct (decide (x = WExited)) as [->|Hx]; [left; eexists; by apply es_dtor, ds_join|].
      assert (r_runq r <> []) as Hq by (intros Hq; specialize (Hnull ltac:(cbn; lia)); rewrite Hq in Hnull; by apply not_elem_of_nil in Hnull).
      destruct (worker_can_end nq i x r) as [[r' Hr']|?]; [by auto|done..| |left; eexists; by eapply es_worker|by right].
      unfold left, threads_left, queue_left in Hb. cbn in Hb |- *. lia.
    + apply lookup_ge_None in Ei. assert (i = length (r_workers r)) as -> by lia. left. eexists. apply es_dtor, ds_joined.
  - left. eexists. apply es_dtor, ds_close_pipe.
  - left. destruct (destroy_reactor_spec r (Hinv ltac:(done))) as (r' & closed & E & _).
    eexists. by eapply es_dtor, ds_close_clients.
Qed.

Lemma endings_inv l l' : life_inv l -> (0 < phase (lf_dtor l))%nat -> rtc ending_step l l' ->
  life_inv l' /\ (0 < phase (lf_dtor l'))%nat /\ (left l' <= left l)%nat.
Proof.
  intros Hl Hp Hs. induction Hs as [l|l l1 l2 H1 _ IH]; [done|].
  destruct (ending_step_left l l1 Hl Hp H1) as (Hl1 & Hp1 & Hlt). destruct (IH Hl1 Hp1) as (? & ? & ?).
  split_and!; [done..|lia].
Qed.

(** C12. The destructor gets to its end.  Once it has set the stop flag, then
    whatever the threads were doing and in whatever order they go on, only a
    bounded number of steps is left (not counting what [poll] still reports for
    the clients): the IO thread is woken if it is in [poll], finishes its round
    and ends, the workers finish the clients they hold and those in the queue
    and end, and the destructor joins them, closes and deletes the clients and
    ends.  It can only stop short where a worker holds a client with which it
    does not finish, because [do_work] throws or leaves work, or notifies the IO
    thread when the destructor has already deleted the notification queue.
    (Each step left stands for an object in memory, so there are fewer than
    2^64.) *)
Theorem destructor_completes n w l : life_reachable n w l -> lf_dtor l <> D_none -> Z.of_nat (left l) < 2 ^ 64 ->
  (forall k l', nsteps ending_step k l l' -> (k <= left l)%nat) /\
  (forall l', rtc ending_step l l' -> (forall l'', ~ ending_step l' l'') ->
     lf_dtor l' = D_done \/ held_up l') /\
  exists l', rtc ending_step l l' /\ (lf_dtor l' = D_done \/ held_up l').
Proof.
  intros Hr Hd Hb. pose proof (life_reachable_inv n w l Hr) as Hl.
  assert (0 < phase (lf_dtor l))%nat as Hp by (destruct (lf_dtor l); cbn; (done || lia)). clear Hr Hd.
  split; [|split].
  - intros k. revert l Hl Hp Hb. induction k as [|k IH]; intros l Hl Hp Hb l' Hs; [lia|].
    inversion Hs as [|? ? l1 ? H1 Hs1]; subst. destruct (ending_step_left l l1 Hl Hp H1) as (Hl1 & Hp1 & Hlt).
    specialize (IH l1 Hl1 Hp1 ltac:(lia) l' Hs1). lia.
  - intros l' Hs Hstuck. destruct (endings_inv l l' Hl Hp Hs) as (Hl' & Hp' & Hle).
    destruct (can_end l' Hl' Hp' ltac:(lia)) as [?|[[l2 H2]|?]]; [by left|by destruct (Hstuck l2)|by right].
  - remember (left l) as m eqn:Em. revert l Em Hl Hp Hb. induction (lt_wf m) as [m _ IH]. intros l -> Hl Hp Hb.
    destruct (can_end l Hl Hp Hb) as [?|[[l1 H1]|?]]; [exists l; split; [done|by left]| |exists l; split; [done|by right]].
    destruct (ending_step_left l l1 Hl Hp H1) as (Hl1 & Hp1 & Hlt).
    destruct (IH _ Hlt l1 eq_refl Hl1 Hp1 ltac:(lia)) as (l' & Hs & He). exists l'. split; [by eapply rtc_l|done].
Qed.

(** How a worker can be held up for ever: [do_work] throws before it has taken
    the first chunk (the buffer cannot grow) and leaves the client as it was;
    the worker finds that it still has work and calls [do_work] again. *)
Lemma throwing_worker_spins r i p o e : r_workers r !! i = Some (WRunning p) -> r_objects r !! p = Some o ->
  ob_run o = RS_R -> has_work (ob_client o) = true -> do_work (ob_client o) (r_world r) = Throw e ->
  tc (worker_step i) r r.
Proof.
  intros Hi Ho Hrun Hw He.
  assert (set_object_at p o r = r) as Hset
    by (unfold set_object_at, set_objects; rewrite insert_id by done; by destruct r).
  assert (client_call p o (ob_client o) r = r) as Hcall.
  { unfold client_call, io_added, notify_list. rewrite drop_all. cbn.
    replace (Object _ _) with o by (by destruct o). rewrite Hset. by destruct r. }
  set (r1 := set_worker i (WWorked p) r). assert (worker_step i r r1) as H1.
  { pose proof (step_work_throws i r p o (ob_client o) (r_world r) e Hi Ho He (PreOrder_Reflexive _)) as Hs.
    rewrite Hcall in Hs. by destruct r. }
  eapply tc_l; [exact H1|]. apply tc_once.
  assert (r_workers r1 !! i = Some (WWorked p)) as Hi1 by (cbn; apply list_lookup_insert_eq; by eapply lookup_lt_Some).
  pose proof (step_update i r1 p o Hi1 Ho) as Hs. cbn zeta in Hs.
  assert (update_run_state_for_worker o = o) as Hu by (unfold update_run_state_for_worker; by rewrite Hw).
  rewrite Hu, Hrun, bool_decide_eq_true_2 in Hs by done.
  change (set_object_at p o r1) with (set_worker i (WWorked p) (set_object_at p o r)) in Hs. rewrite Hset in Hs.
  assert (set_worker i (WRunning p) (set_worker i (WWorked p) r) = r) as Hback; [|by rewrite Hback in Hs].
  unfold set_worker. cbn. rewrite list_insert_insert_eq, list_insert_id by done. by destruct r.
Qed.

End ending.

(** * A reactor that is destroyed *)

(** A callback that answers whatever it reads with one byte. *)
#[local] Instance echo_callback : ClientCallback unit :=
  {| process_input c s _ n := Ok ((queue (Some (str "x")) false c).1, s, Some n);
     process_close c s := Ok (c, s) |}.

Lemma reach_io {T} {CB : ClientCallback T} n (w : T) r r' d nq pp cs :
  life_reachable n w (MkLife r d nq pp cs) -> io_step r r' -> life_reachable n w (MkLife r' d nq pp cs).
Proof. intros H Hs. eapply life_next; [exact H|by apply ls_io]. Qed.

Lemma reach_worker {T} {CB : ClientCallback T} n (w : T) i r r' d nq pp cs :
  life_reachable n w (MkLife r d nq pp cs) -> worker_step i r r' -> nq = true \/ r_notifq r' = r_notifq r ->
  life_reachable n w (MkLife r' d nq pp cs).
Proof. intros H Hs Hq. eapply life_next; [exact H|by eapply ls_worker]. Qed.

Lemma reach_app {T} {CB : ClientCallback T} n (w : T) r r' d pp cs :
  life_reachable n w (MkLife r d true pp cs) -> app_step r r' -> life_reachable n w (MkLife r' d true pp cs).
Proof. intros H Hs. eapply life_next; [exact H|by apply ls_app]. Qed.

Lemma reach_dtor {T} {CB : ClientCallback T} n (w : T) l l' :
  life_reachable n w l -> dtor_step l l' -> life_reachable n w l'.
Proof. intros H Hs. eapply life_next; [exact H|by apply ls_dtor]. Qed.

(** A client has been made, its registration is on its way, and the IO thread
    waits in [poll]. *)
Definition demo_new : Reactor (T := unit) :=
  add_client 1 (set_object_at 1 (Object (new_client 7 0 true) RS_N) (new_reactor 1 tt)).
Definition demo_polling : Reactor (T := unit) := set_io (IoWait []) demo_new.

Lemma demo_polling_reachable : life_reachable 1 tt (MkLife demo_polling D_none true true []).
Proof.
  pose proof (life_new 1 tt) as H. eapply reach_app in H; [|exact (app_new_client (new_reactor 1 tt) 1 7 0 true eq_refl)].
  eapply reach_io in H; [|by apply io_ask_start]. eapply (reach_io _ _ _ demo_polling) in H; [exact H|].
  exact (io_wait (set_io (IoAsk [] []) demo_new) [] eq_refl).
Qed.

(** It is registered and something is read from it. *)
Definition demo_client : Client := (handle_input 5 (ReadOk (str "hi")) (new_client 7 0 true)).1.
Definition demo_read : Reactor (T := unit) :=
  set_object_at 1 (Object demo_client RS_N) (handle_messages_now (set_io IoEvents demo_polling)).

Lemma demo_read_reachable : life_reachable 1 tt (MkLife demo_read D_none true true []).
Proof.
  pose proof demo_polling_reachable as H. eapply reach_io in H; [|by eapply io_ready].
  eapply reach_io in H; [|by apply io_messages].
  eapply reach_io in H; [exact H|].
  apply (io_event _ 1 (Object (new_client 7 0 true) RS_N) 5 (Some (ReadOk (str "hi"))) None false).
  - reflexivity.
  - by left.
  - reflexivity.
  - reflexivity.
Qed.

(** The search has queued it and the worker holds it. *)
Definition demo_found : Reactor (T := unit) := search_client 1 (set_io (IoSearch (r_clients demo_read)) demo_read).
Definition demo_busy : Reactor (T := unit) :=
  let r := set_io IoPoll demo_found in
  let r := set_worker 0 (WPopped 1) (set_runq [] (size_t (r_itemcount r - 1)) r) in
  set_worker 0 (WRunning 1) (set_object_at 1 (Object demo_client RS_R) r).

Lemma demo_busy_reachable : life_reachable 1 tt (MkLife demo_busy D_none true true []).
Proof.
  pose proof demo_read_reachable as H. eapply reach_io in H; [|by apply io_search_start].
  eapply reach_io in H; [|exact (io_search (set_io (IoSearch (r_clients demo_read)) demo_read) 1 [] eq_refl)].
  eapply reach_io in H; [|exact (io_loop (set_io (IoSearch []) demo_found) 0 eq_refl eq_refl)].
  eapply (reach_worker _ _ 0%nat) in H.
  2: { apply (step_pop 0 (set_io IoPoll demo_found) 1 []); [reflexivity|vm_compute; discriminate|reflexivity]. }
  2: by left.
  eapply (reach_worker _ _ 0%nat) in H; [exact H| |by left].
  apply (step_run 0 (set_worker 0 (WPopped 1) _) 1 (Object demo_client RS_Q)); reflexivity.
Qed.

(** The destructor deletes the notification queue while this worker still has a
    client to answer: the reply notifies the IO thread through the queue
    ([Client::queue] calls [Reactor::invalidate]) after it has been deleted. *)
Lemma reply_after_queue_deleted : exists l p o c w, life_reachable 1 tt l /\ lf_notifq l = false /\
  r_workers (lf_reactor l) !! 0%nat = Some (WRunning p) /\ r_objects (lf_reactor l) !! p = Some o /\
  do_work (ob_client o) (r_world (lf_reactor l)) = Ok (c, w) /\
  oq_items (m_out_q (ob_client o)) = [] /\ oq_items (m_out_q c) = [Raw (str "x")].
Proof.
  pose proof demo_busy_reachable as H.
  eapply reach_dtor in H; [|apply ds_stop]. eapply reach_dtor in H; [|apply ds_notify].
  eapply reach_io in H; [|by apply io_stop]. eapply reach_dtor in H; [|by apply ds_join_io].
  eexists _, 1, (Object demo_client RS_R), _, tt. split; [exact H|]. split; [reflexivity|]. split; [reflexivity|].
  split; [reflexivity|]. split; [vm_compute; reflexivity|]. split; reflexivity.
Qed.

(** The stop flag is set while the IO thread waits in [poll]. *)
Definition demo_stopping : life (T := unit) := MkLife (set_stopping demo_polling) D_notify true true [].

Lemma demo_stopping_reachable : life_reachable 1 tt demo_stopping.
Proof. eapply reach_dtor; [exact demo_polling_reachable|apply ds_stop]. Qed.

Lemma destructor_completes_witness : left demo_stopping = 30%nat /\
  exists l', rtc ending_step demo_stopping l' /\ (lf_dtor l' = D_done \/ held_up l').
Proof.
  split; [reflexivity|].
  apply (destructor_completes 1 tt demo_stopping demo_stopping_reachable); [discriminate|reflexivity].
Defined.

(** From there to the end: the client is registered, then closed and deleted. *)
Definition demo_joined : Reactor (T := unit) :=
  set_worker 0 WExited (end_workers (set_io IoExited (search_client 1
    (handle_messages_now (set_io IoEvents (notify eTerminate (set_stopping demo_polling))))))).
Definition demo_closed : Client := handle_close (new_client 7 0 true).
Definition demo_ended : life (T := unit) :=
  MkLife (set_objects ∅ demo_joined) D_done false false [demo_closed].

Lemma demo_joined_reachable : life_reachable 1 tt (MkLife demo_joined (D_join 0) false true []).
Proof.
  pose proof demo_stopping_reachable as H. eapply reach_dtor in H; [|apply ds_notify].
  eapply reach_io in H; [|by eapply io_ready]. eapply reach_io in H; [|by apply io_messages].
  eapply reach_io in H; [|by apply io_search_start].
  eapply reach_io in H; [|by apply (io_search _ 1 [])].
  eapply reach_io in H; [|by apply (io_loop _ 0)].
  eapply reach_io in H; [|by apply io_stop]. eapply reach_dtor in H; [|by apply ds_join_io].
  eapply reach_dtor in H; [|apply ds_end_workers].
  eapply (reach_worker _ _ 0%nat) in H; [|eapply step_exit; [reflexivity|vm_compute; discriminate|reflexivity]|by right].
  exact H.
Qed.

Lemma demo_ended_reachable : life_reachable 1 tt demo_ended.
Proof.
  pose proof demo_joined_reachable as H. eapply reach_dtor in H; [|by apply ds_join].
  eapply reach_dtor in H; [|exact (ds_joined demo_joined false true [])].
  eapply reach_dtor in H; [|apply ds_close_pipe].
  eapply reach_dtor in H; [exact H|]. apply (ds_close_clients _ _ _ _ [] [demo_closed]). vm_compute. reflexivity.
Qed.

Lemma destructor_order_safe_witness :
  r_io (lf_reactor demo_ended) = IoExited /\ Forall (eq WExited) (r_workers (lf_reactor demo_ended)) /\
  lf_notifq demo_ended = false /\ length (lf_closed demo_ended) = length (r_clients (lf_reactor demo_ended)).
Proof.
  destruct (destructor_order_safe 1 tt demo_ended demo_ended_reachable) as (_ & H1 & _ & H2).
  destruct (H1 (or_introl eq_refl)) as (Ha & Hb & Hc). destruct (H2 eq_refl) as (_ & Hd & _).
  split; [exact Ha|]. split; [exact Hb|]. split; [exact Hc|exact Hd].
Defined.
