(* ===== verification/ReactorRest.v ===== *)
(** The reactor comes to rest ([reactor_main_loop] and [worker_TEP_impl]
    together): when nothing more arrives and nothing more is asked of it, the
    event loop and the workers do what there is to do and stop, the loop in
    [poll] and the workers at the empty run queue.

    Only the steps that react are counted: [poll] returns because of the pipe,
    the loop reads the notifications once in such a round, the workers work. *)

From S2P Require Import Prelude ReadBuffer Client Reactor ReactorProps ReactorLoop ReactorOutput RunQueue ReactorLife ReactorEnd.

Local Open Scope Z_scope.

Section rest.
Context {T : Type} {CB : ClientCallback T} {WC : WakingCallback T}.
Implicit Types r : Reactor (T := T).

(** * The steps that react *)

(** The flag says that [poll] has reported the pipe and it is still to be read
    in this round. *)
Inductive rest_step : bool * Reactor (T := T) -> bool * Reactor (T := T) -> Prop :=
| rest_ready r asked : r_io r = IoWait asked -> 0 < nq_pipe (r_notifq r) ->
    rest_step (false, r) (true, set_io IoEvents r)
| rest_read r : r_io r = IoEvents -> rest_step (true, r) (false, handle_messages_now r)
| rest_search r : r_io r = IoEvents -> rest_step (false, r) (false, set_io (IoSearch (r_clients r)) r)
| rest_round r r' : io_step r r' -> match r_io r with IoWait _ | IoEvents => False | _ => True end ->
    rest_step (false, r) (false, r')
| rest_worker b i r r' : worker_ends true i r r' -> rest_step (b, r) (b, r').

Lemma rest_step_step x y : rest_step x y -> step x.2 y.2.
Proof.
  intros [r asked H _|r H|r H|r r' H _|b i r r' [H _]]; cbn [snd].
  - by apply step_io, (io_ready r asked).
  - by apply step_io, io_messages.
  - by apply step_io, io_search_start.
  - by apply step_io.
  - by eapply step_worker.
Qed.

(** The reactor has not been told to stop. *)
Definition up r : Prop :=
  r_is_stopping r = false /\ (eTerminate ∉ nq_pending (r_notifq r)) /\ (None ∉ r_runq r) /\ r_io r <> IoExited /\
  (WExited ∉ r_workers r).

(** * How much is left *)

Definition all_clients r : list Z := r_clients r ++ adds (nq_pending (r_notifq r)).

(** A client that the search will queue, and one whose socket can still be
    closed: [K] as in [worker_left], [n] the number of workers. *)
Definition client_left (K n : nat) (o : object) : nat :=
  (if has_work (ob_client o) && bool_decide (ob_run o = RS_N) then K + 6 else 0) +
  (if io_open (ob_client o) then K + 7 + (K + 3) * n else 0).
Definition client_left_at (K : nat) r (p : Z) : nat :=
  match r_objects r !! p with Some o => client_left K (length (r_workers r)) o | None => 0 end.
Definition clients_left (K : nat) r : nat := sum_list_with (client_left_at K r) (all_clients r).

Definition loop_left_at (io : io_thread) (b : bool) r : nat :=
  match io with
  | IoExited => 0
  | IoWait _ => 1
  | IoAsk todo _ => 2 + length todo
  | IoPoll => 3 + registered r
  | IoDestroy todo => 4 + length todo + registered r
  | IoSearch todo => 5 + length todo + length (r_destroying r) + registered r
  | IoEvents => if b then 0 else 6 + 3 * registered r
  end.
Definition loop_left (b : bool) r : nat := loop_left_at (r_io r) b r.

(** With [K], a notification weighs more than a round of the loop. *)
Definition round_cost r : nat := 6 + 3 * registered r.
Definition weigh (K : nat) (b : bool) r : nat := queue_left K r + clients_left K r + loop_left b r.
Definition remaining (x : bool * Reactor (T := T)) : nat := weigh (round_cost x.2) x.1 x.2.

(** ** Sums *)

Lemma sum_list_mono {A} (f g : A -> nat) l : (forall a, a ∈ l -> (f a <= g a)%nat) -> (sum_list_with f l <= sum_list_with g l)%nat.
Proof.
  induction l as [|a l IH]; intros H; cbn; [lia|]. pose proof (H a ltac:(by left)).
  specialize (IH (fun x Hx => H x ltac:(by right))). lia.
Qed.

Lemma sum_list_ext {A} (f g : A -> nat) l : (forall a, a ∈ l -> f a = g a) -> sum_list_with f l = sum_list_with g l.
Proof. intros H. apply Nat.le_antisymm; apply sum_list_mono; intros a Ha; by rewrite H. Qed.

Lemma sum_list_filter {A} (P : A -> Prop) `{forall x, Decision (P x)} (f : A -> nat) l :
  (sum_list_with f (filter P l) <= sum_list_with f l)%nat.
Proof. induction l as [|a l IH]; [done|]. rewrite filter_cons. destruct (decide (P a)); cbn; lia. Qed.

Lemma weigh_mono K K' b r : (K <= K')%nat -> (weigh K b r <= weigh K' b r)%nat.
Proof.
  intros H. unfold weigh, queue_left, workers_left, clients_left.
  assert (sum_list_with (worker_left K r) (r_workers r) <= sum_list_with (worker_left K' r) (r_workers r))%nat.
  { apply sum_list_mono. intros x _. destruct x; cbn; try lia. destruct (working r p); lia. }
  assert (sum_list_with (client_left_at K r) (all_clients r) <= sum_list_with (client_left_at K' r) (all_clients r))%nat.
  { apply sum_list_mono. intros p _. unfold client_left_at, client_left. repeat case_match; nia. }
  nia.
Qed.

(** One object changes. *)
Lemma clients_left_set K r r' p o o' (n := length (r_workers r)) : inv r -> r_objects r !! p = Some o ->
  all_clients r' = all_clients r -> length (r_workers r') = n -> r_objects r' = <[p := o']> (r_objects r) ->
  (clients_left K r' + client_left K n o = clients_left K r + client_left K n o')%nat.
Proof.
  intros Hr Ho Hall Hn Ho'. destruct (inv_known r Hr) as [Hc Hnd _ _ _].
  assert (p ∈ all_clients r) as Hp by (apply Hc; exists (ob_run o); by apply runs_lookup).
  unfold clients_left. rewrite Hall. fold (all_clients r) in Hnd. revert Hp Hnd. generalize (all_clients r).
  assert (forall q, q <> p -> client_left_at K r' q = client_left_at K r q) as Hne
    by (intros q Hq; unfold client_left_at; by rewrite Ho', lookup_insert_ne, Hn).
  assert (client_left_at K r' p = client_left K n o') as Hp'
    by (unfold client_left_at; by rewrite Ho', lookup_insert_eq, Hn).
  assert (client_left_at K r p = client_left K n o) as Hp0 by (unfold client_left_at; by rewrite Ho).
  induction l as [|q l IH]; intros Hp Hnd; [by apply not_elem_of_nil in Hp|]. apply NoDup_cons in Hnd as [Hq Hnd].
  cbn [sum_list_with]. apply elem_of_cons in Hp as [<-|Hp].
  - rewrite Hp', Hp0, (sum_list_ext (client_left_at K r') (client_left_at K r) l); [lia|].
    intros x Hx. apply Hne. intros ->. done.
  - specialize (IH Hp Hnd). rewrite Hne by (intros ->; done). lia.
Qed.

Lemma clients_left_same K r r' : r_objects r' = r_objects r -> all_clients r' = all_clients r ->
  length (r_workers r') = length (r_workers r) -> clients_left K r' = clients_left K r.
Proof.
  intros Ho Ha Hn. unfold clients_left. rewrite Ha. apply sum_list_ext. intros p _. unfold client_left_at. by rewrite Ho, Hn.
Qed.

(** ** The workers *)

Lemma worker_all_clients i r r' : worker_step i r r' -> all_clients r' = all_clients r.
Proof.
  intros Hs. destruct (worker_step_frame i r r' Hs) as (_ & _ & Hc & _ & _ & _ & Ha). unfold all_clients. by rewrite Hc, Ha.
Qed.

Lemma client_left_le K n o o' : (has_work (ob_client o') = true -> ob_run o' = RS_N -> has_work (ob_client o) = true /\ ob_run o = RS_N) ->
  (io_open (ob_client o') = true -> io_open (ob_client o) = true) -> (client_left K n o' <= client_left K n o)%nat.
Proof.
  intros Hw Ho. unfold client_left.
  assert ((if io_open (ob_client o') then K + 7 + (K + 3) * n else 0) <= (if io_open (ob_client o) then K + 7 + (K + 3) * n else 0))%nat
    by (destruct (io_open (ob_client o')); [rewrite Ho by done; lia|lia]).
  assert ((if has_work (ob_client o') && bool_decide (ob_run o' = RS_N) then K + 6 else 0) <=
    (if has_work (ob_client o) && bool_decide (ob_run o = RS_N) then K + 6 else 0))%nat; [|lia].
  destruct (has_work (ob_client o')) eqn:E1; [|cbn; lia]. case_bool_decide as E2; [|cbn; lia].
  destruct (Hw eq_refl E2) as [-> E3]. rewrite bool_decide_eq_true_2 by done. cbn. lia.
Qed.

Lemma worker_clients_left K nq i r r' : inv r -> worker_ends nq i r r' -> (clients_left K r' <= clients_left K r)%nat.
Proof.
  intros Hr [Hs Hend]. pose proof (worker_all_clients i r r' Hs) as Hall. pose proof (worker_step_length i r r' Hs) as Hlen.
  destruct Hs as [r p items Hi Hc Hq|r items Hi Hc Hq|r p o Hi Ho|r p o c w Hi Ho Hw|r p o c w e Hi Ho Hw _|r p o Hi Ho o'].
  - by rewrite (clients_left_same K r).
  - by rewrite (clients_left_same K r).
  - pose proof (clients_left_set K r _ p o (Object (ob_client o) RS_R) Hr Ho Hall Hlen eq_refl) as H.
    pose proof (client_left_le K (length (r_workers r)) o (Object (ob_client o) RS_R) ltac:(done) ltac:(done)). lia.
  - pose proof (clients_left_set K r _ p o (Object c (ob_run o)) Hr Ho Hall Hlen eq_refl) as H.
    assert (ob_run o = RS_R) as Hrun by exact (inv_worker_run r i (WRunning p) p o Hr Hi eq_refl Ho).
    pose proof (client_left_le K (length (r_workers r)) o (Object c (ob_run o)) ltac:(cbn; by rewrite Hrun)
      (notified_open _ _ (do_work_notified _ _ _ _ Hw))). lia.
  - rewrite Hi in Hend. destruct Hend as (o1 & Ho1 & Hf). rewrite Ho in Ho1. injection Ho1 as <-. unfold finishes in Hf.
    by rewrite Hw in Hf.
  - pose proof (clients_left_set K r _ p o o' Hr Ho Hall Hlen eq_refl) as H.
    assert (client_left K (length (r_workers r)) o' <= client_left K (length (r_workers r)) o)%nat; [|lia].
    unfold o', update_run_state_for_worker. destruct (has_work (ob_client o)) eqn:E; [lia|].
    apply client_left_le; cbn; [by rewrite E|done].
Qed.

(** ** The IO thread *)

Lemma search_client_rest K p r : inv r -> (queue_left K (search_client p r) + clients_left K (search_client p r) <=
  queue_left K r + clients_left K r)%nat.
Proof.
  intros Hr. destruct (search_client_left K p r) as (_ & Hw & _ & Hq). unfold queue_left. rewrite Hw. unfold unread. rewrite Hq.
  unfold search_client. destruct (r_objects r !! p) as [o|] eqn:Ho; [|lia].
  pose proof (clients_left_set K r (set_object_at p (update_run_state_for_reactor o) r) p o (update_run_state_for_reactor o) Hr Ho
    eq_refl eq_refl eq_refl) as H. unfold update_run_state_for_reactor in *.
  destruct (has_work (ob_client o) && bool_decide (ob_run o = RS_N)) eqn:E.
  - apply andb_true_iff in E as [E1 E2%bool_decide_eq_true]. rewrite bool_decide_eq_true_2 by done.
    rewrite (clients_left_same K (set_object_at p (Object (ob_client o) RS_Q) r)) by done. cbn [set_runq r_runq set_object_at set_objects].
    rewrite length_app. cbn [length]. unfold client_left in H. cbn [ob_client ob_run] in H.
    rewrite E1, E2, (bool_decide_eq_true_2 (RS_N = RS_N)), (bool_decide_eq_false_2 (RS_Q = RS_N)) in H by done.
    cbn [andb] in H. nia.
  - rewrite bool_decide_eq_false_2 by (intros [? ?]; congruence). cbn [set_object_at set_objects r_runq]. lia.
Qed.

Lemma destroy_cycle_rest now c c' ready : destroy_cycle now c = (c', ready) ->
  if io_open c && negb (io_open c') then ready = false
  else has_work c' = has_work c /\ io_open c' = io_open c.
Proof.
  unfold destroy_cycle. destruct (_ || _); [|intros [= <- <-]; by destruct (io_open c)].
  change (io_open (set_attn ?a ?b c)) with (io_open c). destruct (io_open c) eqn:E; intros [= <- <-]; [|split; [done|exact E]].
  unfold handle_close. change (io_open (set_attn ?a ?b c)) with (io_open c). by rewrite E.
Qed.

Lemma destroy_client_rest K now p r : inv r -> (queue_left K (destroy_client now p r) + clients_left K (destroy_client now p r) <=
  queue_left K r + clients_left K r)%nat.
Proof.
  intros Hr. destruct (destroy_client_left now p r) as (Hrq & Hw & Hq). unfold queue_left, unread. rewrite Hq, Hrq.
  pose proof (workers_left_bound K r (destroy_client now p r) Hw) as Hbound.
  unfold destroy_client in *. destruct (r_objects r !! p) as [o|] eqn:Ho; [|lia].
  destruct (destroy_cycle now (ob_client o)) as [c ready] eqn:Ec. pose proof (destroy_cycle_rest _ _ _ _ Ec) as Hc.
  set (r1 := set_object_at p (Object c (ob_run o)) r) in *.
  pose proof (clients_left_set K r r1 p o (Object c (ob_run o)) Hr Ho eq_refl eq_refl eq_refl) as H.
  destruct (io_open (ob_client o) && negb (io_open c)) eqn:Eo.
  - apply andb_true_iff in Eo as [E1 E2%negb_true_iff]. subst ready. cbn [andb] in *. unfold client_left in H.
    cbn [ob_client ob_run] in H. rewrite E1, E2 in H.
    assert ((if has_work c && bool_decide (ob_run o = RS_N) then K + 6 else 0) <= K + 6)%nat as HE
      by (clear; destruct (_ && _); lia).
    revert H HE. generalize (if has_work c && bool_decide (ob_run o = RS_N) then K + 6 else 0)%nat. intros e H HE.
    clear - H HE Hbound. lia.
  - destruct Hc as [Hc1 Hc2].
    assert (client_left K (length (r_workers r)) (Object c (ob_run o)) = client_left K (length (r_workers r)) o) as E
      by (unfold client_left; cbn [ob_client ob_run]; by rewrite Hc1, Hc2).
    assert (forall q, working r1 q = working r q) as Hwk.
    { intros q. unfold working. cbn. destruct (decide (p = q)) as [<-|]; [by rewrite lookup_insert_eq, Ho|by rewrite lookup_insert_ne]. }
    assert (workers_left K r1 = workers_left K r) as Hw1 by (by apply workers_left_ext).
    destruct (ready && bool_decide (ob_run o = RS_N)); [|rewrite Hw1; lia].
    set (r2 := set_objects _ _). assert (forall q x, r_objects r2 !! q = Some x -> r_objects r1 !! q = Some x) as Hsub
      by (intros q x Hx; cbn in Hx; by apply lookup_delete_Some in Hx as [_ Hx]).
    assert (workers_left K r2 <= workers_left K r1)%nat as Hw2.
    { unfold workers_left. apply sum_list_mono. intros x _. apply worker_left_le. intros q. unfold working.
      destruct (r_objects r2 !! q) eqn:Eq; [by rewrite (Hsub _ _ Eq)|done]. }
    assert (clients_left K r2 <= clients_left K r1)%nat; [|lia]. unfold clients_left. etransitivity.
    + apply (sum_list_mono _ (client_left_at K r1)). intros q _. unfold client_left_at.
      destruct (r_objects r2 !! q) eqn:Eq; [by rewrite (Hsub _ _ Eq)|lia].
    + unfold all_clients. cbn [r2 r_clients set_objects set_destroying set_clients r_notifq r1 set_object_at].
      rewrite !sum_list_with_app. pose proof (sum_list_filter (fun q => q <> p) (client_left_at K r1) (r_clients r)). lia.
Qed.

Lemma handle_messages_clients ms : forall r (r' := foldl (fun r m => handle_reactor_msg m r) r ms),
  r_clients r' = r_clients r ++ adds ms.
Proof.
  induction ms as [|m ms IH]; intros r; cbn [foldl]; [by rewrite app_nil_r|].
  cbn zeta in IH. rewrite (IH (handle_reactor_msg m r)). unfold adds. destruct m; cbn; try done. by rewrite <-app_assoc.
Qed.

(** The loop reads its notifications: the clients they add are registered. *)
Lemma handle_messages_rest K r (r' := handle_messages_now r) :
  workers_left K r' = workers_left K r /\ clients_left K r' = clients_left K r /\ registered r' = registered r /\
  r_runq r' = r_runq r /\ r_workers r' = r_workers r /\ nq_pending (r_notifq r') = [] /\ r_io r' = r_io r.
Proof.
  unfold r', handle_messages_now. set (r0 := set_notifq (pull (r_notifq r)).2 r).
  destruct (handle_messages_frame (pull (r_notifq r)).1 r0) as (F1 & F2 & _ & F4 & F5 & F6).
  pose proof (handle_messages_clients (pull (r_notifq r)).1 r0) as Hc. cbn zeta in Hc. set (r2 := foldl _ _ _) in *.
  assert (all_clients r2 = all_clients r) as Ha by (unfold all_clients; rewrite Hc, F6; cbn; by rewrite app_nil_r).
  split; [apply workers_left_ext; [by rewrite F4|intros p; unfold working; by rewrite F1]|].
  split; [apply clients_left_same; [by rewrite F1|done|by rewrite F4]|].
  split; [|by rewrite F2, F4, F5, F6]. unfold registered. rewrite <-!length_app. exact (f_equal length Ha).
Qed.

(** * Every step brings the rest nearer *)

(** There is a byte in the pipe only with a notification. *)
Definition pipe_ok (q : ReactorNotifQ) : Prop := 0 < nq_pipe q -> nq_pending q <> [].

Lemma push_msgs_pipe ms : forall q, pipe_ok q -> pipe_ok (foldl (fun q m => push_msg m q) q ms).
Proof. induction ms as [|m ms IH]; intros q Hq; [done|]. cbn [foldl]. apply IH. intros _. apply push_msg_pending. Qed.

Lemma step_pipe r r' : step r r' -> pipe_ok (r_notifq r) -> pipe_ok (r_notifq r').
Proof.
  intros [r1 r2 Hs|r1 r2 Hs|r1 r2 i Hs|r1|r1|r1 Hio] Hp; try done.
  - destruct Hs; try (by apply push_msgs_pipe); intros _; apply push_msg_pending.
  - destruct Hs as [r3 H _|r3 q todo asked H|r3 asked H|r3 H Hst|r3 a H|r3 p o now inp outp hup c H|r3 H|r3 H|r3 p todo H
      |r3 now H _|r3 now H _|r3 now p todo H|r3 H]; try done; cbn.
    + destruct (handle_messages_frame (pull (r_notifq r3)).1 (set_notifq (pull (r_notifq r3)).2 r3)) as (_ & _ & _ & _ & _ & F).
      cbn in F. rewrite F. intros Hb. cbn in Hb. lia.
    + by destruct (search_client_left 0 p r3) as (_ & _ & _ & ->).
    + by destruct (destroy_client_left now p r3) as (_ & _ & ->).
  - destruct Hs; try done; by apply push_msgs_pipe.
  - intros _. apply push_msg_pending.
Qed.

(** The flag is set only while there is something to read. *)
Definition settling (x : bool * Reactor (T := T)) : Prop :=
  inv x.2 /\ up x.2 /\ pipe_ok (r_notifq x.2) /\ (x.1 = true -> r_io x.2 = IoEvents /\ nq_pending (r_notifq x.2) <> []).

Lemma unread_pending r : unread r = (if bool_decide (nq_pending (r_notifq r) = []) then 0 else 1)%nat.
Proof. done. Qed.

Lemma io_registered r r' : io_step r r' -> (registered r' <= registered r)%nat.
Proof.
  intros Hs. destruct Hs as [r H _|r q todo asked H|r asked H|r H Hst|r a H|r p o now inp outp hup c H|r H|r H|r p todo H
    |r now H _|r now H _|r now p todo H|r H]; try done; try (cbn; lia).
  - destruct (handle_messages_rest 0 r) as (_ & _ & Hg & _). rewrite <-Hg. done.
  - unfold registered, search_client. cbn. destruct (r_objects r !! p); [|done]. by case_bool_decide.
  - unfold registered, destroy_client. cbn. destruct (r_objects r !! p); [|done].
    destruct (destroy_cycle now _) as [c ready]. destruct (ready && _); [|done]. cbn.
    pose proof (length_filter (fun q => q <> p) (r_clients r)). lia.
Qed.

Lemma weigh_set_io K io b r : weigh K b (set_io io r) = (queue_left K r + clients_left K r + loop_left_at io b r)%nat.
Proof. done. Qed.

Lemma round_rest K r r' : inv r -> up r -> io_step r r' -> match r_io r with IoWait _ | IoEvents => False | _ => True end ->
  (weigh K false r' < weigh K false r)%nat.
Proof.
  intros Hr (Hns & _) Hs Hio. pose proof (io_registered r r' Hs) as Hg.
  destruct Hs as [r H _|r q todo asked H|r asked H|r H Hst|r a H|r p o now inp outp hup c H|r H|r H|r p todo H
    |r now H _|r now H _|r now p todo H|r H]; rewrite H in Hio; try done; rewrite weigh_set_io;
    unfold weigh, loop_left; rewrite H; cbn [loop_left_at length]; try lia.
  - unfold registered. lia.
  - pose proof (search_client_rest K p r Hr). destruct (search_client_left K p r) as (_ & _ & -> & _).
    change (registered (set_io ?x ?s)) with (registered s) in Hg. lia.
  - change (queue_left K (set_last_cleanup now r)) with (queue_left K r).
    change (clients_left K (set_last_cleanup now r)) with (clients_left K r).
    change (registered (set_last_cleanup now r)) with (registered r). lia.
  - pose proof (destroy_client_rest K now p r Hr).
    change (registered (set_io ?x ?s)) with (registered s) in Hg. lia.
Qed.

Lemma rest_step_left x y : settling x -> rest_step x y -> (remaining y < remaining x)%nat.
Proof.
  intros (Hr & Hup & _ & Hflag) Hs. destruct Hs as [r asked H Hp|r H|r H|r r' H Hio|b i r r' H]; cbn [fst snd] in *; unfold remaining; cbn [fst snd].
  - change (round_cost (set_io ?x r)) with (round_cost r). rewrite weigh_set_io. unfold weigh, loop_left. rewrite H.
    cbn [loop_left_at]. lia.
  - destruct (Hflag eq_refl) as [_ Hpend]. destruct (handle_messages_rest (round_cost r) r) as (H1 & H2 & H3 & H4 & H5 & H6 & H7).
    assert (round_cost (handle_messages_now r) = round_cost r) as -> by (unfold round_cost; by rewrite H3).
    unfold weigh, queue_left, loop_left. rewrite H1, H2, H4, H7, H, !unread_pending, H6.
    rewrite bool_decide_eq_true_2, bool_decide_eq_false_2 by done. cbn [loop_left_at]. rewrite H3.
    unfold round_cost. lia.
  - pose proof (destroying_length r Hr). change (round_cost (set_io ?x r)) with (round_cost r). rewrite weigh_set_io.
    unfold weigh, loop_left. rewrite H. cbn [loop_left_at]. unfold registered. lia.
  - pose proof (io_registered r r' H). eapply Nat.le_lt_trans; [|by apply round_rest].
    apply weigh_mono. unfold round_cost. lia.
  - pose proof (worker_ends_left (round_cost r) true i r r' H) as H1. pose proof (worker_clients_left (round_cost r) true i r r' Hr H) as H2.
    destruct (worker_step_frame i r r' (proj1 H)) as (Fio & _ & Fc & Fd & _ & _ & Fa).
    assert (registered r' = registered r) as Hg by (unfold registered; by rewrite Fc, Fa).
    assert (round_cost r' = round_cost r) as -> by (unfold round_cost; by rewrite Hg).
    unfold weigh, loop_left, loop_left_at. rewrite Fio, Fd, Hg. lia.
Qed.

(** ** Nothing else begins *)

Lemma push_msgs_from ms : forall (q : ReactorNotifQ) x, x ∈ nq_pending (foldl (fun q m => push_msg m q) q ms) ->
  x ∈ nq_pending q \/ x ∈ ms.
Proof.
  induction ms as [|m ms IH]; intros q x Hx; [by left|]. cbn [foldl] in Hx. apply IH in Hx as [Hx|Hx]; [|right; by right].
  unfold push_msg in Hx. destruct (_ && _); [by left|]. cbn in Hx. apply elem_of_app in Hx as [?| ->%list_elem_of_singleton]; [by left|].
  right. by left.
Qed.

Lemma notification_not_terminate (es : list Client.io_event) : eTerminate ∉ omap notification es.
Proof. intros (e & _ & He)%list_elem_of_omap. by destruct e. Qed.

Lemma handle_messages_up ms : forall r, r_is_stopping r = false -> eTerminate ∉ ms ->
  r_is_stopping (foldl (fun r m => handle_reactor_msg m r) r ms) = false.
Proof.
  induction ms as [|m ms IH]; intros r Hr Hms; [done|]. cbn [foldl]. apply IH.
  - destruct m; try done. destruct Hms. by left.
  - intros H. apply Hms. by right.
Qed.

Lemma worker_up nq i r r' : worker_ends nq i r r' -> up r -> up r'.
Proof.
  intros [Hs Hend] (H1 & H2 & H3 & H4 & H5). destruct (worker_step_frame i r r' Hs) as (Fio & Fs & _).
  unfold up. rewrite Fio, Fs. split; [done|].
  assert (forall y, y <> WExited -> WExited ∉ <[i := y]> (r_workers r)) as Hw.
  { intros y Hy [j Hj]%list_elem_of_lookup. apply list_lookup_insert_Some in Hj as [(_ & Hyx & _)|(_ & Hj)]; [by symmetry in Hyx|].
    apply H5. by eapply list_elem_of_lookup_2. }
  destruct Hs as [r p items Hi Hc Hq|r items Hi Hc Hq|r p o Hi Ho|r p o c w Hi Ho Hw'|r p o c w e Hi Ho Hw' _|r p o Hi Ho o']; cbn.
  - split_and!; [done| |done|by apply Hw]. intros Hn. apply H3. rewrite Hq. by right.
  - destruct H3. rewrite Hq. by left.
  - split_and!; [done..|by apply Hw].
  - split_and!; [|done..|by apply Hw]. intros [?|?]%push_msgs_from; [done|by eapply notification_not_terminate].
  - rewrite Hi in Hend. destruct Hend as (o1 & Ho1 & Hf). rewrite Ho in Ho1. injection Ho1 as <-. unfold finishes in Hf.
    by rewrite Hw' in Hf.
  - split_and!; [done..|]. apply Hw. by case_bool_decide.
Qed.

Lemma round_up r r' : io_step r r' -> match r_io r with IoWait _ | IoEvents => False | _ => True end -> up r -> up r'.
Proof.
  intros Hs Hio (H1 & H2 & H3 & H4 & H5).
  destruct Hs as [r H _|r q todo asked H|r asked H|r H Hst|r a H|r p o now inp outp hup c H|r H|r H|r p todo H
    |r now H _|r now H _|r now p todo H|r H]; rewrite H in Hio; try done; unfold up; cbn; try by split_and!.
  - congruence.
  - unfold search_client. destruct (r_objects r !! p) as [o|]; [|by split_and!]. case_bool_decide; cbn; [|by split_and!].
    split_and!; try done. intros [?|Hn%list_elem_of_singleton]%elem_of_app; done.
  - unfold destroy_client. destruct (r_objects r !! p) as [o|]; [|by split_and!].
    destruct (destroy_cycle now _) as [c ready]. destruct (ready && _); by split_and!.
Qed.

Lemma rest_step_settling x y : settling x -> rest_step x y -> settling y.
Proof.
  intros (Hr & Hup & Hp & Hflag) Hs. assert (step x.2 y.2) as Hst by (by apply rest_step_step).
  split; [by eapply step_inv|]. enough (up y.2 /\ (y.1 = true -> r_io y.2 = IoEvents /\ nq_pending (r_notifq y.2) <> [])) as [H1 H2]
    by (split; [done|]; split; [by eapply step_pipe|done]). clear Hst.
  destruct Hs as [r asked H Hb|r H|r H|r r' H Hio|b i r r' H]; cbn [fst snd] in *.
  - split; [by destruct Hup as (H1 & H2 & H3 & H4 & H5); split_and!|]. intros _. split; [done|]. by apply Hp.
  - split; [|done]. destruct Hup as (H1 & H2 & H3 & H4 & H5).
    destruct (handle_messages_rest 0 r) as (_ & _ & _ & F1 & F2 & F3 & F4). unfold up. rewrite F1, F2, F3, F4.
    split_and!; try done; [by apply handle_messages_up|by apply not_elem_of_nil].
  - split; [|done]. by destruct Hup as (H1 & H2 & H3 & H4 & H5); split_and!.
  - split; [|done]. by eapply round_up.
  - split; [by eapply worker_up|]. intros Hf. destruct (Hflag Hf) as [He Hn].
    destruct (worker_step_frame i r r' (proj1 H)) as (-> & _ & _ & _ & _ & Hk & _). split; [done|].
    destruct (nq_pending (r_notifq r)) as [|m ms] eqn:E; [done|]. specialize (Hk m ltac:(by left)). intros Hnil.
    rewrite Hnil in Hk. by apply not_elem_of_nil in Hk.
Qed.

(** * At rest *)

(** Nothing is left to do: the loop waits in [poll], which knows of all unsent
    output; no client is queued and no worker has one; and whoever still has
    input is being destroyed, for which [poll] wakes up after a second. *)
Definition at_rest r : Prop :=
  (exists asked, r_io r = IoWait asked /\ nq_pending (r_notifq r) = [] /\
     forall p o, p ∈ r_clients r -> r_objects r !! p = Some o -> wants_output (ob_client o) = true -> p ∈ asked) /\
  r_runq r = [] /\ Forall (eq WIdle) (r_workers r) /\
  forall p o, p ∈ r_clients r -> r_objects r !! p = Some o -> has_work (ob_client o) = true ->
    p ∈ r_destroying r /\ poll_timeout r = 1000.

Lemma io_rest b r : settling (b, r) ->
  (exists y, rest_step (b, r) y) \/ exists asked, r_io r = IoWait asked /\ nq_pending (r_notifq r) = [].
Proof.
  intros (Hr & (Hns & _ & _ & Hne & _) & _ & Hflag). cbn [fst snd] in *.
  assert (r_io r <> IoEvents -> b = false) as Hb.
  { intros He. destruct b; [|done]. by destruct (Hflag eq_refl). }
  destruct (r_io r) as [|[|p todo] asked|asked| |[|p todo]|[|p todo]|] eqn:E; try done; try (rewrite Hb by done; clear Hb Hflag).
  - left. eexists. apply rest_round; [by apply io_ask_start|by rewrite E].
  - left. eexists. apply rest_round; [by apply io_wait|by rewrite E].
  - left. eexists. apply rest_round; [by apply io_ask|by rewrite E].
  - destruct (decide (nq_pending (r_notifq r) = [])) as [Hn|Hn]; [right; by exists asked|]. left.
    exists (true, set_io IoEvents r). eapply rest_ready; [done|]. by apply (inv_wakes r Hr).
  - left. destruct b; eexists; [by apply rest_read|by apply rest_search].
  - left. destruct (cleanup_due 0 r) eqn:Ec.
    + eexists. apply rest_round; [by apply (io_destroy_start r 0)|by rewrite E].
    + eexists. apply rest_round; [by apply (io_loop r 0)|by rewrite E].
  - left. eexists. apply rest_round; [by apply io_search|by rewrite E].
  - left. eexists. apply rest_round; [by apply io_destroy_end|by rewrite E].
  - left. eexists. apply rest_round; [by apply (io_destroy r 0)|by rewrite E].
Qed.

Lemma can_rest b r : settling (b, r) -> output_seen r -> (0 < length (r_workers r))%nat -> Z.of_nat (remaining (b, r)) < 2 ^ 64 ->
  at_rest r \/ (exists y, rest_step (b, r) y) \/ stuck true r.
Proof.
  intros Hs Ho Hn Hb. destruct (io_rest b r Hs) as [?|(asked & Hio & Hq)]; [by right; left|].
  destruct Hs as (Hr & (_ & _ & _ & _ & Hx) & _ & _). cbn [snd] in *.
  assert (Z.of_nat (length (r_runq r)) < 2 ^ 64) as Hlen
    by (unfold remaining, weigh, queue_left in Hb; cbn [fst snd] in Hb; nia).
  destruct (decide (Exists (fun x => x = WIdle -> r_runq r <> []) (r_workers r))) as [(x & [i Hi]%list_elem_of_lookup & Hw)%Exists_exists|Hall].
  - right. assert (x <> WExited) as Hne by (intros ->; apply Hx; by eapply list_elem_of_lookup_2).
    destruct (worker_can_end true i x r Hr Hi Hne Hw Hlen) as [[r' H]|?]; [|by right]. left.
    exists (b, r'). by apply (rest_worker b i).
  - left. assert (forall i x, r_workers r !! i = Some x -> x = WIdle /\ r_runq r = []) as Hidle.
    { intros i x Hi%list_elem_of_lookup_2. rewrite Exists_exists in Hall.
      destruct (decide (x = WIdle)) as [->|Hne]; [|destruct Hall; exists x; by split].
      split; [done|]. destruct (decide (r_runq r = [])) as [|Hne]; [done|]. destruct Hall. by exists WIdle. }
    destruct (lookup_lt_is_Some_2 (r_workers r) 0 Hn) as [x0 H0]. destruct (Hidle 0%nat x0 H0) as [_ Hrq].
    assert (Forall (eq WIdle) (r_workers r)) as Hws by (apply Forall_lookup; intros i x Hi; by destruct (Hidle i x Hi)).
    split; [exists asked; split_and!; [done..|]|split_and!; [done..|]].
    + intros p o Hp Hpo Hw. by destruct (Ho asked p o (f_equal asks_about Hio) Hp Hpo Hw).
    + intros p o Hp Hpo Hw. assert (ob_run o = RS_N) as Hrun.
      { destruct (decide (ob_run o = RS_N)) as [|Hrn]; [done|].
        pose proof (s_busy _ _ _ (inv_sched r Hr) p _ (runs_lookup r p o Hpo) Hrn) as Hbusy. rewrite Hrq in Hbusy. cbn in Hbusy.
        apply list_elem_of_omap in Hbusy as (w & Hw' & Hc). rewrite Forall_forall in Hws. by rewrite <-(Hws w Hw') in Hc. }
      destruct (inv_work r Hr p o Hp Hpo Hw Hrun) as [Ha|Ha]; [by rewrite Hio in Ha|]. split; [done|].
      unfold poll_timeout. rewrite bool_decide_eq_false_2; [done|]. intros Hd. rewrite Hd in Ha. by apply not_elem_of_nil in Ha.
Qed.

(** What a run keeps. *)
Definition running (n : nat) (w : T) (x : bool * Reactor (T := T)) : Prop :=
  reachable n w x.2 /\ settling x /\ (0 < length (r_workers x.2))%nat.

Lemma rest_step_workers x y : rest_step x y -> length (r_workers y.2) = length (r_workers x.2).
Proof.
  intros [r asked H _|r H|r H|r r' H _|b i r r' [H _]]; cbn [snd]; try done.
  - by destruct (handle_messages_rest 0 r) as (_ & _ & _ & _ & -> & _).
  - by destruct (io_step_frame r r' H) as (-> & _).
  - by eapply worker_step_length.
Qed.

Lemma rest_step_running n w x y : running n w x -> rest_step x y -> running n w y /\ (remaining y < remaining x)%nat.
Proof.
  intros (H1 & H2 & H3) Hs. split; [|by apply rest_step_left]. split; [eapply reach_step; [exact H1|by apply rest_step_step]|].
  split; [by eapply rest_step_settling|]. by rewrite (rest_step_workers x y Hs).
Qed.

Lemma running_can_rest n w x : running n w x -> Z.of_nat (remaining x) < 2 ^ 64 ->
  at_rest x.2 \/ (exists y, rest_step x y) \/ stuck true x.2.
Proof. destruct x as [b r]. intros (H1 & H2 & H3) Hb. apply can_rest; [done|by eapply reachable_output|done..]. Qed.

Lemma runs_running n w x y : running n w x -> rtc rest_step x y -> running n w y /\ (remaining y <= remaining x)%nat.
Proof.
  intros Hx Hs. induction Hs as [x|x y z H1 _ IH]; [done|]. destruct (rest_step_running n w x y Hx H1) as [Hy Hlt].
  destruct (IH Hy) as [? ?]. split; [done|lia].
Qed.

(** C10. What has arrived gets done, and then there is rest.  From any state of
    the running reactor (it has workers and has not been told to stop), when
    nothing more arrives, the loop and the workers can only take a bounded
    number of steps, in whatever order, and wherever they cannot go on, or
    after some such run, every client has been served: the loop waits in
    [poll], which reports every client with unsent output; the run queue is
    empty and all workers sleep; and no registered client has unprocessed
    input, except one that is being destroyed, for which [poll] wakes up.  It
    can only stop short where a worker holds a client with which it does not
    finish, because [do_work] throws or leaves work.  (Each step left stands for
    an object in memory, so there are fewer than 2^64.) *)
Theorem reactor_comes_to_rest n w b r : reachable n w r -> up r -> (0 < length (r_workers r))%nat ->
  (b = true -> r_io r = IoEvents /\ nq_pending (r_notifq r) <> []) -> Z.of_nat (remaining (b, r)) < 2 ^ 64 ->
  (forall k y, nsteps rest_step k (b, r) y -> (k <= remaining (b, r))%nat) /\
  (forall y, rtc rest_step (b, r) y -> (forall z, ~ rest_step y z) -> at_rest y.2 \/ stuck true y.2) /\
  exists y, rtc rest_step (b, r) y /\ (at_rest y.2 \/ stuck true y.2).
Proof.
  intros Hr Hup Hn Hflag Hb. assert (running n w (b, r)) as Hx.
  { split; [done|]. split; [|done]. split; [by eapply reachable_inv|]. split; [done|]. split; [|done]. cbn [snd].
    clear - WC Hr. induction Hr as [|r r' _ IH Hs]; [done|by eapply step_pipe]. }
  clear Hr Hup Hn Hflag. revert Hx Hb. generalize (b, r). clear b r. intros x Hx Hb. split; [|split].
  - intros k. revert x Hx Hb. induction k as [|k IH]; intros x Hx Hb y Hs; [lia|].
    inversion Hs as [|? ? x1 ? H1 Hs1]; subst. destruct (rest_step_running n w x x1 Hx H1) as (Hx1 & Hlt).
    specialize (IH x1 Hx1 ltac:(lia) y Hs1). lia.
  - intros y Hs Hstuck. destruct (runs_running n w x y Hx Hs) as [Hy Hle].
    destruct (running_can_rest n w y Hy ltac:(lia)) as [?|[[z Hz]|?]]; [by left|by destruct (Hstuck z)|by right].
  - remember (remaining x) as m eqn:Em. revert x Em Hx Hb. induction (lt_wf m) as [m _ IH]. intros x -> Hx Hb.
    destruct (running_can_rest n w x Hx Hb) as [?|[[y H1]|?]]; [exists x; split; [done|by left]| |exists x; split; [done|by right]].
    destruct (rest_step_running n w x y Hx H1) as (Hy & Hlt). destruct (IH _ Hlt y eq_refl Hy ltac:(lia)) as (z & Hs & He).
    exists z. split; [by eapply rtc_l|done].
Qed.

End rest.

(** * A client is served *)

#[local] Existing Instance echo_callback.

#[local] Instance echo_waking : WakingCallback unit.
Proof.
  split.
  - intros c s src n c' s' r [= <- _ _]. apply queue_notified.
  - by intros c s c' s' [= <- _].
Qed.

(** A client is registered and two bytes have been read from it. *)
Lemma demo_read_running : reachable 1 tt demo_read /\ up demo_read.
Proof.
  split.
  - pose proof (reach_new 1 tt) as H.
    eapply reach_step in H; [|exact (step_app _ _ (app_new_client (new_reactor 1 tt) 1 7 0 true eq_refl))].
    eapply reach_step in H; [|by apply step_io, io_ask_start].
    eapply (reach_step _ _ _ demo_polling) in H; [|exact (step_io _ _ (io_wait (set_io (IoAsk [] []) demo_new) [] eq_refl))].
    eapply (reach_step 1 tt demo_polling) in H; [|by eapply step_io, io_ready].
    eapply reach_step in H; [|by apply step_io, io_messages].
    eapply reach_step in H; [exact H|]. apply step_io.
    apply (io_event _ 1 (Object (new_client 7 0 true) RS_N) 5 (Some (ReadOk (str "hi"))) None false); [reflexivity|by left|reflexivity..].
  - split_and!; try done; [by apply not_elem_of_nil..|]. intros [[=]|[]%not_elem_of_nil]%elem_of_cons.
Qed.

Lemma reactor_comes_to_rest_witness : has_work demo_client = true /\ remaining (false, demo_read) = 53%nat /\
  exists y, rtc rest_step (false, demo_read) y /\ (at_rest y.2 \/ stuck true y.2).
Proof.
  split; [reflexivity|]. split; [vm_compute; reflexivity|].
  apply (reactor_comes_to_rest 1 tt false demo_read (proj1 demo_read_running) (proj2 demo_read_running)); [| |].
  - apply Nat.ltb_lt. reflexivity.
  - discriminate.
  - vm_compute. reflexivity.
Defined.

(** The run to its end: the worker takes the client and queues the reply, which
    notifies the loop; in its next round the loop asks [poll] for output. *)
Definition demo_replied : Reactor (T := unit) :=
  let r := set_io (IoSearch (r_clients demo_read)) demo_read in
  let r := set_io IoPoll (set_io (IoSearch []) (search_client 1 r)) in
  let r := set_io (IoWait []) r in
  let r := set_worker 0 (WPopped 1) (set_runq [] (size_t (r_itemcount r - 1)) r) in
  let o := Object demo_client RS_R in
  let r := set_worker 0 (WRunning 1) (set_object_at 1 o r) in
  match do_work demo_client tt with
  | Ok (c, w) => set_worker 0 (WWorked 1) (set_world w (client_call 1 o c r))
  | Throw _ => r
  end.
Definition demo_last : Reactor (T := unit) :=
  let o := default (Object demo_client RS_R) (r_objects demo_replied !! 1) in
  let r := set_worker 0 WIdle (set_object_at 1 (update_run_state_for_worker o) demo_replied) in
  let r := handle_messages_now (set_io IoEvents r) in
  let r := set_io (IoSearch (r_clients r)) r in
  set_io IoPoll (set_io (IoSearch []) (search_client 1 r)).
Definition demo_rest : Reactor (T := unit) := set_io (IoWait [1]) demo_last.

Lemma demo_rests : rtc rest_step (false, demo_read) (false, demo_rest) /\ at_rest demo_rest /\ r_io demo_rest = IoWait [1].
Proof.
  split; [|split; [|reflexivity]].
  - eapply rtc_l; [by apply rest_search|].
    eapply rtc_l; [apply rest_round; [by apply (io_search _ 1 [])|exact I]|].
    eapply rtc_l; [apply rest_round; [by apply (io_loop _ 100)|exact I]|].
    eapply rtc_l; [apply rest_round; [by apply io_ask_start|exact I]|].
    eapply rtc_l; [apply rest_round; [by apply (io_ask _ 1 [] [])|exact I]|].
    eapply rtc_l; [apply rest_round; [by apply (io_wait _ [])|exact I]|].
    eapply rtc_l; [apply (rest_worker false 0%nat); split; [eapply step_pop; [reflexivity|vm_compute; discriminate|reflexivity]|exact I]|].
    eapply rtc_l; [apply (rest_worker false 0%nat); split; [eapply step_run; reflexivity|exact I]|].
    eapply (rtc_l _ _ (false, demo_replied)).
    { apply (rest_worker false 0%nat). split; [|exists (Object demo_client RS_R); split; vm_compute; reflexivity].
      apply (step_work 0 _ 1 (Object demo_client RS_R)); vm_compute; reflexivity. }
    eapply rtc_l; [apply (rest_worker false 0%nat); split; [eapply step_update; reflexivity|exact I]|].
    eapply rtc_l; [by eapply rest_ready|]. eapply rtc_l; [by apply rest_read|]. eapply rtc_l; [by apply rest_search|].
    eapply rtc_l; [apply rest_round; [by apply (io_search _ 1 [])|exact I]|].
    eapply rtc_l; [apply rest_round; [by apply (io_loop _ 100)|exact I]|].
    match goal with |- rtc _ (_, ?s) _ => assert (s = demo_last) as -> by (vm_compute; reflexivity) end.
    eapply rtc_l; [apply rest_round; [exact (io_ask_start demo_last eq_refl eq_refl)|exact I]|].
    pose proof (io_ask (set_io (IoAsk [1] []) demo_last) 1 [] [] eq_refl) as Hs.
    assert (asks_output (set_io (IoAsk [1] []) demo_last) 1 = true) as Ha by (vm_compute; reflexivity). rewrite Ha in Hs.
    eapply rtc_l; [apply rest_round; [exact Hs|exact I]|].
    assert (forall x y (r : Reactor (T := unit)), set_io x (set_io y r) = set_io x r) as Hset by done. rewrite Hset.
    pose proof (io_wait (set_io (IoAsk [] [1]) demo_last) [1] eq_refl) as Hw. rewrite Hset in Hw.
    apply rtc_once, rest_round; [exact Hw|exact I].
  - split; [|split; [|split]]; [|reflexivity| |].
    + exists [1]. split; [reflexivity|]. split; [reflexivity|]. intros p o Hp _ _. exact Hp.
    + apply Forall_singleton. reflexivity.
    + intros p o Hp Ho Hw. apply list_elem_of_singleton in Hp as ->. vm_compute in Ho. injection Ho as <-. discriminate Hw.
Qed.
