(* ===== verification/Monitor.v ===== *)
(** The collection of monitoring tables: [Monitor] of [Monitor.h] and
    [Monitor.cc].

    [m_tables] maps names to tables; tables are created on first use and never
    removed, so the [DataTable*] the code takes from the map stays the entry
    of its name.  The outputs of an operation are the calls of
    [AdminInterfaceImpl::send_one]; [session_list] is what
    [AdminInterfaceImpl::session_list] returns at the time of the call. *)

From S2P Require Import Prelude Decimal Utils TxContainer SamBuffer SamProtocol MsgIDs TableEvents Table.

Local Open Scope Z_scope.

Abbreviation Monitor := (gmap string DataTable).

Abbreviation monitor_op A := (eff send Monitor A).

(** Running a table operation through the pointer found under [name]. *)
Definition on_table {A} (name : string) (op : table_op A) : monitor_op A := fun M =>
  match M !! name with
  | Some t => let '(t, w, r) := op t in (<[name := t]> M, w, r)
  | None => (M, [], Throw (undefined_behaviour "null table"))
  end.

(** A loop over all tables, in the order of their names. *)
Definition for_tables (op : table_op unit) : monitor_op unit :=
  M ← get; for_each (fun name => on_table name op) (map_iter M).*1.

Definition unsubscribe_all (id : Z) : monitor_op unit :=
  for_tables (modify (del_subscriber id)).

Definition subscribe_all (id : Z) : monitor_op unit :=
  for_tables (catch_std (add_subscriber id)).

Section operations.
Context (e : env) (session_list : list Z).

Definition create_table_NOLOCK (table_name : string) : monitor_op unit := fun M =>
  let '(table, w, r) := for_each add_subscriber session_list (new_table table_name) in
  match r with
  | Ok _ => (<[table_name := table]> M, w, Ok ())
  | Throw ex => (M, w, Throw ex)
  end.

(** [op] on the table [table_name], created first when there is none. *)
Definition on_or_create {A} (table_name : string) (op : table_op A) : monitor_op A :=
  M ← get;
  match M !! table_name with
  | None => create_table_NOLOCK table_name;; on_table table_name op
  | Some _ => on_table table_name op
  end.

(** [op] on the table [table_name] if there is one. *)
Definition on_existing (table_name : string) (op : table_op unit) : monitor_op unit :=
  M ← get;
  match M !! table_name with
  | Some _ => on_table table_name op
  | None => mret ()
  end.

Definition add_columns (table_name : string) (cols : list string) : monitor_op unit :=
  on_or_create table_name (Table.add_columns e cols).

Definition update_table (table_name row_key : string) (fields : gmap string string) : monitor_op unit :=
  on_or_create table_name (Table.update_row e row_key fields).

Definition update_meta (table_name row_key column : string) (meta : txContainer) : monitor_op unit :=
  on_or_create table_name (Table.update_meta e row_key column meta).

Definition table_column_attr (table_name column : string) (attribute : txContainer) : monitor_op unit :=
  on_or_create table_name (modify (Table.add_column_attr column attribute)).

Definition clear_all_tables : monitor_op unit := for_tables (Table.clear_table e).

Definition clear_table (tablename : string) : monitor_op unit :=
  on_existing tablename (Table.clear_table e).

Definition delete_row (tablename rowkey : string) : monitor_op unit :=
  on_existing tablename (Table.delete_row e rowkey).

Definition broadcast_snapshot_all : monitor_op unit := for_tables (Table.snapshot e).

Definition broadcast_snapshot (tablename : string) : monitor_op unit :=
  on_existing tablename (Table.snapshot e).

End operations.

(** * Queries *)

Definition tables (M : Monitor) : list string := (map_iter M).*1.
Definition table_exists (M : Monitor) (table_name : string) : bool :=
  bool_decide (is_Some (M !! table_name)).
Definition has_table (M : Monitor) (tablename : string) : bool :=
  bool_decide (is_Some (M !! tablename)).
Definition table_subscribers (M : Monitor) (table_name : string) (l : list Z) : list Z :=
  match M !! table_name with Some t => Table.table_subscribers t l | None => l end.
Definition has_row (M : Monitor) (tablename rowkey : string) : bool :=
  match M !! tablename with Some t => Table.has_row t rowkey | None => false end.
Definition copy_table (M : Monitor) (tablename : string) (dest : gmap string (gmap string string))
    : gmap string (gmap string string) :=
  match M !! tablename with Some t => Table.copy_table t dest | None => dest end.
Definition copy_table2 (M : Monitor) (tablename : string) (cols : list string) (rows : list (list string))
    : list string * list (list string) :=
  match M !! tablename with Some t => Table.copy_table2 t rows | None => (cols, rows) end.
Definition copy_row (M : Monitor) (tablename rowkey : string) (dest : gmap string string)
    : result (gmap string string) :=
  match M !! tablename with Some t => Table.copy_row t rowkey dest | None => Ok dest end.
Definition table_size (M : Monitor) (tablename : string) : Z :=
  match M !! tablename with Some t => Table.table_size t | None => 0 end.
Definition copy_field (M : Monitor) (tablename rowkey field dest : string) : result (string * bool) :=
  match M !! tablename with Some t => Table.copy_field t rowkey field dest | None => Ok (dest, false) end.
Definition copy_rowkeys (M : Monitor) (tablename : string) (dest : list string) : list string :=
  match M !! tablename with Some t => Table.copy_rowkeys t dest | None => dest end.
