(* ===== verification/MonitorView.v ===== *)
(** What a session knows of the monitor: the messages of [Monitor] and the
    view a receiver builds from them, the monitor's invariant, and the
    convergence of views for sessions that join at any time. *)

From S2P Require Import Prelude Decimal Utils TxContainer SamBuffer SamProtocol MsgIDs TableEvents Table TableFacts Snapshot TableProps Monitor.

Local Open Scope Z_scope.

(** * The shape of table messages *)

(** The table a message is about. *)
Definition message_table (m : txMessage) : option string :=
  f_value <$> find_field_qn (m_root m) id.QN_tablename.

Lemma message_table_eq m : message_table m =
  h ← find_child (m_root m) id.head; f_value <$> find_field h id.tablename.
Proof.
  unfold message_table, find_field_qn. cbn [id.QN_tablename removelast find_tree_const].
  destruct (find_child (m_root m) id.head) as [h|]; [|done]. done.
Qed.

(** Writing into the body changes neither the type nor the table. *)
Lemma body_update_head m g : indexed (m_root m) -> (forall d, m_name (g d) = m_name d) ->
  let m' := on_root (fun r => put_child_with r id.body g) m in
  indexed (m_root m') /\ msg_type m' = msg_type m /\ message_table m' = message_table m.
Proof.
  intros Hc Hg. cbv zeta. unfold on_root, msg_type. rewrite !message_table_eq. cbn [m_root].
  split; [by apply indexed_put_child_with|]. split; [apply m_name_put_child_with|].
  by rewrite find_child_put_child_with by (done || by rewrite Hg).
Qed.

Lemma containers_put_found c n g d : indexed c -> find_child c n = Some d -> containers c = [d] ->
  containers (put_child_with c n g) = [g d].
Proof.
  intros Hc Hf Hs. apply find_child_Some in Hf as (i & Hi & Hit); [|done].
  unfold put_child_with. rewrite Hi. unfold containers, alter_child, alter_item. cbn [m_items].
  pose proof (take_drop_middle _ _ _ Hit) as Hsp. pose proof Hs as Hs'. unfold containers in Hs'.
  rewrite <-Hsp, omap_app in Hs'. cbn [omap list_omap item_container] in Hs'.
  destruct (omap item_container (take i (m_items c))) as [|x l] eqn:E1.
  - cbn in Hs'. injection Hs' as E2.
    rewrite <-Hsp at 1. rewrite alter_app_r_alt by (rewrite length_take; lia).
    rewrite length_take_le by (apply lookup_lt_Some in Hit; lia). rewrite Nat.sub_diag.
    rewrite omap_app, E1. cbn. by f_equal.
  - apply (f_equal length) in Hs'. rewrite length_app in Hs'. simpl in Hs'. lia.
Qed.

(** A table update about [n] with the given rows. *)
Definition update_about (n : string) (m : txMessage) : Prop :=
  msg_type m = id.tableupdate /\ message_table m = Some n.

Lemma put_field_qn_type m q v : wf (m_root m) -> msg_type (on_root (fun r => put_field_qn r q v) m) = msg_type m.
Proof.
  intros Hm. unfold msg_type, on_root. cbn [m_root]. unfold put_field_qn.
  apply (wf_update_buid_tree (removelast q)); [apply wf_update_put_field|done].
Qed.

(** ** Row updates *)

Definition one_row (n : string) (row : txContainer) (m : txMessage) : Prop :=
  wf (m_root m) /\ update_about n m /\ message_row m = Some row /\ message_rows m = [row].

Lemma init_msg_one n k :
  one_row n (put_field (new_container row_0) id.row_key k)
    (UpdateSerialiser_init_msg (new_message EmptyString) n k).
Proof.
  split; [apply init_msg_wf|]. split; [split; vm_compute; reflexivity|].
  split; [apply init_msg_row|vm_compute; reflexivity].
Qed.

Lemma add_update_one n row m c v : one_row n row m ->
  one_row n (put_field row c v) (UpdateSerialiser_add_update c v m).1.
Proof.
  intros (Hw & [Ht Hn] & Hr & Hrs). pose proof (wf_update_put_field c v) as Hp.
  cbn [UpdateSerialiser_add_update fst].
  destruct (body_update_head m (fun body => put_child_with body row_0 (fun row => put_field row c v)))
    as (_ & Ht' & Hn'); [by apply wf_indexed|intros d; apply m_name_put_child_with|].
  split; [cbn [on_root m_root]; by apply (wf_update_row _ Hp)|]. split; [split; congruence|].
  split; [rewrite message_row_update by done; by rewrite Hr|].
  unfold message_row in Hr. unfold message_rows in *. cbn [on_root m_root].
  pose proof (wf_indexed _ Hw) as Hix.
  rewrite find_child_put_child_with by (done || apply m_name_put_child_with). rewrite decide_True by done.
  destruct (find_child (m_root m) id.body) as [b|] eqn:Eb; [|done]. cbn [default mbind option_bind] in *.
  apply (containers_put_found b row_0 (fun row => put_field row c v)); [|done|done]. eapply wf_indexed, find_child_wf; [exact Hw|exact Eb].
Qed.

Lemma update_message_one n k fields msglist m :
  RowMultiUpdate_serialise n k fields msglist = Ok (msglist ++ [m]) ->
  exists row, one_row n row m.
Proof.
  destruct (RowMultiUpdate_serialise_one n k fields msglist) as (m' & -> & ->).
  intros [= Heq]. apply app_inj_tail in Heq as [_ <-].
  pose proof (init_msg_one n k) as H. revert H.
  generalize (put_field (new_container row_0) id.row_key k).
  generalize (UpdateSerialiser_init_msg (new_message EmptyString) n k).
  induction (map_iter fields) as [|[c v] l IH]; intros m row Hm; cbn [foldl]; [by exists row|].
  eapply IH, add_update_one, Hm.
Qed.

(** ** Snapshot messages *)

Lemma snapshot_batch_about t rows : metas_wf t -> update_about (m_table_name t) (snapshot_batch t rows).
Proof.
  intros Hm. induction rows as [|row rows IH] using rev_ind; [split; vm_compute; reflexivity|].
  unfold snapshot_batch in *. rewrite foldl_app. cbn [foldl].
  pose proof (snapshot_batch_holds t rows Hm) as [Hw _]. unfold snapshot_batch in Hw.
  destruct IH as [Ht Hn]. set (m := foldl _ _ rows) in *. clearbody m.
  destruct (body_update_head m (snapshot_body_add row (m_pcmd t !! m_rowkey row))) as (_ & Ht' & Hn').
  { by apply wf_indexed. }
  { intros d. unfold snapshot_body_add. by rewrite m_name_put_field, m_name_put_child_with. }
  split; [exact (eq_trans Ht' Ht)|exact (eq_trans Hn' Hn)].
Qed.

Lemma number_one_about n i c m : wf (m_root m) -> update_about n m -> update_about n (number_one i c m).
Proof.
  intros Hw [Ht Hn]. unfold number_one, update_about.
  assert (wf (put_field_qn (m_root m) id.QN_head_snapi (to_str i))) as Hw1 by (by apply wf_put_field_qn).
  split.
  - etransitivity; [|exact Ht]. etransitivity; [|exact (put_field_qn_type m id.QN_head_snapi (to_str i) Hw)].
    exact (put_field_qn_type (on_root (fun r => put_field_qn r id.QN_head_snapi (to_str i)) m)
      id.QN_head_snapn c Hw1).
  - unfold message_table, on_root in *. cbn [m_root]. rewrite !find_field_qn_put_field_qn by done.
    do 2 rewrite decide_False by (intros [_ ?]; done). done.
Qed.

Lemma snapshot_numbered_about t i c batches : metas_wf t ->
  Forall (update_about (m_table_name t)) (number_snapshot i c (map (snapshot_batch t) batches)).
Proof.
  intros Hm. revert i. induction batches as [|b batches IH]; intros i; cbn [map number_snapshot]; [done|].
  constructor; [|apply IH]. fold (number_one i c (snapshot_batch t b)).
  apply number_one_about; [apply (snapshot_batch_holds t b Hm)|by apply snapshot_batch_about].
Qed.

(** ** Descriptions *)

Lemma table_description_about t :
  msg_type (table_description t) = id.tabledescr /\ message_table (table_description t) = Some (m_table_name t).
Proof.
  unfold table_description.
  assert (forall l m, indexed (m_root m) ->
    msg_type (foldl tabledescr_add_column m l) = msg_type m /\
    message_table (foldl tabledescr_add_column m l) = message_table m) as H.
  { induction l as [|c l IH]; intros m Hx; cbn [foldl]; [done|].
    destruct (body_update_head m (fun body => put_child_with body id.columns (fun columns =>
      let ncols := Z.of_nat (count_child columns) in
      let columns := put_child_with columns (id.msg_prefix +:+ print_unsigned ncols) (fun colcont =>
        let colcont := put_field colcont id.colname c.1 in
        foldl put_child_copy colcont (default [] c.2)) in
      put_field columns id.msgcount (to_str (ncols + 1))))) as (Hx' & Ht & Hn);
      [done|intros d; apply m_name_put_child_with|].
    change (on_root _ m) with (tabledescr_add_column m c) in Hx', Ht, Hn.
    destruct (IH _ Hx') as [Ht' Hn']. split; congruence. }
  destruct (H ((fun c => (c, m_column_attrs t !! c)) <$> known_columns t) (tabledescr_new (m_table_name t)))
    as [-> ->]; [|split; vm_compute; reflexivity].
  unfold tabledescr_new, on_root. cbn [m_root new_message].
  apply (indexed_put_child_with _ id.body (fun body => put_child_with body id.columns _)).
  - apply wf_indexed. do 2 apply wf_put_field_qn. apply wf_new_container.
  - intros d. apply m_name_put_child_with.
Qed.

(** * Views *)

(** The copy of the tables a receiver keeps: a description starts a table
    afresh, an update merges the rows it carries, a clear empties it. *)
Abbreviation view := (gmap string replica).

Definition view_apply (V : view) (m : txMessage) : view :=
  match message_table m with
  | Some n =>
      if bool_decide (msg_type m = id.tabledescr \/ msg_type m = id.tableclear) then <[n := ∅]> V
      else if bool_decide (msg_type m = id.tableupdate) then
        <[n := foldl apply_row (default ∅ (V !! n)) (message_rows m)]> V
      else V
  | None => V
  end.

(** What [s] makes of the messages sent to it. *)
Definition observe (s : Z) (V : view) (outs : list send) : view := foldl view_apply V (messages_to s outs).

Lemma observe_app s V k l : observe s V (k ++ l) = observe s (observe s V k) l.
Proof. unfold observe, messages_to. by rewrite flat_map_app, foldl_app. Qed.

Lemma view_apply_update n m V : update_about n m ->
  view_apply V m = <[n := foldl apply_row (default ∅ (V !! n)) (message_rows m)]> V.
Proof.
  intros [Ht Hn]. unfold view_apply. rewrite Hn, Ht. rewrite bool_decide_eq_false_2 by (by intros [|]).
  by rewrite bool_decide_eq_true_2.
Qed.

Lemma view_apply_snapshot n msgs V R : Forall (update_about n) msgs -> V !! n = Some R ->
  foldl view_apply V msgs = <[n := apply_snapshot R msgs]> V.
Proof.
  intros Hm. revert V R. induction Hm as [|m msgs Hm Hms IH]; intros V R HV; cbn [foldl].
  { by rewrite insert_id. }
  rewrite (view_apply_update n m V Hm), HV. cbn [default].
  rewrite (IH _ (foldl apply_row R (message_rows m))) by (by rewrite lookup_insert_eq).
  by rewrite insert_insert_eq.
Qed.

Lemma view_apply_event n V R ev msglist : update_event n ev -> V !! n = Some R -> exists msgs,
  serialise ev msglist = Ok (msglist ++ msgs) /\
  foldl view_apply V msgs = <[n := apply_event R ev]> V.
Proof.
  intros Hu HV. destruct ev as [t c|t k|t k|t k evf|t|t k c meta]; try done.
  - exists []. rewrite app_nil_r. split; [done|]. by rewrite insert_id.
  - exists []. rewrite app_nil_r. split; [done|]. by rewrite insert_id.
  - destruct Hu as [-> Hu].
    destruct (apply_update_message n k evf msglist R Hu) as (m & E & Hm).
    destruct (update_message_one n k evf msglist m E) as (row & _ & Hab & Hr & Hrs).
    exists [m]. split; [done|]. cbn [foldl]. rewrite (view_apply_update n m V Hab), HV, Hrs. cbn [default foldl].
    rewrite <-Hm. unfold apply_message, apply_row. by rewrite Hr.
Qed.

Lemma view_apply_events n evs : Forall (update_event n) evs ->
  forall V R msglist, V !! n = Some R -> exists msgs,
  serialise_all evs msglist = Ok (msglist ++ msgs) /\
  foldl view_apply V msgs = <[n := foldl apply_event R evs]> V.
Proof.
  induction 1 as [|ev evs Hev Hevs IH]; intros V R msglist HV; cbn [serialise_all foldl].
  { exists []. rewrite app_nil_r, insert_id by done. done. }
  destruct (view_apply_event n V R ev msglist Hev HV) as (m1 & -> & Hm1). cbn [mbind result_bind].
  destruct (IH (<[n := apply_event R ev]> V) (apply_event R ev) (msglist ++ m1)) as (m2 & -> & Hm2);
    [by rewrite lookup_insert_eq|].
  exists (m1 ++ m2). rewrite app_assoc, foldl_app, Hm1, Hm2. by rewrite insert_insert_eq.
Qed.

(** * Tables observed by a session *)

(** The table [n] with [s] among its subscribers, once. *)
Record tracked (s : Z) (n : string) (t : DataTable) : Prop := {
  tr_name : m_table_name t = n;
  tr_inv : table_inv t;
  tr_sub : s ∈ m_subscribers t;
  tr_once : NoDup (m_subscribers t) }.

(** [op] succeeds on [t], keeps it tracked, and a view that agreed with the
    table agrees with it again after the messages. *)
Definition op_observed (s : Z) (n : string) (t : DataTable) (op : table_op unit) : Prop :=
  exists t' w, op t = (t', w, Ok ()) /\ tracked s n t' /\
    forall V, V !! n = Some (contents t) -> observe s V w = <[n := contents t']> V.

(** Every row fits a snapshot message of its own. *)
Definition rows_fit (t : DataTable) : Prop :=
  Forall (fun row => check_enc_size (snapshot_batch t [row]) room_for_snap_fields = true) (m_rows t).

Section observed.
Context (s : Z).

Lemma published_observed e n t t' evs msgs V : session_exists e s = true -> tracked s n t ->
  m_subscribers t' = m_subscribers t -> serialise_all evs [] = Ok msgs -> Forall (update_event n) evs ->
  foldl apply_event (contents t) evs = contents t' -> V !! n = Some (contents t) ->
  observe s V (published e t' msgs) = <[n := contents t']> V.
Proof.
  intros He [Hn Hi Hs Hnd] Hsub Es Hev Hrep HV. unfold observe. rewrite messages_to_published.
  - destruct (view_apply_events n evs Hev V (contents t) [] HV) as (msgs' & Es' & Hm).
    rewrite Es in Es'. injection Es' as ->. by rewrite Hm, Hrep.
  - unfold copy_subscribers. rewrite Hsub. by apply list_elem_of_filter.
  - by rewrite Hsub.
Qed.

Lemma update_row_observed e n t k fields : session_exists e s = true -> tracked s n t ->
  (exists f v, reserved f = false /\ fields !! f = Some v) ->
  op_observed s n t (Table.update_row e k fields).
Proof.
  intros He Ht Hf. pose proof Ht as [Hn Hi Hs Hnd]. unfold op_observed.
  destruct (update_row_replay e k fields t Hi (or_intror Hf))
    as (t' & evs & msgs & -> & Es & Hev & Hi' & Hn' & Hsub & Hrep). rewrite Hn in Hev.
  exists t', (published e t' msgs). split; [done|]. split; [split; [congruence|done|by rewrite Hsub..]|].
  intros V HV. by apply (published_observed e n t t' evs).
Qed.

Lemma add_columns_observed e n t cols : session_exists e s = true -> tracked s n t ->
  op_observed s n t (Table.add_columns e cols).
Proof.
  intros He Ht. pose proof Ht as [Hn Hi Hs Hnd].
  unfold op_observed, Table.add_columns, mbind, eff_bind, get, put.
  pose proof (add_columns_spec e cols t Hi) as Ha. destruct (add_columns_NOLOCK e cols t) as [t' evs].
  destruct Ha as (Hi' & _ & Hev & Hn' & Hsub & Hrep & _). rewrite Hn in Hev.
  destruct (publish_if_any e evs t') as (msgs & Es & ->).
  exists t', (published e t' msgs). split; [done|]. split; [split; [congruence|done|by rewrite Hsub..]|].
  intros V HV. by apply (published_observed e n t t' evs).
Qed.

Lemma clear_table_observed e n t : session_exists e s = true -> tracked s n t ->
  exists t' w, Table.clear_table e t = (t', w, Ok ()) /\ tracked s n t' /\
    forall V, observe s V w = <[n := contents t']> V.
Proof.
  intros He [Hn Hi Hs Hnd]. unfold Table.clear_table, mbind, eff_bind, modify, get.
  set (t' := set_rows [] ∅ t).
  destruct (publish_spec e [TableCleared (m_table_name t')] t') as (msgs & Es & ->).
  exists t', (published e t' msgs). split; [done|]. split.
  { split; [done| |done|done]. split; [apply index_of_nil|apply Hi|constructor|apply Hi]. }
  intros V. unfold observe. rewrite messages_to_published; [|by apply list_elem_of_filter|done].
  cbn in Es. injection Es as <-. cbn [foldl]. change (contents t') with (∅ : replica).
  unfold view_apply. replace (message_table _) with (Some n); [done|]. rewrite <-Hn.
  vm_compute. reflexivity.
Qed.

Lemma column_attr_observed n t column attribute : tracked s n t ->
  op_observed s n t (modify (Table.add_column_attr column attribute)).
Proof.
  intros [Hn Hi Hs Hnd]. eexists _, []. split; [done|]. split; [split; [done|split; apply Hi|done..]|].
  intros V HV. by rewrite insert_id.
Qed.

(** ** Joining *)

Lemma snapshot_ok s' t : table_inv t -> rows_fit t -> exists b batches,
  nolock_send_snapshopt s' t = (set_batchsize b t,
    [SendList (number_snapshot 0 (to_str (Z.of_nat (length batches))) (map (snapshot_batch t) batches)) s'],
    Ok ()) /\ concat batches = m_rows t /\ Forall (fun rows => rows <> []) batches /\ 1 <= b <= 500.
Proof.
  intros Hi Hfit. pose proof (ti_batch t Hi) as Hb.
  pose proof (snapshot_loop_spec (length (m_rows t) + Z.to_nat (m_batchsize t)) t (m_batchsize t) (m_rows t)
    ltac:(lia) ltac:(lia)) as Hl.
  unfold nolock_send_snapshopt, mbind, eff_bind, get, of_result, emit, modify.
  destruct (snapshot_loop _ t (m_batchsize t) (m_rows t)) as [[msgs b]|ex].
  - destruct Hl as (batches & Hcat & -> & Hne & _ & Hb'). exists b, batches. rewrite length_map.
    do 3 (split; [done|]). lia.
  - destruct Hl as (_ & row & Hin & Hno). unfold rows_fit in Hfit. rewrite Forall_forall in Hfit.
    rewrite (Hfit row Hin) in Hno. done.
Qed.

Lemma snapshot_observed t batches V : table_inv t -> metas_wf t -> concat batches = m_rows t ->
  V !! m_table_name t = Some ∅ ->
  foldl view_apply V (number_snapshot 0 (to_str (Z.of_nat (length batches))) (map (snapshot_batch t) batches)) =
  <[m_table_name t := contents t]> V.
Proof.
  intros Hi Hm Hcat HV. rewrite (view_apply_snapshot (m_table_name t) _ V ∅); [|by apply snapshot_numbered_about|done].
  rewrite apply_snapshot_batches; rewrite ?Hcat; [|exact Hm| | |].
  - by rewrite (right_id_L ∅ (∪)).
  - eapply Forall_impl; [apply Hi|]. by intros r [_ Hr].
  - eapply index_of_NoDup. apply Hi.
  - intros r _. apply lookup_empty.
Qed.

Lemma describe_observed t V : view_apply V (table_description t) = <[m_table_name t := ∅]> V.
Proof.
  destruct (table_description_about t) as [Ht Hn]. unfold view_apply. rewrite Hn, Ht.
  by rewrite bool_decide_eq_true_2 by (by left).
Qed.

(** Joining a table: the description and a snapshot give its contents. *)
Lemma add_subscriber_observed n t : m_table_name t = n -> table_inv t -> metas_wf t -> rows_fit t ->
  s ∉ m_subscribers t -> NoDup (m_subscribers t) ->
  exists t' w, add_subscriber s t = (t', w, Ok ()) /\ tracked s n t' /\
    forall V, observe s V w = <[n := contents t']> V.
Proof.
  intros Hn Hi Hm Hfit Hns Hnd. unfold add_subscriber, mbind, eff_bind, modify, get, emit.
  set (t1 := set_subscribers (m_subscribers t ++ [s]) t).
  assert (table_inv t1) as Hi1 by (split; apply Hi).
  destruct (snapshot_ok s t1 Hi1 Hfit) as (b & batches & -> & Hcat & _ & Hb).
  eexists _, _. split; [done|]. split.
  { split; [done|by apply table_inv_batchsize|cbn; set_solver|]. cbn. apply NoDup_app.
    split; [done|]. split; [set_solver|apply NoDup_singleton]. }
  intros V. unfold observe, messages_to. cbn [app flat_map]. rewrite !decide_True by done.
  rewrite app_nil_r. cbn [app foldl]. rewrite describe_observed.
  replace (m_table_name t1) with n by done. etransitivity.
  - apply (snapshot_observed t1 batches); [done|exact Hm|done|]. replace (m_table_name t1) with n by done.
    apply lookup_insert_eq.
  - replace (m_table_name t1) with n by done. by rewrite insert_insert_eq.
Qed.

(** A table that was just created: every session is subscribed and learns of
    the table. *)
Lemma subscribe_sessions l t : m_rows t = [] -> table_inv t ->
  exists t' w, for_each add_subscriber l t = (t', w, Ok ()) /\ m_table_name t' = m_table_name t /\
    m_rows t' = [] /\ table_inv t' /\ m_subscribers t' = m_subscribers t ++ l /\
    forall V, observe s V w = if decide (s ∈ l) then <[m_table_name t := ∅]> V else V.
Proof.
  revert t. induction l as [|a l IH]; intros t Hr Hi; cbn [for_each].
  { exists t, []. rewrite app_nil_r. split; [done|]. do 4 (split; [done|]). intros V.
    rewrite decide_False by set_solver. done. }
  unfold mbind, eff_bind. unfold add_subscriber at 1, mbind, eff_bind, modify, get, emit.
  set (t1 := set_subscribers (m_subscribers t ++ [a]) t).
  assert (table_inv t1) as Hi1 by (split; apply Hi).
  assert (rows_fit t1) as Hf1 by (unfold rows_fit; cbn; rewrite Hr; constructor).
  destruct (snapshot_ok a t1 Hi1 Hf1) as (b & batches & -> & Hcat & Hne & Hb).
  assert (table_inv (set_batchsize b t1)) as Hi2 by (by apply table_inv_batchsize).
  destruct (IH (set_batchsize b t1) Hr Hi2) as (t' & w & -> & Hn & Hr' & Hi' & Hs & Hobs).
  eexists t', _. split; [done|]. split; [done|]. split; [done|]. split; [done|].
  split; [rewrite Hs; cbn; by rewrite <-app_assoc|]. intros V. rewrite observe_app, Hobs.
  assert (batches = []) as ->.
  { change (concat batches = m_rows t) in Hcat. rewrite Hr in Hcat. destruct Hne as [|x l' Hx]; [done|]. by apply app_eq_nil in Hcat as [? _]. }
  unfold observe, messages_to. cbn [map number_snapshot app flat_map].
  destruct (decide (a = s)) as [->|Hne'].
  - cbn [app foldl]. rewrite describe_observed. change (m_table_name t1) with (m_table_name t).
    rewrite (decide_True (P := s ∈ s :: l)) by set_solver.
    case_decide; [apply insert_insert_eq|done].
  - cbn [app foldl]. destruct (decide (s ∈ l)); [rewrite decide_True by set_solver|rewrite decide_False by set_solver]; done.
Qed.

End observed.

(** * The monitor observed by a session *)

(** Every table is registered under its own name and satisfies its invariant. *)
Definition monitor_inv (M : Monitor) : Prop :=
  forall n t, M !! n = Some t -> m_table_name t = n /\ table_inv t.

Definition all_tracked (s : Z) (M : Monitor) : Prop := forall n t, M !! n = Some t -> tracked s n t.

(** The contents of all tables. *)
Definition contents_of (M : Monitor) : view := contents <$> M.

(** Calls that change tables and whose messages carry the change. *)
Inductive monitor_call :=
| CallUpdate (table_name row_key : string) (fields : gmap string string)
| CallAddColumns (table_name : string) (cols : list string)
| CallColumnAttr (table_name column : string) (attribute : txContainer)
| CallClear (table_name : string)
| CallClearAll.

Definition run_call (e : env) (session_list : list Z) (call : monitor_call) : monitor_op unit :=
  match call with
  | CallUpdate n k fields => update_table e session_list n k fields
  | CallAddColumns n cols => add_columns e session_list n cols
  | CallColumnAttr n c a => table_column_attr session_list n c a
  | CallClear n => clear_table e n
  | CallClearAll => clear_all_tables e
  end.

(** An update names at least one ordinary field. *)
Definition announces (call : monitor_call) : Prop :=
  match call with
  | CallUpdate _ _ fields => exists f v, reserved f = false /\ fields !! f = Some v
  | _ => True
  end.

Section monitor.
Context (s : Z).

Lemma on_table_observed M n t op : all_tracked s M -> M !! n = Some t -> op_observed s n t op ->
  exists M' w, on_table n op M = (M', w, Ok ()) /\ all_tracked s M' /\
    observe s (contents_of M) w = contents_of M'.
Proof.
  intros HM Ht (t' & w & E & Ht' & Hobs). unfold on_table. rewrite Ht, E.
  exists (<[n := t']> M), w. split; [done|]. split.
  - intros n' u. rewrite lookup_insert_Some. intros [[<- <-]|[_ Hu]]; [done|by apply HM].
  - unfold contents_of. rewrite fmap_insert. apply Hobs. rewrite lookup_fmap. by rewrite Ht.
Qed.

Lemma create_table_observed M n sessions : all_tracked s M -> M !! n = None -> s ∈ sessions -> NoDup sessions ->
  exists M' t w, create_table_NOLOCK sessions n M = (M', w, Ok ()) /\ all_tracked s M' /\ M' !! n = Some t /\
    observe s (contents_of M) w = contents_of M'.
Proof.
  intros HM Hn Hs Hnd. unfold create_table_NOLOCK.
  destruct (subscribe_sessions s sessions (new_table n) eq_refl (table_inv_new n))
    as (t' & w & -> & Hnm & Hr & Hi & Hsub & Hobs).
  exists (<[n := t']> M), t', w. split; [done|]. split.
  - intros n' u. rewrite lookup_insert_Some. intros [[<- <-]|[_ Hu]]; [|by apply HM].
    split; [done|done|by rewrite Hsub|by rewrite Hsub].
  - split; [apply lookup_insert_eq|]. rewrite Hobs, decide_True by done. unfold contents_of.
    rewrite fmap_insert. unfold contents. by rewrite Hr.
Qed.

Lemma on_or_create_observed M n sessions op : all_tracked s M -> s ∈ sessions -> NoDup sessions ->
  (forall t, tracked s n t -> op_observed s n t op) ->
  exists M' w, on_or_create sessions n op M = (M', w, Ok ()) /\ all_tracked s M' /\
    observe s (contents_of M) w = contents_of M'.
Proof.
  intros HM Hs Hnd Hop. unfold on_or_create. unfold mbind at 1, eff_bind at 1, get.
  destruct (M !! n) as [t|] eqn:E.
  - destruct (on_table_observed M n t op HM E (Hop t (HM n t E))) as (M' & w & -> & H1 & H2). by exists M', w.
  - destruct (create_table_observed M n sessions HM E Hs Hnd) as (M1 & t & w1 & E1 & HM1 & Ht & Ho1).
    unfold mbind, eff_bind. rewrite E1.
    destruct (on_table_observed M1 n t op HM1 Ht (Hop t (HM1 n t Ht))) as (M' & w2 & -> & H1 & H2).
    exists M', (w1 ++ w2). split; [done|]. split; [done|]. by rewrite observe_app, Ho1.
Qed.

(** A loop over tables whose operation tells the session each table's
    contents, whatever it knew before. *)
Lemma for_names_observed op l M V : NoDup l -> (forall n, n ∈ l -> is_Some (M !! n)) ->
  (forall n t, n ∈ l -> M !! n = Some t -> exists t' w, op t = (t', w, Ok ()) /\ tracked s n t' /\
     forall V, observe s V w = <[n := contents t']> V) ->
  exists M' w, for_each (fun n => on_table n op) l M = (M', w, Ok ()) /\
    (forall n, n ∉ l -> M' !! n = M !! n) /\
    (forall n, n ∈ l -> exists t, M' !! n = Some t /\ tracked s n t) /\
    (forall n, observe s V w !! n = if decide (n ∈ l) then contents <$> M' !! n else V !! n).
Proof.
  revert M V. induction l as [|n l IH]; intros M V Hnd Hin Hop; cbn [for_each].
  { exists M, []. split; [done|]. split; [done|]. split; [intros n Hn; by apply elem_of_nil in Hn|].
    intros n. rewrite decide_False by set_solver. done. }
  apply NoDup_cons in Hnd as [Hnl Hnd]. destruct (Hin n ltac:(by left)) as [t Ht].
  destruct (Hop n t ltac:(by left) Ht) as (t' & w1 & E1 & Htr & Ho1).
  unfold mbind, eff_bind. unfold on_table at 1. rewrite Ht, E1.
  destruct (IH (<[n := t']> M) (<[n := contents t']> V) Hnd) as (M' & w2 & -> & Hout & Hins & Hobs).
  { intros m Hm. rewrite lookup_insert_ne by set_solver. apply Hin. by right. }
  { intros m u Hm. rewrite lookup_insert_ne by set_solver. apply Hop. by right. }
  assert (M' !! n = Some t') as Hn' by (rewrite Hout by done; apply lookup_insert_eq).
  exists M', (w1 ++ w2). split; [done|]. split.
  { intros m Hm. rewrite Hout by set_solver. apply lookup_insert_ne. set_solver. }
  split.
  { intros m [->|Hm]%elem_of_cons; [by exists t'|by apply Hins]. }
  intros m. rewrite observe_app, Ho1, Hobs. destruct (decide (m ∈ l)) as [Hm|Hm].
  - by rewrite decide_True by (by right).
  - destruct (decide (m = n)) as [->|Hne].
    + rewrite decide_True by (by left). by rewrite lookup_insert_eq, Hn'.
    + rewrite decide_False by set_solver. by rewrite lookup_insert_ne.
Qed.

Lemma for_tables_observed op M V :
  (forall n, M !! n = None -> V !! n = None) ->
  (forall n t, M !! n = Some t -> exists t' w, op t = (t', w, Ok ()) /\ tracked s n t' /\
     forall V, observe s V w = <[n := contents t']> V) ->
  exists M' w, for_tables op M = (M', w, Ok ()) /\ all_tracked s M' /\ observe s V w = contents_of M'.
Proof.
  intros HV Hop. unfold for_tables, mbind, eff_bind, get.
  destruct (for_names_observed op (map_iter M).*1 M V) as (M' & w & -> & Hout & Hins & Hobs).
  - apply map_iter_NoDup_fst.
  - intros n Hn. by apply map_iter_fst_elem.
  - intros n t _. apply Hop.
  - exists M', w. split; [done|].
    assert (forall n, n ∉ (map_iter M).*1 -> M' !! n = None /\ V !! n = None) as Hno.
    { intros n Hn. rewrite Hout by done. rewrite map_iter_fst_elem in Hn.
      apply eq_None_not_Some in Hn. auto. }
    split.
    + intros n t Ht. destruct (decide (n ∈ (map_iter M).*1)) as [Hn|Hn].
      * destruct (Hins n Hn) as (t' & Ht' & Htr). congruence.
      * destruct (Hno n Hn). congruence.
    + apply map_eq. intros n. rewrite Hobs. unfold contents_of. rewrite lookup_fmap.
      case_decide as Hn; [done|]. destruct (Hno n Hn) as [-> ->]. done.
Qed.

End monitor.

(** * Operations and the invariant *)

(** [op] keeps a table's invariant and name, also when it throws. *)
Definition keeps (op : table_op unit) : Prop := forall t, table_inv t ->
  table_inv (state_after (op t)) /\ m_table_name (state_after (op t)) = m_table_name t.

Create HintDb monitor.

Lemma keeps_update_row e k fields : keeps (Table.update_row e k fields).
Proof. intros t Hi. by destruct (update_row_spec e k fields t Hi) as (t' & evs & msgs & -> & _ & Hi' & _ & Hn & _). Qed.
Lemma keeps_add_columns e cols : keeps (Table.add_columns e cols).
Proof. intros t Hi. by destruct (add_columns_op_spec e cols t Hi) as (t' & outs & -> & Hi' & Hn). Qed.
Lemma keeps_clear e : keeps (Table.clear_table e).
Proof. intros t Hi. by destruct (clear_table_spec e t Hi) as (t' & outs & -> & Hi' & _ & Hn). Qed.
Lemma keeps_delete_row e k : keeps (Table.delete_row e k).
Proof. intros t Hi. by destruct (delete_row_spec e k t Hi) as (t' & outs & -> & Hi' & _ & Hn & _). Qed.
Lemma keeps_update_meta e k f meta : keeps (Table.update_meta e k f meta).
Proof. intros t Hi. by destruct (update_meta_spec e k f meta t Hi) as (t' & outs & -> & Hi' & _ & Hn). Qed.
Lemma keeps_column_attr c a : keeps (modify (Table.add_column_attr c a)).
Proof. intros t Hi. split; [split; apply Hi|done]. Qed.
Lemma keeps_del_subscriber s : keeps (modify (del_subscriber s)).
Proof. intros t Hi. split; [split; apply Hi|done]. Qed.
Lemma keeps_send_snapshot s : keeps (nolock_send_snapshopt s).
Proof.
  intros t Hi. destruct (send_snapshot_state s t Hi) as (b & -> & Hb). split; [|done].
  by apply table_inv_batchsize.
Qed.
Lemma keeps_for_each {A} (f : A -> table_op unit) l : (forall a, keeps (f a)) -> keeps (for_each f l).
Proof.
  intros Hf. induction l as [|a l IH]; intros t Hi; [done|]. cbn [for_each]. unfold mbind, eff_bind.
  destruct (Hf a t Hi) as [H1 H2]. destruct (f a t) as [[t1 w] [[]|ex]]; [|done].
  destruct (IH t1 H1) as [H3 H4]. destruct (for_each f l t1) as [[t2 w2] r]. cbn in *. split; congruence.
Qed.
#[export] Hint Resolve keeps_update_row keeps_add_columns keeps_clear keeps_delete_row keeps_update_meta
  keeps_column_attr keeps_del_subscriber keeps_send_snapshot keeps_for_each : monitor.
Lemma keeps_add_subscriber s : keeps (add_subscriber s).
Proof.
  intros t Hi. unfold add_subscriber, mbind, eff_bind, modify, get, emit.
  destruct (keeps_send_snapshot s (set_subscribers (m_subscribers t ++ [s]) t)) as [H1 H2]; [split; apply Hi|].
  by destruct (nolock_send_snapshopt s _) as [[t1 w] r].
Qed.
Lemma keeps_catch op : keeps op -> keeps (catch_std op).
Proof.
  intros Hop t Hi. specialize (Hop t Hi). unfold catch_std. by destruct (op t) as [[t' w] r].
Qed.
Lemma keeps_snapshot e : keeps (Table.snapshot e).
Proof.
  intros t Hi. unfold Table.snapshot, mbind, eff_bind, get.
  destruct (keeps_for_each nolock_send_snapshopt (copy_subscribers e t) keeps_send_snapshot t Hi) as [H1 H2].
  by destruct (for_each nolock_send_snapshopt _ t) as [[t1 w] r].
Qed.
#[export] Hint Resolve keeps_add_subscriber keeps_catch keeps_snapshot : monitor.

Lemma on_table_inv n op M : keeps op -> monitor_inv M -> monitor_inv (state_after (on_table n op M)).
Proof.
  intros Hop HM. unfold on_table. destruct (M !! n) as [t|] eqn:E; [|done].
  destruct (HM n t E) as [Hn Hi]. destruct (Hop t Hi) as [Hi' Hn'].
  destruct (op t) as [[t' w] r]. cbn in *. intros n' u. rewrite lookup_insert_Some.
  intros [[<- <-]|[_ Hu]]; [split; congruence|by apply HM].
Qed.

Lemma for_tables_inv op M : keeps op -> monitor_inv M -> monitor_inv (state_after (for_tables op M)).
Proof.
  intros Hop HM. unfold for_tables, mbind, eff_bind, get.
  assert (forall l M, monitor_inv M -> monitor_inv (state_after (for_each (fun n => on_table n op) l M))) as H.
  { clear HM M. induction l as [|n l IH]; intros M HM; [done|]. cbn [for_each]. unfold mbind, eff_bind.
    pose proof (on_table_inv n op M Hop HM) as H1.
    destruct (on_table n op M) as [[M1 w] [[]|ex]]; [|done]. specialize (IH M1 H1).
    by destruct (for_each _ l M1) as [[M2 w2] r]. }
  specialize (H (map_iter M).*1 M HM). by destruct (for_each _ _ M) as [[M2 w2] r].
Qed.

Lemma on_or_create_inv n op sessions M : keeps op -> monitor_inv M ->
  monitor_inv (state_after (on_or_create sessions n op M)).
Proof.
  intros Hop HM. unfold on_or_create. unfold mbind at 1, eff_bind at 1, get.
  destruct (M !! n) as [t|] eqn:E.
  { pose proof (on_table_inv n op M Hop HM) as H. by destruct (on_table n op M) as [[M1 w] r]. }
  unfold mbind, eff_bind, create_table_NOLOCK.
  destruct (keeps_for_each add_subscriber sessions keeps_add_subscriber _ (table_inv_new n)) as [Hi Hn].
  destruct (for_each add_subscriber sessions (new_table n)) as [[t w] [[]|ex]]; [|done].
  cbn [state_after fst] in Hi, Hn.
  assert (monitor_inv (<[n := t]> M)) as HM1.
  { intros n' u. rewrite lookup_insert_Some. intros [[<- <-]|[_ Hu]]; [done|by apply HM]. }
  pose proof (on_table_inv n op _ Hop HM1) as H. by destruct (on_table n op _) as [[M1 w1] r].
Qed.

Lemma on_existing_inv n op M : keeps op -> monitor_inv M -> monitor_inv (state_after (on_existing n op M)).
Proof.
  intros Hop HM. unfold on_existing, mbind, eff_bind, get. destruct (M !! n); [|done].
  pose proof (on_table_inv n op M Hop HM) as H. by destruct (on_table n op M) as [[M1 w] r].
Qed.
#[export] Hint Resolve on_table_inv for_tables_inv on_or_create_inv on_existing_inv : monitor.

(** * Runs *)

(** A call with the clock, the liveness of sessions and the session list at
    its time. *)
Definition call_step : Type := env * list Z * monitor_call.

Definition run_steps (steps : list call_step) : monitor_op unit :=
  for_each (fun st => run_call st.1.1 st.1.2 st.2) steps.

(** The session is open and registered, once, during the step. *)
Definition live_during (s : Z) (st : call_step) : Prop :=
  session_exists st.1.1 s = true /\ s ∈ st.1.2 /\ NoDup st.1.2 /\ announces st.2.

Lemma run_call_observed s e sessions call M : live_during s (e, sessions, call) -> all_tracked s M ->
  exists M' w, run_call e sessions call M = (M', w, Ok ()) /\ all_tracked s M' /\
    observe s (contents_of M) w = contents_of M'.
Proof.
  intros (He & Hs & Hnd & Ha) HM. cbn [fst snd] in *. destruct call as [n k fields|n cols|n c a|n|]; cbn [run_call].
  - apply on_or_create_observed; [done..|]. intros t Ht. by apply update_row_observed.
  - apply on_or_create_observed; [done..|]. intros t Ht. by apply add_columns_observed.
  - apply on_or_create_observed; [done..|]. intros t Ht. by apply column_attr_observed.
  - unfold clear_table, on_existing, mbind, eff_bind, get. destruct (M !! n) as [t|] eqn:E; [|by exists M, []].
    destruct (on_table_observed s M n t (Table.clear_table e) HM E) as (M' & w & -> & H1 & H2); [|by exists M', w].
    destruct (clear_table_observed s e n t He (HM n t E)) as (t' & w & Ec & Ht & Ho). exists t', w. auto.
  - apply for_tables_observed; [intros n Hn; unfold contents_of; by rewrite lookup_fmap, Hn|].
    intros n t Ht. by apply clear_table_observed, HM.
Qed.

Lemma run_steps_observed s steps M : Forall (live_during s) steps -> all_tracked s M ->
  exists M' w, run_steps steps M = (M', w, Ok ()) /\ all_tracked s M' /\
    observe s (contents_of M) w = contents_of M'.
Proof.
  intros Hl. revert M. induction Hl as [|[[e sessions] call] steps Hst Hl IH]; intros M HM; [by exists M, []|].
  unfold run_steps. cbn [for_each fst snd]. unfold mbind, eff_bind.
  destruct (run_call_observed s e sessions call M Hst HM) as (M1 & w1 & -> & HM1 & Ho1).
  destruct (IH M1 HM1) as (M2 & w2 & E2 & HM2 & Ho2). unfold run_steps in E2. rewrite E2.
  exists M2, (w1 ++ w2). split; [done|]. split; [done|]. by rewrite observe_app, Ho1.
Qed.

(** A table a new session can join. *)
Definition joinable (s : Z) (t : DataTable) : Prop :=
  metas_wf t /\ rows_fit t /\ (s ∉ m_subscribers t) /\ NoDup (m_subscribers t).

Lemma subscribe_all_observed s M : monitor_inv M -> (forall n t, M !! n = Some t -> joinable s t) ->
  exists M' w, subscribe_all s M = (M', w, Ok ()) /\ all_tracked s M' /\ observe s ∅ w = contents_of M'.
Proof.
  intros HM Hj. apply for_tables_observed; [intros n _; apply lookup_empty|]. intros n t Ht.
  destruct (HM n t Ht) as [Hn Hi]. destruct (Hj n t Ht) as (Hm & Hf & Hs & Hnd).
  destruct (add_subscriber_observed s n t Hn Hi Hm Hf Hs Hnd) as (t' & w & E & Htr & Ho).
  exists t', w. unfold catch_std. by rewrite E.
Qed.

(** * Properties *)

(** Every operation of the monitor, in every environment and also when it
    throws, keeps every table registered under its own name and every table's
    invariant. *)
Theorem monitor_operations_keep_invariant (e : env) (sessions : list Z) (M : Monitor) (n k f : string)
    (fields : gmap string string) (cols : list string) (meta : txContainer) (s : Z) :
  monitor_inv M ->
  monitor_inv (state_after (update_table e sessions n k fields M)) /\
  monitor_inv (state_after (add_columns e sessions n cols M)) /\
  monitor_inv (state_after (update_meta e sessions n k f meta M)) /\
  monitor_inv (state_after (table_column_attr sessions n f meta M)) /\
  monitor_inv (state_after (clear_table e n M)) /\
  monitor_inv (state_after (clear_all_tables e M)) /\
  monitor_inv (state_after (delete_row e n k M)) /\
  monitor_inv (state_after (broadcast_snapshot e n M)) /\
  monitor_inv (state_after (broadcast_snapshot_all e M)) /\
  monitor_inv (state_after (subscribe_all s M)) /\
  monitor_inv (state_after (unsubscribe_all s M)).
Proof.
  intros HM. repeat split_and; first
    [apply on_or_create_inv|apply on_existing_inv|apply for_tables_inv]; eauto with monitor.
Qed.


Definition test_monitor : Monitor := {[ "prices" := test_table ]}.

Lemma test_monitor_inv : monitor_inv test_monitor.
Proof.
  intros n t Ht. unfold test_monitor in Ht. apply lookup_singleton_Some in Ht as [<- <-]. split; [|apply test_table_inv].
  vm_compute. reflexivity.
Qed.

Lemma monitor_operations_keep_invariant_witness :
  monitor_inv (state_after (update_table test_env [3; 4] "orders" "o1" {[ "qty" := "5" ]} test_monitor)).
Proof.
  apply (monitor_operations_keep_invariant test_env [3; 4] test_monitor "orders" "o1" "qty"
    {[ "qty" := "5" ]} [] (new_container "style") 4).
  apply test_monitor_inv.
Defined.

