(* ===== verification/Session.v ===== *)
(** Sessions: [SID] of [AdminSessionID.h], [AdminSession] of [AdminSession.h]
    and [AdminSession.cc].

    A session and the connection its [m_io_handle] points to live in the world
    of the session's listener ([AdminInterfaceImpl] keeps them, the reactor
    shares the connection): [SessionListener] states how the listener's world
    gives access to them.  [AdminSession] is the callback of [Client]; the
    instance at the end of the file connects both, so that delivery of
    messages holds for sessions of every listener that keeps the contract. *)

From S2P Require Import Prelude Decimal Utils TxContainer SamBuffer SamProtocol MsgIDs ReadBuffer Client Delivery.

Local Open Scope Z_scope.

(** * Session ids *)

(** A [SID] is its [m_unqiue_id], a [size_t]. *)
Definition no_session : Z := 0.
Definition sid_toString (id : Z) : string := print_unsigned id.
(** [atoi] gives an [int], which is converted to [size_t]. *)
Definition sid_fromString (s : string) : Z := size_t (atoi s).

(** ** The address of the peer *)

Definition AF_INET : Z := 2.

(** A socket address: its family, and for [AF_INET] the host and the port. *)
Record sockaddr := SockAddr { sa_family : Z; sa_addr : Z; sa_port : Z }.

(** [inet_ntop] gives [None] when it fails. *)
Definition sock_ntop (inet_ntop : Z -> option string) (sa : sockaddr) : string :=
  if sa_family sa =? AF_INET then
    match inet_ntop (sa_addr sa) with
    | Some str => str +:+ ":" +:+ print_unsigned (sa_port sa)
    | None => EmptyString
    end
  else EmptyString.

Definition sock_descr (inet_ntop : Z -> option string) (getpeername : Z -> option sockaddr) (fd : Z) : string :=
  match getpeername fd with
  | Some sa => sock_ntop inet_ntop sa
  | None => "unknown"
  end.

(** * Sessions *)

Record AdminSession := MkAdminSession {
  s_id : Z; s_serviceid : string; s_fd : Z;
  s_logon_received : bool; s_session_valid : bool;
  s_username : string; s_peeraddr : string;
  s_listener : bool;  (** [m_listener != NULL] *)
  s_autoclose : bool; s_hb_intvl : Z; s_hb_last : Z; s_start : Z;
  s_io_handle : bool;  (** [m_io_handle != NULL] *)
  s_inbox : list txMessage  (** the messages [io_onmsg] took; not in the code *) }.

Definition new_session (fd id now : Z) (listener : bool) (peeraddr : string) : AdminSession :=
  MkAdminSession id EmptyString fd false true EmptyString peeraddr listener false 30 now now false [].

Definition io_init (s : AdminSession) : AdminSession :=
  MkAdminSession (s_id s) (s_serviceid s) (s_fd s) (s_logon_received s) (s_session_valid s)
    (s_username s) (s_peeraddr s) (s_listener s) (s_autoclose s) (s_hb_intvl s) (s_hb_last s)
    (s_start s) true (s_inbox s).
Definition set_autoclose (b : bool) (s : AdminSession) : AdminSession :=
  MkAdminSession (s_id s) (s_serviceid s) (s_fd s) (s_logon_received s) (s_session_valid s)
    (s_username s) (s_peeraddr s) (s_listener s) b (s_hb_intvl s) (s_hb_last s)
    (s_start s) (s_io_handle s) (s_inbox s).
Definition set_hb_last (now : Z) (s : AdminSession) : AdminSession :=
  MkAdminSession (s_id s) (s_serviceid s) (s_fd s) (s_logon_received s) (s_session_valid s)
    (s_username s) (s_peeraddr s) (s_listener s) (s_autoclose s) (s_hb_intvl s) now
    (s_start s) (s_io_handle s) (s_inbox s).
Definition take_message (msg : txMessage) (s : AdminSession) : AdminSession :=
  MkAdminSession (s_id s) (s_serviceid s) (s_fd s) (s_logon_received s) (s_session_valid s)
    (s_username s) (s_peeraddr s) (s_listener s) (s_autoclose s) (s_hb_intvl s) (s_hb_last s)
    (s_start s) (s_io_handle s) (s_inbox s ++ [msg]).
Definition set_valid (b : bool) (s : AdminSession) : AdminSession :=
  MkAdminSession (s_id s) (s_serviceid s) (s_fd s) (s_logon_received s) b
    (s_username s) (s_peeraddr s) (s_listener s) (s_autoclose s) (s_hb_intvl s) (s_hb_last s)
    (s_start s) (s_io_handle s) (s_inbox s).
Definition forget_listener (s : AdminSession) : AdminSession :=
  MkAdminSession (s_id s) (s_serviceid s) (s_fd s) (s_logon_received s) (s_session_valid s)
    (s_username s) (s_peeraddr s) false (s_autoclose s) (s_hb_intvl s) (s_hb_last s)
    (s_start s) (s_io_handle s) (s_inbox s).

(** The logon part of [io_onmsg]: only the first logon counts. *)
Definition note_logon (msg : txMessage) (s : AdminSession) : AdminSession :=
  if s_logon_received s then s
  else
    let value q old := match find_field_qn (m_root msg) q with Some f => f_value f | None => old end in
    MkAdminSession (s_id s) (value id.QN_serviceid (s_serviceid s)) (s_fd s) true (s_session_valid s)
      (value id.QN_head_user (s_username s)) (s_peeraddr s) (s_listener s) (s_autoclose s)
      (s_hb_intvl s) (s_hb_last s) (s_start s) (s_io_handle s) (s_inbox s).

(** Whether an exception can be caught (it is an exception at all). *)
Definition catchable (e : exn) : bool :=
  match e with undefined_behaviour _ | out_of_fuel => false | _ => true end.

(** [enqueueToSend]: the connection and whether it failed. *)
Definition enqueueToSend (msg : txMessage) (s : AdminSession) (c : Client) : result (Client * bool) :=
  if negb (s_session_valid s) then Ok (c, true)
  else
    match encodeMsg msg (DynamicSamBuffer.new 512) with
    | Ok (size, sb) =>
        if s_io_handle s then
          let '(c, r) := queue (Some (take (Z.to_nat size) (DynamicSamBuffer.msg_bytes sb))) false c in
          if r =? -1 then Ok (c, true) else Ok (c, false)
        else Ok (c, true)
    | Throw e => if catchable e then Ok (c, true) else Throw e
    end.

Definition session_close (s : AdminSession) (c : Client) : Client :=
  if s_io_handle s then (queue None true c).1 else c.

Definition safe_to_delete (s : AdminSession) (c : Client) : bool :=
  negb (s_session_valid s) && (negb (s_io_handle s) || negb (io_open c)).

Definition heartbeat_msg : txMessage :=
  on_root (fun r => put_field_qn r id.QN_testrequest id.True_) (new_message id.heartbeat).

Definition session_housekeeping (now : Z) (s : AdminSession) (c : Client) : result (AdminSession * Client) :=
  if (s_hb_intvl s =? 0) || negb (s_io_handle s) || negb (io_open c) then Ok (s, c)
  else if s_hb_intvl s <=? Z.abs (now - s_hb_last s) then
    '(c, _) ← enqueueToSend heartbeat_msg s c;
    Ok (set_hb_last now s, c)
  else Ok (s, c).

(** [~AdminSession]. *)
Definition destroy_session (now : Z) (s : AdminSession) (c : Client) : Client :=
  if s_io_handle s then release now c else c.

(** Statistics of the connection. *)
Definition session_last_write (s : AdminSession) (c : Client) : Z := if s_io_handle s then m_last_write c else 0.
Definition session_bytes_out (s : AdminSession) (c : Client) : Z := if s_io_handle s then m_bytes_out c else 0.
Definition session_bytes_in (s : AdminSession) (c : Client) : Z := if s_io_handle s then m_bytes_in c else 0.
Definition session_bytes_pend (s : AdminSession) (c : Client) : Z := if s_io_handle s then pending_out c else 0.

(** * The listener *)

(** [AdminSessionListener], with the world it acts on: [p] is the address of
    the session object. *)
Class SessionListener (W : Type) := {
  host_get : W -> Z -> option (AdminSession * Client);
  host_set : W -> Z -> AdminSession * Client -> W;
  session_msg_received : txMessage -> Z -> W -> W * result unit;
  session_closed : Z -> W -> W * result unit }.

Section session.
Context {W : Type} {SL : SessionListener W}.

Definition io_onmsg (p : Z) (msg : txMessage) (w : W) : W * result unit :=
  match host_get w p with
  | None => (w, Throw (undefined_behaviour "no session object"))
  | Some (s, c) =>
      if negb (s_session_valid s) then (w, Ok ())
      else
        let s := take_message msg s in
        let s := if bool_decide (msg_type msg = id.msg_logon) then note_logon msg s else s in
        let w := host_set w p (s, c) in
        if s_listener s then session_msg_received msg p w else (w, Ok ())
  end.

(** [process_close]: the listener is called before it is forgotten. *)
Definition session_process_close (p : Z) (w : W) : W * result unit :=
  match host_get w p with
  | None => (w, Throw (undefined_behaviour "no session object"))
  | Some (s, c) =>
      let w := host_set w p (set_valid false s, c) in
      if s_listener s then
        let '(w, r) := session_closed p w in
        match r, host_get w p with
        | Ok _, Some (s, c) => (host_set w p (forget_listener s, c), Ok ())
        | Ok _, None => (w, Throw (undefined_behaviour "no session object"))
        | Throw e, _ => (w, Throw e)
        end
      else (w, Throw (undefined_behaviour "null listener"))
  end.

Definition badmsg (e : exn) : txMessage :=
  on_root (fun r => put_field r "msg" (exn_what e)) (new_message "badmsg").

(** [process_input(src, int size)]: the world and the bytes consumed. *)
Definition session_process_input (p : Z) (src : bytes) (size : Z) (w : W) : result (W * Z) :=
  match decodeMsg src (new_message EmptyString) (Z.to_nat (size_t size)) with
  | Throw e =>
      if catchable e then
        match host_get w p with
        | None => Throw (undefined_behaviour "no session object")
        | Some (s, c) =>
            '(c, _) ← enqueueToSend (badmsg e) s c;
            Ok (host_set w p (s, session_close s c), 0)
        end
      else Throw e
  | Ok (consumed, msg) =>
      if consumed =? 0 then Ok (w, 0)
      else
        match io_onmsg p msg w with
        | (w, Throw e) => if catchable e then Ok (w, consumed) else Throw e
        | (w, Ok _) => Ok (w, consumed)
        end
  end.

(** The running connection [c] is the one the session points to: it is put
    into the world for the call and taken out afterwards. *)
Definition with_client (c : Client) (p : Z) (w : W) : result W :=
  match host_get w p with
  | Some (s, _) => Ok (host_set w p (s, c))
  | None => Throw (undefined_behaviour "no session object")
  end.
Definition client_of (p : Z) (w : W) : result Client :=
  match host_get w p with
  | Some (_, c) => Ok c
  | None => Throw (undefined_behaviour "no session object")
  end.

#[global] Instance session_callback : ClientCallback (Z * W) := {
  process_input := fun c pw src bytesavail =>
    let '(p, w) := pw in
    w ← with_client c p w;
    '(w, consumed) ← session_process_input p src (int32 bytesavail) w;
    c ← client_of p w;
    Ok (c, (p, w), Some consumed);
  process_close := fun c pw =>
    let '(p, w) := pw in
    w ← with_client c p w;
    let '(w, r) := session_process_close p w in
    match r with
    | Throw (undefined_behaviour _ as e) | Throw (out_of_fuel as e) => Throw e
    | _ => c ← client_of p w; Ok (c, (p, w))
    end }.

End session.

(** * What the listener promises *)

(** The part of a session that only its own operations change. *)
Definition identity (s : AdminSession) : Z * bool * bool * bool * list txMessage :=
  (s_id s, s_session_valid s, s_listener s, s_io_handle s, s_inbox s).

Definition defined {A} (r : result A) : Prop :=
  match r with Ok _ => True | Throw e => catchable e = true end.

Class SessionListenerLaws (W : Type) {SL : SessionListener W} := {
  host_inv : W -> Prop;
  host_accepts : txMessage -> Prop;
  host_get_set : forall w p x y, host_get w p = Some x -> host_get (host_set w p y) p = Some y;
  (** Messages and the connection may change without breaking the world. *)
  host_inv_set : forall w p s c s' c', host_inv w -> host_get w p = Some (s, c) ->
    s_id s' = s_id s -> s_session_valid s' = s_session_valid s -> s_listener s' = s_listener s ->
    s_io_handle s' = s_io_handle s -> host_inv (host_set w p (s', c'));
  (** A message is handled without undefined behaviour; the session it came
      from is still there, and its connection is used only to queue. *)
  host_message : forall w p s c m, host_inv w -> host_get w p = Some (s, c) -> host_accepts m ->
    defined (session_msg_received m p w).2 /\ host_inv (session_msg_received m p w).1 /\
    exists s' c', host_get (session_msg_received m p w).1 p = Some (s', c') /\
      identity s' = identity s /\ inbound c' = inbound c /\ (out_inv c -> out_inv c') }.

Section laws.
Context {W : Type} {SL : SessionListener W} {SLL : SessionListenerLaws W}.

Lemma note_logon_identity m s : identity (note_logon m s) = identity s.
Proof. unfold note_logon. by destruct (s_logon_received s). Qed.

(** [io_onmsg] takes the message once, whatever the listener does with it. *)
Lemma io_onmsg_takes w p s c m : host_inv w -> host_get w p = Some (s, c) -> s_session_valid s = true ->
  host_accepts m ->
  defined (io_onmsg p m w).2 /\ host_inv (io_onmsg p m w).1 /\
  exists s' c', host_get (io_onmsg p m w).1 p = Some (s', c') /\ s_session_valid s' = true /\
    s_inbox s' = s_inbox s ++ [m] /\ inbound c' = inbound c /\ (out_inv c -> out_inv c').
Proof.
  intros Hi Hg Hv Ha. unfold io_onmsg. rewrite Hg, Hv. cbn [negb].
  set (s1 := if bool_decide (msg_type m = id.msg_logon) then _ else _).
  assert (identity s1 = identity (take_message m s)) as Hs1.
  { unfold s1. case_bool_decide; [apply note_logon_identity|done]. }
  unfold identity in Hs1. cbn [take_message s_id s_session_valid s_listener s_io_handle s_inbox] in Hs1.
  injection Hs1 as Hid Hval Hlis Hio Hbox.
  pose proof (host_get_set w p (s, c) (s1, c) Hg) as Hg1.
  assert (host_inv (host_set w p (s1, c))) as Hi1 by (by apply (host_inv_set w p s c)).
  destruct (s_listener s1).
  - destruct (host_message _ p s1 c m Hi1 Hg1 Ha) as (Hd & Hi2 & s2 & c2 & Hg2 & Hs2 & Hc2).
    split; [done|]. split; [done|]. exists s2, c2. unfold identity in Hs2. injection Hs2 as _ Hv2 _ _ Hb2.
    split; [done|]. split; [congruence|]. split; [congruence|done].
  - cbn [fst snd]. split; [done|]. split; [done|]. exists s1, c. split; [done|]. split; [congruence|done].
Qed.

(** The sessions whose messages are processed. *)
Definition session_ready (pw : Z * W) : Prop :=
  host_inv pw.2 /\ exists s c, host_get pw.2 pw.1 = Some (s, c) /\ s_session_valid s = true.

Definition session_received (pw : Z * W) : list txMessage :=
  match host_get pw.2 pw.1 with Some (s, _) => s_inbox s | None => [] end.

(** The callback runs [io_onmsg] once for a complete message. *)
Lemma session_input_runs c p w s c0 m rest junk w2 r s2 c2 : host_get w p = Some (s, c0) -> sendable m ->
  Z.of_nat (length (wire m ++ rest)) < 2 ^ 31 ->
  io_onmsg p m (host_set w p (s, c)) = (w2, r) -> defined r -> host_get w2 p = Some (s2, c2) ->
  process_input c (p, w) ((wire m ++ rest) ++ junk) (Z.of_nat (length (wire m ++ rest))) =
    Ok (c2, (p, w2), Some (wire_length m)).
Proof.
  intros Hg (Hc & Hw & Hl) Hlen Eio Hd Hg2. cbn [process_input session_callback].
  unfold with_client. rewrite Hg. cbn [mbind result_bind].
  pose proof (length_wire m) as Hlw. pose proof (length_wire_pos m) as Hpos.
  unfold session_process_input. rewrite int32_small, size_t_small, Nat2Z.id by lia.
  rewrite <-app_assoc, decodeMsg_wire; [|done..|rewrite length_app; lia].
  destruct (Z.eqb_spec (wire_length m) 0); [lia|]. rewrite Eio. unfold client_of.
  destruct r as [[]|e]; cbn [defined] in Hd; rewrite ?Hd; cbn [mbind result_bind]; by rewrite Hg2.
Qed.

(** An incomplete message is left alone. *)
Lemma session_input_waits c p w s c0 m part junk : host_get w p = Some (s, c0) ->
  host_get (host_set w p (s, c)) p = Some (s, c) -> sendable m ->
  part `prefix_of` wire m -> (length part < length (wire m))%nat -> Z.of_nat (length part) < 2 ^ 31 ->
  process_input c (p, w) (part ++ junk) (Z.of_nat (length part)) = Ok (c, (p, host_set w p (s, c)), Some 0).
Proof.
  intros Hg Hg1 (Hc & Hw & Hl) [k Hk] Hlt Hlen. cbn [process_input session_callback].
  unfold with_client. rewrite Hg. cbn [mbind result_bind]. pose proof (length_wire m) as Hlw.
  unfold session_process_input. rewrite int32_small, size_t_small, Nat2Z.id by lia.
  rewrite (decodeMsg_wire_prefix m); [|by rewrite Hk, !take_app_length|done|lia].
  cbn [mbind result_bind Z.eqb]. unfold client_of. by rewrite Hg1.
Qed.

(** The session after the messages [ms] have been taken, on connection [c]. *)
Definition session_after (ms : list txMessage) (c : Client) (pw : Z * W) : Prop :=
  out_inv c /\ session_ready pw /\ session_received pw = ms.

Lemma session_input_message ms c pw m rest junk : session_after ms c pw -> sendable m -> host_accepts m ->
  Z.of_nat (length (wire m ++ rest)) < 2 ^ 31 ->
  exists c' pw', process_input c pw ((wire m ++ rest) ++ junk) (Z.of_nat (length (wire m ++ rest))) =
      Ok (c', pw', Some (wire_length m)) /\
    session_after (ms ++ [m]) c' pw' /\ inbound c' = inbound c.
Proof.
  destruct pw as [p w]. intros (Ho & [Hi (s & c0 & Hg & Hv)] & <-) Hm Ha Hlen. cbn [fst snd] in *.
  pose proof (host_get_set w p (s, c0) (s, c) Hg) as Hg1.
  assert (host_inv (host_set w p (s, c))) as Hi1 by (by eapply host_inv_set).
  destruct (io_onmsg_takes _ p s c m Hi1 Hg1 Hv Ha) as (Hd & Hi2 & s2 & c2 & Hg2 & Hv2 & Hb2 & Hc2 & Ho2).
  destruct (io_onmsg p m (host_set w p (s, c))) as [w2 r] eqn:E. cbn [fst snd] in *.
  exists c2, (p, w2). split; [by eapply session_input_runs|]. split; [|done].
  split; [auto|]. unfold session_ready, session_received. cbn [fst snd]. rewrite Hg2, Hg. split; [eauto 10|done].
Qed.

Lemma session_input_incomplete ms c pw m part junk : session_after ms c pw -> sendable m ->
  part `prefix_of` wire m -> (length part < length (wire m))%nat -> Z.of_nat (length part) < 2 ^ 31 ->
  exists c' pw', process_input c pw (part ++ junk) (Z.of_nat (length part)) = Ok (c', pw', Some 0) /\
    session_after ms c' pw' /\ inbound c' = inbound c.
Proof.
  destruct pw as [p w]. intros (Ho & [Hi (s & c0 & Hg & Hv)] & <-) Hm Hp Hlt Hlen. cbn [fst snd] in *.
  pose proof (host_get_set w p (s, c0) (s, c) Hg) as Hg1.
  exists c, (p, host_set w p (s, c)). split; [by eapply session_input_waits|]. split; [|done].
  split; [done|]. unfold session_ready, session_received. cbn [fst snd]. rewrite Hg1, Hg.
  split; [|done]. split; [by eapply host_inv_set|eauto].
Qed.

Lemma session_after_inbound ms c c' pw : session_after ms c pw -> outbound c' = outbound c -> session_after ms c' pw.
Proof.
  intros (Ho & Hr) Hout. unfold outbound in Hout. injection Hout as Hq Hm _.
  split; [by apply (out_inv_ext c)|done].
Qed.

Lemma session_after_output ms c pw now sends : session_after ms c pw ->
  exists c' st, handle_output now sends c = Ok (c', st) /\ session_after ms c' pw.
Proof.
  intros (Ho & Hr). destruct (handle_output_out now sends c Ho) as (c' & st & E & Ho' & _). by exists c', st.
Qed.

#[global] Instance session_sam_callback : SamCallback (Z * W) := {
  cb_after := session_after;
  cb_accepts := fun _ => host_accepts;
  cb_inbound := session_after_inbound;
  cb_output := session_after_output;
  cb_message := session_input_message;
  cb_incomplete := session_input_incomplete }.

End laws.

(** * Sending *)

Lemma enqueue_encodes msg s c : s_session_valid s = true -> s_io_handle s = true ->
  Z.of_nat (length (enc_body msg)) <= max_content ->
  enqueueToSend msg s c =
    Ok ((queue (Some (wire msg)) false c).1, (queue (Some (wire msg)) false c).2 =? -1).
Proof.
  intros Hv Hio Hl. unfold enqueueToSend. rewrite Hv, Hio. cbn [negb].
  destruct (encodeMsg_wire msg (DynamicSamBuffer.new 512)) as (b & -> & Hb); [|done|].
  { apply DynamicSamBufferFacts.new_held. lia. }
  change (DynamicSamBuffer.msg_bytes b) with (msg_bytes b). rewrite Hb, <-(length_wire msg), Nat2Z.id, firstn_all.
  destruct (queue (Some (wire msg)) false c) as [c' r]. cbn [fst snd]. by destruct (r =? -1).
Qed.

(** The connection accepts [n] more bytes. *)
Definition has_room (n : Z) (c : Client) : Prop :=
  oq_acceptmore (m_out_q c) = true /\ n <= size_t (m_out_pend_max c - oq_pending (m_out_q c)).

Lemma queue_accepts data c : has_room (Z.of_nat (length data)) c ->
  (queue (Some data) false c).2 = 0 /\ queued (queue (Some data) false c).1 = queued c ++ data.
Proof.
  intros [Ha Hr]. unfold queue. rewrite Ha. cbn [negb default].
  change (id data) with data.
  destruct (Z.ltb_spec (size_t (m_out_pend_max c - oq_pending (m_out_q c))) (Z.of_nat (length data))); [lia|].
  rewrite andb_false_r. split; [done|].
  destruct (Z.ltb_spec 0 (Z.of_nat (length data))) as [Hp|Hp]; cbn [orb].
  - unfold queued. cbn [fst snd do_io set_out_q m_out_q oq_items]. rewrite flat_map_app. cbn [flat_map raw_bytes].
    by rewrite app_nil_r.
  - destruct data; [|simpl in *; lia]. by rewrite app_nil_r.
Qed.

Lemma queue_inbound buf cl c : inbound (queue buf cl c).1 = inbound c.
Proof.
  unfold queue, do_shutdown_SHUT_WR. repeat case_match; done.
Qed.

Lemma enqueue_queues msg s c : s_session_valid s = true -> s_io_handle s = true ->
  Z.of_nat (length (enc_body msg)) <= max_content -> has_room (wire_length msg) c ->
  exists c', enqueueToSend msg s c = Ok (c', false) /\ queued c' = queued c ++ wire msg /\
    inbound c' = inbound c.
Proof.
  intros Hv Hio Hl Hr. rewrite enqueue_encodes by done.
  rewrite <-length_wire in Hr. destruct (queue_accepts (wire msg) c Hr) as [-> Hq].
  eexists. split; [done|]. split; [done|apply queue_inbound].
Qed.

Lemma enqueue_inbound msg s c c' f : enqueueToSend msg s c = Ok (c', f) -> inbound c' = inbound c.
Proof.
  unfold enqueueToSend. intros E. repeat case_match; simplify_eq; try done;
    match goal with H : queue ?b ?cl ?c = _ |- _ =>
      pose proof (queue_inbound b cl c) as Hi; by rewrite H in Hi end.
Qed.

(** The message fits the encoder. *)
Definition encodable (m : txMessage) : Prop := Z.of_nat (length (enc_body m)) <= max_content.

Lemma enqueue_total m s c : encodable m -> exists c' f, enqueueToSend m s c = Ok (c', f).
Proof.
  intros Hm. destruct (s_session_valid s) eqn:Ev; [|unfold enqueueToSend; rewrite Ev; by eexists _, _].
  unfold enqueueToSend. rewrite Ev. cbn [negb].
  destruct (encodeMsg_wire m (DynamicSamBuffer.new 512)) as (b & -> & _); [|done|].
  - apply DynamicSamBufferFacts.new_held. lia.
  - destruct (s_io_handle s); [|by eexists _, _]. destruct (queue _ false c) as [c' r]. destruct (r =? -1); by eexists _, _.
Qed.

Lemma queue_keeps_out buf cl c : out_inv c -> out_inv (queue buf cl c).1.
Proof. intros Hc. apply (queue_out buf cl c Hc). Qed.

Lemma enqueue_out msg s c c' f : enqueueToSend msg s c = Ok (c', f) -> out_inv c -> out_inv c'.
Proof.
  unfold enqueueToSend. intros E Hc. repeat case_match; simplify_eq; try done;
    match goal with H : queue ?b ?cl ?c = _ |- _ => pose proof (queue_keeps_out b cl c Hc) as Hq; by rewrite H in Hq end.
Qed.

Lemma close_keeps s c : inbound (session_close s c) = inbound c /\ (out_inv c -> out_inv (session_close s c)).
Proof. unfold session_close. destruct (s_io_handle s); [|done]. split; [apply queue_inbound|apply queue_keeps_out]. Qed.

(** ** Everything a connection has been given to send *)

(** [l] is what has been accepted so far, sent or still queued; [more]: the
    queue takes more. *)
Definition outbox (more : bool) (l : bytes) (c : Client) : Prop :=
  out_inv c /\ m_out_pend_max c = 100 * 1024 * 1024 /\ oq_acceptmore (m_out_q c) = more /\ sent c ++ queued c = l.

Lemma outbox_new fd now cb : outbox true [] (new_client fd now cb).
Proof. split; [apply out_inv_new|done]. Qed.

Lemma outbox_ext more l c c' : outbox more l c -> outbound c' = outbound c -> outbox more l c'.
Proof.
  intros (Hi & Hm & Ha & Hs) Ho. unfold outbound in Ho. injection Ho as Hq Hx Hio.
  split; [by apply (out_inv_ext c)|]. unfold sent, queued in *. rewrite Hq, Hx, Hio. done.
Qed.

Lemma handle_output_acceptmore now sends c c' st : handle_output now sends c = Ok (c', st) ->
  oq_acceptmore (m_out_q c') = oq_acceptmore (m_out_q c).
Proof.
  revert c. induction sends as [|s sends IH]; intros c E; cbn [handle_output] in E;
    (destruct (negb _ || negb _); [|injection E as <- _; done]);
    (destruct (oq_items (m_out_q c)) as [|[|data] items]; [done| |]).
  1, 3: injection E as <- _; by rewrite (proj1 (shutdown_WR_out _)).
  - by injection E as <- _.
  - destruct s as [k| |]; [|by injection E as <- _..]. apply IH in E. rewrite E. by case_bool_decide.
Qed.

Lemma outbox_output more l c now sends : outbox more l c ->
  exists c' st, handle_output now sends c = Ok (c', st) /\ outbox more l c'.
Proof.
  intros (Hi & Hm & Ha & Hs). destruct (handle_output_out now sends c Hi) as (c' & st & E & Hi' & Hm' & Hs' & _).
  exists c', st. split; [done|]. split; [done|]. split; [congruence|]. split; [|congruence].
  by rewrite (handle_output_acceptmore _ _ _ _ _ E).
Qed.

Lemma queue_acceptmore data c : has_room (Z.of_nat (length data)) c ->
  oq_acceptmore (m_out_q (queue (Some data) false c).1) = true.
Proof.
  intros [Ha Hr]. unfold queue. rewrite Ha. cbn [negb default]. change (id data) with data.
  destruct (Z.ltb_spec (size_t (m_out_pend_max c - oq_pending (m_out_q c))) (Z.of_nat (length data))); [lia|].
  rewrite andb_false_r. by destruct (0 <? Z.of_nat (length data)).
Qed.

Lemma wire_length_body m : Z.of_nat (length (enc_body m)) <= wire_length m.
Proof. rewrite <-length_wire. unfold wire. rewrite length_app. lia. Qed.

(** A message that fits is accepted. *)
Lemma enqueue_outbox msg s c l : outbox true l c -> s_session_valid s = true -> s_io_handle s = true ->
  Z.of_nat (length (l ++ wire msg)) <= 100 * 1024 * 1024 ->
  exists c', enqueueToSend msg s c = Ok (c', false) /\ outbox true (l ++ wire msg) c' /\ inbound c' = inbound c.
Proof.
  intros (Hi & Hm & Ha & Hs) Hv Hio Hl. pose proof (wire_length_body msg) as Hb. pose proof (length_wire msg) as Hw.
  pose proof (f_equal length Hs) as Hls. rewrite length_app in Hl, Hls.
  assert (has_room (wire_length msg) c) as Hr.
  { split; [done|]. rewrite (oi_pending _ Hi), Hm, size_t_small; lia. }
  rewrite enqueue_encodes by (done || unfold max_content; lia). rewrite <-Hw in Hr.
  destruct (queue_accepts (wire msg) c Hr) as [-> Hq]. eexists. split; [done|]. split; [|apply queue_inbound].
  destruct (queue_out (Some (wire msg)) false c Hi) as (Hi' & Hst & _ & Hm').
  split; [done|]. split; [congruence|]. split; [by apply queue_acceptmore|].
  by rewrite Hst, Hq, app_assoc, Hs.
Qed.

(** [close] adds nothing and ends the queue. *)
Lemma close_outbox s c l : outbox true l c -> s_io_handle s = true ->
  outbox false l (session_close s c) /\ inbound (session_close s c) = inbound c.
Proof.
  intros (Hi & Hm & Ha & Hs) Hio. unfold session_close. rewrite Hio. split; [|apply queue_inbound].
  destruct (queue_out None true c Hi) as (Hi' & Hst & Hq & Hm'). split; [done|]. split; [congruence|]. split.
  - unfold queue. by rewrite Ha.
  - rewrite Hst, Hq. unfold accepted. destruct (_ =? 0); cbn; by rewrite app_nil_r.
Qed.
