(* ===== verification/Hostile.v ===== *)
(** A connection whose peer may send anything.

    [Enduring] states what a connection's callback must promise for this: on
    any bytes, and when the connection closes, it ends with a value or runs
    into one of the flaws [en_flaw] that are known of it.  Against it the
    connection with its buffers is followed through arbitrary bytes, ends of
    file, sends, work items and operations of other threads: nothing else goes
    wrong.  Sessions are such callbacks when their listener is [Sturdy]. *)

From S2P Require Import Prelude TxContainer SamBuffer SamProtocol MsgIDs AdminCommand ReadBuffer Client Delivery Reactor ReactorEnd Session.

Local Open Scope Z_scope.

(** * What the callback promises *)

(** What the reads of the socket and the work items made of a connection. *)
Definition received (c : Client) : ReactorReadBuffer.t * DataFifo * bool := (m_buf c, m_datafifo c, m_io_closed c).

Lemma inbound_received c c' : inbound c' = inbound c -> received c' = received c.
Proof. unfold inbound, received. congruence. Qed.

Class Enduring (T : Type) {CB : ClientCallback T} := {
  en_inv : Client -> T -> Prop;
  en_flaw : exn -> Prop;
  en_out : forall c s, en_inv c s -> out_inv c;
  (** Receiving and sending bytes change nothing of it. *)
  en_ext : forall c c' s, en_inv c s -> out_inv c' -> m_cb c' = m_cb c -> en_inv c' s;
  (** The callback may use the connection, and release it. *)
  en_input : forall c s l junk, en_inv c s -> m_cb c = true -> Z.of_nat (length l) < 2 ^ 31 ->
    match process_input c s (l ++ junk) (Z.of_nat (length l)) with
    | Ok (c', s', r) => en_inv c' s' /\ received c' = received c /\ 0 <= default 0 r <= Z.of_nat (length l)
    | Throw e => en_flaw e
    end;
  en_close : forall c s, en_inv c s -> m_cb c = true ->
    match process_close c s with
    | Ok (c', s') => en_inv (set_cb false c') s' /\ received c' = received c
    | Throw e => en_flaw e
    end }.

Section endurance.
Context {T : Type} {CB : ClientCallback T} {EN : Enduring T}.

Lemma en_keep c c' s : en_inv c s -> m_out_q c' = m_out_q c -> m_out_pend_max c' = m_out_pend_max c ->
  m_cb c' = m_cb c -> en_inv c' s.
Proof. intros Hi Hq Hm Hcb. pose proof (en_out c s Hi). apply (en_ext c); [done| |done]. by apply (out_inv_ext c). Qed.

(** ** A work item *)

Lemma feed_endures fuel : forall c s d, en_inv c s -> ReactorReadBuffer.data (m_buf c) d ->
  Z.of_nat (length d) < 2 ^ 31 -> (length d <= fuel)%nat ->
  match feed fuel c s with
  | Ok (c', s') => en_inv c' s' /\ m_datafifo c' = m_datafifo c /\ m_io_closed c' = m_io_closed c /\
      exists d', ReactorReadBuffer.data (m_buf c') d' /\ (length d' <= length d)%nat
  | Throw e => en_flaw e
  end.
Proof.
  induction fuel as [|fuel IH]; intros c s d Ha Hd Hl Hf; cbn [feed];
    pose proof (ReactorReadBuffer.data_avail _ _ Hd) as Hav; rewrite Hav.
  - destruct d; [|simpl in Hf; lia]. cbn. split_and!; try done. by exists [].
  - destruct (Z.eqb_spec (Z.of_nat (length d)) 0); [split_and!; try done; by exists d|].
    destruct (m_cb c) eqn:Hcb; cbn [mbind result_bind]; [|change (0 <? 0) with false; split_and!; try done; by exists d].
    destruct (ReactorReadBuffer.data_rp _ _ Hd) as [junk Hrp]. rewrite Hrp.
    pose proof (en_input c s d junk Ha Hcb Hl) as Hin.
    destruct (process_input c s (d ++ junk) (Z.of_nat (length d))) as [[[c1 s1] r]|e]; [|done].
    destruct Hin as (Ha1 & Hi & Hn). unfold received in Hi. injection Hi as Hb Hdf Hio.
    cbn [mbind mret result_bind result_ret]. change (id (default 0 r)) with (default 0 r).
    destruct (Z.ltb_spec 0 (default 0 r)).
    + assert (ReactorReadBuffer.data (ReactorReadBuffer.consume (default 0 r) (m_buf c1)) (drop (Z.to_nat (default 0 r)) d)) as Hd1.
      { rewrite Hb. rewrite <-(take_drop (Z.to_nat (default 0 r)) d) in Hd. apply ReactorReadBuffer.data_consume in Hd.
        rewrite length_take, Nat.min_l, Z2Nat.id in Hd by lia. done. }
      specialize (IH (set_buf (ReactorReadBuffer.consume (default 0 r) (m_buf c1)) c1) s1 _
        (en_keep c1 (set_buf (ReactorReadBuffer.consume (default 0 r) (m_buf c1)) c1) _ Ha1 eq_refl eq_refl eq_refl) Hd1).
      rewrite length_drop in IH. specialize (IH ltac:(lia) ltac:(lia)).
      destruct (feed fuel _ s1) as [[c2 s2]|e]; [|done]. destruct IH as (H1 & H4 & H5 & d' & H6 & H7).
      split_and!; [done|by rewrite H4|by rewrite H5|]. exists d'. split; [done|lia].
    + split_and!; [done|done|done|]. exists d. by rewrite Hb.
Qed.

(** ** Everything that happens to the connection *)

Definition closing_tail (closing : bool) : list bytes := if closing then [[]] else [].

(** Between two steps: [n] bounds the bytes received that are not consumed; the
    close sentinel is the last thing in the queue, from the close of the socket
    until the work item that tells the callback and forgets it. *)
Record calm (n : Z) (cs : Client * T) : Prop := Calm {
  ca_inv : en_inv cs.1 cs.2;
  ca_rp : ReactorReadBuffer.m_rp (m_buf cs.1) = 0;
  ca_count : df_itemcount (m_datafifo cs.1) = Z.of_nat (length (df_items (m_datafifo cs.1)));
  ca_input : exists d chunks closing, ReactorReadBuffer.data (m_buf cs.1) d /\
    df_items (m_datafifo cs.1) = chunks ++ closing_tail closing /\ Forall (fun k => k <> []) chunks /\
    (closing = true -> m_io_closed cs.1 = true) /\ (m_io_closed cs.1 = true -> closing = true \/ m_cb cs.1 = false) /\
    Z.of_nat (length d + length (concat chunks)) <= n }.

Lemma calm_ext n c c' s s' : calm n (c, s) -> en_inv c' s' -> received c' = received c ->
  (m_cb c' = true -> m_cb c = true) -> calm n (c', s').
Proof.
  intros [Ha Hr Hc (d & chunks & closing & Hd & Hi & Hne & Hcl & Hend & Hl)] Ha' E Hcb.
  unfold received in E. injection E as Eb Ed Eio. cbn [fst snd] in *.
  split; cbn [fst snd]; rewrite ?Eb, ?Ed; try done. exists d, chunks, closing. rewrite Eio. split_and!; try done.
  intros Hc'. destruct (Hend Hc') as [|Hf]; [by left|]. right. rewrite Hf in Hcb. by destruct (m_cb c'); [discriminate Hcb|].
Qed.

Lemma calm_new c s : en_inv c s -> fresh_inbound c -> calm 0 (c, s).
Proof.
  intros Hi Hf. unfold fresh_inbound, inbound in Hf. injection Hf as Eb Ed Ecb Eio.
  split; cbn [fst snd]; rewrite ?Eb, ?Ed; try done.
  exists [], [], false. split_and!; try done; [by apply ReactorReadBuffer.data_new|by rewrite Eio].
Qed.

(** What another thread does leaves the connection in order. *)
Definition harmless (f : Client * T -> Client * T) : Prop :=
  forall cs, en_inv cs.1 cs.2 -> en_inv (f cs).1 (f cs).2 /\ received (f cs).1 = received cs.1 /\
    (m_cb (f cs).1 = true -> m_cb cs.1 = true).

Inductive peer_event :=
| PE_read (now : Z) (r : read_result)  (** the peer sends, ends the stream, or the read fails *)
| PE_close  (** the event loop closes the socket *)
| PE_send (now : Z) (sends : list send_result)
| PE_work  (** a worker runs [do_work] *)
| PE_other (f : Client * T -> Client * T)  (** another thread *).

Definition run_peer_event (e : peer_event) (cs : Client * T) : result (Client * T) :=
  match e with
  | PE_read now r => Ok ((handle_input now r cs.1).1, cs.2)
  | PE_close => Ok (handle_close cs.1, cs.2)
  | PE_send now sends => '(c, _) ← handle_output now sends cs.1; Ok (c, cs.2)
  | PE_work => do_work cs.1 cs.2
  | PE_other f => Ok (f cs)
  end.

Fixpoint run_peer (evs : list peer_event) (cs : Client * T) : result (Client * T) :=
  match evs with
  | [] => Ok cs
  | e :: evs => cs ← run_peer_event e cs; run_peer evs cs
  end.

Definition event_size (e : peer_event) : Z :=
  match e with PE_read _ (ReadOk chunk) => Z.of_nat (length chunk) | _ => 0 end.
Definition peer_bytes (evs : list peer_event) : Z := foldr (fun e n => event_size e + n) 0 evs.
Definition event_ok (e : peer_event) : Prop := match e with PE_other f => harmless f | _ => True end.

Lemma event_size_nonneg e : 0 <= event_size e.
Proof. unfold event_size. repeat case_match; lia. Qed.

Lemma peer_bytes_nonneg evs : 0 <= peer_bytes evs.
Proof.
  induction evs as [|e evs IH]; [done|]. cbn [peer_bytes foldr]. fold (peer_bytes evs).
  pose proof (event_size_nonneg e). lia.
Qed.

Lemma length_items chunks closing : Forall (fun k => k <> []) chunks ->
  (length (chunks ++ closing_tail closing) <= S (length (concat chunks)))%nat.
Proof. intros H. apply length_concat_chunks in H. rewrite length_app. destruct closing; cbn; lia. Qed.

Lemma read_calm n now r cs : calm n cs -> n + event_size (PE_read now r) < 2 ^ 31 -> 0 <= n ->
  calm (n + event_size (PE_read now r)) ((handle_input now r cs.1).1, cs.2).
Proof.
  destruct cs as [c pw]. intros Hc Hn H0. pose proof Hc as [Ha Hr Hcnt (d & chunks & closing & Hd & Hi & Hne & Hcl & Hend & Hl)].
  cbn [fst snd] in *.
  assert (calm (n + event_size (PE_read now r)) (c, pw)) as Hsame.
  { split; [done..|]. exists d, chunks, closing. split_and!; try done. cbn [event_size]. repeat case_match; lia. }
  unfold handle_input, io_open. destruct (m_io_closed c) eqn:Ec; [done|]. cbn [negb].
  destruct r as [[|a chunk]|]; [done| |done]. destruct closing; [by specialize (Hcl eq_refl)|].
  cbn [closing_tail event_size] in *. rewrite app_nil_r in Hi. pose proof (length_items chunks false Hne) as Hlen.
  cbn [closing_tail] in Hlen. rewrite app_nil_r in Hlen.
  split; cbn [fst snd set_datafifo count_in m_cb m_io_closed m_buf m_datafifo df_items df_itemcount]; [|done| |].
  - by apply (en_keep c).
  - rewrite Hcnt, Hi, length_app, size_t_small; cbn [length]; lia.
  - exists d, (chunks ++ [a :: chunk]), false. rewrite Hi. cbn [closing_tail]. rewrite app_nil_r.
    split_and!; [done|done| |done| |].
    + apply Forall_app. split; [done|]. by repeat constructor.
    + by rewrite Ec.
    + rewrite concat_app, length_app. cbn [concat]. rewrite app_nil_r. lia.
Qed.

Lemma close_calm n cs : calm n cs -> n < 2 ^ 31 -> calm n (handle_close cs.1, cs.2).
Proof.
  destruct cs as [c pw]. intros [Ha Hr Hcnt (d & chunks & closing & Hd & Hi & Hne & Hcl & Hend & Hl)] Hn. cbn [fst snd] in *.
  unfold handle_close, io_open. destruct (m_io_closed c) eqn:Ec; cbn [negb].
  { split; [done..|]. exists d, chunks, closing. split_and!; try done. by intros _; apply Hend. }
  destruct closing; [by specialize (Hcl eq_refl)|]. cbn [closing_tail] in *. rewrite app_nil_r in Hi.
  pose proof (length_concat_chunks _ Hne).
  split; cbn [fst snd set_datafifo do_io set_io_closed m_cb m_io_closed m_buf m_datafifo df_items df_itemcount]; [|done| |].
  - by apply (en_keep c).
  - rewrite Hcnt, Hi, length_app, size_t_small; cbn [length]; lia.
  - exists d, chunks, true. rewrite Hi. split_and!; try done. by left.
Qed.

(** The connection after a work item: nothing is left of the input but a
    message that is not complete. *)
Lemma calm_after n c s d : en_inv c s -> ReactorReadBuffer.data (m_buf c) d -> ReactorReadBuffer.m_rp (m_buf c) = 0 ->
  df_items (m_datafifo c) = [] -> df_itemcount (m_datafifo c) = 0 -> (m_io_closed c = true -> m_cb c = false) ->
  Z.of_nat (length d) <= n -> calm n (c, s) /\ has_work c = false.
Proof.
  intros Ha Hd Hr Hi Hc Hcl Hl. split; [|unfold has_work; by rewrite Hc, Hi].
  split; cbn [fst snd]; rewrite ?Hi, ?Hc; try done. exists d, [], false. split_and!; try done; [by right; apply Hcl|].
  cbn [concat length]. lia.
Qed.

(** The close sentinel was taken: the callback is told, and forgotten. *)
Lemma calm_closed n c s d : en_inv c s -> ReactorReadBuffer.data (m_buf c) d -> ReactorReadBuffer.m_rp (m_buf c) = 0 ->
  Z.of_nat (length d) <= n ->
  match '(c, s) ← (if m_cb c then process_close c s else Ok (c, s)); Ok (clear_fifo (set_cb false c), s) with
  | Ok cs' => calm n cs' /\ has_work cs'.1 = false /\ m_cb cs'.1 = false
  | Throw e => en_flaw e
  end.
Proof.
  intros Ha Hd Hr Hl.
  assert (forall c3 s3, en_inv (set_cb false c3) s3 -> received c3 = received c ->
    calm n (clear_fifo (set_cb false c3), s3) /\ has_work (clear_fifo (set_cb false c3)) = false) as Hend.
  { intros c3 s3 Ha3 Hrec. unfold received in Hrec. injection Hrec as Hb _ _.
    apply (calm_after n _ s3 d); cbn [clear_fifo set_datafifo set_cb m_datafifo df_items df_itemcount m_buf m_cb];
      rewrite ?Hb; try done. by apply (en_keep (set_cb false c3)). }
  destruct (m_cb c) eqn:Hcb.
  - pose proof (en_close _ _ Ha Hcb) as Hclose.
    destruct (process_close c s) as [[c3 s3]|e]; [|done]. destruct Hclose as (Ha3 & Hin3). cbn [mbind result_bind fst].
    destruct (Hend c3 s3 Ha3 Hin3). by split_and!.
  - cbn [mbind result_bind fst]. destruct (Hend c s) as [H1 H2]; [by apply (en_keep c)|done|]. by split_and!.
Qed.

(** [do_work] on whatever has arrived. *)
Lemma work_calm n cs : calm n cs -> n < 2 ^ 31 ->
  match do_work cs.1 cs.2 with
  | Ok cs' => calm n cs' /\ has_work cs'.1 = false /\ (m_io_closed cs.1 = true -> m_cb cs'.1 = false)
  | Throw e => en_flaw e
  end.
Proof.
  destruct cs as [c s]. intros [Ha Hr Hcnt (d & chunks & closing & Hd & Hi & Hne & Hcl & Hend & Hl)] Hn. cbn [fst snd] in *.
  unfold do_work. destruct (m_cb c) eqn:Hcb; cbn [negb].
  2: { destruct (calm_after n (clear_fifo c) s d); [by apply (en_keep c)|done..|lia|]. by split_and!. }
  rewrite Hcnt, Hi.
  destruct (drain_app chunks (closing_tail closing) (m_buf c) d Hne Hd Hr) as (b1 & -> & Hd1 & Hr1);
    [lia|by destruct closing; cbn; lia|].
  assert (drain (Z.of_nat (length (closing_tail closing))) (closing_tail closing) b1 = Ok (0, [], b1, closing)) as ->
    by (by destruct closing).
  cbn [mbind result_bind]. match goal with |- context [feed _ ?k _] => set (c1 := k) end.
  rewrite (ReactorReadBuffer.data_avail (m_buf c1) _ Hd1), Nat2Z.id.
  pose proof (feed_endures (length (d ++ concat chunks)) c1 s (d ++ concat chunks)
    ltac:(by apply (en_keep c)) Hd1 ltac:(rewrite length_app; lia) ltac:(lia)) as Hf.
  destruct (feed _ c1 s) as [[c2 s2]|e]; [|done]. cbn [fst snd] in Hf.
  destruct Hf as (Ha2 & Hdf2 & Hio2 & d2 & Hd2 & Hl2). rewrite length_app in Hl2. cbn [mbind result_bind].
  destruct (ReactorReadBuffer.data_shift _ _ Hd2) as (b3 & -> & Hd3 & Hr3 & _). cbn [mbind result_bind].
  assert (en_inv (set_buf b3 c2) s2) as Ha3 by (by apply (en_keep c2)).
  destruct closing.
  - pose proof (calm_closed n (set_buf b3 c2) s2 d2 Ha3 Hd3 Hr3 ltac:(lia)) as Hc3.
    destruct (mbind _ _) as [cs'|e]; [|done]. destruct Hc3 as (? & ? & ?). by split_and!.
  - assert (m_io_closed c = true -> False) as Hopen by (intros Hc; destruct (Hend Hc); congruence).
    destruct (calm_after n (set_buf b3 c2) s2 d2 Ha3 Hd3 Hr3) as [H1 H2].
    + by cbn; rewrite Hdf2.
    + by cbn; rewrite Hdf2.
    + cbn. rewrite Hio2. by intros ?%Hopen.
    + lia.
    + split_and!; [done|done|by intros ?%Hopen].
Qed.

(** While the reactor takes notifications such a connection never holds a worker
    up, its known flaws apart: the destructor of the reactor
    ([destructor_completes]) need not wait for it. *)
Lemma calm_finishes n c s : calm n (c, s) -> n < 2 ^ 31 ->
  finishes true c s = true \/ exists e, en_flaw e /\ do_work c s = Throw e.
Proof.
  intros Hc Hn. pose proof (work_calm n (c, s) Hc Hn) as Hw. cbn [fst snd] in Hw. unfold finishes.
  destruct (do_work c s) as [[c' s']|e]; [left|right; by exists e].
  destruct Hw as (_ & Hw & _). cbn [fst] in Hw. by rewrite Hw.
Qed.

(** Whatever arrives and whatever the others do. *)
Lemma peer_calm evs : Forall event_ok evs -> forall n cs, calm n cs -> 0 <= n -> n + peer_bytes evs < 2 ^ 31 ->
  match run_peer evs cs with Ok cs' => calm (n + peer_bytes evs) cs' | Throw e => en_flaw e end.
Proof.
  induction 1 as [|e evs He Hev IH]; intros n cs Hc H0 Hn; cbn [run_peer peer_bytes foldr] in *.
  { by rewrite Z.add_0_r. }
  fold (peer_bytes evs) in *. pose proof (peer_bytes_nonneg evs) as Hp. pose proof (event_size_nonneg e) as Hs.
  assert (match run_peer_event e cs with Ok cs' => calm (n + event_size e) cs' | Throw e => en_flaw e end) as Hstep.
  { destruct e as [now r| |now sends| |f]; cbn [run_peer_event event_ok] in *.
    - apply read_calm; [done|lia|done].
    - cbn [event_size]. rewrite Z.add_0_r. apply close_calm; [done|lia].
    - destruct cs as [c s]. destruct (handle_output_out now sends c) as (c' & st & E & Ho & _).
      { apply (en_out c s), (ca_inv _ _ Hc). }
      cbn [fst snd]. rewrite E. cbn [mbind result_bind event_size]. rewrite Z.add_0_r.
      pose proof (handle_output_inbound _ _ _ _ _ E) as Hi.
      pose proof (inbound_received _ _ Hi) as Hrec. unfold inbound in Hi. injection Hi as _ _ Ecb _.
      apply (calm_ext n c _ s); [done| |done|by rewrite Ecb]. by apply (en_ext c); [apply (ca_inv _ _ Hc)|..].
    - cbn [event_size]. rewrite Z.add_0_r. pose proof (work_calm n cs Hc ltac:(lia)) as Hw.
      destruct (do_work cs.1 cs.2); [apply Hw|done].
    - cbn [event_size]. rewrite Z.add_0_r. destruct (He cs (ca_inv _ _ Hc)) as (Ha & Hi & Hcb).
      destruct cs as [c s]. destruct (f (c, s)) as [c' s']. by apply (calm_ext n c c' s). }
  destruct (run_peer_event e cs) as [cs1|ex]; [|done]. cbn [mbind result_bind].
  specialize (IH _ cs1 Hstep ltac:(lia) ltac:(lia)). rewrite Z.add_assoc. exact IH.
Qed.

Lemma run_peer_app evs evs' cs : run_peer (evs ++ evs') cs = cs ← run_peer evs cs; run_peer evs' cs.
Proof.
  revert cs. induction evs as [|e evs IH]; intros cs; [done|]. cbn [run_peer app].
  destruct (run_peer_event e cs) as [cs1|]; cbn [mbind result_bind]; [apply IH|done].
Qed.

(** Once the socket is closed, a work item tells the callback and forgets it. *)
Lemma peer_closed evs cs : Forall event_ok evs -> calm 0 cs -> peer_bytes evs < 2 ^ 31 ->
  match run_peer (evs ++ [PE_close; PE_work]) cs with
  | Ok cs' => calm (peer_bytes evs) cs' /\ m_cb cs'.1 = false
  | Throw e => en_flaw e
  end.
Proof.
  intros Hev Hc Hb. rewrite run_peer_app. pose proof (peer_calm evs Hev 0 cs Hc ltac:(lia) ltac:(lia)) as H.
  destruct (run_peer evs cs) as [cs1|e]; [|done]. cbn [mbind result_bind run_peer run_peer_event fst snd Z.add] in *.
  pose proof (close_calm _ _ H ltac:(lia)) as Hc1. pose proof (work_calm _ _ Hc1 ltac:(lia)) as Hw. cbn [fst snd] in Hw.
  assert (m_io_closed (handle_close cs1.1) = true) as Hcl.
  { unfold handle_close, io_open. by destruct (m_io_closed cs1.1) eqn:E. }
  destruct (do_work _ cs1.2) as [cs2|e]; [|done]. cbn [mbind result_bind]. destruct Hw as (H1 & _ & H2). by split; [|apply H2].
Qed.

(** ** What the callback and the others never change *)

Context {A : Type} (g : T -> A)
  (Hinput : forall c s l n c' s' r, process_input c s l n = Ok (c', s', r) -> g s' = g s)
  (Hclose : forall c s c' s', process_close c s = Ok (c', s') -> g s' = g s).

Lemma feed_keeps fuel : forall c s c' s', feed fuel c s = Ok (c', s') -> g s' = g s.
Proof.
  induction fuel as [|fuel IH]; intros c s c' s' E; cbn [feed] in E;
    (destruct (_ =? 0); [by injection E as _ <-|]); [done|].
  apply result_bind_Ok in E as ([[c1 s1] n] & E1 & E).
  assert (g s1 = g s) as <-.
  { destruct (m_cb c); [|by injection E1 as _ <- _]. apply result_bind_Ok in E1 as ([[c2 s2] r] & E2 & [= _ <- _]).
    by eapply Hinput. }
  destruct (0 <? n); [by eapply IH|by injection E as _ <-].
Qed.

Lemma do_work_keeps c s c' s' : do_work c s = Ok (c', s') -> g s' = g s.
Proof.
  unfold do_work. destruct (m_cb c); cbn [negb]; [|by intros [= _ <-]].
  intros ([[[count items] b] closing] & _ & E)%result_bind_Ok.
  apply result_bind_Ok in E as ([c1 s1] & Ef & E). apply feed_keeps in Ef. rewrite <-Ef.
  apply result_bind_Ok in E as (b1 & _ & E). destruct closing; [|by injection E as _ <-].
  apply result_bind_Ok in E as ([c2 s2] & E2 & [= _ <-]).
  destruct (m_cb _) in E2; [by eapply Hclose|by injection E2 as _ <-].
Qed.

Lemma run_peer_keeps evs : Forall (fun e => match e with PE_other f => forall cs, g (f cs).2 = g cs.2 | _ => True end) evs ->
  forall cs cs', run_peer evs cs = Ok cs' -> g cs'.2 = g cs.2.
Proof.
  induction 1 as [|e evs He _ IH]; intros cs cs' E; cbn [run_peer] in E; [by injection E as <-|].
  apply result_bind_Ok in E as (cs1 & E1 & E). rewrite (IH _ _ E).
  destruct e as [now r| |now sends| |f]; cbn [run_peer_event] in E1; try by injection E1 as <-.
  - by apply result_bind_Ok in E1 as ([c st] & _ & [= <-]).
  - destruct cs1 as [c1 s1]. by apply do_work_keeps in E1.
Qed.

End endurance.

(** Reads, closes, sends and work items need no condition; the type of the
    state is in general clear from the run. *)
#[global] Arguments peer_event : clear implicits.

(** * Sessions *)

(** A value, an exception of C++, or a known flaw. *)
Definition tolerated {A} (flaw : exn -> Prop) (r : result A) : Prop :=
  match r with Ok _ => True | Throw e => catchable e = true \/ flaw e end.

Class Sturdy (W : Type) {SL : SessionListener W} := {
  st_inv : W -> Prop;
  (** The listener has the session at an address. *)
  st_knows : W -> Z -> Prop;
  (** It has heard of its end and forgotten it. *)
  st_gone : W -> Z -> Prop;
  st_flaw : exn -> Prop;
  st_get_set : forall w p x y, host_get w p = Some x -> host_get (host_set w p y) p = Some y;
  st_set : forall w p s c s' c', st_inv w -> host_get w p = Some (s, c) -> s_id s' = s_id s ->
    s_io_handle s' = s_io_handle s ->
    st_inv (host_set w p (s', c')) /\ (st_knows w p -> st_knows (host_set w p (s', c')) p) /\
    (st_gone w p -> st_gone (host_set w p (s', c')) p);
  st_message : forall w p s c m, st_inv w -> host_get w p = Some (s, c) -> st_knows w p ->
    let w' := (session_msg_received m p w).1 in
    tolerated st_flaw (session_msg_received m p w).2 /\ st_inv w' /\ st_knows w' p /\
    exists s' c', host_get w' p = Some (s', c') /\ s_listener s' = s_listener s /\
      inbound c' = inbound c /\ (out_inv c -> out_inv c');
  st_closed : forall w p s c, st_inv w -> host_get w p = Some (s, c) -> st_knows w p ->
    let w' := (session_closed p w).1 in
    tolerated st_flaw (session_closed p w).2 /\ st_inv w' /\ st_gone w' p /\
    exists s' c', host_get w' p = Some (s', c') /\ inbound c' = inbound c /\ (out_inv c -> out_inv c') }.

(** * The error reply *)

Lemma length_escape l : (length (escape l) <= 2 * length l)%nat.
Proof.
  induction l as [|c l IH]; [done|]. unfold escape in *. cbn [flat_map]. rewrite length_app.
  assert (length (escape_char c) <= 2)%nat by (unfold escape_char; by destruct (isSpecialChar c); cbn; lia).
  cbn [length]. lia.
Qed.

Lemma badmsg_encodable text : (String.length text <= 64)%nat -> encodable (badmsg (runtime_error text)).
Proof.
  intros Hl. unfold encodable, enc_body. change (msg_type (badmsg (runtime_error text))) with "badmsg".
  assert (enc_contents (m_root (badmsg (runtime_error text))) = str "[msg=" ++ escape (str text) ++ str ",]") as ->.
  { cbn [badmsg on_root exn_what m_root new_message]. unfold put_field.
    rewrite (eq_refl : m_field_map (new_container "badmsg") !! "msg" = None). cbn. by rewrite <-!app_assoc. }
  pose proof (length_escape (str text)) as He. rewrite length_str in He. rewrite !length_app.
  unfold max_content. cbn [length str]. lia.
Qed.

Section hostile.
Context {W : Type} {SL : SessionListener W} {ST : Sturdy W}.

(** What can still go wrong: the decoder's read of the byte after the data,
    and the flaws of the listener. *)
Definition peer_flaw (e : exn) : Prop := e = undefined_behaviour "read outside the buffer" \/ st_flaw e.

(** The connection and the world: the callback is set while the listener has the
    session, and no longer. *)
Definition attached (c : Client) (pw : Z * W) : Prop :=
  st_inv pw.2 /\ out_inv c /\
  (m_cb c = true -> exists s c0, host_get pw.2 pw.1 = Some (s, c0) /\ s_listener s = true /\ st_knows pw.2 pw.1) /\
  (m_cb c = false -> st_gone pw.2 pw.1).

(** The world while the callback runs on the connection. *)
Definition running (p : Z) (c : Client) (w : W) : Prop :=
  st_inv w /\ st_knows w p /\ exists s, host_get w p = Some (s, c) /\ s_listener s = true.

Lemma running_with_client c p w : attached c (p, w) -> m_cb c = true ->
  exists w', with_client c p w = Ok w' /\ running p c w'.
Proof.
  intros (Hi & Ho & Hs & _) Hcb. destruct (Hs Hcb) as (s & c0 & Hg & Hl & Hk). cbn [fst snd] in *.
  unfold with_client. rewrite Hg. eexists. split; [done|].
  destruct (st_set w p s c0 s c Hi Hg eq_refl eq_refl) as (Hi' & Hk' & _).
  split; [done|]. split; [auto|]. exists s. split; [by eapply st_get_set|done].
Qed.

Lemma running_attached p c c' w : running p c' w -> (out_inv c -> out_inv c') -> out_inv c -> m_cb c' = true ->
  attached c' (p, w).
Proof.
  intros (Hi & Hk & s & Hg & Hl) Hout Hc Hcb. split; [done|]. split; [auto|]. split; [intros _; by exists s, c'|congruence].
Qed.

Lemma inbound_cb c c' : inbound c' = inbound c -> m_cb c' = m_cb c.
Proof. unfold inbound. congruence. Qed.

(** ** A message *)

Lemma io_onmsg_sturdy p m c w : running p c w ->
  tolerated st_flaw (io_onmsg p m w).2 /\
  exists c', running p c' (io_onmsg p m w).1 /\ inbound c' = inbound c /\ (out_inv c -> out_inv c').
Proof.
  intros (Hi & Hk & s & Hg & Hl). unfold io_onmsg. rewrite Hg.
  destruct (s_session_valid s); cbn [negb]; [|split; [done|]; exists c; split; [|done]; by repeat (split || exists s)].
  set (s1 := if bool_decide (msg_type m = id.msg_logon) then _ else _).
  assert (identity s1 = identity (take_message m s)) as Hs1.
  { unfold s1. case_bool_decide; [apply note_logon_identity|done]. }
  unfold identity in Hs1. cbn [take_message s_id s_session_valid s_listener s_io_handle s_inbox] in Hs1.
  injection Hs1 as Hid _ Hlis Hio _.
  destruct (st_set w p s c s1 c Hi Hg Hid Hio) as (Hi1 & Hk1 & _). rewrite Hlis, Hl.
  destruct (st_message _ p s1 c m Hi1 (st_get_set _ _ _ _ Hg) (Hk1 Hk)) as (Ht & Hi2 & Hk2 & s2 & c2 & Hg2 & Hl2 & Hin & Hout).
  split; [done|]. exists c2. split; [|done]. split; [done|]. split; [done|]. exists s2. split; [done|congruence].
Qed.

(** The bytes [l] are handed to the session. *)
Lemma input_sturdy p c w l junk : attached c (p, w) -> m_cb c = true -> Z.of_nat (length l) < 2 ^ 31 ->
  match process_input c (p, w) (l ++ junk) (Z.of_nat (length l)) with
  | Ok (c', pw', r) => attached c' pw' /\ pw'.1 = p /\ inbound c' = inbound c /\
      0 <= default 0 r <= Z.of_nat (length l)
  | Throw e => peer_flaw e
  end.
Proof.
  intros Ha Hcb Hl. cbn [process_input session_callback].
  destruct (running_with_client c p w Ha Hcb) as (w1 & -> & Hr). cbn [mbind result_bind].
  unfold session_process_input. rewrite int32_small, size_t_small, Nat2Z.id by lia.
  assert (length l <= length (l ++ junk))%nat as Hle by (rewrite length_app; lia).
  pose proof (decodeMsg_outcome (l ++ junk) (new_message EmptyString) (length l) Hle) as Hd.
  destruct (decodeMsg (l ++ junk) (new_message EmptyString) (length l)) as [[n m]|e] eqn:E; cbn in Hd.
  - pose proof (decodeMsg_consumed _ _ _ _ _ Hle E) as Hn.
    assert (forall c' w', running p c' w' -> inbound c' = inbound c -> (out_inv c -> out_inv c') -> client_of p w' = Ok c' /\
      attached c' (p, w')) as Hdone.
    { intros c' w' Hr' Hin Hout.
      split; [|apply (running_attached p c); [done|done|apply Ha|by rewrite (inbound_cb _ _ Hin)]].
      destruct Hr' as (_ & _ & s' & Hg' & _). unfold client_of. by rewrite Hg'. }
    destruct (Z.eqb_spec n 0).
    { cbn [mbind result_bind]. destruct (Hdone c w1 Hr eq_refl (fun H => H)) as [-> Ha1].
      cbn [mbind result_bind default]. split_and!; [done|done|done|cbn; lia|cbn; lia]. }
    destruct (io_onmsg_sturdy p m c w1 Hr) as (Ht & c' & Hr' & Hin & Hout).
    destruct (io_onmsg p m w1) as [w2 [[]|e]]; cbn [fst snd tolerated] in *.
    + cbn [mbind result_bind]. destruct (Hdone c' w2 Hr' Hin Hout) as [-> Ha1]. cbn. split_and!; try done; lia.
    + destruct (catchable e) eqn:Ee; [|destruct Ht as [?|Ht]; [done|]; by right].
      cbn [mbind result_bind]. destruct (Hdone c' w2 Hr' Hin Hout) as [-> Ha1]. cbn. split_and!; try done; lia.
  - destruct e as [text|text|code text|what|]; try done; [|left; cbn; f_equal; apply Hd].
    cbn [catchable]. destruct Hr as (Hi & Hk & s & Hg & Hlis). rewrite Hg.
    destruct (enqueue_total (badmsg (runtime_error text)) s c) as (c1 & f & Ee); [by apply badmsg_encodable|].
    rewrite Ee. cbn [mbind result_bind]. destruct (close_keeps s c1) as [Hin Hout].
    pose proof (enqueue_inbound _ _ _ _ _ Ee) as Hin1. pose proof (enqueue_out _ _ _ _ _ Ee) as Hout1.
    destruct (st_set w1 p s c s (session_close s c1) Hi Hg eq_refl eq_refl) as (Hi2 & Hk2 & _).
    pose proof (st_get_set w1 p (s, c) (s, session_close s c1) Hg) as Hg2. unfold client_of. rewrite Hg2. cbn.
    split; [|split; [done|]; split; [congruence|lia]].
    apply (running_attached p c); [|auto|apply Ha|rewrite (inbound_cb c); [done|congruence]]. split; [done|]. split; [auto|]. by exists s.
Qed.

(** The session is closed: the listener hears of it once and is forgotten. *)
Lemma close_sturdy p c w : attached c (p, w) -> m_cb c = true ->
  match process_close c (p, w) with
  | Ok (c', pw') => attached (set_cb false c') pw' /\ inbound c' = inbound c
  | Throw e => peer_flaw e
  end.
Proof.
  intros Ha Hcb. pose proof Ha as (_ & Hout0 & _). cbn [process_close session_callback].
  destruct (running_with_client c p w Ha Hcb) as (w1 & -> & Hi & Hk & s & Hg & Hl). cbn [mbind result_bind].
  unfold session_process_close. rewrite Hg.
  destruct (st_set w1 p s c (set_valid false s) c Hi Hg eq_refl eq_refl) as (Hi1 & Hk1 & _).
  pose proof (st_get_set w1 p (s, c) (set_valid false s, c) Hg) as Hg1. rewrite Hl.
  destruct (st_closed _ p _ c Hi1 Hg1 (Hk1 Hk)) as (Ht & Hi2 & Hgone & s2 & c2 & Hg2 & Hin & Hout).
  assert (forall w', st_inv w' -> st_gone w' p -> attached (set_cb false c2) (p, w')) as Hend.
  { intros w' Hw Hgo. split; [done|]. split; [apply (out_inv_ext c2); auto|by split]. }
  destruct (session_closed p _) as [w2 [[]|e]]; cbn [fst snd tolerated] in *.
  - rewrite Hg2. unfold client_of. rewrite (st_get_set _ _ _ _ Hg2). cbn. split; [|done].
    destruct (st_set w2 p s2 c2 (forget_listener s2) c2 Hi2 Hg2 eq_refl eq_refl) as (Hi3 & _ & Hgone3). apply Hend; auto.
  - destruct e as [| | |what|]; cbn in Ht; try (destruct Ht as [?|Ht]; [done|]; by right);
      unfold client_of; rewrite Hg2; cbn; split; auto.
Qed.

#[global] Instance session_enduring : Enduring (Z * W).
Proof.
  refine {| en_inv := attached; en_flaw := peer_flaw |}.
  - by intros c s (_ & Ho & _).
  - intros c c' [p w] (Hi & _ & Hs) Ho Hcb. split; [done|]. split; [done|]. by rewrite Hcb.
  - intros c [p w] l junk Ha Hcb Hl. pose proof (input_sturdy p c w l junk Ha Hcb Hl) as H.
    destruct (process_input _ _ _ _) as [[[c' pw'] r]|e]; [|done]. destruct H as (H1 & _ & H2 & H3).
    split_and!; [done|by apply inbound_received|lia|lia].
  - intros c [p w] Ha Hcb. pose proof (close_sturdy p c w Ha Hcb) as H.
    destruct (process_close _ _) as [[c' pw']|e]; [|done]. destruct H. split; [done|by apply inbound_received].
Defined.

End hostile.
