(* ===== verification/AdminInterface.v ===== *)
(** The administration interface: [AdminInterfaceImpl] of
    [AdminInterfaceImpl.h] and [AdminInterfaceImpl.cc].

    The world holds the session objects and connections by address, the
    session registry (slot to address), the commands and the monitor.  Each
    member function is one step; the calls [send_one] that tables make during
    an operation of the monitor are run when the operation ends, in order (a
    send changes nothing the monitor reads).  The clock, the addresses of
    peers, the operating system's answers and the commands an application
    registers are arguments. *)

From S2P Require Import Prelude Decimal Utils TxContainer SamBuffer SamProtocol MsgIDs AdminCommand TableEvents Table ReadBuffer Client Delivery Monitor Session.

Local Open Scope Z_scope.

Definition MAX_SESSIONS : Z := 2000.
Definition SESSION_REG_SIZE : Z := MAX_SESSIONS + 1.

(** What a command calls: a member function of the interface, or the callback
    of an application, by number. *)
Inductive Target :=
| T_list_tables | T_sessions | T_help | T_info | T_snapshot | T_diags | T_del_session
| T_subscribe | T_table_subs
| T_user (k : Z).

Record AdminInterfaceImpl := MkAI {
  ai_sessions : gmap Z AdminSession;  (** session objects by address *)
  ai_clients : gmap Z Client;  (** the connection of the session at an address *)
  ai_reg : list (option Z); ai_next : Z; ai_created : Z;
  ai_expired : list Z; ai_ext : list Z;
  ai_admins : gmap string (AdminCommand Target);
  ai_monitor : Monitor;
  ai_alloc : Z  (** the next address [new] returns *) }.

Abbreviation ai_op A := (eff Empty_set AdminInterfaceImpl A).

Definition set_object (p : Z) (s : AdminSession) (c : Client) (w : AdminInterfaceImpl) : AdminInterfaceImpl :=
  MkAI (<[p := s]> (ai_sessions w)) (<[p := c]> (ai_clients w)) (ai_reg w) (ai_next w) (ai_created w)
    (ai_expired w) (ai_ext w) (ai_admins w) (ai_monitor w) (ai_alloc w).
Definition set_reg (reg : list (option Z)) (w : AdminInterfaceImpl) : AdminInterfaceImpl :=
  MkAI (ai_sessions w) (ai_clients w) reg (ai_next w) (ai_created w)
    (ai_expired w) (ai_ext w) (ai_admins w) (ai_monitor w) (ai_alloc w).
Definition set_next (next : Z) (w : AdminInterfaceImpl) : AdminInterfaceImpl :=
  MkAI (ai_sessions w) (ai_clients w) (ai_reg w) next (ai_created w)
    (ai_expired w) (ai_ext w) (ai_admins w) (ai_monitor w) (ai_alloc w).
Definition set_expired (l : list Z) (w : AdminInterfaceImpl) : AdminInterfaceImpl :=
  MkAI (ai_sessions w) (ai_clients w) (ai_reg w) (ai_next w) (ai_created w)
    l (ai_ext w) (ai_admins w) (ai_monitor w) (ai_alloc w).
Definition set_ext (l : list Z) (w : AdminInterfaceImpl) : AdminInterfaceImpl :=
  MkAI (ai_sessions w) (ai_clients w) (ai_reg w) (ai_next w) (ai_created w)
    (ai_expired w) l (ai_admins w) (ai_monitor w) (ai_alloc w).
Definition set_admins (m : gmap string (AdminCommand Target)) (w : AdminInterfaceImpl) : AdminInterfaceImpl :=
  MkAI (ai_sessions w) (ai_clients w) (ai_reg w) (ai_next w) (ai_created w)
    (ai_expired w) (ai_ext w) m (ai_monitor w) (ai_alloc w).
Definition set_monitor (m : Monitor) (w : AdminInterfaceImpl) : AdminInterfaceImpl :=
  MkAI (ai_sessions w) (ai_clients w) (ai_reg w) (ai_next w) (ai_created w)
    (ai_expired w) (ai_ext w) (ai_admins w) m (ai_alloc w).
(** [delete session]: its connection stays with the reactor, released. *)
Definition delete_object (p : Z) (c : Client) (w : AdminInterfaceImpl) : AdminInterfaceImpl :=
  MkAI (delete p (ai_sessions w)) (<[p := c]> (ai_clients w)) (ai_reg w) (ai_next w) (ai_created w)
    (ai_expired w) (ai_ext w) (ai_admins w) (ai_monitor w) (ai_alloc w).
(** [new AdminSession(...)] entered at slot [index]. *)
Definition register_session (index : Z) (s : AdminSession) (w : AdminInterfaceImpl) : AdminInterfaceImpl :=
  MkAI (<[ai_alloc w := s]> (ai_sessions w)) (ai_clients w)
    (<[Z.to_nat index := Some (ai_alloc w)]> (ai_reg w)) (ai_next w)
    (size_t (ai_created w + 1)) (ai_expired w) (ai_ext w) (ai_admins w) (ai_monitor w) (ai_alloc w + 1).

(** [new Client] for the session at [p]. *)
Definition set_client (p : Z) (c : Client) (w : AdminInterfaceImpl) : AdminInterfaceImpl :=
  MkAI (ai_sessions w) (<[p := c]> (ai_clients w)) (ai_reg w) (ai_next w) (ai_created w)
    (ai_expired w) (ai_ext w) (ai_admins w) (ai_monitor w) (ai_alloc w).

(** The session at an address, with its connection. *)
Definition get_object (w : AdminInterfaceImpl) (p : Z) : option (AdminSession * Client) :=
  s ← ai_sessions w !! p; c ← ai_clients w !! p; Some (s, c).

(** A member function of the session at [p]. *)
Definition on_session {A} (p : Z) (f : AdminSession -> Client -> result (AdminSession * Client * A))
    : ai_op A := fun w =>
  match get_object w p with
  | None => (w, [], Throw (undefined_behaviour "no session object"))
  | Some (s, c) =>
      match f s c with
      | Ok (s, c, a) => (set_object p s c w, [], Ok a)
      | Throw e => (w, [], Throw e)
      end
  end.

Definition enqueue_to (p : Z) (msg : txMessage) : ai_op bool :=
  on_session p (fun s c => '(c, failed) ← enqueueToSend msg s c; Ok (s, c, failed)).
Definition close_session (p : Z) : ai_op unit :=
  on_session p (fun s c => Ok (s, session_close s c, ())).
Definition is_open (p : Z) : ai_op bool := on_session p (fun s c => Ok (s, c, s_session_valid s)).

(** [m_sessions.reg[i].ptr]; the index is not checked. *)
Definition reg_at (i : Z) : ai_op (option Z) := fun w =>
  match (if (0 <=? i) && (i <? SESSION_REG_SIZE) then ai_reg w !! Z.to_nat i else None) with
  | Some slot => (w, [], Ok slot)
  | None => (w, [], Throw (undefined_behaviour "session registry index"))
  end.

(** * Sessions *)

(** The addresses in the registry, in the order of the slots. *)
Definition registered (w : AdminInterfaceImpl) : list Z := omap id (ai_reg w).

(** A loop over the used slots. *)
Definition for_registered (f : Z -> ai_op unit) : ai_op unit :=
  w ← get; for_each f (registered w).

Definition session_count (w : AdminInterfaceImpl) : Z := Z.of_nat (length (registered w)).

Definition session_list (w : AdminInterfaceImpl) : list Z :=
  omap (fun p => s_id <$> ai_sessions w !! p) (registered w).

Definition session_exists (id : Z) : ai_op bool :=
  slot ← reg_at id; mret (bool_decide (is_Some slot)).

Definition session_open (id : Z) : ai_op bool :=
  slot ← reg_at id;
  match slot with Some p => is_open p | None => mret false end.

Definition session_stop_one (id : Z) : ai_op unit :=
  slot ← reg_at id;
  match slot with Some p => close_session p | None => mret () end.

Definition session_stop_all : ai_op unit := for_registered close_session.

Definition get_session (id : Z) : ai_op (option Z) := reg_at id.

(** ** Messaging *)

Definition send_one (msg : txMessage) (id : Z) : ai_op unit :=
  slot ← reg_at id;
  match slot with
  | Some p =>
      opened ← is_open p;
      if (opened : bool) then enqueue_to p msg;; mret () else mret ()
  | None => mret ()
  end.

Definition send_one_list (msgs : list txMessage) (id : Z) : ai_op unit :=
  slot ← reg_at id;
  match slot with
  | Some p =>
      opened ← is_open p;
      if (opened : bool) then for_each (fun m => enqueue_to p m;; mret ()) msgs else mret ()
  | None => mret ()
  end.

Definition send_all (msg : txMessage) : ai_op unit :=
  for_registered (fun p =>
    opened ← is_open p;
    if (opened : bool) then enqueue_to p msg;; mret () else mret ()).

(** The calls of [send_one] made by tables. *)
Definition run_send (o : send) : ai_op unit :=
  match o with
  | SendOne m sid => send_one m sid
  | SendList ms sid => send_one_list ms sid
  end.

Section interface.
(** The time, its calendar form, the address of a peer. *)
Context (now : Z) (localtime : Z -> tm) (peer : Z -> string).

(** The interface, as tables see it. *)
Definition table_env (w : AdminInterfaceImpl) : env :=
  Env (fun sid => match ai_reg w !! Z.to_nat sid with Some (Some _) => true | _ => false end) (localtime now).

Definition on_monitor (op : env -> list Z -> monitor_op unit) : ai_op unit := fun w =>
  let '(M, outs, r) := op (table_env w) (session_list w) (ai_monitor w) in
  (for_each run_send outs;; of_result r) (set_monitor M w).

(** ** Creating sessions *)

(** The search for a free slot: the index found (0: none) and the new value
    of [m_sessions.next]. *)
Fixpoint find_slot (rounds : nat) (reg : list (option Z)) (next : Z) : result (Z * Z) :=
  match rounds with
  | O => Ok (0, next)
  | S rounds =>
      index ← (if next =? 0 then Ok 0
               else match reg !! Z.to_nat next with
                    | Some None => Ok next
                    | Some (Some _) => Ok 0
                    | None => Throw (undefined_behaviour "session registry index")
                    end);
      let next := if MAX_SESSIONS <? next + 1 then 0 else next + 1 in
      if index =? 0 then find_slot rounds reg next else Ok (index, next)
  end.

Definition logon_msg (serviceid : string) : txMessage :=
  on_root (fun r => put_field_qn r id.QN_serviceid serviceid) (new_message id.msg_logon).

(** [init_session_io]: the connection is made and given to the session. *)
Definition init_session_io (p fd : Z) : ai_op unit :=
  modify (set_client p (new_client fd now true));;
  on_session p (fun s c => Ok (io_init s, c, ())).

Definition createNewSession (serviceid : string) (fd : Z) : ai_op unit :=
  w ← get;
  '(session_index, next) ← of_result (find_slot (Z.to_nat SESSION_REG_SIZE) (ai_reg w) (ai_next w));
  put (set_next next w);;
  if session_index =? 0 then throw (runtime_error "no more sessions allowed")
  else
    let session := ai_alloc w in
    modify (register_session session_index (new_session fd session_index now true (peer fd)));;
    init_session_io session fd;;
    enqueue_to session (logon_msg serviceid);;
    mret ().

(** ** Ending sessions *)

(** [session_closed(session)], called by the session at [p]. *)
Definition on_session_closed (p : Z) : ai_op unit :=
  sid ← on_session p (fun s c => Ok (s, c, s_id s));
  on_monitor (fun _ _ => unsubscribe_all sid);;
  _ ← reg_at sid;
  modify (fun w => set_reg (<[Z.to_nat sid := None]> (ai_reg w)) w);;
  modify (fun w => set_expired (ai_expired w ++ [p]) w).

(** The loop of [session_cleanup] over the expired sessions. *)
Fixpoint cleanup_loop (items delete_later : list Z) : ai_op unit :=
  match items with
  | [] => modify (set_expired delete_later)
  | p :: items =>
      w ← get;
      match get_object w p with
      | None => throw (undefined_behaviour "no session object")
      | Some (s, c) =>
          if safe_to_delete s c then
            put (delete_object p (destroy_session now s c) w);; cleanup_loop items delete_later
          else cleanup_loop items (delete_later ++ [p])
      end
  end.
Definition session_cleanup : ai_op unit := w ← get; cleanup_loop (ai_expired w) [].

Definition housekeep (p : Z) : ai_op unit :=
  on_session p (fun s c => '(s, c) ← session_housekeeping now s c; Ok (s, c, ())).

Definition housekeeping : ai_op unit :=
  session_cleanup;;
  for_registered (fun p => opened ← is_open p; if (opened : bool) then housekeep p else mret ());;
  w ← get;
  for_each housekeep (ai_ext w).

(** ** Sessions of the application *)

Definition register_ext_session (p fd : Z) : ai_op unit :=
  init_session_io p fd;;
  modify (fun w => set_ext (ai_ext w ++ [p]) w).

Definition deregister_ext_session (p : Z) (w : AdminInterfaceImpl) : AdminInterfaceImpl :=
  set_ext (remove_first p (ai_ext w)) w.

End interface.

(** * Commands *)

(** [compare_nocase]: [strcasecmp] on the C strings. *)
Definition tolower (c : ascii) : ascii :=
  let n := char_code c in
  if (65 <=? n) && (n <=? 90) then ascii_of_N (Z.to_N (n + 32)) else c.
Fixpoint c_lower (s : string) : string :=
  match s with
  | EmptyString => EmptyString
  | String c s => if bool_decide (c = "000"%char) then EmptyString else String (tolower c) (c_lower s)
  end.
Definition compare_nocase (lhs rhs : string) : bool := String.ltb (c_lower lhs) (c_lower rhs).

(** [std::list::sort], which is stable. *)
Fixpoint sort_insert (x : string) (l : list string) : list string :=
  match l with
  | [] => [x]
  | y :: l' => if compare_nocase y x then y :: sort_insert x l' else x :: l
  end.
Definition list_sort (l : list string) : list string := foldr sort_insert [] l.

(** A response with code 0 and nothing pending. *)
Definition plain_response (reqseqno : string) : AdminResponse :=
  on_msg (set_pending false) (on_msg (add_rescode 0) (new_response reqseqno)).

(** Elements separated by [sep]. *)
Definition separated (sep : string) (l : list string) : string := String.concat sep l.

Definition admin_add (ac : AdminCommand Target) (w : AdminInterfaceImpl) : AdminInterfaceImpl :=
  match ai_admins w !! ac_name ac with
  | Some _ => w
  | None => set_admins (<[ac_name ac := ac]> (ai_admins w)) w
  end.
Definition admin_find (w : AdminInterfaceImpl) (name : string) : option (AdminCommand Target) :=
  ai_admins w !! name.

(** The constructor: the registry is empty and the commands of the interface
    are registered. *)
Definition internal_admins : list (AdminCommand Target) :=
  let adminattrs := {[ "hidden" := "false" ]} in
  [MkAdminCommand "table" "query table information" "table [list|show] [tablename]"
     (Some T_list_tables) adminattrs;
   MkAdminCommand "sessions" "list active sessions" EmptyString (Some T_sessions) adminattrs;
   MkAdminCommand "help" "list admins available" EmptyString (Some T_help) adminattrs;
   MkAdminCommand "info" "list server information" EmptyString (Some T_info) adminattrs;
   MkAdminCommand "snapshot" "broadcast a table snapshot" EmptyString (Some T_snapshot) adminattrs;
   MkAdminCommand "diags" "dump exio diagnostics" "diags [sessions|threads|tables]" (Some T_diags) adminattrs;
   MkAdminCommand "drop_session" "force a session disconnect" EmptyString (Some T_del_session) adminattrs].

Definition new_interface : AdminInterfaceImpl :=
  foldl (fun w ac => admin_add ac w)
    (MkAI ∅ ∅ (replicate (Z.to_nat SESSION_REG_SIZE) None) 1 0 [] [] ∅ ∅ 1) internal_admins.

(** What the process tells about itself. *)
Record system_info := SystemInfo {
  si_serviceid : string; si_start_time : Z; si_arch : Z; si_pid : Z;
  si_user : string; si_host : string; si_version : string;
  si_threads : string  (** the thread section of [diags] *) }.

Definition DAY_SECS : Z := 24 * 60 * 60.
Definition HOUR_SECS : Z := 60 * 60.
Definition MIN_SECS : Z := 60.

Definition uptime (now start : Z) : string :=
  let elapsed := size_t (now - start) in
  let days := elapsed / DAY_SECS in
  let elapsed := elapsed - days * DAY_SECS in
  let hours := elapsed / HOUR_SECS in
  let elapsed := elapsed - hours * HOUR_SECS in
  let min := elapsed / MIN_SECS in
  let sec := elapsed - min * MIN_SECS in
  print_unsigned days +:+ " days, " +:+ print_unsigned hours +:+ " hours, " +:+
  print_unsigned min +:+ " mins, " +:+ print_unsigned sec +:+ " secs".

Section commands.
Context (now : Z) (localtime : Z -> tm) (info : system_info)
  (** The callbacks of the application. *)
  (user_target : Z -> AdminRequest -> ai_op AdminResponse).

Definition admincmd_subscribe (req : AdminRequest) : ai_op AdminResponse :=
  on_monitor now localtime (fun _ _ => subscribe_all (req_id req));;
  mret (on_msg (add_rescode 0) (new_response (req_reqseqno req))).

Definition admincmd_help (request : AdminRequest) : ai_op AdminResponse :=
  w ← get;
  match req_args request with
  | [] =>
      let admins := list_sort (map_iter (ai_admins w)).*1 in
      mret (on_body (formatreply_simplelist admins (Some "admin")) (plain_response (req_reqseqno request)))
  | arg :: _ =>
      match ai_admins w !! arg with
      | Some ac =>
          let os := ac_name ac +:+
            (if bool_decide (ac_shorthelp ac = EmptyString) then EmptyString else " - " +:+ ac_shorthelp ac) +:+
            (if bool_decide (ac_longhelp ac = EmptyString) then EmptyString
             else newline +:+ newline +:+ ac_longhelp ac) in
          mret (response_success (req_reqseqno request) os 0)
      | None => mret (response_error (req_reqseqno request) id.err_admin_not_found "admin not found")
      end
  end.

Definition admincmd_snapshot (request : AdminRequest) : ai_op AdminResponse :=
  on_monitor now localtime (fun e _ => broadcast_snapshot_all e);;
  mret (response_success (req_reqseqno request) "snapshot broadcast" 0).

Definition admincmd_info (request : AdminRequest) : ai_op AdminResponse :=
  let os := "serviceid: " +:+ si_serviceid info +:+ newline +:+
    "arch: " +:+ print_unsigned (si_arch info) +:+ newline +:+
    "uptime: " +:+ uptime now (si_start_time info) +:+ newline +:+
    "pid: " +:+ print_signed (si_pid info) +:+ newline +:+
    "user: " +:+ si_user info +:+ newline +:+
    "host: " +:+ si_host info +:+ newline +:+
    "exio-version: " +:+ si_version info in
  mret (on_body (formatreply_string os) (plain_response (req_reqseqno request))).

(** [session_info]: user name and address, empty when there is no session, and
    whether it was found. *)
Definition session_info (sid : Z) : ai_op (string * string * bool) :=
  slot ← reg_at sid;
  match slot with
  | Some p => on_session p (fun s c => Ok (s, c, (s_username s, s_peeraddr s, true)))
  | None => mret (EmptyString, EmptyString, false)
  end.

(** One row of [sessions]. *)
Definition session_row (sid : Z) : ai_op (string * list string) :=
  '(_, addr, _) ← session_info sid;
  slot ← reg_at sid;
  serviceid ← match slot with
              | Some p => on_session p (fun s c => Ok (s, c, s_serviceid s))
              | None => mret EmptyString
              end;
  mret (addr, [addr; sid_toString sid; serviceid]).

Fixpoint session_rows (sids : list Z) (tb : TableBuilder) : ai_op TableBuilder :=
  match sids with
  | [] => mret tb
  | sid :: sids => '(rowkey, values) ← session_row sid; session_rows sids (add_row rowkey values tb)
  end.

Definition admincmd_sessions (request : AdminRequest) : ai_op AdminResponse :=
  let resp := plain_response (req_reqseqno request) in
  w ← get;
  let columns := ["addr"; "sessionid"; "serviceid"] in
  tb ← session_rows (session_list w) (AdminCommand.set_columns columns
         (new_table_builder (default (new_container id.body) (find_child (m_root (resp_msg resp)) id.body))));
  mret (on_body (fun _ => tb_body tb) resp).

Definition admincmd_list_tables (req : AdminRequest) : ai_op AdminResponse :=
  let resp := plain_response (req_reqseqno req) in
  let error code text := mret (response_error (req_reqseqno req) code text) in
  w ← get;
  match req_args req with
  | [] => error id.err_bad_command "missing table command"
  | cmd :: args =>
      if bool_decide (cmd = "list") then
        mret (on_body (formatreply_simplelist (tables (ai_monitor w)) (Some "table")) resp)
      else if bool_decide (cmd = "show") then
        match args with
        | [] => error id.err_bad_command "missing tablename"
        | name :: _ =>
            if has_table (ai_monitor w) name then
              let '(cols, rows) := copy_table2 (ai_monitor w) name [] [] in
              mret (on_msg (add_rescode 0) (on_body (fun body =>
                tb_body (foldl (fun tb r => add_row id.row_key r tb)
                           (AdminCommand.set_columns cols (new_table_builder body)) rows)) resp))
            else error id.err_no_table "table not found"
        end
      else error id.err_bad_command "unknown table command"
  end.

(** One line of the session section of [diags]. *)
Definition diag_session (s : AdminSession) (c : Client) : string :=
  separated ", " [sid_toString (s_id s); print_signed (s_fd s); s_peeraddr s; s_serviceid s; s_username s;
    (if s_logon_received s then "1" else "0"); datetimestamp (localtime (s_start s));
    datetimestamp (localtime (session_last_write s c)); print_unsigned (session_bytes_out s c);
    print_unsigned (session_bytes_in s c); print_unsigned (session_bytes_pend s c); EmptyString] +:+ newline.

Definition diag_table (M : Monitor) (t : string) : string :=
  t +:+ ": subs=[" +:+ separated ", " (sid_toString <$> table_subscribers M t []) +:+ "], size=" +:+
  print_unsigned (table_size M t) +:+ newline.

Definition admincmd_diags (request : AdminRequest) : ai_op AdminResponse :=
  w ← get;
  let all := bool_decide (req_args request = []) in
  let wants section := all || bool_decide (section ∈ req_args request) in
  let os :=
    (if all then "Sessions" +:+ newline +:+ "--------" +:+ newline +:+
       "Total ever created: " +:+ print_unsigned (ai_created w) +:+ newline +:+
       "Active: " +:+ print_unsigned (session_count w) +:+ newline else EmptyString) +:+
    (if wants "sessions" then
       "SessionID, fd, PeerAddr, PeerServiceID, User, Logon, Start, LastOut, BytesOut, BytesIn, QueueOut" +:+
       newline +:+
       separated EmptyString (omap (fun p => '(s, c) ← get_object w p; Some (diag_session s c)) (registered w))
     else EmptyString) +:+
    (if all then newline +:+ "exio threads" +:+ newline +:+ "------------" +:+ newline else EmptyString) +:+
    (if wants "threads" then si_threads info else EmptyString) +:+
    (if all then newline +:+ newline +:+ "tables" +:+ newline +:+ "------" +:+ newline else EmptyString) +:+
    (if wants "tables" then separated EmptyString (diag_table (ai_monitor w) <$> tables (ai_monitor w))
     else EmptyString) in
  mret (on_body (formatreply_string os) (plain_response (req_reqseqno request))).

Definition admincmd_table_subs (request : AdminRequest) : ai_op AdminResponse :=
  w ← get;
  let M := ai_monitor w in
  let os := separated newline ((fun t => t +:+ ": " +:+
    separated ", " (sid_toString <$> table_subscribers M t [])) <$> tables M) in
  mret (on_body (formatreply_string os) (plain_response (req_reqseqno request))).

(** The loop of [admincmd_del_session]: the sessions stopped. *)
Fixpoint stop_sessions (args : list string) : ai_op (list Z) :=
  match args with
  | [] => mret []
  | arg :: args =>
      let s := sid_fromString arg in
      exists_ ← (if s =? no_session then mret false else session_exists s);
      if (exists_ : bool) then
        session_stop_one s;;
        rest ← stop_sessions args;
        mret (s :: rest)
      else stop_sessions args
  end.

Definition admincmd_del_session (req : AdminRequest) : ai_op AdminResponse :=
  match req_args req with
  | [] => throw (admin_error id.err_bad_command)
  | args =>
      stopped ← stop_sessions args;
      mret (on_body (formatreply_string ("sessions stopping: " +:+ separated ", " (sid_toString <$> stopped)))
              (plain_response (req_reqseqno req)))
  end.

(** [AdminCommand::invoke]. *)
Definition invoke (ac : AdminCommand Target) (req : AdminRequest) : ai_op AdminResponse :=
  match ac_target ac with
  | None => throw (runtime_error "command not implemented")
  | Some T_list_tables => admincmd_list_tables req
  | Some T_sessions => admincmd_sessions req
  | Some T_help => admincmd_help req
  | Some T_info => admincmd_info req
  | Some T_snapshot => admincmd_snapshot req
  | Some T_diags => admincmd_diags req
  | Some T_del_session => admincmd_del_session req
  | Some T_subscribe => admincmd_subscribe req
  | Some T_table_subs => admincmd_table_subs req
  | Some (T_user k) => user_target k req
  end.

(** ** Inbound messages *)

Definition QN_body_command : qname := [id.body; id.command].

(** The value of a command field, if it is present and not empty. *)
Definition command_at (m : txMessage) (q : qname) : option string :=
  match find_field_qn (m_root m) q with
  | Some f => if bool_decide (f_value f = EmptyString) then None else Some (f_value f)
  | None => None
  end.

(** The [try] block of [handle_admin_request]. *)
Definition dispatch (reqmsg : txMessage) (p : Z) : ai_op AdminResponse :=
  match (match command_at reqmsg id.QN_command with
         | Some c => Some c
         | None => command_at reqmsg QN_body_command
         end) with
  | None => throw (admin_error id.err_admin_not_found)
  | Some command =>
      w ← get;
      match admin_find w command with
      | None => throw (admin_error id.err_admin_not_found)
      | Some admin =>
          sid ← on_session p (fun s c => Ok (s, c, s_id s));
          req ← of_result (make_request reqmsg sid);
          invoke admin req
      end
  end.

(** [try { m } catch ...]: the handler gets the exception. *)
Definition try_catch {A} (m : ai_op A) (handler : exn -> A) : ai_op A := fun w =>
  match m w with
  | (w, o, Throw e) => if catchable e then (w, o, Ok (handler e)) else (w, o, Throw e)
  | r => r
  end.

Definition error_reply (reqseqno : string) (e : exn) : AdminResponse :=
  match e with
  | AdminError code what => response_error reqseqno code what
  | _ => response_error reqseqno id.err_admin_not_found (exn_what e)
  end.

Definition request_seqno (reqmsg : txMessage) : string :=
  match find_field_qn (m_root reqmsg) id.QN_head_reqseqno with
  | Some f => f_value f
  | None => EmptyString
  end.

Definition handle_admin_request (reqmsg : txMessage) (p : Z) : ai_op unit :=
  let reqseqno := request_seqno reqmsg in
  assigned ← try_catch (dispatch reqmsg p) (error_reply reqseqno);
  let resp := copy_response assigned in
  resp ← (if resp_send resp then
            let resp := on_msg (on_root (fun r => put_field_qn r id.QN_msgtype id.msg_response)) resp in
            failed ← enqueue_to p (resp_msg resp);
            (if (failed : bool) then
               enqueue_to p (resp_msg (response_error reqseqno id.err_unknown "enqueue failed"));; mret ()
             else mret ());;
            mret resp
          else mret resp);
  autoclose ← on_session p (fun s c => Ok (s, c, s_autoclose s));
  if negb (has_pending (resp_msg resp)) && (autoclose : bool) then close_session p else mret ().

(** [serialise_admins]. *)
Definition admin_box (adminset : txContainer) (nadmin : Z) (ac : AdminCommand Target) : txContainer :=
  put_child_with adminset (id.admin_prefix +:+ print_signed nadmin) (fun box =>
    let box := put_field box id.name (ac_name ac) in
    let box := put_field box id.shorthelp (ac_shorthelp ac) in
    let box := put_field box id.longhelp (ac_longhelp ac) in
    foldl (fun b kv => put_field b kv.1 kv.2) box (map_iter (ac_attrs ac))).

Fixpoint admin_boxes (nadmin : Z) (acs : list (AdminCommand Target)) (adminset : txContainer) : txContainer :=
  match acs with
  | [] => put_field adminset id.admincount (print_signed nadmin)
  | ac :: acs => admin_boxes (nadmin + 1) acs (admin_box adminset nadmin ac)
  end.

Definition serialise_admins (w : AdminInterfaceImpl) : txMessage :=
  let m := set_type id.admindescr (new_message EmptyString) in
  let m := on_root (fun r => put_field_qn r id.QN_msgtype id.admindescr) m in
  on_root (fun r => put_child_with r id.body (fun body =>
    put_child_with body id.adminset (admin_boxes 0 (map_iter (ai_admins w)).*2))) m.

Definition handle_logon_msg (logonmsg : txMessage) (p : Z) : ai_op unit :=
  sid ← on_session p (fun s c => Ok (s, c, s_id s));
  (if check_field_qn (m_root logonmsg) id.QN_noautosub id.True_ then mret ()
   else on_monitor now localtime (fun _ _ => subscribe_all sid));;
  (if check_field_qn (m_root logonmsg) [id.head; id.autoclose] id.True_
   then on_session p (fun s c => Ok (set_autoclose true s, c, ()))
   else mret ());;
  w ← get;
  send_one (serialise_admins w) sid.

(** [session_msg_received], for the session at [p]. *)
Definition on_session_message (reqmsg : txMessage) (p : Z) : ai_op unit :=
  if bool_decide (msg_type reqmsg = id.msg_logon) then handle_logon_msg reqmsg p
  else if bool_decide (msg_type reqmsg = id.msg_request) then handle_admin_request reqmsg p
  else mret ().

(** * Calls of the application *)

Definition alert_msg (source source_type error_str alert_type alert_id severity : string) : txMessage :=
  on_root (fun r =>
    let r := put_field_qn r id.QN_msgtype id.msg_alert in
    put_child_with r id.body (fun body =>
      let body := put_field body id.source source in
      let body := put_field body id.source_type source_type in
      let body := put_field body id.error error_str in
      let body := put_field body id.alert_type alert_type in
      let body := put_field body id.alert_id alert_id in
      put_field body id.severity severity)) (new_message id.msg_alert).

Definition monitor_alert (source source_type error_str alert_type alert_id severity : string) : ai_op unit :=
  send_all (alert_msg source source_type error_str alert_type alert_id severity).

Definition monitor_update (table_name rowkey : string) (fields : gmap string string) : ai_op unit :=
  on_monitor now localtime (fun e l => update_table e l table_name rowkey fields).
Definition monitor_update_meta (table_name rowkey column : string) (meta : txContainer) : ai_op unit :=
  on_monitor now localtime (fun e l => update_meta e l table_name rowkey column meta).
Definition ai_add_columns (table_name : string) (cols : list string) : ai_op unit :=
  on_monitor now localtime (fun e l => add_columns e l table_name cols).
Definition ai_table_column_attr (tablename column : string) (attribute : txContainer) : ai_op unit :=
  on_monitor now localtime (fun _ l => table_column_attr l tablename column attribute).
Definition ai_clear_table (tablename : string) : ai_op unit :=
  on_monitor now localtime (fun e _ => clear_table e tablename).
Definition ai_delete_row (tablename rowkey : string) : ai_op unit :=
  on_monitor now localtime (fun e _ => delete_row e tablename rowkey).
Definition monitor_snapshot (tablename : string) : ai_op unit :=
  on_monitor now localtime (fun e _ => broadcast_snapshot e tablename).
Definition monitor_snapshot_all : ai_op unit :=
  on_monitor now localtime (fun e _ => broadcast_snapshot_all e).

(** * The interface as a listener of sessions *)

Definition pair_of {A} (r : AdminInterfaceImpl * list Empty_set * result A) : AdminInterfaceImpl * result A :=
  (r.1.1, r.2).

#[local] Instance interface_listener : SessionListener AdminInterfaceImpl := {
  host_get := get_object;
  host_set := fun w p x => set_object p x.1 x.2 w;
  session_msg_received := fun m p w => pair_of (on_session_message m p w);
  session_closed := fun p w => pair_of (on_session_closed now localtime p w) }.

End commands.
