(* ===== verification/Interface.v ===== *)
(** Properties of the administration interface: the registry's invariant,
    creation and end of sessions, and the answers to requests. *)

From S2P Require Import Prelude Decimal Utils TxContainer SamBuffer SamProtocol MsgIDs AdminCommand TableEvents Table TableProps ReadBuffer Client Delivery Monitor Session AdminInterface.

Local Open Scope Z_scope.

(** * The registry's invariant *)

(** The session at [p] exists with its connection, and has the id [i]. *)
Definition object_at (w : AdminInterfaceImpl) (i p : Z) : Prop :=
  exists s c, get_object w p = Some (s, c) /\ s_id s = i /\ s_io_handle s = true.

Record registry_inv (w : AdminInterfaceImpl) : Prop := {
  (** Slots 0 to [MAX_SESSIONS], slot 0 is never used. *)
  ri_size : length (ai_reg w) = Z.to_nat SESSION_REG_SIZE;
  ri_zero : ai_reg w !! 0%nat = Some None;
  ri_next : 0 <= ai_next w <= MAX_SESSIONS;
  (** A used slot holds a session whose id is the slot's number. *)
  ri_slot : forall i p, ai_reg w !! i = Some (Some p) -> object_at w (Z.of_nat i) p;
  (** Objects are below the next address. *)
  ri_alloc : forall p, is_Some (ai_sessions w !! p) \/ is_Some (ai_clients w !! p) -> p < ai_alloc w;
  (** Expired sessions still exist, each is listed once and none is registered. *)
  ri_expired : forall p, p ∈ ai_expired w -> is_Some (get_object w p) /\ p ∉ registered w;
  ri_expired_once : NoDup (ai_expired w) }.

Lemma get_object_Some w p s c :
  get_object w p = Some (s, c) <-> ai_sessions w !! p = Some s /\ ai_clients w !! p = Some c.
Proof.
  unfold get_object. destruct (ai_sessions w !! p) as [s'|], (ai_clients w !! p) as [c'|]; naive_solver.
Qed.

Lemma get_set_object w p q s c : get_object (set_object p s c w) q =
  if decide (p = q) then Some (s, c) else get_object w q.
Proof.
  unfold get_object, set_object. cbn [ai_sessions ai_clients]. destruct (decide (p = q)) as [->|Hne].
  - by rewrite !lookup_insert_eq.
  - by rewrite !lookup_insert_ne.
Qed.

Lemma registered_spec w p : p ∈ registered w <-> exists i, ai_reg w !! i = Some (Some p).
Proof.
  unfold registered. rewrite list_elem_of_omap. split.
  - intros (o & Ho & Heq). cbn in Heq. subst o. by apply list_elem_of_lookup in Ho.
  - intros [i Hi]. exists (Some p). split; [|done]. by apply list_elem_of_lookup_2 in Hi.
Qed.

(** A registered session is in one slot only. *)
Lemma registered_once w i j p : registry_inv w -> ai_reg w !! i = Some (Some p) ->
  ai_reg w !! j = Some (Some p) -> i = j.
Proof.
  intros Hw Hi Hj. destruct (ri_slot w Hw i p Hi) as (s & c & Hg & Hid & _).
  destruct (ri_slot w Hw j p Hj) as (s' & c' & Hg' & Hid' & _). rewrite Hg in Hg'. injection Hg' as <- <-. lia.
Qed.

(** Replacing a session's data and its connection. *)
Lemma inv_set_object w p s c s' c' : registry_inv w -> get_object w p = Some (s, c) ->
  s_id s' = s_id s -> s_io_handle s' = s_io_handle s -> registry_inv (set_object p s' c' w).
Proof.
  intros Hw Hg Hid Hio. pose proof (proj1 (get_object_Some _ _ _ _) Hg) as [Hs Hc].
  split; try apply Hw.
  - intros i q Hi. destruct (ri_slot w Hw i q Hi) as (s0 & c0 & Hg0 & Hid0 & Hio0).
    unfold object_at. rewrite get_set_object. destruct (decide (p = q)) as [->|]; [|eauto].
    rewrite Hg in Hg0. injection Hg0 as <- <-. exists s', c'. split; [done|]. split; congruence.
  - intros q. cbn [set_object ai_sessions ai_clients ai_alloc]. intros H. apply (ri_alloc w Hw).
    rewrite !lookup_insert_is_Some' in H. destruct H as [[->|H]|[->|H]]; eauto.
  - intros q Hq. destruct (ri_expired w Hw q Hq) as [He Hr]. split; [|done].
    rewrite get_set_object. by destruct (decide (p = q)).
Qed.

(** * Operations that keep the invariant *)

Definition keeps_inv {A} (m : ai_op A) : Prop := forall w, registry_inv w -> registry_inv (state_after (m w)).

Create HintDb interface.

Lemma keeps_ret {A} (a : A) : keeps_inv (mret a).
Proof. by intros w Hw. Qed.
Lemma keeps_throw {A} e : keeps_inv (throw (A := A) e).
Proof. by intros w Hw. Qed.
Lemma keeps_get : keeps_inv get.
Proof. by intros w Hw. Qed.
Lemma keeps_of_result {A} (r : result A) : keeps_inv (of_result r).
Proof. by intros w Hw. Qed.
Lemma keeps_reg_at i : keeps_inv (reg_at i).
Proof. intros w Hw. unfold reg_at. by case_match. Qed.
Lemma keeps_bind {A B} (m : ai_op A) (f : A -> ai_op B) :
  keeps_inv m -> (forall a, keeps_inv (f a)) -> keeps_inv (m ≫= f).
Proof.
  intros Hm Hf w Hw. unfold mbind, eff_bind. specialize (Hm w Hw).
  destruct (m w) as [[w1 o1] [a|e]]; [|done]. specialize (Hf a w1 Hm). by destruct (f a w1) as [[w2 o2] r].
Qed.
Lemma keeps_for {A} (f : A -> ai_op unit) l : (forall a, keeps_inv (f a)) -> keeps_inv (for_each f l).
Proof. intros Hf. induction l as [|a l IH]; cbn [for_each]; [apply keeps_ret|]. apply keeps_bind; auto. Qed.
Lemma keeps_for_registered f : (forall p, keeps_inv (f p)) -> keeps_inv (for_registered f).
Proof. intros Hf. apply keeps_bind; [apply keeps_get|]. intros w. by apply keeps_for. Qed.
Lemma keeps_set_monitor M : keeps_inv (modify (set_monitor M)).
Proof. intros w Hw. split; apply Hw. Qed.
Lemma keeps_try {A} (m : ai_op A) h : keeps_inv m -> keeps_inv (try_catch m h).
Proof.
  intros Hm w Hw. specialize (Hm w Hw). unfold try_catch. destruct (m w) as [[w1 o1] [a|e]]; [done|].
  by destruct (catchable e).
Qed.
(** A member function of a session that leaves the id and the connection's
    pointer alone. *)
Lemma keeps_on_session {A} p (f : AdminSession -> Client -> result (AdminSession * Client * A)) :
  (forall s c s' c' a, f s c = Ok (s', c', a) -> s_id s' = s_id s /\ s_io_handle s' = s_io_handle s) ->
  keeps_inv (on_session p f).
Proof.
  intros Hf w Hw. unfold on_session. destruct (get_object w p) as [[s c]|] eqn:E; [|done].
  destruct (f s c) as [[[s' c'] a]|e] eqn:Ef; [|done]. destruct (Hf _ _ _ _ _ Ef).
  by apply (inv_set_object w p s c).
Qed.
#[export] Hint Resolve keeps_ret keeps_throw keeps_get keeps_of_result keeps_reg_at keeps_bind keeps_for
  keeps_for_registered keeps_set_monitor keeps_try : interface.

Lemma keeps_enqueue_to p msg : keeps_inv (enqueue_to p msg).
Proof. apply keeps_on_session. intros s c s' c' a E. inv_ok. by destruct a0; simplify_eq. Qed.
Lemma keeps_close_session p : keeps_inv (close_session p).
Proof. apply keeps_on_session. by intros s c s' c' a [= <- <- <-]. Qed.
Lemma keeps_is_open p : keeps_inv (is_open p).
Proof. apply keeps_on_session. by intros s c s' c' a [= <- <- <-]. Qed.
Lemma keeps_read_session {A} p (f : AdminSession -> A) : keeps_inv (on_session p (fun s c => Ok (s, c, f s))).
Proof. apply keeps_on_session. by intros s c s' c' a [= <- <- <-]. Qed.
Lemma keeps_autoclose p b : keeps_inv (on_session p (fun s c => Ok (set_autoclose b s, c, ()))).
Proof. apply keeps_on_session. by intros s c s' c' a [= <- <- <-]. Qed.
#[export] Hint Resolve keeps_enqueue_to keeps_close_session keeps_is_open keeps_read_session keeps_autoclose
  : interface.

(** Walks through a computation, one step of the hint database at a time. *)
Ltac keep_steps :=
  repeat first
    [ progress intros
    | solve [auto with interface nocore]
    | apply keeps_bind | apply keeps_for | apply keeps_for_registered | apply keeps_try
    | case_match ].

Lemma keeps_send_one msg sid : keeps_inv (send_one msg sid).
Proof. unfold send_one. keep_steps. Qed.
Lemma keeps_send_list msgs sid : keeps_inv (send_one_list msgs sid).
Proof. unfold send_one_list. keep_steps. Qed.
Lemma keeps_send_all msg : keeps_inv (send_all msg).
Proof. unfold send_all. keep_steps. Qed.
#[export] Hint Resolve keeps_send_one keeps_send_list keeps_send_all : interface.
Lemma keeps_run_send o : keeps_inv (run_send o).
Proof. destruct o; cbn [run_send]; eauto with interface. Qed.
#[export] Hint Resolve keeps_run_send : interface.
Lemma keeps_on_monitor now lt op : keeps_inv (on_monitor now lt op).
Proof.
  intros w Hw. unfold on_monitor. destruct (op _ _ (ai_monitor w)) as [[M outs] r].
  apply (keeps_bind (for_each run_send outs) (fun _ => of_result r)); [eauto with interface..|].
  by apply keeps_set_monitor.
Qed.
#[export] Hint Resolve keeps_on_monitor : interface.
Lemma keeps_stop_one sid : keeps_inv (session_stop_one sid).
Proof. unfold session_stop_one. keep_steps. Qed.
Lemma keeps_stop_all : keeps_inv session_stop_all.
Proof. unfold session_stop_all. keep_steps. Qed.
Lemma keeps_session_exists sid : keeps_inv (session_exists sid).
Proof. unfold session_exists. keep_steps. Qed.
#[export] Hint Resolve keeps_stop_one keeps_stop_all keeps_session_exists : interface.

(** * Creating sessions *)

(** The slots the search must pass over. *)
Definition busy (reg : list (option Z)) (i : Z) : Prop :=
  i = 0 \/ exists p, reg !! Z.to_nat i = Some (Some p).

(** The search ends; an index it returns is a free slot, and when it returns
    none, all slots in the window it looked at are busy. *)
Lemma find_slot_spec rounds reg next : length reg = Z.to_nat SESSION_REG_SIZE -> 0 <= next <= MAX_SESSIONS ->
  exists index next', find_slot rounds reg next = Ok (index, next') /\ 0 <= next' <= MAX_SESSIONS /\
    (index = 0 -> forall k, (k < rounds)%nat -> busy reg ((next + Z.of_nat k) mod SESSION_REG_SIZE)) /\
    (index <> 0 -> 1 <= index <= MAX_SESSIONS /\ reg !! Z.to_nat index = Some None).
Proof.
  intros Hlen. unfold MAX_SESSIONS, SESSION_REG_SIZE in *. revert next.
  induction rounds as [|rounds IH]; intros next Hn; cbn [find_slot].
  { exists 0, next. split; [done|]. split; [done|]. split; [intros _ k Hk; lia|done]. }
  unfold MAX_SESSIONS, SESSION_REG_SIZE in *.
  set (next1 := if 2000 <? next + 1 then 0 else next + 1).
  assert (0 <= next1 <= 2000 /\ next1 = (next + 1) mod (2000 + 1)) as [Hn1 Hmod].
  { unfold next1. destruct (Z.ltb_spec 2000 (next + 1)).
    - replace (next + 1) with (2000 + 1) by lia. rewrite Z.mod_same; lia.
    - rewrite Z.mod_small; lia. }
  assert (forall idx : Z, idx = 0 -> busy reg next ->
    exists index next', find_slot rounds reg next1 = Ok (index, next') /\ 0 <= next' <= 2000 /\
      (index = 0 -> forall k, (k < S rounds)%nat -> busy reg ((next + Z.of_nat k) mod (2000 + 1))) /\
      (index <> 0 -> 1 <= index <= 2000 /\ reg !! Z.to_nat index = Some None)) as Hgo.
  { intros _ _ Hb. destruct (IH next1 Hn1) as (index & next' & E & Hr & H0 & H1).
    exists index, next'. do 2 (split; [done|]). split; [|done]. intros Hi [|k] Hk.
    - rewrite Z.add_0_r, Z.mod_small by lia. done.
    - specialize (H0 Hi k ltac:(lia)). rewrite Hmod, Zplus_mod_idemp_l in H0.
      by replace (next + Z.of_nat (S k)) with (next + 1 + Z.of_nat k) by lia. }
  destruct (Z.eqb_spec next 0) as [->|Hz]; cbn [mbind result_bind].
  { change (0 =? 0) with true. cbv iota. apply (Hgo 0); [done|by left]. }
  destruct (lookup_lt_is_Some_2 reg (Z.to_nat next)) as [[p|] Hp]; [lia| |]; rewrite Hp; cbn [mbind result_bind].
  { change (0 =? 0) with true. cbv iota. apply (Hgo 0); [done|right; by exists p]. }
  rewrite (proj2 (Z.eqb_neq next 0)) by done. exists next, next1. do 2 (split; [done|]).
  split; [done|]. intros _. split; [lia|done].
Qed.

(** A whole round finds a free slot if there is one. *)
Lemma find_slot_complete reg next : length reg = Z.to_nat SESSION_REG_SIZE -> 0 <= next <= MAX_SESSIONS ->
  exists index next', find_slot (Z.to_nat SESSION_REG_SIZE) reg next = Ok (index, next') /\
    0 <= next' <= MAX_SESSIONS /\
    (index = 0 -> forall i, 1 <= i <= MAX_SESSIONS -> exists p, reg !! Z.to_nat i = Some (Some p)) /\
    (index <> 0 -> 1 <= index <= MAX_SESSIONS /\ reg !! Z.to_nat index = Some None).
Proof.
  intros Hl Hn. destruct (find_slot_spec (Z.to_nat SESSION_REG_SIZE) reg next Hl Hn)
    as (index & next' & E & Hr & H0 & H1).
  exists index, next'. do 2 (split; [done|]). split; [|done]. intros Hz i Hi.
  unfold MAX_SESSIONS, SESSION_REG_SIZE in *.
  pose proof (Z.mod_pos_bound (i - next) (2000 + 1) ltac:(lia)) as Hb.
  specialize (H0 Hz (Z.to_nat ((i - next) mod (2000 + 1))) ltac:(unfold MAX_SESSIONS; lia)).
  rewrite Z2Nat.id in H0 by lia. rewrite Zplus_mod_idemp_r in H0.
  replace (next + (i - next)) with i in H0 by lia. rewrite Z.mod_small in H0 by (unfold MAX_SESSIONS; lia).
  destruct H0 as [->|H0]; [lia|done].
Qed.

(** Registering a session at a free slot, with its connection. *)
Lemma inv_new_session w index s c : registry_inv w -> 1 <= index <= MAX_SESSIONS ->
  ai_reg w !! Z.to_nat index = Some None -> s_id s = index -> s_io_handle s = true ->
  registry_inv (set_object (ai_alloc w) s c (register_session index s w)).
Proof.
  intros Hw Hi Hfree Hid Hio. set (p := ai_alloc w).
  assert (forall q, is_Some (get_object w q) -> q <> p) as Hfresh.
  { intros q [[s0 c0] Hg]. apply get_object_Some in Hg as [Hs _].
    pose proof (ri_alloc w Hw q (or_introl (mk_is_Some _ _ Hs))). lia. }
  assert (forall q, q <> p -> get_object (set_object p s c (register_session index s w)) q = get_object w q) as Hsame.
  { intros q Hq. rewrite get_set_object, decide_False by done.
    unfold get_object, register_session. cbn [ai_sessions ai_clients]. fold p. by rewrite lookup_insert_ne. }
  assert (length (ai_reg w) = Z.to_nat SESSION_REG_SIZE) as Hlen by apply Hw.
  split.
  - cbn. by rewrite length_insert.
  - cbn. rewrite list_lookup_insert_ne by lia. apply Hw.
  - apply Hw.
  - intros i q Hq. cbn in Hq. destruct (decide (i = Z.to_nat index)) as [->|Hne].
    + rewrite list_lookup_insert_eq in Hq by (by eapply lookup_lt_Some). injection Hq as <-.
      exists s, c. fold p. rewrite get_set_object, decide_True by done. split; [done|]. split; [lia|done].
    + rewrite list_lookup_insert_ne in Hq by done. destruct (ri_slot w Hw i q Hq) as (s0 & c0 & Hg & H).
      exists s0, c0. rewrite Hsame; [done|]. apply Hfresh. by eexists.
  - intros q. cbn. fold p. rewrite !lookup_insert_is_Some'. pose proof (ri_alloc w Hw q) as Ha.
    intros [[H|[H|H]]|[H|H]]; unfold p in *; first [lia|specialize (Ha (or_introl H)); lia|specialize (Ha (or_intror H)); lia].
  - intros q Hq. destruct (ri_expired w Hw q Hq) as [He Hr]. split; [by rewrite Hsame by (by apply Hfresh)|].
    rewrite registered_spec in *. intros [i Hx]. cbn in Hx. destruct (decide (i = Z.to_nat index)) as [->|Hne].
    + rewrite list_lookup_insert_eq in Hx by (by eapply lookup_lt_Some). injection Hx as Hx.
      apply (Hfresh q He). by symmetry.
    + rewrite list_lookup_insert_ne in Hx by done. apply Hr. by exists i.
  - apply Hw.
Qed.

Section creation.
Context (now : Z) (peer : Z -> string).

(** The world after a session was made at slot [index]. *)
Definition with_new_session (index next : Z) (s : AdminSession) (c : Client) (w : AdminInterfaceImpl)
    : AdminInterfaceImpl :=
  set_object (ai_alloc w) s c (register_session index s (set_next next w)).

(** The steps of [createNewSession] after the search. *)
Lemma create_steps serviceid fd w index next :
  find_slot (Z.to_nat SESSION_REG_SIZE) (ai_reg w) (ai_next w) = Ok (index, next) -> index <> 0 ->
  createNewSession now peer serviceid fd w =
    (enqueue_to (ai_alloc w) (logon_msg serviceid);; mret ())
      (with_new_session index next (io_init (new_session fd index now true (peer fd))) (new_client fd now true) w).
Proof.
  intros Hf Hi. unfold createNewSession, init_session_io. unfold mbind, eff_bind, get, of_result, put, modify.
  rewrite Hf, (proj2 (Z.eqb_neq index 0) Hi). unfold on_session at 1, get_object at 1.
  cbn [set_client register_session set_next ai_sessions ai_clients ai_alloc mbind option_bind].
  rewrite !lookup_insert_eq. cbn [mbind option_bind].
  unfold with_new_session, set_object, register_session, set_client.
  cbn [ai_sessions ai_clients ai_reg ai_next ai_created ai_expired ai_ext ai_admins ai_monitor ai_alloc set_next].
  rewrite !insert_insert_eq.
  by destruct (enqueue_to _ _ _) as [[w1 o1] [b|e]].
Qed.

Lemma create_at serviceid fd w index next :
  find_slot (Z.to_nat SESSION_REG_SIZE) (ai_reg w) (ai_next w) = Ok (index, next) -> index <> 0 ->
  Z.of_nat (length (enc_body (logon_msg serviceid))) <= max_content ->
  wire_length (logon_msg serviceid) <= 100 * 1024 * 1024 ->
  exists c, queued c = wire (logon_msg serviceid) /\
    createNewSession now peer serviceid fd w =
      (with_new_session index next (io_init (new_session fd index now true (peer fd))) c w, [], Ok ()).
Proof.
  intros Hf Hi Hl Hr. rewrite (create_steps _ _ _ _ _ Hf Hi).
  set (s := io_init (new_session fd index now true (peer fd))).
  destruct (enqueue_queues (logon_msg serviceid) s (new_client fd now true)) as (c & E & Hq & _);
    [done|done|done|by split|].
  unfold mbind, eff_bind, enqueue_to, on_session, with_new_session. rewrite get_set_object, decide_True by done.
  rewrite E. cbn [mbind result_bind fst snd app]. exists c. split; [by rewrite Hq|].
  unfold mret, eff_ret. do 2 f_equal. unfold set_object. cbn. by rewrite !insert_insert_eq.
Qed.

Lemma inv_with_new_session index next s c w : registry_inv w -> 0 <= next <= MAX_SESSIONS ->
  1 <= index <= MAX_SESSIONS -> ai_reg w !! Z.to_nat index = Some None -> s_id s = index ->
  s_io_handle s = true -> registry_inv (with_new_session index next s c w).
Proof.
  intros Hw Hn Hi Hfree Hid Hio. apply (inv_new_session (set_next next w)); [|done..].
  split; try apply Hw. done.
Qed.

Lemma keeps_create serviceid fd : keeps_inv (createNewSession now peer serviceid fd).
Proof.
  intros w Hw. destruct (find_slot_complete (ai_reg w) (ai_next w) (ri_size w Hw) (ri_next w Hw))
    as (index & next & E & Hn & H0 & H1).
  destruct (decide (index = 0)) as [->|Hi].
  - unfold createNewSession, mbind, eff_bind, get, of_result, put, throw. rewrite E.
    split; try apply Hw. done.
  - destruct (H1 Hi) as [Hr Hfree]. rewrite (create_steps _ _ _ _ _ E Hi).
    eapply (keeps_bind (enqueue_to _ _) (fun _ => mret ())); [eauto with interface..|].
    by apply inv_with_new_session.
Qed.

End creation.
#[export] Hint Resolve keeps_create : interface.

(** * Ending sessions *)

(** Deleting an expired session. *)
Lemma inv_delete_object w p c l : registry_inv (set_expired (p :: l) w) ->
  registry_inv (set_expired l (delete_object p c w)).
Proof.
  intros Hw. pose proof (ri_expired _ Hw p ltac:(by left)) as [[[s c0] Hg] Hnr].
  pose proof (ri_expired_once _ Hw) as Hnd. cbn in Hnd. apply NoDup_cons in Hnd as [Hpl Hnd].
  assert (forall q, q <> p -> get_object (set_expired l (delete_object p c w)) q = get_object w q) as Hsame.
  { intros q Hq. unfold get_object. cbn. by rewrite lookup_delete_ne, lookup_insert_ne. }
  split; try apply Hw.
  - intros i q Hq. destruct (ri_slot _ Hw i q Hq) as (s0 & c1 & Hg0 & H0). exists s0, c1.
    rewrite Hsame; [done|]. intros ->. apply Hnr. apply registered_spec. by exists i.
  - intros q. cbn. intros [[s' H]|H].
    + apply lookup_delete_Some in H as [_ H]. apply (ri_alloc _ Hw). left. by eexists.
    + rewrite lookup_insert_is_Some' in H. apply (ri_alloc _ Hw). right.
      destruct H as [<-|H]; [|done]. apply get_object_Some in Hg as [_ Hc]. by eexists.
  - intros q Hq. cbn in Hq. destruct (ri_expired _ Hw q ltac:(by right)) as [He Hr]. split; [|done].
    rewrite Hsame; [done|]. by intros ->.
  - done.
Qed.

Lemma filter_ext_elem {A} (P Q : A -> Prop) `{!forall x, Decision (P x)} `{!forall x, Decision (Q x)} (l : list A) :
  (forall x, x ∈ l -> P x <-> Q x) -> filter P l = filter Q l.
Proof.
  induction l as [|a l IH]; intros HPQ; [done|]. rewrite !filter_cons.
  rewrite (decide_ext (P a) (Q a)) by (apply HPQ; by left). rewrite IH by (intros x Hx; apply HPQ; by right).
  done.
Qed.

(** [session_cleanup]: it never fails, deletes exactly the expired sessions
    that are safe to delete and keeps the others, in order. *)
Definition deletable (w : AdminInterfaceImpl) (p : Z) : bool :=
  match get_object w p with Some (s, c) => safe_to_delete s c | None => false end.

Lemma registry_inv_expired_perm w k l : k ≡ₚ l ->
  registry_inv (set_expired k w) -> registry_inv (set_expired l w).
Proof.
  intros Hp Hw. split; try apply Hw.
  - intros q Hq. apply (ri_expired _ Hw). cbn in *. by rewrite Hp.
  - cbn. rewrite <-Hp. apply (ri_expired_once _ Hw).
Qed.

Lemma cleanup_loop_spec now items later w : registry_inv (set_expired (items ++ later) w) ->
  exists w', cleanup_loop now items later w = (w', [], Ok ()) /\ registry_inv w' /\
    ai_expired w' = later ++ filter (fun p => deletable w p = false) items /\
    ai_reg w' = ai_reg w /\ ai_monitor w' = ai_monitor w /\
    (forall q, ai_sessions w' !! q =
       if decide (q ∈ items /\ deletable w q = true) then None else ai_sessions w !! q) /\
    (forall q, (q ∉ items) -> get_object w' q = get_object w q).
Proof.
  revert later w. induction items as [|p items IH]; intros later w Hw; cbn [cleanup_loop].
  { exists (set_expired later w). split; [done|]. split; [done|]. split; [by rewrite app_nil_r|].
    do 2 (split; [done|]). split; [|done]. intros q. by rewrite decide_False by set_solver. }
  unfold mbind, eff_bind, get. cbn [app] in Hw.
  destruct (ri_expired _ Hw p ltac:(by left)) as [[[s c] Hg] _].
  change (get_object (set_expired (p :: items ++ later) w) p) with (get_object w p) in Hg. rewrite Hg.
  pose proof (ri_expired_once _ Hw) as Hnd. cbn in Hnd. apply NoDup_cons in Hnd as [Hpl Hnd].
  assert (p ∉ items) as Hpi by set_solver.
  assert (deletable w p = safe_to_delete s c) as Hd by (unfold deletable; by rewrite Hg).
  destruct (safe_to_delete s c) eqn:Es.
  - unfold put. set (w1 := delete_object p (destroy_session now s c) w).
    assert (forall q, q <> p -> get_object w1 q = get_object w q) as Hsame.
    { intros q Hq. unfold get_object, w1. cbn. by rewrite lookup_delete_ne, lookup_insert_ne. }
    destruct (IH later w1) as (w' & E' & Hi' & He' & Hr' & Hm' & Hs' & Ho'); [by apply inv_delete_object|].
    rewrite E'. exists w'. split; [done|]. split; [done|]. split.
    { rewrite He', filter_cons_False by congruence. f_equal. apply filter_ext_elem. intros q Hq.
      unfold deletable. rewrite Hsame; [done|]. by intros ->. }
    split; [done|]. split; [done|]. split.
    + intros q. rewrite Hs'. destruct (decide (q = p)) as [->|Hne].
      * rewrite decide_False by tauto. rewrite decide_True by (split; [by left|congruence]).
        unfold w1. cbn. apply lookup_delete_eq.
      * assert (deletable w1 q = deletable w q) as -> by (unfold deletable; by rewrite Hsame).
        unfold w1. cbn. rewrite lookup_delete_ne by done. apply decide_ext. rewrite elem_of_cons. tauto.
    + intros q Hq. rewrite Ho', Hsame by set_solver. done.
  - destruct (IH (later ++ [p]) w) as (w' & E' & Hi' & He' & Hr' & Hm' & Hs' & Ho').
    { eapply registry_inv_expired_perm; [|exact Hw]. solve_Permutation. }
    rewrite E'. exists w'. split; [done|]. split; [done|]. split.
    { rewrite He', filter_cons_True by done. by rewrite <-app_assoc. }
    do 2 (split; [done|]). split; [|intros q Hq; apply Ho'; set_solver].
    intros q. rewrite Hs'. apply decide_ext. rewrite elem_of_cons.
    split; [tauto|]. intros [[->|?] ?]; [congruence|done].
Qed.

Lemma keeps_cleanup now : keeps_inv (session_cleanup now).
Proof.
  intros w Hw. unfold session_cleanup, mbind, eff_bind, get.
  destruct (cleanup_loop_spec now (ai_expired w) [] w) as (w' & -> & Hw' & _); [|done].
  rewrite app_nil_r. by destruct w.
Qed.
Lemma keeps_housekeep now p : keeps_inv (housekeep now p).
Proof.
  apply keeps_on_session. intros s c s' c' a E. inv_ok. destruct a0 as [s1 c1]. injection E as <- <- <-.
  unfold session_housekeeping in E0. repeat case_match; simplify_eq; try done. inv_ok.
  by destruct a as [c2 f]; simplify_eq.
Qed.
#[export] Hint Resolve keeps_cleanup keeps_housekeep : interface.
Lemma keeps_housekeeping now : keeps_inv (housekeeping now).
Proof. unfold housekeeping. keep_steps. Qed.
#[export] Hint Resolve keeps_housekeeping : interface.

(** ** Unsubscribing *)

Lemma for_names_modify (g : DataTable -> DataTable) l M : (forall n, n ∈ l -> is_Some (M !! n)) -> NoDup l ->
  exists M', for_each (fun n => on_table n (modify g)) l M = (M', [], Ok ()) /\
    forall n, M' !! n = if decide (n ∈ l) then g <$> M !! n else M !! n.
Proof.
  revert M. induction l as [|n l IH]; intros M Hin Hnd; cbn [for_each].
  { exists M. split; [done|]. intros n. by rewrite decide_False by set_solver. }
  apply NoDup_cons in Hnd as [Hn Hnd]. destruct (Hin n ltac:(by left)) as [t Ht].
  unfold mbind, eff_bind, on_table at 1. rewrite Ht. cbn [modify].
  destruct (IH (<[n := g t]> M)) as (M' & -> & HM'); [|done|].
  { intros m Hm. rewrite lookup_insert_ne by set_solver. apply Hin. by right. }
  exists M'. split; [done|]. intros m. rewrite HM'. destruct (decide (m = n)) as [->|Hne].
  - rewrite decide_False, lookup_insert_eq by done. by rewrite decide_True, Ht by (by left).
  - rewrite lookup_insert_ne by done. apply decide_ext. rewrite elem_of_cons. tauto.
Qed.

Lemma unsubscribe_all_spec sid M : unsubscribe_all sid M = (del_subscriber sid <$> M, [], Ok ()).
Proof.
  unfold unsubscribe_all, for_tables, mbind, eff_bind, get.
  destruct (for_names_modify (del_subscriber sid) (map_iter M).*1 M) as (M' & -> & HM').
  - intros n Hn. by apply map_iter_fst_elem.
  - apply map_iter_NoDup_fst.
  - cbn [app]. do 2 f_equal. apply map_eq. intros n. rewrite HM', lookup_fmap.
    case_decide as Hn; [done|]. rewrite map_iter_fst_elem in Hn. apply eq_None_not_Some in Hn. by rewrite Hn.
Qed.

Lemma remove_first_once s l : NoDup l -> s ∉ remove_first s l.
Proof.
  induction l as [|a l IH]; intros Hnd; cbn [remove_first]; [set_solver|].
  apply NoDup_cons in Hnd as [Ha Hnd]. case_decide as He; [by subst|]. specialize (IH Hnd). set_solver.
Qed.

(** ** [session_closed] *)

Lemma remove_first_subset s l x : x ∈ remove_first s l -> x ∈ l.
Proof.
  induction l as [|y l IH]; cbn [remove_first]; [done|]. destruct (decide (y = s)); [by right|].
  rewrite !elem_of_cons. tauto.
Qed.

Lemma session_closed_spec now lt w i p : registry_inv w -> ai_reg w !! i = Some (Some p) ->
  exists w', on_session_closed now lt p w = (w', [], Ok ()) /\ registry_inv w' /\
    ai_reg w' = <[i := None]> (ai_reg w) /\ ai_expired w' = ai_expired w ++ [p] /\
    ai_monitor w' = del_subscriber (Z.of_nat i) <$> ai_monitor w /\
    (forall q, get_object w' q = get_object w q) /\ ai_admins w' = ai_admins w.
Proof.
  intros Hw Hi. destruct (ri_slot w Hw i p Hi) as (s & c & Hg & Hid & Hio).
  pose proof (ri_size w Hw) as Hlen. pose proof (lookup_lt_Some _ _ _ Hi) as Hlt.
  unfold on_session_closed, mbind, eff_bind. unfold on_session. rewrite Hg, Hid.
  unfold on_monitor. cbn [set_object ai_monitor]. rewrite unsubscribe_all_spec. cbn [for_each].
  unfold mbind, eff_bind, mret, eff_ret, of_result, modify. cbn [app].
  set (w1 := set_object p s c w).
  assert (forall q, get_object w1 q = get_object w q) as Hsame.
  { intros q. unfold w1. rewrite get_set_object. by destruct (decide (p = q)) as [->|]. }
  assert (registry_inv w1) as Hw1 by (by apply (inv_set_object w p s c)).
  set (w2 := set_monitor _ w1). unfold reg_at. unfold SESSION_REG_SIZE, MAX_SESSIONS in *.
  destruct (Z.leb_spec 0 (Z.of_nat i)); [|lia]. destruct (Z.ltb_spec (Z.of_nat i) (2000 + 1)); [|lia].
  cbn [andb]. rewrite Nat2Z.id. change (ai_reg w2) with (ai_reg w). rewrite Hi.
  eexists. split; [done|]. split; [|done].
  assert (forall j q, <[i := None]> (ai_reg w) !! j = Some (Some q) -> j <> i /\ ai_reg w !! j = Some (Some q)) as Hreg.
  { intros j q Hj. destruct (decide (j = i)) as [->|Hne].
    - by rewrite list_lookup_insert_eq in Hj.
    - by rewrite list_lookup_insert_ne in Hj. }
  split.
  - cbn. by rewrite length_insert.
  - cbn. destruct i; [by rewrite (ri_zero w Hw) in Hi|]. rewrite list_lookup_insert_ne by done. apply Hw.
  - apply Hw.
  - intros j q Hj. destruct (Hreg j q Hj) as [Hne Hj'].
    destruct (ri_slot w1 Hw1 j q Hj') as (s0 & c0 & Hg0 & H0'). exists s0, c0. done.
  - apply (ri_alloc w1 Hw1).
  - intros q Hq. cbn [ai_expired set_expired] in Hq. apply elem_of_app in Hq as [Hq|Hq%list_elem_of_singleton].
    + destruct (ri_expired w1 Hw1 q Hq) as [He Hnr]. split; [done|].
      rewrite registered_spec in Hnr |- *. intros [j Hj]. apply Hreg in Hj as [_ Hj]. apply Hnr. by exists j.
    + subst q. split; [exists (s, c); change (get_object w1 p = Some (s, c)); by rewrite Hsame|].
      rewrite registered_spec. intros [j Hj]. apply Hreg in Hj as [Hne Hj].
      apply Hne. by apply (registered_once w j i p).
  - apply NoDup_app. split; [apply Hw|]. split; [|apply NoDup_singleton].
    intros q Hq ->%list_elem_of_singleton. destruct (ri_expired w Hw p Hq) as [_ Hnr]. apply Hnr.
    apply registered_spec. by exists i.
Qed.

(** * Commands keep the registry's invariant *)

Section commands.
Context (now : Z) (localtime : Z -> tm) (info : system_info) (user_target : Z -> AdminRequest -> ai_op AdminResponse).
Context (user_keeps : forall k req, keeps_inv (user_target k req)).

Lemma keeps_session_info sid : keeps_inv (session_info sid).
Proof. unfold session_info. keep_steps. Qed.
Lemma keeps_session_rows sids tb : keeps_inv (session_rows sids tb).
Proof.
  revert tb. induction sids as [|sid sids IH]; intros tb; cbn [session_rows]; [apply keeps_ret|].
  apply keeps_bind; [|intros []; apply IH]. unfold session_row.
  apply keeps_bind; [apply keeps_session_info|]. intros [[_ addr] _]. keep_steps.
Qed.
Lemma keeps_stop_sessions args : keeps_inv (stop_sessions args).
Proof. induction args as [|arg args IH]; cbn [stop_sessions]; keep_steps; done. Qed.
Lemma keeps_del_session req : keeps_inv (admincmd_del_session req).
Proof.
  unfold admincmd_del_session. destruct (req_args req); [apply keeps_throw|].
  apply keeps_bind; [apply keeps_stop_sessions|intros; apply keeps_ret].
Qed.

Lemma keeps_invoke ac req : keeps_inv (invoke now localtime info user_target ac req).
Proof.
  pose proof keeps_session_rows. unfold invoke.
  repeat case_match; try apply keeps_del_session; try apply user_keeps;
    unfold admincmd_list_tables, admincmd_sessions, admincmd_help, admincmd_info, admincmd_snapshot,
      admincmd_diags, admincmd_subscribe, admincmd_table_subs; keep_steps; auto.
Qed.

Lemma keeps_dispatch m p : keeps_inv (dispatch now localtime info user_target m p).
Proof. pose proof keeps_invoke. unfold dispatch. keep_steps; auto. Qed.

Lemma keeps_message m p : keeps_inv (on_session_message now localtime info user_target m p).
Proof.
  pose proof keeps_dispatch. unfold on_session_message, handle_logon_msg, handle_admin_request.
  keep_steps; auto.
Qed.

End commands.
#[export] Hint Resolve keeps_message : interface.

Lemma registry_inv_new : registry_inv new_interface.
Proof.
  assert (ai_reg new_interface = replicate (Z.to_nat SESSION_REG_SIZE) None) as Hr by (vm_compute; reflexivity).
  split.
  - by rewrite Hr, length_replicate.
  - by rewrite Hr.
  - change (ai_next new_interface) with 1. unfold MAX_SESSIONS. lia.
  - intros i p. rewrite Hr. intros Hi. by apply lookup_replicate in Hi as [? _].
  - intros p [[x Hx]|[x Hx]]; vm_compute in Hx; discriminate.
  - intros p Hp. change (ai_expired new_interface) with (@nil Z) in Hp. by apply elem_of_nil in Hp.
  - constructor.
Qed.

(** * Replies *)

(** A response that carries the sequence number [seq]. *)
Definition echoes (seq : string) (m : txMessage) : Prop :=
  wf (m_root m) /\ msg_type m = id.msg_response /\
  exists h, find_child (m_root m) id.head = Some h /\ f_value <$> find_field h id.reqseqno = Some seq.

Lemma echoes_seqno seq m : echoes seq m ->
  msg_type m = id.msg_response /\ f_value <$> find_field_qn (m_root m) id.QN_head_reqseqno = Some seq.
Proof.
  intros (_ & Ht & h & Hh & Hf). split; [done|]. unfold find_field_qn.
  cbn [id.QN_head_reqseqno removelast find_tree_const]. by rewrite Hh.
Qed.

Lemma echoes_new seq : echoes seq (resp_msg (new_response seq)).
Proof.
  split.
  { unfold new_response. cbn [resp_msg m_root]. apply wf_put_field_qn. unfold put_child.
    apply wf_put_child_with; [|apply wf_update_id]. apply wf_put_child_with; [apply wf_new_container|apply wf_update_id]. }
  split; [vm_compute; reflexivity|]. eexists. split; [vm_compute; reflexivity|]. vm_compute. reflexivity.
Qed.

(** Updates of the root that leave the sequence number alone. *)
Lemma echoes_update seq m n g : echoes seq m -> wf_update g ->
  (n = id.head -> forall h, wf h -> find_field (g h) id.reqseqno = find_field h id.reqseqno) ->
  echoes seq (on_root (fun r => put_child_with r n g) m).
Proof.
  intros (Hw & Ht & h & Hh & Hf) Hg Hn. unfold on_root.
  split; [by apply wf_put_child_with|].
  split; [unfold msg_type in *; cbn [m_root]; by rewrite m_name_put_child_with|].
  cbn [m_root]. rewrite find_child_put_child_with by (auto with exio || apply Hg; auto with exio).
  destruct (decide (n = id.head)) as [->|]; [|by exists h].
  rewrite Hh. exists (g h). split; [done|]. rewrite Hn; [done|done|]. by eapply find_child_wf.
Qed.

Lemma echoes_head seq m x v : echoes seq m -> x <> id.reqseqno ->
  echoes seq (on_root (fun r => put_field_qn r [id.head; x] v) m).
Proof.
  intros He Hx. apply (echoes_update seq m id.head (fun c => put_field c x v)); [done|apply wf_update_put_field|].
  intros _ h Hh. rewrite find_field_put_field by auto with exio. by rewrite decide_False.
Qed.

Lemma echoes_body seq r g : echoes seq (resp_msg r) -> wf_update g -> echoes seq (resp_msg (on_body g r)).
Proof. intros He Hg. by apply echoes_update. Qed.

Lemma echoes_copy seq r : echoes seq (resp_msg r) -> echoes seq (resp_msg (copy_response r)).
Proof.
  intros He. unfold copy_response, copy_message. cbn [resp_msg]. rewrite clone_wf by apply He.
  apply (echoes_update seq (on_root (fun r => put_child_with r id.head id) (TxMessage (m_root (resp_msg r)))));
    [|apply wf_update_id|done].
  apply echoes_update; [|apply wf_update_id|done]. by destruct r as [? []].
Qed.

Lemma echoes_plain seq : echoes seq (resp_msg (plain_response seq)).
Proof.
  unfold plain_response, set_pending, add_rescode. cbn [on_msg resp_msg].
  do 2 (apply echoes_head; [|done]). apply echoes_new.
Qed.

Lemma wf_update_string s : wf_update (formatreply_string s).
Proof.
  apply (wf_update_compose (fun b => put_child_with b id.respdata (fun d => put_field d id.text s))
    (fun b => put_field b id.resptype id.text)); auto with exio.
Qed.

Lemma echoes_error seq code text : echoes seq (resp_msg (response_error seq code text)).
Proof.
  unfold response_error. apply echoes_body; [|apply wf_update_string].
  unfold set_pending, add_rescode. cbn [on_msg resp_msg]. do 2 (apply echoes_head; [|done]). apply echoes_new.
Qed.

Lemma wf_update_simplelist_rows column i values : wf_update (simplelist_rows column i values).
Proof.
  revert i. induction values as [|v values IH]; intros i; [apply wf_update_id|].
  apply (wf_update_compose (simplelist_rows column (i + 1) values)); [apply IH|].
  apply wf_update_put_child_with.
  apply (wf_update_compose (fun r => put_field r column v)); auto with exio.
Qed.

Lemma wf_update_simplelist l n : wf_update (formatreply_simplelist l n).
Proof.
  unfold formatreply_simplelist.
  apply (wf_update_compose (fun b => put_child_with b id.respdata _)
    (fun b => put_field (put_field b id.resptype id.table) id.synthetic id.scalarlist)).
  2: apply (wf_update_compose (fun b => put_field b id.synthetic id.scalarlist)); auto with exio.
  apply wf_update_put_child_with.
  apply (wf_update_compose (fun r => put_child_with r id.tableupdate _)).
  { apply wf_update_put_child_with. apply (wf_update_compose (simplelist_rows _ 0 l)); [apply wf_update_simplelist_rows|].
    apply wf_update_put_field. }
  apply (wf_update_compose (fun r => put_child_with r id.tabledescr _)).
  { apply wf_update_put_child_with, wf_update_put_child_with.
    apply (wf_update_compose (fun r => put_child_with r _ (fun c => put_field c id.colname _))); auto with exio. }
  apply (wf_update_compose (fun r => put_child r id.tableupdate)); apply wf_update_put_child_with, wf_update_id.
Qed.

(** A table built from columns and rows. *)
Lemma wf_update_column_msgs i cols : wf_update (column_msgs i cols).
Proof.
  revert i. induction cols as [|c cols IH]; intros i; [apply wf_update_id|].
  apply (wf_update_compose (column_msgs (i + 1) cols)); auto with exio.
Qed.

Lemma wf_update_row_values cols values : wf_update (row_values cols values).
Proof.
  revert values. induction cols as [|c cols IH]; intros [|v values]; [apply wf_update_id..|].
  apply (wf_update_compose (row_values cols values)); auto with exio.
Qed.

Lemma wf_update_table_builder cols rows : wf_update (fun body =>
  tb_body (foldl (fun tb r => add_row id.row_key r tb) (AdminCommand.set_columns cols (new_table_builder body)) rows)).
Proof.
  intros d Hd.
  assert (wf (tb_body (AdminCommand.set_columns cols (new_table_builder d))) /\
    m_name (tb_body (AdminCommand.set_columns cols (new_table_builder d))) = m_name d) as H.
  { unfold AdminCommand.set_columns, new_table_builder. cbn [tb_body].
    apply (wf_update_compose (fun b => put_child_qn_with b qn_tabledescr _)
      (fun b => put_field (put_child_qn_with (put_child_qn_with b qn_tabledescr id) qn_tableupdate id)
                  id.resptype id.table)); [| |done].
    - apply wf_update_put_child_with, wf_update_put_child_with, wf_update_put_child_with.
      apply (wf_update_compose (column_msgs 0 cols)); [apply wf_update_column_msgs|].
      apply (wf_update_compose (fun c => put_field c id.msgcount _)); [auto with exio|].
      intros c Hc. split; [|by destruct c]. destruct c. apply wf_new_container.
    - apply (wf_update_compose (fun b => put_field b id.resptype id.table)); [auto with exio|].
      apply (wf_update_compose (fun b => put_child_qn_with b qn_tableupdate id));
        apply wf_update_put_child_with, wf_update_put_child_with, wf_update_id. }
  revert H. generalize (AdminCommand.set_columns cols (new_table_builder d)).
  induction rows as [|r rows IH]; intros tb [Hw Hn]; cbn [foldl]; [done|]. apply IH.
  rewrite <-Hn. unfold add_row. cbn [tb_body].
  apply (wf_update_put_child_with id.respdata (fun b => put_child_with b id.tableupdate _)); [|done].
  apply wf_update_put_child_with.
  apply (wf_update_compose (fun t => put_child_with t _ (fun row =>
    row_values (AdminCommand.m_columns tb) r (put_field row id.row_key id.row_key)))); [|auto with exio].
  apply wf_update_put_child_with.
  apply (wf_update_compose (row_values (AdminCommand.m_columns tb) r)); [apply wf_update_row_values|auto with exio].
Qed.

(** ** Commands that only report *)

Definition reports (t : Target) : bool :=
  match t with T_help | T_info | T_list_tables | T_diags | T_table_subs => true | _ => false end.

(** The command a request names. *)
Definition command_of (m : txMessage) : option string :=
  match command_at m id.QN_command with Some c => Some c | None => command_at m QN_body_command end.

Section answers.
Context (now : Z) (localtime : Z -> tm) (info : system_info) (user_target : Z -> AdminRequest -> ai_op AdminResponse).

(** [m] answers without changing anything. *)
Definition answers (seq : string) (w : AdminInterfaceImpl) (m : ai_op AdminResponse) : Prop :=
  exists resp, m w = (w, [], Ok resp) /\ resp_send resp = true /\ echoes seq (resp_msg resp).

Lemma answers_ret seq w resp : resp_send resp = true -> echoes seq (resp_msg resp) -> answers seq w (mret resp).
Proof. intros Hs He. by exists resp. Qed.
Lemma answers_get seq w f : answers seq w (f w) -> answers seq w (get ≫= f).
Proof. intros (resp & E & H). exists resp. unfold mbind, eff_bind, get. by rewrite E. Qed.
Lemma answers_error seq w code text : answers seq w (mret (response_error seq code text)).
Proof. apply answers_ret; [done|apply echoes_error]. Qed.
Lemma answers_text seq w s : answers seq w (mret (on_body (formatreply_string s) (plain_response seq))).
Proof. apply answers_ret; [done|]. apply echoes_body; [apply echoes_plain|apply wf_update_string]. Qed.
Lemma answers_list seq w l n : answers seq w (mret (on_body (formatreply_simplelist l n) (plain_response seq))).
Proof. apply answers_ret; [done|]. apply echoes_body; [apply echoes_plain|apply wf_update_simplelist]. Qed.

Lemma answers_help req w : answers (req_reqseqno req) w (admincmd_help req).
Proof.
  apply answers_get. destruct (req_args req); [apply answers_list|].
  destruct (ai_admins w !! s); [|apply answers_error]. apply answers_ret; [done|apply echoes_error].
Qed.

Lemma answers_list_tables req w : answers (req_reqseqno req) w (admincmd_list_tables req).
Proof.
  apply answers_get. destruct (req_args req) as [|cmd args]; [apply answers_error|].
  case_bool_decide; [apply answers_list|]. case_bool_decide; [|apply answers_error].
  destruct args as [|name args]; [apply answers_error|].
  destruct (has_table (ai_monitor w) name); [|apply answers_error].
  destruct (copy_table2 (ai_monitor w) name [] []) as [cols rows]. apply answers_ret; [done|].
  cbn [on_msg resp_msg]. apply echoes_head; [|done].
  apply echoes_body; [apply echoes_plain|apply wf_update_table_builder].
Qed.

Lemma reports_invoke ac t req w : ac_target ac = Some t -> reports t = true ->
  answers (req_reqseqno req) w (invoke now localtime info user_target ac req).
Proof.
  intros Ht Hr. unfold invoke. rewrite Ht. destruct t; try done.
  - apply answers_list_tables.
  - apply answers_help.
  - apply answers_text.
  - apply answers_get, answers_text.
  - apply answers_get, answers_text.
Qed.

(** A request that names no command, an unknown one or one that only reports:
    nothing changes, and the outcome is a reply or an error to be reported. *)
Lemma reports_dispatch m p s c w : wf (m_root m) -> get_object w p = Some (s, c) ->
  (forall cmd ac, command_of m = Some cmd -> ai_admins w !! cmd = Some ac ->
     exists t, ac_target ac = Some t /\ reports t = true) ->
  exists w1 r, dispatch now localtime info user_target m p w = (w1, [], r) /\
    (forall q, get_object w1 q = get_object w q) /\
    match r with
    | Ok resp => resp_send resp = true /\ echoes (request_seqno m) (resp_msg resp)
    | Throw e => catchable e = true
    end.
Proof.
  intros Hw Hg Hq. unfold dispatch. fold (command_of m).
  destruct (command_of m) as [cmd|] eqn:Ec; [|by eexists _, _].
  unfold mbind, eff_bind, get, admin_find. destruct (ai_admins w !! cmd) as [ac|] eqn:Ea; [|by eexists _, _].
  destruct (Hq cmd ac eq_refl Ea) as (t & Ht & Hr). unfold on_session. rewrite Hg.
  assert (forall q, get_object (set_object p s c w) q = get_object w q) as Hsame.
  { intros q. rewrite get_set_object. by destruct (decide (p = q)) as [->|]. }
  unfold of_result. destruct (make_request m (s_id s)) as [req|e] eqn:Er.
  - destruct (reports_invoke ac t req (set_object p s c w) Ht Hr) as (resp & -> & Hs & He).
    eexists _, _. split; [done|]. split; [done|]. rewrite (make_request_seqno m (s_id s) req Hw Er) in He. done.
  - eexists _, _. split; [done|]. split; [done|]. by destruct (make_request_throws _ _ _ Er) as [what ->].
Qed.

Lemma error_reply_echoes seq e : resp_send (error_reply seq e) = true /\ echoes seq (resp_msg (error_reply seq e)).
Proof. destruct e; (split; [done|apply echoes_error]). Qed.

Lemma queued_session_close s c : queued (session_close s c) = queued c.
Proof.
  unfold session_close. destruct (s_io_handle s); [|done]. unfold queue.
  destruct (oq_acceptmore (m_out_q c)); [|done].
  change (0 <? Z.of_nat (length (default [] (None : option bytes)))) with false.
  cbn [negb andb orb fst]. unfold queued. cbn [do_io set_out_q m_out_q oq_items]. rewrite flat_map_app.
  cbn [flat_map raw_bytes]. by rewrite app_nil_r.
Qed.

(** The message in which a response is sent. *)
Definition sent_form (resp : AdminResponse) : txMessage :=
  on_root (fun r => put_field_qn r id.QN_msgtype id.msg_response) (resp_msg (copy_response resp)).

Lemma echoes_sent_form seq resp : echoes seq (resp_msg resp) -> echoes seq (sent_form resp).
Proof. intros He. by apply echoes_head; [apply echoes_copy|]. Qed.

(** The part of [handle_admin_request] after the [try] block, when the reply
    is accepted by the connection. *)
Lemma reply_steps m p w resp w1 s c c1 :
  try_catch (dispatch now localtime info user_target m p) (error_reply (request_seqno m)) w = (w1, [], Ok resp) ->
  get_object w1 p = Some (s, c) -> resp_send resp = true ->
  enqueueToSend (sent_form resp) s c = Ok (c1, false) ->
  exists w', handle_admin_request now localtime info user_target m p w = (w', [], Ok ()) /\
    get_object w' p =
      Some (s, if negb (has_pending (sent_form resp)) && s_autoclose s then session_close s c1 else c1) /\
    forall q, q <> p -> get_object w' q = get_object w1 q.
Proof.
  intros Ed Hg Hs E1. unfold handle_admin_request. unfold mbind at 1, eff_bind at 1. rewrite Ed.
  replace (resp_send (copy_response resp)) with true by done. unfold mbind at 1, eff_bind at 1.
  unfold mbind at 1, eff_bind at 1. unfold enqueue_to at 1, on_session at 1. rewrite Hg.
  cbn [on_msg resp_msg]. change (on_root _ (resp_msg (copy_response resp))) with (sent_form resp).
  rewrite E1. cbn [mbind result_bind].
  unfold mbind, eff_bind, mret, eff_ret. cbn [app]. set (w2 := set_object p s c1 w1).
  assert (get_object w2 p = Some (s, c1)) as Hg2 by (unfold w2; by rewrite get_set_object, decide_True).
  unfold on_session at 1. rewrite Hg2. set (w3 := set_object p s c1 w2).
  assert (get_object w3 p = Some (s, c1)) as Hg3 by (unfold w3; by rewrite get_set_object, decide_True).
  assert (forall q, q <> p -> get_object w3 q = get_object w1 q) as Hother3
    by (intros q Hne; unfold w3, w2; by rewrite !get_set_object, !decide_False by congruence).
  cbn [resp_msg]. destruct (negb _ && s_autoclose s).
  - unfold close_session, on_session. rewrite Hg3. eexists. split; [done|].
    split; [by rewrite get_set_object, decide_True|].
    intros q Hne. rewrite get_set_object, decide_False by congruence. auto.
  - exists w3. auto.
Qed.

Lemma reply_sent m p w resp w1 s c :
  try_catch (dispatch now localtime info user_target m p) (error_reply (request_seqno m)) w = (w1, [], Ok resp) ->
  get_object w1 p = Some (s, c) -> s_session_valid s = true -> s_io_handle s = true ->
  resp_send resp = true -> echoes (request_seqno m) (resp_msg resp) ->
  exists reply, echoes (request_seqno m) reply /\
    (Z.of_nat (length (enc_body reply)) <= max_content -> has_room (wire_length reply) c ->
     exists w' c' s', handle_admin_request now localtime info user_target m p w = (w', [], Ok ()) /\
       get_object w' p = Some (s', c') /\ queued c' = queued c ++ wire reply /\
       forall q, q <> p -> get_object w' q = get_object w1 q).
Proof.
  intros Ed Hg Hv Hio Hs He. exists (sent_form resp). split; [by apply echoes_sent_form|]. intros Hl Hr.
  destruct (enqueue_queues (sent_form resp) s c Hv Hio Hl Hr) as (c1 & E1 & Hq1 & _).
  destruct (reply_steps m p w resp w1 s c c1 Ed Hg Hs E1) as (w' & Eh & Hg' & Ho).
  eexists w', _, s. split; [done|]. split; [done|]. split; [|done].
  destruct (_ && _); [by rewrite queued_session_close|done].
Qed.

End answers.

(** * Properties *)

(** C18. Every operation of the interface, whatever its outcome, keeps the
    session registry consistent: slot 0 unused, every used slot holding an
    existing session whose id is the slot's number, expired sessions alive,
    listed once and not registered. *)
Theorem interface_operations_keep_invariant (now : Z) (localtime : Z -> tm) (peer : Z -> string)
    (info : system_info) (user_target : Z -> AdminRequest -> ai_op AdminResponse)
    (op : env -> list Z -> monitor_op unit) (serviceid : string) (fd sid p : Z) (m : txMessage)
    (msgs : list txMessage) (w : AdminInterfaceImpl) :
  (forall k req, keeps_inv (user_target k req)) -> registry_inv w ->
  registry_inv (state_after (createNewSession now peer serviceid fd w)) /\
  registry_inv (state_after (on_session_message now localtime info user_target m p w)) /\
  registry_inv (state_after (on_monitor now localtime op w)) /\
  registry_inv (state_after (send_one m sid w)) /\
  registry_inv (state_after (send_one_list msgs sid w)) /\
  registry_inv (state_after (send_all m w)) /\
  registry_inv (state_after (session_stop_one sid w)) /\
  registry_inv (state_after (session_stop_all w)) /\
  registry_inv (state_after (housekeeping now w)) /\
  (p ∈ registered w -> registry_inv (state_after (on_session_closed now localtime p w))).
Proof.
  intros Hu Hw. split; [by apply keeps_create|]. split; [by apply keeps_message|].
  split; [by apply keeps_on_monitor|]. split; [by apply keeps_send_one|].
  split; [by apply keeps_send_list|]. split; [by apply keeps_send_all|].
  split; [by apply keeps_stop_one|]. split; [by apply keeps_stop_all|].
  split; [by apply keeps_housekeeping|]. intros [i Hi]%registered_spec.
  by destruct (session_closed_spec now localtime w i p Hw Hi) as (w' & -> & Hw' & _).
Qed.

(** C32. Creating a session: if any of the slots 1 to 2000 is free, wherever
    the search starts, the session gets a free slot, is open, has the logon
    message queued and disturbs no other slot or session; otherwise the call
    throws and changes neither the registry nor the sessions. *)
Theorem create_session_finds_slot (now : Z) (peer : Z -> string) (serviceid : string) (fd : Z)
    (w : AdminInterfaceImpl) :
  registry_inv w -> Z.of_nat (length (enc_body (logon_msg serviceid))) <= max_content ->
  wire_length (logon_msg serviceid) <= 100 * 1024 * 1024 ->
  let r := createNewSession now peer serviceid fd w in
  let w' := state_after r in
  ((exists i, 1 <= i <= MAX_SESSIONS /\ ai_reg w !! Z.to_nat i = Some None) ->
   outcome r = Ok () /\ exists i p s c,
     1 <= i <= MAX_SESSIONS /\ ai_reg w !! Z.to_nat i = Some None /\ get_object w p = None /\
     ai_reg w' = <[Z.to_nat i := Some p]> (ai_reg w) /\
     get_object w' p = Some (s, c) /\ s_id s = i /\ s_session_valid s = true /\
     queued c = wire (logon_msg serviceid) /\
     forall q, q <> p -> get_object w' q = get_object w q) /\
  ((forall i, 1 <= i <= MAX_SESSIONS -> ai_reg w !! Z.to_nat i <> Some None) ->
   outcome r = Throw (runtime_error "no more sessions allowed") /\
   ai_reg w' = ai_reg w /\ forall q, get_object w' q = get_object w q).
Proof.
  intros Hw Hl Hm. cbv zeta.
  destruct (find_slot_complete (ai_reg w) (ai_next w) (ri_size w Hw) (ri_next w Hw))
    as (index & next & E & Hn & H0 & H1).
  destruct (decide (index = 0)) as [->|Hi].
  - unfold createNewSession, mbind, eff_bind, get, of_result, put, throw. rewrite E.
    cbn [Z.eqb outcome state_after fst snd]. split; [|done]. intros (i & Hi & Hfree).
    destruct (H0 eq_refl i Hi) as [p Hp]. congruence.
  - destruct (H1 Hi) as [Hr Hfree]. destruct (create_at now peer serviceid fd w index next E Hi Hl Hm) as (c & Hq & ->).
    cbn [outcome state_after fst snd]. split; [|intros Hno; by destruct (Hno index Hr)]. intros _. split; [done|].
    set (s := io_init (new_session fd index now true (peer fd))).
    assert (get_object w (ai_alloc w) = None) as Hnew.
    { destruct (get_object w (ai_alloc w)) as [[s0 c0]|] eqn:Eg; [|done].
      apply get_object_Some in Eg as [Es _]. pose proof (ri_alloc w Hw (ai_alloc w) (or_introl (mk_is_Some _ _ Es))). lia. }
    exists index, (ai_alloc w), s, c. do 4 (split; [done|]). unfold with_new_session.
    split; [by rewrite get_set_object, decide_True|]. do 3 (split; [done|]). intros q Hne.
    rewrite get_set_object, decide_False by congruence. unfold get_object, register_session. cbn.
    by rewrite lookup_insert_ne by congruence.
Qed.



(** A world with one session, at slot 1. *)
Definition test_peer : Z -> string :=
  sock_descr (fun _ => Some "10.0.0.1") (fun _ => Some (SockAddr AF_INET 0 5000)).
Definition test_localtime (t : Z) : tm := test_time.
Definition test_info : system_info := SystemInfo "svc" 0 64 4242 "root" "host" "1.0" EmptyString.
Definition test_world : AdminInterfaceImpl :=
  state_after (createNewSession 1000 test_peer "svc" 7 new_interface).
(** An application without callbacks. *)
Definition no_callbacks (k : Z) (req : AdminRequest) : ai_op AdminResponse :=
  mret (new_response (req_reqseqno req)).

(** A request as the [admin] tool makes it. *)
Definition make_test_request (command seqno : string) (args : list string) : txMessage :=
  on_root (fun r =>
    let r := put_field_qn r id.QN_command command in
    let r := put_field_qn r id.QN_head_reqseqno seqno in
    put_child_with r id.body (add_arguments args)) (new_message id.msg_request).

Lemma make_test_request_wf command seqno args : wf (m_root (make_test_request command seqno args)).
Proof.
  unfold make_test_request, on_root. cbn [m_root new_message]. apply wf_put_child_with.
  - do 2 apply wf_put_field_qn. apply wf_new_container.
  - apply wf_update_add_arguments.
Qed.

Lemma test_world_inv : registry_inv test_world.
Proof. apply keeps_create, registry_inv_new. Qed.

(** The index of [drop_session] is not checked: a request to drop a
    session number above 2000 makes the interface read outside the registry. *)
Theorem drop_session_unchecked :
  outcome (handle_admin_request 1000 test_localtime test_info no_callbacks
    (make_test_request "drop_session" "1" ["99999"]) 1 test_world) =
  Throw (undefined_behaviour "session registry index").
Proof. vm_compute. reflexivity. Qed.

Lemma interface_operations_keep_invariant_witness :
  registry_inv (state_after (on_session_closed 1000 test_localtime 1 test_world)).
Proof.
  apply (interface_operations_keep_invariant 1000 test_localtime test_peer test_info no_callbacks
    (fun e _ => clear_all_tables e) "svc" 7 1 1 (new_message EmptyString) [] test_world).
  - intros k req w Hw. exact Hw.
  - apply test_world_inv.
  - apply registered_spec. exists 1%nat. vm_compute. reflexivity.
Defined.

Lemma create_session_finds_slot_witness : exists i p s c,
  let w' := state_after (createNewSession 1000 test_peer "svc" 9 test_world) in
  1 <= i <= MAX_SESSIONS /\ get_object w' p = Some (s, c) /\ s_id s = i.
Proof.
  destruct (create_session_finds_slot 1000 test_peer "svc" 9 test_world) as [H _].
  - apply test_world_inv.
  - vm_compute. discriminate.
  - vm_compute. discriminate.
  - destruct H as [_ (i & p & s & c & Hi & _ & _ & _ & Hg & Hs & _)].
    + exists 2. split; [unfold MAX_SESSIONS; lia|]. vm_compute. reflexivity.
    + exists i, p, s, c. split; [exact Hi|]. split; [exact Hg|exact Hs].
Defined.


