(* ===== verification/ServerSocket.v ===== *)
(** The server socket: [AdminServerSocket.h] and [AdminServerSocket.cc].

    The accept thread is a sequence of rounds; what the operating system
    answers in a round (to [poll], [accept], [setsockopt], [time]) and what
    other threads did to the interface since the last round are arguments of
    the round.  The calls made to the operating system and to the log are
    outputs, in order. *)

From S2P Require Import Prelude Decimal Utils Logging TxContainer SamBuffer SamProtocol MsgIDs AdminCommand TableEvents Table TableProps ReadBuffer Client Delivery Monitor Session AdminInterface Interface.

Local Open Scope Z_scope.

Definition ACCEPT_TIMEOUT_SECS : Z := 10.
Definition POLLIN : Z := 1.
Definition O_NONBLOCK : Z := 2048.
Inductive fcntl_cmd := F_GETFD | F_SETFD.

(** The calls that leave the program. *)
Inductive sys_call :=
| Sys_socket
| Sys_setsockopt (fd : Z) (option : string)
| Sys_bind (fd sin_port : Z)
| Sys_listen (fd backlog : Z)
| Sys_fcntl (fd : Z) (cmd : fcntl_cmd) (arg : Z)
| Sys_poll (fd timeout : Z)
| Sys_accept (fd : Z)
| Sys_close (fd : Z)
| Sys_usleep (usec : Z)
| Sys_log (level : severity) (text : string).

(** The answer to a call: its value and, if it failed, [errno]. *)
Record sysret := SysRet { sr_value : Z; sr_errno : Z }.

(** [try { m } catch (const std::exception& e) { h } catch (...) { h }]. *)
Definition try_all {O S A} (m : eff O S A) (h : exn -> eff O S A) : eff O S A := fun s =>
  let '(s, o, r) := m s in
  match r with
  | Ok a => (s, o, Ok a)
  | Throw e =>
      if catchable e then let '(s, o', r) := h e s in (s, o ++ o', r) else (s, o, Throw e)
  end.

Section calls.
(** [utils::strerror], the texts of the C library. *)
Context (strerror : Z -> string).

Definition SocketIPv4 {S} (answer : sysret) : eff sys_call S Z :=
  emit Sys_socket;;
  if sr_value answer <? 0 then throw (runtime_error ("socket() failed: " +:+ strerror (sr_errno answer)))
  else mret (sr_value answer).

Definition Bind {S} (sockfd sin_port : Z) (answer : sysret) : eff sys_call S Z :=
  emit (Sys_bind sockfd sin_port);;
  if sr_value answer <? 0 then throw (runtime_error ("bind() failed: " +:+ strerror (sr_errno answer)))
  else mret 0.

Definition Listen {S} (sockfd backlog : Z) (answer : sysret) : eff sys_call S unit :=
  emit (Sys_listen sockfd backlog);;
  if sr_value answer <? 0 then throw (runtime_error ("listen() failed: " +:+ strerror (sr_errno answer)))
  else mret ().

(** One answer of [poll], with the [revents] it stored and the answer to the
    [accept] that may follow. *)
Record poll_answer := PollAnswer { pa_poll : sysret; pa_revents : Z; pa_accept : sysret }.

(** The [while (continue_to_poll)] loop; when the answers run out the thread
    is still in [poll]. *)
Fixpoint accept_loop {S} (sockfd : Z) (answers : list poll_answer) : eff sys_call S Z :=
  match answers with
  | [] => throw out_of_fuel
  | a :: answers =>
      emit (Sys_poll sockfd (ACCEPT_TIMEOUT_SECS * 1000));;
      let n := sr_value (pa_poll a) in
      if negb (n =? 0) then
        if negb (Z.land (pa_revents a) POLLIN =? 0) then
          emit (Sys_accept sockfd);;
          if sr_value (pa_accept a) <? 0 then throw (runtime_error (strerror (sr_errno (pa_accept a))))
          else mret (sr_value (pa_accept a))
        else accept_loop sockfd answers
      else if n =? 0 then mret (-1)
      else
        let text := "poll() failed: " +:+ strerror (sr_errno (pa_poll a)) in
        emit (Sys_log Warn text);; throw (runtime_error text)
  end.

Definition Accept {S} (sockfd fdflags : Z) (answers : list poll_answer) : eff sys_call S Z :=
  emit (Sys_fcntl sockfd F_GETFD 0);;
  emit (Sys_fcntl sockfd F_SETFD (Z.lor fdflags O_NONBLOCK));;
  accept_loop sockfd answers.

(** * The server socket *)

(** [None]: not set yet; the constructor leaves these members as they are. *)
Record AdminServerSocket := MkServerSocket {
  m_aii : AdminInterfaceImpl; m_servfd : option Z; m_threadid : Z; m_pthreadid : option Z }.

Definition new_server_socket (ai : AdminInterfaceImpl) : AdminServerSocket := MkServerSocket ai None 0 None.

(** The thread: the object and the local variables of [accept_TEP]. *)
Record accept_state := MkAccept {
  as_this : AdminServerSocket; conn_count : Z; last_house_keep : Z; conncount_on_last_house : Z }.

Abbreviation server_op A := (eff sys_call accept_state A).

Definition aii (st : accept_state) : AdminInterfaceImpl := m_aii (as_this st).
Definition set_aii (w : AdminInterfaceImpl) (st : accept_state) : accept_state :=
  MkAccept (MkServerSocket w (m_servfd (as_this st)) (m_threadid (as_this st)) (m_pthreadid (as_this st)))
    (conn_count st) (last_house_keep st) (conncount_on_last_house st).
Definition set_servfd (fd : Z) (st : accept_state) : accept_state :=
  MkAccept (MkServerSocket (aii st) (Some fd) (m_threadid (as_this st)) (m_pthreadid (as_this st)))
    (conn_count st) (last_house_keep st) (conncount_on_last_house st).
Definition set_thread_ids (tid pthread : Z) (st : accept_state) : accept_state :=
  MkAccept (MkServerSocket (aii st) (m_servfd (as_this st)) tid (Some pthread))
    (conn_count st) (last_house_keep st) (conncount_on_last_house st).
Definition count_connection (st : accept_state) : accept_state :=
  MkAccept (as_this st) (int32 (conn_count st + 1)) (last_house_keep st) (conncount_on_last_house st).
Definition note_housekeeping (time : Z) (st : accept_state) : accept_state :=
  MkAccept (as_this st) (conn_count st) time (conn_count st).
Definition start_counting (time : Z) (st : accept_state) : accept_state := MkAccept (as_this st) 0 time 0.

(** [m_aii->f(...)]. *)
Definition on_interface {A} (m : ai_op A) : server_op A := fun st =>
  let '(w, _, r) := m (aii st) in (set_aii w st, [], r).

Definition servfd : server_op Z :=
  st ← get;
  match m_servfd (as_this st) with
  | Some fd => mret fd
  | None => throw (undefined_behaviour "m_servfd is not set")
  end.

Record listen_answers := ListenAnswers { la_socket : sysret; la_bind : sysret; la_listen : sysret }.

(** [htons] converts the port to 16 bits. *)
Definition create_listen_socket (port : Z) (os : listen_answers) : server_op unit :=
  fd ← SocketIPv4 (la_socket os);
  modify (set_servfd fd);;
  emit (Sys_setsockopt fd "SO_REUSEADDR");;
  Bind fd (wrap 16 port) (la_bind os);;
  Listen fd 100 (la_listen os).

(** * Rounds of the accept loop *)

Record round := Round {
  rd_others : AdminInterfaceImpl -> AdminInterfaceImpl;  (** what other threads did meanwhile *)
  rd_fdflags : Z; rd_polls : list poll_answer; rd_keepalive : sysret;
  rd_now : Z;  (** the clock inside [createNewSession] and [housekeeping] *)
  rd_time : Z; rd_after : Z  (** [time(NULL)] before and after [housekeeping] *) }.

(** The address of a peer, and the configuration. *)
Context (peer : Z -> string) (config : Config).

Definition accept_connection (rd : round) : server_op Z :=
  try_all
    (sockfd ← servfd;
     fd ← Accept sockfd (rd_fdflags rd) (rd_polls rd);
     modify count_connection;;
     mret fd)
    (fun e => emit (Sys_log Error ("accept() failed: " +:+ exn_what e));; mret (-1)).

Definition create_session (rd : round) (connfd : Z) : server_op bool :=
  try_all
    (emit (Sys_setsockopt connfd "SO_KEEPALIVE");;
     (if sr_value (rd_keepalive rd) <? 0
      then emit (Sys_log Warn ("setsockopt (SO_KEEPALIVE): " +:+ strerror (sr_errno (rd_keepalive rd))))
      else mret ());;
     on_interface (createNewSession (rd_now rd) peer (cf_serviceid config) connfd);;
     mret true)
    (fun e => emit (Sys_log Error ("createNewSession() failed: " +:+ exn_what e));; mret false).

Definition serve_connection (rd : round) : server_op unit :=
  connfd ← accept_connection rd;
  if connfd <? 0 then mret ()
  else
    session_created_ok ← create_session rd connfd;
    if (session_created_ok : bool) then mret ()
    else
      emit (Sys_log Warn ("closing socket " +:+ print_signed connfd +:+ " because session creation failed"));;
      emit (Sys_close connfd).

Definition round_housekeeping (rd : round) : server_op unit :=
  st ← get;
  if (ACCEPT_TIMEOUT_SECS <=? rd_time rd - last_house_keep st) ||
     (10 <? conn_count st - conncount_on_last_house st)
  then
    try_all (on_interface (housekeeping (rd_now rd))) (fun _ => mret ());;
    modify (note_housekeeping (rd_after rd))
  else mret ().

Definition server_round (enable_server : bool) (rd : round) : server_op unit :=
  modify (fun st => set_aii (rd_others rd (aii st)) st);;
  (if enable_server then serve_connection rd else emit (Sys_usleep (ACCEPT_TIMEOUT_SECS * 1000000)));;
  round_housekeeping rd;;
  emit (Sys_usleep 50000).

(** The thread, up to the end of the rounds given. *)
Definition accept_TEP (os : listen_answers) (tid pthread start_time : Z) (rounds : list round) : server_op unit :=
  let port := cf_server_port config in
  let enable_server := negb (port =? EXIO_NO_SERVER) in
  (if enable_server then
     create_listen_socket port os;;
     emit (Sys_log Info ("Listening on port " +:+ print_signed port))
   else mret ());;
  modify (set_thread_ids tid pthread);;
  modify (start_counting start_time);;
  for_each (server_round enable_server) rounds.

Definition thread_ids (this : AdminServerSocket) : result (Z * Z) :=
  match m_pthreadid this with
  | Some p => Ok (p, m_threadid this)
  | None => Throw (undefined_behaviour "m_pthreadid is not set")
  end.

End calls.

(** * Housekeeping never fails *)

(** Sessions of the application exist and are not about to be deleted. *)
Definition ext_ok (w : AdminInterfaceImpl) : Prop :=
  forall p, p ∈ ai_ext w -> is_Some (get_object w p) /\ p ∉ ai_expired w.

(** The same sessions with the same ids and descriptors, in the same places. *)
Record same_sessions (w w' : AdminInterfaceImpl) : Prop := {
  ss_reg : ai_reg w' = ai_reg w; ss_created : ai_created w' = ai_created w;
  ss_ext : ai_ext w' = ai_ext w; ss_expired : ai_expired w' = ai_expired w;
  ss_object : forall p s c, get_object w p = Some (s, c) -> exists s' c',
    get_object w' p = Some (s', c') /\ s_id s' = s_id s /\ s_fd s' = s_fd s }.

#[global] Instance same_sessions_preorder : PreOrder same_sessions.
Proof.
  split.
  - intros w. split; eauto 10.
  - intros w1 w2 w3 [R1 C1 X1 E1 O1] [R2 C2 X2 E2 O2]. split; try congruence.
    intros p s c Hg. destruct (O1 p s c Hg) as (s1 & c1 & Hg1 & Hi1 & Hf1).
    destruct (O2 p s1 c1 Hg1) as (s2 & c2 & Hg2 & Hi2 & Hf2). exists s2, c2. split; [done|]. split; congruence.
Qed.

Lemma same_sessions_set p s c s' c' w : get_object w p = Some (s, c) -> s_id s' = s_id s -> s_fd s' = s_fd s ->
  same_sessions w (set_object p s' c' w).
Proof.
  intros Hg Hid Hfd. split; try done. intros q s0 c0 Hq. rewrite get_set_object.
  destruct (decide (p = q)) as [->|]; [|eauto]. rewrite Hg in Hq. injection Hq as <- <-. eauto.
Qed.

Lemma heartbeat_fits : Z.of_nat (length (enc_body heartbeat_msg)) <= max_content.
Proof. vm_compute. discriminate. Qed.

Lemma session_housekeeping_ok now s c : exists s' c',
  session_housekeeping now s c = Ok (s', c') /\ s_id s' = s_id s /\ s_fd s' = s_fd s.
Proof.
  unfold session_housekeeping. destruct (s_io_handle s) eqn:Hio; cbn [negb].
  2: { rewrite orb_true_r. cbn [orb]. eauto. }
  case_match; [eauto|]. case_match; [|eauto].
  destruct (s_session_valid s) eqn:Hv.
  - rewrite enqueue_encodes by (done || apply heartbeat_fits). cbn [mbind result_bind]. eauto.
  - unfold enqueueToSend. rewrite Hv. cbn [negb mbind result_bind]. eauto.
Qed.

(** One session step of [housekeeping]. *)
Lemma housekeep_runs now p w : is_Some (get_object w p) ->
  exists w', housekeep now p w = (w', [], Ok ()) /\ same_sessions w w'.
Proof.
  intros [[s c] Hg]. unfold housekeep, on_session. rewrite Hg.
  destruct (session_housekeeping_ok now s c) as (s' & c' & -> & Hid & Hfd). cbn [mbind result_bind].
  eexists. split; [done|]. by eapply same_sessions_set.
Qed.

Lemma for_each_runs (f : Z -> ai_op unit) l w :
  (forall p w, is_Some (get_object w p) -> exists w', f p w = (w', [], Ok ()) /\ same_sessions w w') ->
  (forall p, p ∈ l -> is_Some (get_object w p)) ->
  exists w', for_each f l w = (w', [], Ok ()) /\ same_sessions w w'.
Proof.
  intros Hf. revert w. induction l as [|p l IH]; intros w Hl; cbn [for_each]; [by exists w|].
  destruct (Hf p w (Hl p ltac:(by left))) as (w1 & E1 & S1). unfold mbind, eff_bind. rewrite E1.
  destruct (IH w1) as (w2 & E2 & S2).
  { intros q Hq. destruct (Hl q ltac:(by right)) as [[s c] Hg].
    destruct (ss_object _ _ S1 q s c Hg) as (s' & c' & Hg' & _). by eexists. }
  rewrite E2. exists w2. split; [done|]. by transitivity w1.
Qed.

Lemma housekeep_if_open_runs now p w : is_Some (get_object w p) -> exists w',
  (opened ← is_open p; if (opened : bool) then housekeep now p else mret ()) w = (w', [], Ok ()) /\
  same_sessions w w'.
Proof.
  intros [[s c] Hg]. unfold mbind, eff_bind, is_open. unfold on_session at 1. rewrite Hg.
  assert (same_sessions w (set_object p s c w)) as Hs by (by eapply same_sessions_set).
  destruct (s_session_valid s).
  - destruct (housekeep_runs now p (set_object p s c w)) as (w' & E & Hw').
    { rewrite get_set_object, decide_True by done. by eexists. }
    rewrite E. exists w'. split; [done|]. by transitivity (set_object p s c w).
  - eexists. split; [done|done].
Qed.

Lemma cleanup_loop_rest now items later w : ai_created (state_after (cleanup_loop now items later w)) = ai_created w /\
  ai_ext (state_after (cleanup_loop now items later w)) = ai_ext w.
Proof.
  revert later w. induction items as [|p items IH]; intros later w; cbn [cleanup_loop]; [done|].
  unfold mbind, eff_bind, get. destruct (get_object w p) as [[s c]|]; [|done].
  destruct (safe_to_delete s c).
  - unfold put. specialize (IH later (delete_object p (destroy_session now s c) w)).
    by destruct (cleanup_loop now items later _) as [[w' o] r].
  - specialize (IH (later ++ [p]) w). by destruct (cleanup_loop now items _ w) as [[w' o] r].
Qed.

(** [housekeeping] ends normally and keeps the registered sessions. *)
Lemma housekeeping_runs now w : registry_inv w -> ext_ok w ->
  exists w', housekeeping now w = (w', [], Ok ()) /\ registry_inv w' /\ ext_ok w' /\
    ai_reg w' = ai_reg w /\ ai_created w' = ai_created w /\
    (forall p s c, get_object w p = Some (s, c) -> (p ∉ ai_expired w) -> exists s' c',
       get_object w' p = Some (s', c') /\ s_id s' = s_id s /\ s_fd s' = s_fd s).
Proof.
  intros Hw Hx.
  destruct (cleanup_loop_spec now (ai_expired w) [] w) as (w1 & E1 & Hw1 & He1 & Hr1 & _ & _ & Ho1).
  { rewrite app_nil_r. by destruct w. }
  pose proof (cleanup_loop_rest now (ai_expired w) [] w) as [Hc1 Hx1]. rewrite E1 in Hc1, Hx1. cbn in Hc1, Hx1.
  destruct (for_each_runs (fun p => opened ← is_open p; if (opened : bool) then housekeep now p else mret ())
    (registered w1) w1 (housekeep_if_open_runs now)) as (w2 & E2 & S2).
  { intros p Hp. apply registered_spec in Hp as [i Hi]. destruct (ri_slot _ Hw1 i p Hi) as (s & c & Hg & _). by eexists. }
  assert (forall p, p ∈ ai_ext w2 -> is_Some (get_object w2 p)) as Hx2.
  { intros p Hp. rewrite (ss_ext _ _ S2), Hx1 in Hp. destruct (Hx p Hp) as [[[s c] Hg] Hne].
    rewrite <-(Ho1 p Hne) in Hg. destruct (ss_object _ _ S2 _ _ _ Hg) as (s' & c' & Hg' & _). by eexists. }
  destruct (for_each_runs _ (ai_ext w2) w2 (housekeep_runs now) Hx2) as (w3 & E3 & S3).
  assert (housekeeping now w = (w3, [], Ok ())) as E.
  { unfold housekeeping. rewrite (eff_bind_quiet (session_cleanup now) _ w w1 ())
      by (unfold session_cleanup; by rewrite (eff_bind_quiet get _ w w w)).
    rewrite (eff_bind_quiet (for_registered _) _ w1 w2 ())
      by (unfold for_registered; by rewrite (eff_bind_quiet get _ w1 w1 w1)).
    by rewrite (eff_bind_quiet get _ w2 w2 w2) by done. }
  pose proof (keeps_housekeeping now w Hw) as Hkeep. rewrite E in Hkeep. cbn [state_after fst] in Hkeep.
  pose proof (transitivity S2 S3) as S. exists w3. split; [done|]. split; [done|].
  assert (forall p s c, get_object w p = Some (s, c) -> (p ∉ ai_expired w) -> exists s' c',
    get_object w3 p = Some (s', c') /\ s_id s' = s_id s /\ s_fd s' = s_fd s) as Hobj.
  { intros p s c Hg Hne. rewrite <-(Ho1 p Hne) in Hg. exact (ss_object _ _ S p s c Hg). }
  split.
  { intros p Hp. rewrite (ss_ext _ _ S), Hx1 in Hp. destruct (Hx p Hp) as [[[s c] Hg] Hne].
    destruct (Hobj p s c Hg Hne) as (s' & c' & Hg' & _). split; [by eexists|].
    rewrite (ss_expired _ _ S), He1. cbn [app]. rewrite list_elem_of_filter. tauto. }
  split; [by rewrite (ss_reg _ _ S)|]. split; [by rewrite (ss_created _ _ S)|done].
Qed.

(** * Waiting for a connection *)

(** An answer of [poll] that ends the wait: a time-out, or input. *)
Definition decisive (a : poll_answer) : bool :=
  (sr_value (pa_poll a) =? 0) || negb (Z.land (pa_revents a) POLLIN =? 0).
Definition deciding (polls : list poll_answer) : option poll_answer :=
  head (filter (fun a => decisive a = true) polls).

(** What a deciding answer means for the caller. *)
Definition accept_outcome (strerror : Z -> string) (a : poll_answer) : result Z :=
  if sr_value (pa_poll a) =? 0 then Ok (-1)
  else if sr_value (pa_accept a) <? 0 then Throw (runtime_error (strerror (sr_errno (pa_accept a))))
  else Ok (sr_value (pa_accept a)).

(** The descriptor that a round of the loop gets, if any. *)
Definition accepted (rd : round) : option Z :=
  a ← deciding (rd_polls rd);
  if (sr_value (pa_poll a) =? 0) || (sr_value (pa_accept a) <? 0) then None else Some (sr_value (pa_accept a)).

(** The descriptors closed by the thread. *)
Definition closed_fd (o : sys_call) : option Z := match o with Sys_close fd => Some fd | _ => None end.
Definition closed (outs : list sys_call) : list Z := omap closed_fd outs.

Lemma closed_app k l : closed (k ++ l) = closed k ++ closed l.
Proof. apply omap_app. Qed.

(** The loop passes over answers that decide nothing and acts on the first
    one that does. *)
Lemma accept_loop_decides {S} strerror sockfd polls a (st : S) : deciding polls = Some a ->
  exists outs, accept_loop strerror sockfd polls st = (st, outs, accept_outcome strerror a) /\ closed outs = [].
Proof.
  induction polls as [|b polls IH]; intros Ha; [done|]. unfold deciding in Ha. rewrite filter_cons in Ha.
  cbn [accept_loop]. rewrite (eff_bind_ok _ _ _ st [Sys_poll sockfd (ACCEPT_TIMEOUT_SECS * 1000)] ()) by done.
  unfold decisive in Ha. destruct (sr_value (pa_poll b) =? 0) eqn:En; cbn [orb negb] in Ha |- *.
  { rewrite decide_True in Ha by done. injection Ha as <-. unfold accept_outcome. rewrite En.
    eexists. by split. }
  destruct (Z.land (pa_revents b) POLLIN =? 0) eqn:Er; cbn [negb] in Ha |- *.
  - rewrite decide_False in Ha by done. destruct (IH Ha) as (outs & -> & Hc). eexists. split; [done|]. done.
  - rewrite decide_True in Ha by done. injection Ha as <-.
    rewrite (eff_bind_ok _ _ _ st [Sys_accept sockfd] ()) by done. unfold accept_outcome. rewrite En.
    destruct (sr_value (pa_accept b) <? 0); eexists; by split.
Qed.

(** * Creating the session of a connection *)

Definition greeting_fits (serviceid : string) : Prop :=
  Z.of_nat (length (enc_body (logon_msg serviceid))) <= max_content /\
  wire_length (logon_msg serviceid) <= 100 * 1024 * 1024.

(** [w'] is [w] with a session for [fd] in a slot that was free. *)
Definition connected (fd : Z) (w w' : AdminInterfaceImpl) : Prop :=
  exists i p s c, 1 <= i <= MAX_SESSIONS /\ ai_reg w !! Z.to_nat i = Some None /\
    ai_reg w' = <[Z.to_nat i := Some p]> (ai_reg w) /\ ai_created w' = size_t (ai_created w + 1) /\
    get_object w' p = Some (s, c) /\ s_id s = i /\ s_fd s = fd.

Definition full (w : AdminInterfaceImpl) : Prop :=
  forall i, 1 <= i <= MAX_SESSIONS -> exists p, ai_reg w !! Z.to_nat i = Some (Some p).

Lemma create_outcome now peer serviceid fd w : registry_inv w -> ext_ok w -> greeting_fits serviceid ->
  exists w', registry_inv w' /\ ext_ok w' /\
    ((createNewSession now peer serviceid fd w = (w', [], Ok ()) /\ connected fd w w') \/
     (createNewSession now peer serviceid fd w = (w', [], Throw (runtime_error "no more sessions allowed")) /\
      ai_reg w' = ai_reg w /\ ai_created w' = ai_created w /\ full w)).
Proof.
  intros Hw Hx [Hf1 Hf2].
  destruct (find_slot_complete (ai_reg w) (ai_next w) (ri_size w Hw) (ri_next w Hw)) as (index & next & E & Hn & H0 & H1).
  destruct (decide (index = 0)) as [->|Hi].
  - exists (set_next next w). split; [|split; [done|]]; [split; try apply Hw; done|]. right.
    split; [|split; [done|split; [done|exact (H0 eq_refl)]]].
    unfold createNewSession, mbind, eff_bind, get, of_result, put, throw. by rewrite E.
  - destruct (H1 Hi) as [Hr Hfree].
    destruct (create_at now peer serviceid fd w index next E Hi Hf1 Hf2) as (c & _ & Ec).
    set (s := io_init (new_session fd index now true (peer fd))) in *.
    exists (with_new_session index next s c w). split; [by apply inv_with_new_session|]. split.
    + intros p Hp. destruct (Hx p Hp) as [[[s0 c0] Hg] Hne]. split; [|done].
      assert (p <> ai_alloc w) as Hp'.
      { apply get_object_Some in Hg as [Hs _]. pose proof (ri_alloc w Hw p (or_introl (mk_is_Some _ _ Hs))). lia. }
      unfold with_new_session. rewrite get_set_object, decide_False by done.
      unfold get_object in *. cbn [register_session set_next ai_sessions ai_clients ai_alloc].
      rewrite lookup_insert_ne by done. by rewrite Hg.
    + left. split; [done|]. exists index, (ai_alloc w), s, c. split; [done|]. split; [done|]. split; [done|].
      split; [done|]. split; [|done]. unfold with_new_session. by rewrite get_set_object, decide_True by done.
Qed.

(** * One round *)

Section rounds.
Context (strerror : Z -> string) (peer : Z -> string) (config : Config).
Context (fits : greeting_fits (cf_serviceid config)).
(** The listening socket and the thread's ids. *)
Context (sockfd tid : Z) (pthread : option Z).

Implicit Types (st : accept_state) (rd : round).

(** The thread between two rounds. *)
Definition serving st : Prop :=
  registry_inv (aii st) /\ ext_ok (aii st) /\ m_servfd (as_this st) = Some sockfd /\
  m_threadid (as_this st) = tid /\ m_pthreadid (as_this st) = pthread.

(** Other threads keep the interface consistent and make no sessions for
    incoming connections. *)
Definition round_ok rd : Prop :=
  is_Some (deciding (rd_polls rd)) /\
  forall w, registry_inv w -> ext_ok w ->
    registry_inv (rd_others rd w) /\ ext_ok (rd_others rd w) /\ ai_created (rd_others rd w) = ai_created w.

(** What became of the connection of a round, if there was one. *)
Definition accounted rd (w w' : AdminInterfaceImpl) (closes : list Z) : Prop :=
  match accepted rd with
  | None => closes = [] /\ ai_reg w' = ai_reg w /\ ai_created w' = ai_created w
  | Some fd =>
      (closes = [] /\ connected fd w w') \/
      (closes = [fd] /\ full w /\ ai_reg w' = ai_reg w /\ ai_created w' = ai_created w)
  end.

Lemma accept_connection_runs rd st a : m_servfd (as_this st) = Some sockfd -> deciding (rd_polls rd) = Some a ->
  exists st' outs, accept_connection strerror rd st = (st', outs, Ok (default (-1) (accepted rd))) /\
    closed outs = [] /\ as_this st' = as_this st /\
    last_house_keep st' = last_house_keep st /\ conncount_on_last_house st' = conncount_on_last_house st.
Proof.
  intros Hfd Ha.
  destruct (accept_loop_decides strerror sockfd (rd_polls rd) a st Ha) as (outs & El & Hc).
  assert (Accept strerror sockfd (rd_fdflags rd) (rd_polls rd) st = (st, Sys_fcntl sockfd F_GETFD 0 ::
    Sys_fcntl sockfd F_SETFD (Z.lor (rd_fdflags rd) O_NONBLOCK) :: outs, accept_outcome strerror a)) as EA.
  { unfold Accept, mbind, eff_bind, emit. by rewrite El. }
  unfold accept_connection, try_all, servfd. unfold mbind, eff_bind, get. rewrite Hfd.
  unfold mret, eff_ret. rewrite EA. unfold accepted. rewrite Ha. cbn [mbind option_bind].
  unfold accept_outcome. destruct (sr_value (pa_poll a) =? 0); cbn [orb default].
  { eexists _, _. split; [done|]. split; [|by split].
    etransitivity; [apply (closed_app outs)|by rewrite Hc]. }
  destruct (sr_value (pa_accept a) <? 0); cbn [catchable default].
  - eexists _, _. split; [done|]. split; [|by split].
    etransitivity; [apply (closed_app outs)|by rewrite Hc].
  - eexists _, _. split; [done|]. split; [|by split].
    etransitivity; [apply (closed_app outs)|by rewrite Hc].
Qed.

Lemma create_session_runs rd fd st : registry_inv (aii st) -> ext_ok (aii st) ->
  exists w' outs ok, create_session strerror peer config rd fd st = (set_aii w' st, outs, Ok ok) /\
    closed outs = [] /\ registry_inv w' /\ ext_ok w' /\
    if (ok : bool) then connected fd (aii st) w'
    else full (aii st) /\ ai_reg w' = ai_reg (aii st) /\ ai_created w' = ai_created (aii st).
Proof.
  intros Hw Hx. destruct (create_outcome (rd_now rd) peer (cf_serviceid config) fd (aii st) Hw Hx fits)
    as (w' & Hw' & Hx' & [[E Hc]|(E & Hr & Hcr & Hf)]).
  all: unfold create_session, try_all, on_interface, emit, mret, eff_ret, mbind, eff_bind;
    destruct (sr_value (rd_keepalive rd) <? 0); rewrite E; eexists w', _, _; (split; [done|]); by split_and!.
Qed.

Lemma serve_connection_runs rd st : serving st -> is_Some (deciding (rd_polls rd)) ->
  exists st' outs, serve_connection strerror peer config rd st = (st', outs, Ok ()) /\
    serving st' /\ accounted rd (aii st) (aii st') (closed outs).
Proof.
  intros (Hw & Hx & Hfd & Htid & Hpt) [a Ha].
  destruct (accept_connection_runs rd st a Hfd Ha) as (st1 & o1 & E1 & Hc1 & Ht1 & _).
  unfold serve_connection. rewrite (eff_bind_ok _ _ _ _ _ _ E1). unfold accounted.
  assert (aii st1 = aii st) as Hai by (unfold aii; by rewrite Ht1).
  assert (forall fd, accepted rd = Some fd -> 0 <= fd) as Hpos.
  { unfold accepted. rewrite Ha. cbn [mbind option_bind]. intros fd.
    destruct (Z.ltb_spec (sr_value (pa_accept a)) 0); [by rewrite orb_true_r|]. case_match; [done|]. by intros [= <-]. }
  destruct (accepted rd) as [fd|] eqn:Eacc; cbn [default].
  2: { eexists st1, _. split; [done|]. unfold serving. rewrite Hai, Ht1, app_nil_r, Hc1. by split_and!. }
  specialize (Hpos fd eq_refl). change (id fd) with fd. destruct (Z.ltb_spec fd 0); [lia|].
  destruct (create_session_runs rd fd st1) as (w' & o2 & ok & E2 & Hc2 & Hw' & Hx' & Hok); [by rewrite Hai..|].
  rewrite (eff_bind_ok _ _ _ _ _ _ E2). rewrite Hai in Hok.
  assert (serving (set_aii w' st1)) as Hs by (unfold serving; cbn; by rewrite Ht1).
  destruct ok.
  - eexists _, _. split; [done|]. split; [done|]. left. rewrite !closed_app, Hc1, Hc2. by split.
  - eexists _, _. split; [done|]. split; [done|]. right. rewrite !closed_app, Hc1, Hc2. by split.
Qed.

Lemma round_housekeeping_runs rd st : serving st -> exists st',
  round_housekeeping rd st = (st', [], Ok ()) /\ serving st' /\
  ai_reg (aii st') = ai_reg (aii st) /\ ai_created (aii st') = ai_created (aii st) /\
  (forall p s c, get_object (aii st) p = Some (s, c) -> (p ∉ ai_expired (aii st)) -> exists s' c',
     get_object (aii st') p = Some (s', c') /\ s_id s' = s_id s /\ s_fd s' = s_fd s) /\
  conn_count st' = conn_count st /\ conn_count st' - conncount_on_last_house st' <= 10 /\
  (last_house_keep st' = rd_after rd \/ rd_time rd - last_house_keep st' < ACCEPT_TIMEOUT_SECS).
Proof.
  intros (Hw & Hx & Hthis). unfold round_housekeeping. rewrite (eff_bind_quiet get _ st st st) by done.
  destruct (Z.leb_spec ACCEPT_TIMEOUT_SECS (rd_time rd - last_house_keep st)) as [Ht|Ht];
    destruct (Z.ltb_spec 10 (conn_count st - conncount_on_last_house st)) as [Hn|Hn]; cbn [orb].
  4: { exists st. do 2 (split; [done|]). do 2 (split; [done|]). split; [eauto 10|]. split; [done|].
    split; [lia|right; lia]. }
  all: destruct (housekeeping_runs (rd_now rd) (aii st) Hw Hx) as (w' & E & Hw' & Hx' & Hr & Hc & Ho);
    rewrite (eff_bind_quiet _ _ st (set_aii w' st) ()) by (unfold try_all, on_interface; by rewrite E);
    eexists; (split; [done|]); cbn [aii note_housekeeping set_aii as_this m_aii conn_count
      conncount_on_last_house last_house_keep]; (split; [done|]); do 2 (split; [done|]);
    (split; [done|]); (split; [done|]); (split; [lia|by left]).
Qed.

Lemma connected_kept fd w w1 w2 : registry_inv w1 -> connected fd w w1 ->
  ai_reg w2 = ai_reg w1 -> ai_created w2 = ai_created w1 ->
  (forall p s c, get_object w1 p = Some (s, c) -> (p ∉ ai_expired w1) -> exists s' c',
     get_object w2 p = Some (s', c') /\ s_id s' = s_id s /\ s_fd s' = s_fd s) ->
  connected fd w w2.
Proof.
  intros Hw1 (i & p & s & c & Hi & Hfree & Hr1 & Hc1 & Hg & Hid & Hfd) Hr2 Hc2 Ho.
  assert (p ∉ ai_expired w1) as Hne.
  { intros Hp. destruct (ri_expired w1 Hw1 p Hp) as [_ Hn]. apply Hn. apply registered_spec.
    exists (Z.to_nat i). rewrite Hr1. apply list_lookup_insert_eq. by eapply lookup_lt_Some. }
  destruct (Ho p s c Hg Hne) as (s' & c' & Hg' & Hid' & Hfd').
  exists i, p, s', c'. split_and!; congruence || lia.
Qed.

(** A whole round. *)
Lemma server_round_runs rd st : serving st -> round_ok rd ->
  exists st' outs, server_round strerror peer config true rd st = (st', outs, Ok ()) /\ serving st' /\
    accounted rd (rd_others rd (aii st)) (aii st') (closed outs) /\
    conn_count st' - conncount_on_last_house st' <= 10 /\
    (last_house_keep st' = rd_after rd \/ rd_time rd - last_house_keep st' < ACCEPT_TIMEOUT_SECS).
Proof.
  intros (Hw & Hx & Hthis) [Hdec Hoth]. destruct (Hoth _ Hw Hx) as (Hw0 & Hx0 & Hc0).
  unfold server_round. set (st0 := set_aii (rd_others rd (aii st)) st).
  rewrite (eff_bind_quiet _ _ st st0 ()) by done.
  destruct (serve_connection_runs rd st0) as (st1 & o1 & E1 & Hs1 & Ha1);
    [exact (conj Hw0 (conj Hx0 Hthis))|done|].
  rewrite (eff_bind_ok _ _ _ _ _ _ E1).
  destruct (round_housekeeping_runs rd st1 Hs1) as (st2 & E2 & Hs2 & Hr2 & Hc2 & Ho2 & _ & Hn2 & Ht2).
  rewrite (eff_bind_quiet _ _ _ _ _ E2). eexists st2, _. split; [done|]. split; [done|]. split; [|done].
  rewrite closed_app, app_nil_r. change (rd_others rd (aii st)) with (aii st0).
  destruct Hs1 as [Hw1 _]. unfold accounted in *. destruct (accepted rd) as [fd|].
  - destruct Ha1 as [[Hcl Hcon]|(Hcl & Hfull & Hr1 & Hc1)]; [left|right].
    + split; [done|]. by apply (connected_kept fd _ (aii st1)).
    + split_and!; congruence || done.
  - destruct Ha1 as (Hcl & Hr1 & Hc1). split_and!; congruence.
Qed.

(** One round of the accept loop, when other threads keep the interface
    consistent: it ends normally; the descriptor of a new connection either
    belongs to a session in a slot that was free, or all slots are in use and
    it is closed, and no other descriptor is closed; at most ten accepts pass
    without housekeeping, and housekeeping was done in this round or less
    than [ACCEPT_TIMEOUT_SECS] ago. *)
Theorem server_round_accounts rd st : serving st -> round_ok rd ->
  exists st' outs, server_round strerror peer config true rd st = (st', outs, Ok ()) /\ serving st' /\
    match accepted rd with
    | None => closed outs = [] /\ ai_reg (aii st') = ai_reg (rd_others rd (aii st))
    | Some fd =>
        (closed outs = [] /\ connected fd (rd_others rd (aii st)) (aii st')) \/
        (closed outs = [fd] /\ full (rd_others rd (aii st)) /\ ai_reg (aii st') = ai_reg (rd_others rd (aii st)))
    end /\
    conn_count st' - conncount_on_last_house st' <= 10 /\
    (last_house_keep st' = rd_after rd \/ rd_time rd - last_house_keep st' < ACCEPT_TIMEOUT_SECS).
Proof.
  intros Hs Hrd. destruct (server_round_runs rd st Hs Hrd) as (st' & outs & E & Hs' & Ha & Hrest).
  exists st', outs. split; [done|]. split; [done|]. split; [|done].
  unfold accounted in Ha. destruct (accepted rd); [|tauto]. destruct Ha as [?|(? & ? & ? & ?)]; tauto.
Qed.

(** The rounds add up. *)
Lemma server_rounds_run rounds st : serving st -> Forall round_ok rounds ->
  conn_count st - conncount_on_last_house st <= 10 ->
  exists st' outs, for_each (server_round strerror peer config true) rounds st = (st', outs, Ok ()) /\
    serving st' /\ closed outs `sublist_of` omap accepted rounds /\
    size_t (ai_created (aii st') + Z.of_nat (length (closed outs))) =
      size_t (ai_created (aii st) + Z.of_nat (length (omap accepted rounds))) /\
    conn_count st' - conncount_on_last_house st' <= 10.
Proof.
  intros Hs Hall. revert st Hs. induction Hall as [|rd rounds Hrd Hall IH]; intros st Hs Hn.
  { exists st, []. split; [done|]. by split_and!. }
  cbn [for_each]. destruct (server_round_runs rd st Hs Hrd) as (st1 & o1 & E1 & Hs1 & Ha1 & Hn1 & _).
  rewrite (eff_bind_ok _ _ _ _ _ _ E1). destruct (IH st1 Hs1 Hn1) as (st2 & o2 & -> & Hs2 & Hsub & Hcr & Hn2).
  exists st2, (o1 ++ o2). split; [done|]. split; [done|].
  destruct Hs as (Hw & Hx & _). destruct Hrd as [_ Hoth]. destruct (Hoth _ Hw Hx) as (_ & _ & Hc0).
  rewrite closed_app. cbn [omap list_omap]. unfold accounted in Ha1. rewrite Hc0 in Ha1.
  assert (forall x y z : Z, size_t (x + z) = size_t (y + z) <-> size_t x = size_t y) as Hshift.
  { intros x y z. unfold size_t, wrap. split.
    - intros H. replace x with ((x + z) - z) by lia. replace y with ((y + z) - z) by lia.
      by rewrite <-(Zminus_mod_idemp_l (x + z)), H, Zminus_mod_idemp_l.
    - intros H. by rewrite <-Zplus_mod_idemp_l, H, Zplus_mod_idemp_l. }
  destruct (accepted rd) as [fd|].
  - destruct Ha1 as [[-> (i & p & s & c & _ & _ & _ & Hc1 & _)]|(-> & _ & _ & Hc1)].
    + split; [by apply sublist_cons|]. split; [|done]. cbn [app length]. rewrite Hcr, Hc1.
      unfold size_t, wrap. rewrite Zplus_mod_idemp_l. f_equal. lia.
    + split; [by apply sublist_skip|]. split; [|done]. cbn [app length]. rewrite Hc1 in Hcr.
      apply (Hshift _ _ (-1)). rewrite !Nat2Z.inj_succ.
      replace (ai_created (aii st2) + Z.succ (Z.of_nat (length (closed o2))) + -1)
        with (ai_created (aii st2) + Z.of_nat (length (closed o2))) by lia.
      rewrite Hcr. f_equal. lia.
  - destruct Ha1 as (-> & _ & Hc1). split; [done|]. split; [|done]. cbn [app]. by rewrite Hcr, Hc1.
Qed.

End rounds.

(** * The thread *)

Section thread.
Context (strerror : Z -> string) (peer : Z -> string) (config : Config).
Context (os : listen_answers) (tid pthread t0 : Z) (rounds : list round).
Context (ai : AdminInterfaceImpl) (locals : accept_state).
Context (enabled : cf_server_port config <> EXIO_NO_SERVER) (fresh : as_this locals = new_server_socket ai).

(** The socket is made, bound and listened to, or the first step that fails
    is reported and nothing else is done. *)
Definition listen_error : option (string * Z) :=
  if sr_value (la_socket os) <? 0 then Some ("socket() failed: ", sr_errno (la_socket os))
  else if sr_value (la_bind os) <? 0 then Some ("bind() failed: ", sr_errno (la_bind os))
  else if sr_value (la_listen os) <? 0 then Some ("listen() failed: ", sr_errno (la_listen os))
  else None.

Lemma create_listen_socket_ok port st : listen_error = None -> exists outs,
  create_listen_socket strerror port os st = (set_servfd (sr_value (la_socket os)) st, outs, Ok ()) /\
  closed outs = [].
Proof.
  unfold listen_error, create_listen_socket, SocketIPv4, Bind, Listen. unfold mbind, eff_bind, emit, modify.
  destruct (sr_value (la_socket os) <? 0); [done|]. destruct (sr_value (la_bind os) <? 0); [done|].
  destruct (sr_value (la_listen os) <? 0); [done|]. intros _. eexists. by split.
Qed.


(** When the server's socket cannot be made, bound or put to listen, the
    thread stops before its first round with an exception that names the call
    and its error, the interface is untouched and no descriptor is closed. *)
Theorem listen_failure_stops_thread call errno : listen_error = Some (call, errno) ->
  exists st' outs, accept_TEP strerror peer config os tid pthread t0 rounds locals =
    (st', outs, Throw (runtime_error (call +:+ strerror errno))) /\
    aii st' = ai /\ thread_ids (as_this st') = Throw (undefined_behaviour "m_pthreadid is not set") /\
    closed outs = [].
Proof.
  unfold listen_error. intros Herr. unfold accept_TEP. rewrite (proj2 (Z.eqb_neq _ _) enabled). cbn [negb].
  assert (exists st' outs, create_listen_socket strerror (cf_server_port config) os locals =
    (st', outs, Throw (runtime_error (call +:+ strerror errno))) /\ aii st' = ai /\
    m_pthreadid (as_this st') = None /\ closed outs = []) as (st' & outs & E & Hai & Hpt & Hc).
  { unfold create_listen_socket, SocketIPv4, Bind, Listen. unfold mbind, eff_bind, emit, modify, throw, mret, eff_ret.
    repeat case_match; simplify_eq; eexists _, _; (split; [done|]); unfold aii; cbn; unfold aii;
      rewrite fresh; by split_and!. }
  eexists st', _. split; [by rewrite (eff_bind_throw _ _ _ st' outs (runtime_error (call +:+ strerror errno)))
    by (by rewrite (eff_bind_throw _ _ _ _ _ _ E))|].
  split; [done|]. split; [unfold thread_ids; by rewrite Hpt|done].
Qed.

End thread.

(** * Examples *)

Definition test_strerror (e : Z) : string := "error " +:+ print_signed e.
Definition test_config : Config := MkConfig "svc" 55555.

(** An interrupted poll, then a connection on descriptor 9. *)
Definition test_round : round :=
  Round (fun w => w) 0
    [PollAnswer (SysRet (-1) 4) 0 (SysRet 0 0); PollAnswer (SysRet 1 0) POLLIN (SysRet 9 0)]
    (SysRet 0 0) 1000 1000 1001.
(** A poll that times out, thirty seconds later. *)
Definition idle_round : round :=
  Round (fun w => w) 0 [PollAnswer (SysRet 0 0) 0 (SysRet 0 0)] (SysRet 0 0) 1030 1030 1031.

Lemma test_round_ok : round_ok test_round.
Proof. split; [by eexists|]. by intros w Hw Hx. Qed.
Lemma idle_round_ok : round_ok idle_round.
Proof. split; [by eexists|]. by intros w Hw Hx. Qed.
Lemma test_greeting_fits : greeting_fits (cf_serviceid test_config).
Proof. split; vm_compute; discriminate. Qed.
Lemma test_world_ext : ext_ok test_world.
Proof. intros p Hp. vm_compute in Hp. by apply not_elem_of_nil in Hp. Qed.

Definition test_accept : accept_state := MkAccept (MkServerSocket test_world (Some 5) 77 (Some 88)) 3 995 0.

Lemma server_round_accounts_witness : accepted test_round = Some 9 /\
  exists st' outs, server_round test_strerror test_peer test_config true test_round test_accept =
    (st', outs, Ok ()) /\ (closed outs = [] \/ closed outs = [9]).
Proof.
  split; [reflexivity|].
  destruct (server_round_accounts test_strerror test_peer test_config test_greeting_fits 5 77 (Some 88)
    test_round test_accept) as (st' & outs & E & _ & H & _).
  - split; [apply test_world_inv|]. split; [apply test_world_ext|]. repeat split.
  - apply test_round_ok.
  - exists st', outs. split; [exact E|]. change (accepted test_round) with (Some 9) in H. cbv iota in H. tauto.
Defined.

Definition test_listen : listen_answers := ListenAnswers (SysRet 5 0) (SysRet 0 0) (SysRet 0 0).
Definition port_in_use : listen_answers := ListenAnswers (SysRet 5 0) (SysRet (-1) 98) (SysRet 0 0).
Definition unstarted : accept_state := MkAccept (new_server_socket test_world) 0 0 0.


Lemma listen_failure_stops_thread_witness : exists st' outs,
  accept_TEP test_strerror test_peer test_config port_in_use 77 88 900 [test_round] unstarted =
    (st', outs, Throw (runtime_error "bind() failed: error 98")).
Proof.
  destruct (listen_failure_stops_thread test_strerror test_peer test_config port_in_use 77 88 900
    [test_round] test_world unstarted ltac:(discriminate) eq_refl "bind() failed: " 98) as (st' & outs & E & _).
  - reflexivity.
  - exists st', outs. exact E.
Defined.

(** A [poll] that fails again and again is never reported: the branch for
    errors is not reached, since a negative number counts as true. *)
Theorem poll_failure_not_reported {S} strerror sockfd errno n (st : S) :
  outcome (accept_loop strerror sockfd (replicate n (PollAnswer (SysRet (-1) errno) 0 (SysRet 0 0))) st) =
    Throw out_of_fuel.
Proof.
  induction n as [|n IH]; [done|]. cbn [replicate accept_loop].
  rewrite (eff_bind_ok _ _ _ st [Sys_poll sockfd (ACCEPT_TIMEOUT_SECS * 1000)] ()) by done.
  cbn [pa_poll sr_value pa_revents]. change (negb (-1 =? 0)) with true. change (negb (Z.land 0 POLLIN =? 0)) with false.
  cbv iota. by destruct (accept_loop strerror sockfd (replicate n _) st) as [[s o] r].
Qed.
