(* ===== verification/SelfDelete.v ===== *)
(** A callback object that deletes itself: the test program
    [test/client_deletes_itself.cc].

    [TestClient] releases its connection from its destructor, which runs
    inside [process_input] or [process_close] of the same object (the lock of
    the callback is recursive).  It is shown to be deleted once at most, never
    used afterwards, and deleted for certain when its connection is closed. *)

From S2P Require Import Prelude Decimal TxContainer SamBuffer SamProtocol MsgIDs AdminCommand ReadBuffer Client Delivery Session Hostile AdminInterface ServerSocket.

Local Open Scope Z_scope.

(** * The callback *)

Record TestClient := MkTestClient {
  tc_fd : Z;
  tc_alive : bool;  (** the object exists; not in the code *)
  tc_deletions : nat;  (** how often its destructor ran; not in the code *)
  tc_out : list string  (** what it wrote to [std::cout] *) }.

Definition new_TestClient (fd : Z) : TestClient :=
  MkTestClient fd true 0 ["created TestClient for socket fd " +:+ print_signed fd +:+ newline].

Definition cout (text : string) (t : TestClient) : TestClient :=
  MkTestClient (tc_fd t) (tc_alive t) (tc_deletions t) (tc_out t ++ [text +:+ newline]).

Section callback.
(** The time, and a pointer as it is printed. *)
Context (now : Z) (show_ptr : Client -> string).

(** [delete this]: the destructor, with [m_cptr] at the connection. *)
Definition delete_this (c : Client) (t : TestClient) : Client * TestClient :=
  let t := cout "~TestClient -- done releasing" (cout "~TestClient" t) in
  (release now c, MkTestClient (tc_fd t) false (S (tc_deletions t)) (tc_out t)).

Definition test_process_input (c : Client) (t : TestClient) (str : bytes) (s : Z)
    : result (Client * TestClient * option Z) :=
  if negb (tc_alive t) then Throw (undefined_behaviour "callback after delete")
  else
    let t := cout ("process_input for fd " +:+ print_signed (tc_fd t)) t in
    '(c, t) ← (if negb (s =? 0) then
                 match str with
                 | [] => Throw (undefined_behaviour "read outside the buffer")
                 | x :: _ =>
                     if bool_decide (x = "q"%char)
                     then Ok (delete_this c (cout ("cptr " +:+ show_ptr c) (cout "got 'q', so deleting self" t)))
                     else Ok (c, t)
                 end
               else Ok (c, t));
    Ok (c, t, Some (size_t s)).

Definition test_process_close (c : Client) (t : TestClient) : result (Client * TestClient) :=
  if negb (tc_alive t) then Throw (undefined_behaviour "callback after delete")
  else Ok (delete_this c (cout "client closed so deleting self"
                            (cout ("process_close for fd " +:+ print_signed (tc_fd t)) t))).

#[local] Instance test_callback : ClientCallback TestClient := {
  process_input := fun c t str bytesavail => test_process_input c t str (int32 bytesavail);
  process_close := test_process_close }.

(** * It is deleted once *)

(** The connection calls the object exactly while it exists. *)
Definition owned (c : Client) (t : TestClient) : Prop :=
  out_inv c /\ m_cb c = tc_alive t /\ tc_deletions t = if tc_alive t then 0%nat else 1%nat.

Lemma release_keeps c : out_inv c -> out_inv (release now c) /\ m_cb (release now c) = false /\
  received (release now c) = received c.
Proof.
  intros Ho. destruct (release_out now c) as (Hq & Hm & _). split; [by apply (out_inv_ext c)|].
  unfold release, do_shutdown_SHUT_WR. repeat case_match; done.
Qed.

Lemma owned_delete c t : owned c t -> tc_alive t = true ->
  owned (delete_this c t).1 (delete_this c t).2 /\ received (delete_this c t).1 = received c /\
  tc_alive (delete_this c t).2 = false.
Proof.
  intros (Ho & Hcb & Hd) Ha. destruct (release_keeps c Ho) as (H1 & H2 & H3). rewrite Ha in Hd.
  split; [|done]. split; [done|]. split; [done|]. cbn. by rewrite Hd.
Qed.

Lemma owned_cout c t text : owned c t -> owned c (cout text t).
Proof. done. Qed.

#[local] Instance test_enduring : Enduring TestClient.
Proof.
  refine {| en_inv := owned; en_flaw := fun _ => False |}.
  - by intros c t (Ho & _).
  - intros c c' t (_ & Hcb & Hd) Ho E. split_and!; [done|by rewrite E|done].
  - intros c t l junk Hown Hcb Hl. cbn [process_input test_callback]. rewrite int32_small by lia.
    pose proof Hown as (_ & Ha & _). rewrite Hcb in Ha. unfold test_process_input. rewrite <-Ha. cbn [negb].
    assert (forall n, 0 <= default 0 (Some (size_t (Z.of_nat n))) <= Z.of_nat n) as Hn.
    { intros n. cbn. unfold size_t, wrap. pose proof (Z.mod_pos_bound (Z.of_nat n) (2 ^ 64) ltac:(lia)).
      pose proof (Z.mod_le (Z.of_nat n) (2 ^ 64) ltac:(lia) ltac:(lia)). lia. }
    destruct (Z.eqb_spec (Z.of_nat (length l)) 0) as [E|E]; cbn [negb mbind result_bind].
    + split_and!; [by apply owned_cout|done|apply Hn|apply Hn].
    + destruct l as [|x l]; [done|]. cbn [app]. case_bool_decide; cbn [mbind result_bind].
      * match goal with |- context [delete_this c ?t1] => destruct (owned_delete c t1) as (H1 & H2 & _); [done|done|];
          destruct (delete_this c t1) as [c' t'] end. cbn [mbind result_bind]. split_and!; [done|done|apply Hn|apply Hn].
      * split_and!; [by apply owned_cout|done|apply Hn|apply Hn].
  - intros c t Hown Hcb. cbn [process_close test_callback]. pose proof Hown as (_ & Ha & _). rewrite Hcb in Ha.
    unfold test_process_close. rewrite <-Ha. cbn [negb].
    match goal with |- context [delete_this c ?t1] => destruct (owned_delete c t1) as ((H1 & H2 & H3) & H4 & H5); [done|done|];
      destruct (delete_this c t1) as [c' t'] end. cbn [fst snd] in *.
    split; [|done]. split; [by apply (out_inv_ext c')|]. by rewrite H5 in *.
Defined.

Lemma owned_new fd : owned (new_client fd now true) (new_TestClient fd).
Proof. split; [apply out_inv_new|done]. Qed.

(** Whatever the peer sends, the object is deleted once at most, and not used
    after; and when the connection is closed it is deleted by the next work
    item. *)
Theorem test_client_deleted_once fd (evs : list (peer_event TestClient)) :
  Forall event_ok evs -> peer_bytes evs < 2 ^ 31 ->
  (exists c t, run_peer evs (new_client fd now true, new_TestClient fd) = Ok (c, t) /\
     m_cb c = tc_alive t /\ tc_deletions t = if tc_alive t then 0%nat else 1%nat) /\
  exists c t, run_peer (evs ++ [PE_close; PE_work]) (new_client fd now true, new_TestClient fd) = Ok (c, t) /\
     tc_alive t = false /\ tc_deletions t = 1%nat.
Proof.
  intros Hev Hb. pose proof (calm_new _ _ (owned_new fd) eq_refl) as Hc. split.
  - pose proof (peer_calm evs Hev 0 _ Hc ltac:(lia) ltac:(lia)) as H. destruct (run_peer evs _) as [[c t]|e]; [|done].
    exists c, t. split; [done|]. apply (ca_inv _ _ H).
  - pose proof (peer_closed evs _ Hev Hc Hb) as H. destruct (run_peer _ _) as [[c t]|e]; [|done].
    destruct H as [H Hcb]. destruct (ca_inv _ _ H) as (_ & Ha & Hd). cbn [fst snd] in *. rewrite Hcb in Ha.
    exists c, t. by rewrite <-Ha in *.
Qed.

(** A 'q' in the middle of a read is not seen; at the beginning of one it ends
    the object, and the rest of the stream is ignored. *)
Example self_delete_run : match run_peer
    [PE_read 1 (ReadOk (str "hello q")); PE_work; PE_read 2 (ReadOk (str "quit")); PE_read 3 (ReadOk (str "q")); PE_work;
     PE_read 4 (ReadOk (str "q")); PE_work; PE_close; PE_work] (new_client 5 0 true, new_TestClient 5) with
  | Ok (c, t) => tc_alive t = false /\ tc_deletions t = 1%nat /\ length (tc_out t) = 7%nat
  | Throw _ => False
  end.
Proof. vm_compute. split_and!; reflexivity. Qed.

(** * The program *)

(** [main]: the last [-p PORT]; [inl]: [die] with a text. *)
Fixpoint port_args (args : list string) (port : Z) : string + Z :=
  match args with
  | [] => inr port
  | a :: args =>
      if bool_decide (a = "-p") then
        match args with
        | [] => inl "missing PORT"
        | p :: args => port_args args (atoi p)
        end
      else port_args args port
  end.

Definition main_port (args : list string) : string + Z :=
  match port_args args (-1) with
  | inl e => inl e
  | inr port => if port =? -1 then inl "missing -p PORT" else inr port
  end.

(** The connections made: what the reactor was given. *)
Definition start_client (fd : Z) (clients : list (Client * TestClient)) : list (Client * TestClient) :=
  clients ++ [(new_client fd now true, new_TestClient fd)].

(** The loop of [accept_connections]; when the answers run out it is still in
    [poll].  [Some]: the program died with a text. *)
Fixpoint test_accept_loop (sockfd : Z) (answers : list poll_answer)
    : eff sys_call (list (Client * TestClient)) (option string) :=
  match answers with
  | [] => emit (Sys_poll sockfd 10000);; mret None
  | a :: answers =>
      emit (Sys_poll sockfd 10000);;
      let n := sr_value (pa_poll a) in
      if negb (n =? 0) then
        if negb (Z.land (pa_revents a) POLLIN =? 0) then
          emit (Sys_accept sockfd);;
          let fd := sr_value (pa_accept a) in
          if fd <? 0 then mret (Some "error during accept")
          else modify (start_client fd);; test_accept_loop sockfd answers
        else test_accept_loop sockfd answers
      else if n =? 0 then test_accept_loop sockfd answers
      else mret (Some "error during poll")
  end.

End callback.

(** ** The socket *)

(** [errno] is not turned into a text here. *)
Definition test_error (what : string) (errno : Z) : exn := runtime_error (what +:+ print_signed errno).

Definition test_listen_socket {S} (server_port : Z) (os : listen_answers) : eff sys_call S Z :=
  emit Sys_socket;;
  (if sr_value (la_socket os) <? 0 then throw (test_error "socket() failed: errno " (sr_errno (la_socket os))) else mret ());;
  let servfd := sr_value (la_socket os) in
  emit (Sys_setsockopt servfd "SO_REUSEADDR");;
  emit (Sys_bind servfd (wrap 16 server_port));;
  (if sr_value (la_bind os) <? 0 then throw (test_error "bind() failed: errno " (sr_errno (la_bind os))) else mret ());;
  emit (Sys_listen servfd 100);;
  (if sr_value (la_listen os) <? 0 then throw (test_error "listen() failed: " (sr_errno (la_listen os))) else mret ());;
  mret servfd.

Definition accept_connections now (server_port fdflags : Z) (os : listen_answers) (answers : list poll_answer)
    : eff sys_call (list (Client * TestClient)) (option string) :=
  sockfd ← test_listen_socket server_port os;
  emit (Sys_fcntl sockfd F_GETFD 0);;
  emit (Sys_fcntl sockfd F_SETFD (Z.lor fdflags O_NONBLOCK));;
  test_accept_loop now sockfd answers.

(** [main]: the text it ends with and its exit code; [None] while it serves. *)
Definition test_main now (args : list string) (fdflags : Z) (os : listen_answers) (answers : list poll_answer)
    : list (Client * TestClient) * list sys_call * option (string * Z) :=
  match main_port args with
  | inl e => ([], [], Some (e, 1))
  | inr port =>
      let '(clients, calls, r) := accept_connections now port fdflags os answers [] in
      (clients, calls,
       match r with
       | Ok None => None
       | Ok (Some e) => Some (e, 1)
       | Throw e => Some ("exception caught in main: " +:+ exn_what e, 1)
       end)
  end.

(** Every connection that was accepted gets an object of its own, in order. *)
Theorem accepted_get_clients now sockfd answers clients :
  let '(clients', _, r) := test_accept_loop now sockfd answers clients in
  exists fds, clients' = clients ++ ((fun fd => (new_client fd now true, new_TestClient fd)) <$> fds) /\
    Forall (Z.le 0) fds /\ (length fds <= length answers)%nat /\
    (r = Ok None \/ r = Ok (Some "error during accept")).
Proof.
  revert clients. induction answers as [|a answers IH]; intros clients; cbn [test_accept_loop].
  { cbn. exists []. rewrite app_nil_r. split_and!; [done|constructor|done|by left]. }
  unfold mbind, eff_bind, emit, modify. destruct (sr_value (pa_poll a) =? 0) eqn:En; cbn [negb].
  - specialize (IH clients). destruct (test_accept_loop now sockfd answers clients) as [[cl o] r].
    destruct IH as (fds & -> & Hf & Hl & Hr). exists fds. split_and!; [done|done|cbn; lia|done].
  - destruct (negb (Z.land (pa_revents a) POLLIN =? 0)).
    + destruct (Z.ltb_spec (sr_value (pa_accept a)) 0).
      * cbn. exists []. rewrite app_nil_r. split_and!; [done|constructor|cbn; lia|by right].
      * specialize (IH (start_client now (sr_value (pa_accept a)) clients)).
        destruct (test_accept_loop now sockfd answers _) as [[cl o] r]. destruct IH as (fds & -> & Hf & Hl & Hr).
        exists (sr_value (pa_accept a) :: fds). unfold start_client. rewrite <-app_assoc. split_and!; [done|by constructor|cbn; lia|done].
    + specialize (IH clients). destruct (test_accept_loop now sockfd answers clients) as [[cl o] r].
      destruct IH as (fds & -> & Hf & Hl & Hr). exists fds. split_and!; [done|done|cbn; lia|done].
Qed.
