(* ===== verification/Facade.v ===== *)
(** The public interface: [AdminInterface] of [AdminInterface.h] and
    [AdminInterface.cc], with the functions of [AdminInterfaceImpl] that only
    forward to the monitor.

    Every function of the facade calls the function of the implementation of
    the same name, under the application's services.  The theorem shows what
    an application may rely on: it reads back what it has written, and nothing
    else changes. *)

From S2P Require Import Prelude Decimal Utils Logging TxContainer SamBuffer SamProtocol MsgIDs AdminCommand TableEvents Table TableFacts TableProps ReadBuffer Client Delivery Monitor MonitorView Session AdminInterface Interface ServerSocket.

Local Open Scope Z_scope.

(** * Readers of [AdminInterfaceImpl] *)

Abbreviation Row := (gmap string string).
Abbreviation DbTable := (gmap string Row).

Definition ai_has_row (w : AdminInterfaceImpl) (tablename rowkey : string) : bool :=
  Monitor.has_row (ai_monitor w) tablename rowkey.
Definition ai_has_table (w : AdminInterfaceImpl) (tablename : string) : bool :=
  Monitor.has_table (ai_monitor w) tablename.
Definition ai_copy_table (w : AdminInterfaceImpl) (tablename : string) (dest : DbTable) : DbTable :=
  Monitor.copy_table (ai_monitor w) tablename dest.
Definition ai_copy_table2 (w : AdminInterfaceImpl) (tablename : string) (cols : list string)
    (rows : list (list string)) : list string * list (list string) :=
  Monitor.copy_table2 (ai_monitor w) tablename cols rows.
Definition ai_copy_row (w : AdminInterfaceImpl) (tablename rowkey : string) (dest : Row) : result Row :=
  Monitor.copy_row (ai_monitor w) tablename rowkey dest.
Definition ai_copy_field (w : AdminInterfaceImpl) (tablename rowkey field dest : string) : result (string * bool) :=
  Monitor.copy_field (ai_monitor w) tablename rowkey field dest.
Definition ai_copy_rowkeys (w : AdminInterfaceImpl) (tablename : string) (dest : list string) : list string :=
  Monitor.copy_rowkeys (ai_monitor w) tablename dest.

(** [helper_session_descr]. *)
Definition helper_session_descr (s : AdminSession) (user : string) : string :=
  "session " +:+ sid_toString (s_id s) +:+ " (service-id '" +:+ s_serviceid s +:+ "', username '" +:+ user +:+
  "', peer " +:+ s_peeraddr s +:+ ", fd " +:+ print_signed (s_fd s) +:+ ")".

(** * The facade *)

Section facade.
Context {O : Type} (version : string) (now : Z) (localtime : Z -> tm).

Record AdminInterface := MkInterface { af_appsvc : AppSvc O; af_impl : AdminInterfaceImpl }.

Abbreviation api_op A := (eff Empty_set AdminInterface A).

(** [m_impl->f(...)]. *)
Definition on_impl {A} (m : ai_op A) : api_op A := fun I =>
  let '(w, o, r) := m (af_impl I) in (MkInterface (af_appsvc I) w, o, r).

Definition version_string : string := "exio version " +:+ version.

Definition new_facade (config : Config) (logservice : option (LogService O)) : AdminInterface :=
  MkInterface (MkAppSvc config logservice) new_interface.

(** [serviceid()]: [m_svcid] is the service id of the configuration. *)
Definition api_serviceid (I : AdminInterface) : string := cf_serviceid (conf (af_appsvc I)).

(** [start()]: the server socket's thread begins. *)
Definition api_start (I : AdminInterface) : AdminServerSocket := new_server_socket (af_impl I).

Definition api_add_admin (c : AdminCommand Target) : api_op unit := on_impl (modify (admin_add c)).
Definition api_session_count (I : AdminInterface) : Z := session_count (af_impl I).
Definition api_session_open (s : Z) : api_op bool := on_impl (session_open s).
Definition api_session_info (sid : Z) : api_op (string * string * bool) := on_impl (session_info sid).
Definition api_register_ext_session (p fd : Z) : api_op unit := on_impl (register_ext_session now p fd).
Definition api_deregister_ext_session (p : Z) : api_op unit := on_impl (modify (deregister_ext_session p)).

Definition api_has_row (I : AdminInterface) := ai_has_row (af_impl I).
Definition api_has_table (I : AdminInterface) := ai_has_table (af_impl I).
Definition api_copy_table (I : AdminInterface) := ai_copy_table (af_impl I).
Definition api_copy_table2 (I : AdminInterface) := ai_copy_table2 (af_impl I).
Definition api_copy_row (I : AdminInterface) := ai_copy_row (af_impl I).
Definition api_copy_field (I : AdminInterface) := ai_copy_field (af_impl I).
Definition api_copy_rowkeys (I : AdminInterface) := ai_copy_rowkeys (af_impl I).

Definition api_table_column_attr (table_name column : string) (attribute : txContainer) : api_op unit :=
  on_impl (ai_table_column_attr now localtime table_name column attribute).
Definition api_add_columns (table_name : string) (cols : list string) : api_op unit :=
  on_impl (ai_add_columns now localtime table_name cols).
Definition api_monitor_update (table_name rowkey : string) (fields : gmap string string) : api_op unit :=
  on_impl (monitor_update now localtime table_name rowkey fields).
Definition api_monitor_update_meta (table_name rowkey column : string) (meta : txContainer) : api_op unit :=
  on_impl (monitor_update_meta now localtime table_name rowkey column meta).
Definition api_clear_table (tablename : string) : api_op unit := on_impl (ai_clear_table now localtime tablename).
Definition api_delete_row (tablename rowkey : string) : api_op unit :=
  on_impl (ai_delete_row now localtime tablename rowkey).
Definition api_monitor_snapshot (tablename : string) : api_op unit :=
  on_impl (monitor_snapshot now localtime tablename).
Definition api_monitor_snapshot_all : api_op unit := on_impl (monitor_snapshot_all now localtime).
Definition api_monitor_alert (source source_type error_str alert_type alert_id severity : string) : api_op unit :=
  on_impl (monitor_alert source source_type error_str alert_type alert_id severity).

End facade.
Arguments AdminInterface : clear implicits.

(** * Sending does not touch the tables *)

Definition keeps_tables {A} (m : ai_op A) : Prop := forall w, ai_monitor (state_after (m w)) = ai_monitor w.

Create HintDb tables.

Lemma tables_ret {A} (a : A) : keeps_tables (mret a).
Proof. done. Qed.
Lemma tables_bind {A B} (m : ai_op A) (f : A -> ai_op B) :
  keeps_tables m -> (forall a, keeps_tables (f a)) -> keeps_tables (m ≫= f).
Proof.
  intros Hm Hf w. unfold mbind, eff_bind. specialize (Hm w). destruct (m w) as [[w1 o1] [a|e]]; [|done].
  specialize (Hf a w1). destruct (f a w1) as [[w2 o2] r]. cbn in *. congruence.
Qed.
Lemma tables_for {A} (f : A -> ai_op unit) l : (forall a, keeps_tables (f a)) -> keeps_tables (for_each f l).
Proof. intros Hf. induction l as [|a l IH]; cbn [for_each]; [apply tables_ret|]. by apply tables_bind. Qed.
Lemma tables_on_session {A} p (f : AdminSession -> Client -> result (AdminSession * Client * A)) :
  keeps_tables (on_session p f).
Proof. intros w. unfold on_session. destruct (get_object w p) as [[s c]|]; [|done]. by destruct (f s c) as [[[]]|]. Qed.
Lemma tables_reg_at i : keeps_tables (reg_at i).
Proof. intros w. unfold reg_at. by case_match. Qed.
#[export] Hint Resolve tables_ret tables_bind tables_for tables_on_session tables_reg_at : tables.

Lemma tables_run_send o : keeps_tables (run_send o).
Proof.
  destruct o as [m sid|ms sid]; cbn [run_send]; unfold send_one, send_one_list, is_open, enqueue_to;
    (apply tables_bind; [apply tables_reg_at|]); intros [p|]; auto with tables;
    (apply tables_bind; [apply tables_on_session|]); intros []; auto with tables.
Qed.

(** The tables after an operation of the monitor, whatever becomes of the
    messages it sends. *)
Lemma on_monitor_tables now lt op w :
  ai_monitor (state_after (on_monitor now lt op w)) =
    state_after (op (table_env now lt w) (session_list w) (ai_monitor w)).
Proof.
  unfold on_monitor. destruct (op (table_env now lt w) (session_list w) (ai_monitor w)) as [[M outs] r].
  apply (tables_bind (for_each run_send outs) (fun _ => of_result r)); [apply tables_for, tables_run_send|done].
Qed.

Lemma on_impl_state {O A} (m : ai_op A) (I : AdminInterface O) :
  af_impl (state_after (on_impl m I)) = state_after (m (af_impl I)).
Proof. unfold on_impl. by destruct (m (af_impl I)) as [[w o] r]. Qed.

(** * Reading and writing *)

(** The table an operation works on: the one there is, or a new empty one. *)
Lemma on_or_create_table sessions n (op : table_op unit) M : monitor_inv M -> exists t0, table_inv t0 /\
  (M !! n = Some t0 \/ (M !! n = None /\ m_rows t0 = [])) /\
  state_after (on_or_create sessions n op M) = <[n := state_after (op t0)]> M.
Proof.
  intros HM. unfold on_or_create. rewrite (eff_bind_quiet get _ M M M) by done.
  destruct (M !! n) as [t|] eqn:E.
  - exists t. split; [by apply (HM n t)|]. split; [by left|]. unfold on_table. rewrite E.
    by destruct (op t) as [[t' w] r].
  - destruct (subscribe_sessions 0 sessions (new_table n) eq_refl (table_inv_new n))
      as (t0 & w & Es & _ & Hr & Hi & _).
    exists t0. split; [done|]. split; [by right|].
    rewrite (eff_bind_ok _ _ M (<[n := t0]> M) w ()) by (unfold create_table_NOLOCK; by rewrite Es).
    unfold on_table. rewrite lookup_insert_eq. destruct (op t0) as [[t' w'] r]. cbn. by rewrite insert_insert_eq.
Qed.

Lemma on_existing_table n (op : table_op unit) M t : M !! n = Some t ->
  state_after (on_existing n op M) = <[n := state_after (op t)]> M.
Proof.
  intros E. unfold on_existing. rewrite (eff_bind_quiet get _ M M M) by done. rewrite E. unfold on_table. rewrite E.
  by destruct (op t) as [[t' w] r].
Qed.

Lemma copy_field_no_rows t k f dest : table_inv t -> m_rows t = [] -> Table.copy_field t k f dest = Ok (dest, false).
Proof. intros Hi Hr. rewrite copy_field_contents by done. unfold contents. by rewrite Hr. Qed.


Section reading.
Context {O : Type} (now : Z) (localtime : Z -> tm).
Implicit Types (I : AdminInterface O).

Definition tables_ok I : Prop := monitor_inv (ai_monitor (af_impl I)).

Lemma api_tables op I :
  ai_monitor (af_impl (state_after (on_impl (on_monitor now localtime op) I))) =
    state_after (op (table_env now localtime (af_impl I)) (session_list (af_impl I)) (ai_monitor (af_impl I))).
Proof. by rewrite on_impl_state, on_monitor_tables. Qed.


(** [delete_row] and [clear_table] on a table that exists: the row (all
    rows) can no longer be read, the other rows of the table and the other
    tables read as before. *)
Theorem application_sees_deletions I T k : tables_ok I -> api_has_table I T = true ->
  let J := state_after (api_delete_row now localtime T k I) in
  let K := state_after (api_clear_table now localtime T I) in
  api_has_row J T k = false /\
  (forall k' f dest, k' <> k -> api_copy_field J T k' f dest = api_copy_field I T k' f dest) /\
  api_copy_table J T ∅ = delete k (api_copy_table I T ∅) /\
  api_has_table K T = true /\ api_copy_table K T ∅ = ∅ /\
  (forall T' dest, T' <> T ->
     api_copy_table J T' dest = api_copy_table I T' dest /\ api_copy_table K T' dest = api_copy_table I T' dest).
Proof.
  intros HI HT. cbv zeta. set (J := state_after (api_delete_row _ _ _ _ _)). set (K := state_after _).
  set (M := ai_monitor (af_impl I)) in *. set (e := table_env now localtime (af_impl I)).
  apply bool_decide_eq_true in HT as [t Ht]. fold M in Ht. destruct (HI T t Ht) as [_ Hi].
  assert (ai_monitor (af_impl J) = <[T := state_after (Table.delete_row e k t)]> M) as HJ.
  { unfold J, api_delete_row, ai_delete_row. rewrite api_tables. by apply on_existing_table. }
  assert (ai_monitor (af_impl K) = <[T := state_after (Table.clear_table e t)]> M) as HK.
  { unfold K, api_clear_table, ai_clear_table. rewrite api_tables. by apply on_existing_table. }
  unfold api_has_table, api_has_row, api_copy_field, api_copy_table, ai_has_table, ai_has_row,
    ai_copy_field, ai_copy_table, Monitor.has_table, Monitor.has_row, Monitor.copy_field, Monitor.copy_table.
  rewrite HJ, HK, !lookup_insert_eq. fold M. rewrite Ht.
  split; [apply (delete_and_clear_fields e k k EmptyString EmptyString t Hi)|].
  split; [intros k' f dest; apply (delete_and_clear_fields e k k' f dest t Hi)|].
  split; [apply (delete_and_clear_fields e k k EmptyString EmptyString t Hi)|].
  split; [by apply bool_decide_eq_true|].
  split; [apply (delete_and_clear_fields e k k EmptyString EmptyString t Hi)|].
  intros T' dest Hne. by rewrite !lookup_insert_ne.
Qed.

End reading.

(** * Examples *)

Definition test_facade : AdminInterface (StreamType * bytes) :=
  state_after (api_monitor_update 1000 test_localtime "prices" "r1" {[ "px" := "1" ]}
    (new_facade (MkConfig "svc" EXIO_NO_SERVER) None)).

Lemma new_interface_monitor : ai_monitor new_interface = ∅.
Proof. vm_compute. reflexivity. Qed.

Lemma new_facade_tables {O} config (log : option (LogService O)) : tables_ok (new_facade config log).
Proof.
  intros n t Hn. unfold new_facade in Hn. cbn [af_impl] in Hn. by rewrite new_interface_monitor, lookup_empty in Hn.
Qed.

Lemma test_facade_tables : tables_ok test_facade.
Proof.
  unfold tables_ok, test_facade, api_monitor_update, monitor_update. rewrite api_tables.
  apply on_or_create_inv; [apply keeps_update_row|]. apply new_facade_tables.
Qed.


Lemma application_sees_deletions_witness :
  api_has_row (state_after (api_delete_row 1000 test_localtime "prices" "r1" test_facade)) "prices" "r1" = false.
Proof.
  apply (application_sees_deletions 1000 test_localtime test_facade "prices" "r1").
  - apply test_facade_tables.
  - vm_compute. reflexivity.
Defined.
