(* ===== verification/AdminTool.v ===== *)
(** The command line client: [AdminListener] and the messages [__main] sends,
    of [src/admin.cc].

    The listener's world is the program's single session; what it writes to
    standard output is recorded.  Options, connecting and the exit codes are in
    CommandLine.v. *)

From S2P Require Import Prelude Decimal Utils TxContainer SamBuffer SamProtocol MsgIDs AdminCommand ReadBuffer Client Delivery Session Hostile AdminInterface Interface.

Local Open Scope Z_scope.

(** * The listener *)

Record AdminListener := MkAdminListener {
  l_session_open : bool; l_show_unsol : bool; l_retval : Z; l_cout : string }.

Definition new_listener : AdminListener := MkAdminListener true false 0 EmptyString.
Definition show_unsol_messages (b : bool) (l : AdminListener) : AdminListener :=
  MkAdminListener (l_session_open l) b (l_retval l) (l_cout l).
Definition trigger_close (retval : Z) (l : AdminListener) : AdminListener :=
  MkAdminListener false (l_show_unsol l) retval (l_cout l).
Definition print (s : string) (l : AdminListener) : AdminListener :=
  MkAdminListener (l_session_open l) (l_show_unsol l) (l_retval l) (l_cout l +:+ s).

(** A count field: [size_t n = atoi(...)], 0 when it is missing. *)
Definition count_at (c : txContainer) (name : string) : Z :=
  match find_field c name with Some f => size_t (atoi (f_value f)) | None => 0 end.

(** The column names of the messages [msgn] to [msgcount]. *)
Fixpoint column_names (synthetic : bool) (columns : txContainer) (n : nat) (msgn : Z) : list string :=
  match n with
  | O => []
  | S n =>
      match (c ← find_child columns (id.msg_prefix +:+ print_unsigned msgn); find_field c id.colname) with
      | Some f =>
          if synthetic && bool_decide (f_value f = id.row_key) then column_names synthetic columns n (msgn + 1)
          else f_value f :: column_names synthetic columns n (msgn + 1)
      | None => column_names synthetic columns n (msgn + 1)
      end
  end.

(** The values of a row under the known columns. *)
Definition row_line (columns : list string) (row : txContainer) : string :=
  separated ", " ((fun c => match find_field row c with Some f => f_value f | None => EmptyString end) <$> columns)
  +:+ newline.

Fixpoint row_lines (columns : list string) (tableupdate : txContainer) (n : nat) (r : Z) : string :=
  match n with
  | O => EmptyString
  | S n =>
      match find_child tableupdate (id.row_prefix +:+ print_unsigned r) with
      | Some child => row_line columns child
      | None => EmptyString
      end +:+ row_lines columns tableupdate n (r + 1)
  end.

(** [handle_table_response]: what it prints. *)
Definition handle_table_response (body : txContainer) : string :=
  let synthetic := bool_decide (is_Some (find_field body id.synthetic)) in
  match find_child body id.respdata with
  | None => EmptyString
  | Some respdata =>
      let columns :=
        match (td ← find_child respdata id.tabledescr; find_child td id.columns) with
        | Some c => column_names synthetic c (Z.to_nat (count_at c id.msgcount)) 0
        | None => []
        end in
      (if bool_decide (columns = []) || synthetic then EmptyString
       else separated ", " columns +:+ newline) +:+
      match find_child respdata id.tableupdate with
      | Some tu => row_lines columns tu (Z.to_nat (count_at tu id.rows)) 0
      | None => EmptyString
      end
  end.

(** The last character of a text. *)
Definition ends_with_newline (s : string) : bool :=
  match last (str s) with Some c => bool_decide (c = "010"%char) | None => false end.

(** [handle_reponse]. *)
Definition handle_reponse (msg : txMessage) (l : AdminListener) : AdminListener :=
  let retval := match find_field_qn (m_root msg) id.QN_rescode with
                | Some f => atoi (f_value f)
                | None => -1
                end in
  let l := if retval =? 0 then l else print (print_signed retval +:+ " FAIL, ") l in
  let l := match find_field_qn (m_root msg) id.QN_restext with
           | Some f => print (f_value f +:+ newline) l
           | None => l
           end in
  let l :=
    match find_child (m_root msg) id.body with
    | Some body =>
        if check_field body id.resptype id.table then print (handle_table_response body) l
        else if check_field body id.resptype id.text then
          match (d ← find_child body id.respdata; find_field d id.text) with
          | Some text =>
              if bool_decide (f_value text = EmptyString) then l
              else print (f_value text +:+ (if ends_with_newline (f_value text) then EmptyString else newline)) l
          | None => l
          end
        else print ("NO FORMAT" +:+ newline) l
    | None => print ("NO FORMAT" +:+ newline) l
    end in
  if has_pending msg then l else trigger_close retval l.

(** [session_msg_received]; [verbose] is the number of [-d] options. *)
Definition listener_message (verbose : Z) (msg : txMessage) (l : AdminListener) : AdminListener :=
  let text := (format (new_formatter true) msg).2 in
  let l := if 2 <? verbose then print ("MESSAGE: " +:+ text +:+ newline) l else l in
  if bool_decide (msg_type msg = id.msg_bye) then trigger_close 0 l
  else if bool_decide (msg_type msg = id.msg_response) then handle_reponse msg l
  else if bool_decide (msg_type msg = id.msg_logon) || bool_decide (msg_type msg = id.heartbeat) then l
  else if l_show_unsol l then print (text +:+ newline) l
  else l.

Definition listener_closed (l : AdminListener) : AdminListener :=
  MkAdminListener false (l_show_unsol l) (l_retval l) (l_cout l).

(** * The program *)

(** [program_options], with what [build_service_id] and [build_user_id] found. *)
Record ProgramOptions := MkOptions {
  o_addr : string; o_port : string; o_cmd : string; o_cmdargs : list string; o_verbose : Z;
  o_serviceid : string; o_user : string }.

Definition tool_logon (o : ProgramOptions) : txMessage :=
  let logon := on_root (fun r => put_field_qn r id.QN_serviceid (o_serviceid o)) (new_message id.msg_logon) in
  let logon := on_root (fun r => put_field_qn r id.QN_head_user (o_user o)) logon in
  if bool_decide (o_cmd o = EmptyString) then logon
  else
    let logon := on_root (fun r => put_field_qn r id.QN_noautosub id.True_) logon in
    on_root (fun r => put_field_qn r [id.head; id.autoclose] id.True_) logon.

Definition tool_request (o : ProgramOptions) : txMessage :=
  on_root (fun r =>
    let r := put_field_qn r id.QN_command (o_cmd o) in
    let r := put_child_with r id.head (fun head =>
      let head := put_field head id.dest (o_addr o +:+ ":" +:+ o_port o) in
      let head := put_field head id.source (o_serviceid o) in
      let head := put_field head id.user (o_user o) in
      put_field head id.reqseqno "0") in
    put_child_with r id.body (fun body =>
      add_arguments (o_cmdargs o) (put_field body id.command (o_cmd o)))) (new_message id.msg_request).

(** The session of the program and its listener. *)
Record Tool := MkTool { t_listener : AdminListener; t_session : AdminSession; t_client : Client }.

(** The address of the program's only session. *)
Definition tool_session : Z := 1.

(** [__main] up to the wait: the session is made, the logon and the request
    are queued; [None] is the exit when the request cannot be sent. *)
Definition tool_start (o : ProgramOptions) (fd now : Z) (peeraddr : string) : result (option Tool) :=
  let listener := if bool_decide (o_cmd o = EmptyString)
                  then show_unsol_messages true new_listener else new_listener in
  let s := io_init (new_session fd 1 now true peeraddr) in
  '(c, _) ← enqueueToSend (tool_logon o) s (new_client fd now true);
  if bool_decide (o_cmd o = EmptyString) then Ok (Some (MkTool listener s c))
  else
    '(c, failed) ← enqueueToSend (tool_request o) s c;
    Ok (if (failed : bool) then None else Some (MkTool listener s c)).

Section listener.
Context (o : ProgramOptions).

#[global] Instance tool_listener : SessionListener Tool := {
  host_get := fun w p => if decide (p = tool_session) then Some (t_session w, t_client w) else None;
  host_set := fun w p x => if decide (p = tool_session) then MkTool (t_listener w) x.1 x.2 else w;
  session_msg_received := fun m p w =>
    (MkTool (listener_message (o_verbose o) m (t_listener w)) (t_session w) (t_client w), Ok ());
  session_closed := fun p w => (MkTool (listener_closed (t_listener w)) (t_session w) (t_client w), Ok ()) }.

#[global] Instance tool_listener_laws : SessionListenerLaws Tool.
Proof.
  refine {| host_inv := fun _ => True; host_accepts := fun _ => True |}.
  - intros w p x y. cbn. destruct (decide (p = tool_session)); [|done]. intros _. by destruct y.
  - done.
  - intros w p s c m _ Hg _. split; [done|]. split; [done|]. exists s, c. cbn in *. done.
Defined.

#[local] Instance tool_sturdy : Sturdy Tool.
Proof.
  refine {| st_inv := fun _ => True; st_knows := fun _ p => p = tool_session;
    st_gone := fun _ _ => True; st_flaw := fun _ => False |}.
  - intros w p x y. cbn. destruct (decide (p = tool_session)); [|done]. intros _. by destruct y.
  - done.
  - intros w p s c m _ Hg Hk. cbn in *. split_and!; try done. by exists s, c.
  - intros w p s c _ Hg Hk. cbn in *. split_and!; try done. by exists s, c.
Defined.

(** Whatever the server sends to the tool and however it ends, nothing goes
    wrong but the decoder's read after the data. *)
Theorem tool_survives_any_server fd now peeraddr w (evs : list (peer_event (Z * Tool))) :
  tool_start o fd now peeraddr = Ok (Some w) -> Forall event_ok evs -> peer_bytes evs < 2 ^ 31 ->
  match run_peer evs (t_client w, (tool_session, w)) with
  | Ok cs => out_inv cs.1
  | Throw e => e = undefined_behaviour "read outside the buffer"
  end.
Proof.
  intros Hs Hev Hb. assert (fresh_inbound (t_client w) /\ out_inv (t_client w) /\ s_listener (t_session w) = true) as (Hf & Ho & Hl).
  { unfold tool_start in Hs. apply result_bind_Ok in Hs as ([c f] & E & Hs).
    pose proof (enqueue_inbound _ _ _ _ _ E) as Hi. pose proof (enqueue_out _ _ _ _ _ E (out_inv_new _ _ _)) as Ho.
    case_bool_decide; [injection Hs as <-; done|]. apply result_bind_Ok in Hs as ([c2 f2] & E2 & Hs).
    pose proof (enqueue_inbound _ _ _ _ _ E2) as Hi2. pose proof (enqueue_out _ _ _ _ _ E2 Ho) as Ho2.
    destruct f2; [done|]. injection Hs as <-. cbn [t_client t_session].
    split; [exact (eq_trans Hi2 Hi)|]. split; [exact Ho2|reflexivity]. }
  assert (calm 0 (t_client w, (tool_session, w))) as Hc.
  { apply calm_new; [|done]. split; [done|]. split; [done|]. split; [|done]. intros _. by exists (t_session w), (t_client w). }
  pose proof (peer_calm evs Hev 0 _ Hc ltac:(lia) ltac:(lia)) as H. destruct (run_peer evs _) as [cs|e].
  - apply (en_out _ _ (ca_inv _ _ H)).
  - by destruct H as [|[]].
Qed.

End listener.

(** * What the server reads *)

Lemma tool_request_wf o : wf (m_root (tool_request o)).
Proof.
  unfold tool_request, on_root. cbn [m_root new_message].
  apply wf_put_child_with; [apply wf_put_child_with|].
  - apply wf_put_field_qn, wf_new_container.
  - apply (wf_update_compose (fun h => put_field h id.reqseqno "0")); [auto with exio|].
    apply (wf_update_compose (fun h => put_field h id.user (o_user o))); [auto with exio|].
    apply (wf_update_compose (fun h => put_field h id.source (o_serviceid o))); auto with exio.
  - apply (wf_update_compose (add_arguments (o_cmdargs o))); [apply wf_update_add_arguments|auto with exio].
Qed.

(** * What the tool shows *)

(** Row numbers are distinct. *)
Lemma row_prefix_inj i j : 0 <= i -> 0 <= j ->
  id.row_prefix +:+ print_unsigned i = id.row_prefix +:+ print_unsigned j -> i = j.
Proof. intros Hi Hj H. apply (inj (String.app _)) in H. by apply print_unsigned_inj. Qed.

(** The rows of a simple list can be found again under their numbers. *)
Lemma simplelist_rows_find column values i c : wf c -> 0 <= i ->
  wf (simplelist_rows column i values c) /\
  (forall f, find_field (simplelist_rows column i values c) f = find_field c f) /\
  (forall n v, values !! n = Some v -> exists row,
     find_child (simplelist_rows column i values c) (id.row_prefix +:+ print_unsigned (i + Z.of_nat n)) = Some row /\
     f_value <$> find_field row column = Some v) /\
  (forall j, 0 <= j < i -> find_child (simplelist_rows column i values c) (id.row_prefix +:+ print_unsigned j) =
     find_child c (id.row_prefix +:+ print_unsigned j)).
Proof.
  revert i c. induction values as [|v values IH]; intros i c Hc Hi; cbn [simplelist_rows].
  { split; [done|]. split; [done|]. split; [intros n v Hn; by rewrite lookup_nil in Hn|done]. }
  set (buf := id.row_prefix +:+ print_unsigned i).
  set (g := fun row => put_field (put_field row id.row_key buf) column v).
  assert (wf_update g) as Hg by (apply (wf_update_compose (fun r => put_field r column v)); auto with exio).
  assert (wf (put_child_with c buf g)) as Hw by (by apply wf_put_child_with).
  destruct (IH (i + 1) (put_child_with c buf g) Hw ltac:(lia)) as (Hw' & Hf & Hr & Ho).
  assert (forall k, find_child (put_child_with c buf g) k =
    if decide (buf = k) then Some (g (default (new_container buf) (find_child c buf))) else find_child c k) as Hk.
  { intros k. apply find_child_put_child_with; [by apply wf_indexed|]. by apply Hg, wf_new_container. }
  split; [done|]. split; [intros f; rewrite Hf; apply find_field_put_child_with; by apply wf_indexed|]. split.
  - intros [|n] w Hn.
    + injection Hn as ->. rewrite Z.add_0_r. rewrite Ho by lia. rewrite Hk, decide_True by done.
      eexists. split; [done|]. unfold g. rewrite find_field_put_field.
      * by rewrite decide_True.
      * apply wf_indexed, wf_put_field.
        destruct (find_child c buf) as [d|] eqn:E; [eapply find_child_wf; [exact Hc|exact E]|apply wf_new_container].
    + destruct (Hr n w Hn) as (row & Hrow & Hv). exists row.
      by replace (i + Z.of_nat (S n)) with (i + 1 + Z.of_nat n) by lia.
  - intros j Hj. rewrite Ho by lia. rewrite Hk, decide_False; [done|].
    intros He. apply row_prefix_inj in He; lia.
Qed.

(** Each text on a line of its own. *)
Definition lines (l : list string) : string := foldr (fun v acc => (v +:+ newline) +:+ acc) EmptyString l.

Lemma row_lines_all column tu values i : (forall n v, values !! n = Some v -> exists row,
     find_child tu (id.row_prefix +:+ print_unsigned (i + Z.of_nat n)) = Some row /\
     f_value <$> find_field row column = Some v) ->
  row_lines [column] tu (length values) i = lines values.
Proof.
  revert i. induction values as [|v values IH]; intros i Hall; [done|]. cbn [length row_lines].
  destruct (Hall 0%nat v eq_refl) as (row & Hr & Hv). rewrite Z.add_0_r in Hr. rewrite Hr.
  unfold row_line. cbn [fmap list_fmap]. destruct (find_field row column) as [f|]; [|done].
  injection Hv as ->. rewrite (IH (i + 1)); [done|].
  intros n w Hn. destruct (Hall (S n) w Hn) as (row' & Hr' & Hv'). exists row'.
  by replace (i + 1 + Z.of_nat n) with (i + Z.of_nat (S n)) by lia.
Qed.

(** ** A simple list, from the server's reply to the tool's output *)

Definition child_or_new (c : txContainer) (k : string) : txContainer := default (new_container k) (find_child c k).

Lemma wf_child_or_new c k : wf c -> wf (child_or_new c k).
Proof.
  intros Hc. unfold child_or_new. destruct (find_child c k) as [d|] eqn:E; [|apply wf_new_container].
  by apply (find_child_wf c k d).
Qed.

Lemma find_child_put c n g : wf c -> wf_update g -> find_child (put_child_with c n g) n = Some (g (child_or_new c n)).
Proof.
  intros Hc Hg. rewrite find_child_put_child_with by (auto with exio || apply Hg; apply wf_new_container).
  by rewrite decide_True.
Qed.

(** The column description of a simple list. *)
Lemma simplelist_column column c0 : wf c0 -> column <> id.row_key ->
  let c := put_child_with (put_field c0 id.msgcount "1") (id.msg_prefix +:+ "0")
             (fun c => put_field c id.colname column) in
  column_names true c (Z.to_nat (count_at c id.msgcount)) 0 = [column].
Proof.
  intros Hc Hcol. cbv zeta. set (c1 := put_field c0 id.msgcount "1"). assert (wf c1) as Hw by (by apply wf_put_field).
  assert (count_at (put_child_with c1 (id.msg_prefix +:+ "0") (fun c => put_field c id.colname column)) id.msgcount = 1) as ->.
  { unfold count_at. rewrite find_field_put_child_with by auto with exio. unfold c1.
    rewrite find_field_put_field by auto with exio. rewrite decide_True by done. reflexivity. }
  change (Z.to_nat 1) with 1%nat. cbn [column_names].
  change (id.msg_prefix +:+ print_unsigned 0) with (id.msg_prefix +:+ "0").
  rewrite find_child_put by auto with exio. cbn [mbind option_bind].
  rewrite find_field_put_field by (apply wf_indexed; by apply wf_child_or_new). rewrite decide_True by done.
  cbn [f_value andb]. by rewrite bool_decide_eq_false_2.
Qed.

(** The rows of a simple list. *)
Lemma simplelist_lines column values t0 : wf t0 -> Z.of_nat (length values) < 2 ^ 31 ->
  let tu := simplelist_rows column 0 values
              (put_field t0 id.rows (print_unsigned (Z.of_nat (length values)))) in
  row_lines [column] tu (Z.to_nat (count_at tu id.rows)) 0 = lines values.
Proof.
  intros Hw Hl. cbv zeta.
  set (t1 := put_field t0 id.rows (print_unsigned (Z.of_nat (length values)))).
  destruct (simplelist_rows_find column values 0 t1) as (_ & Hf & Hr & _); [by apply wf_put_field|lia|].
  assert (count_at (simplelist_rows column 0 values t1) id.rows = Z.of_nat (length values)) as ->.
  { unfold count_at. rewrite Hf. unfold t1. rewrite find_field_put_field by auto with exio.
    rewrite decide_True by done. cbn [f_value]. by rewrite atoi_print, size_t_small by lia. }
  rewrite Nat2Z.id. apply row_lines_all. exact Hr.
Qed.

Lemma simplelist_shown values name body : wf body -> default id.value name <> id.row_key ->
  Z.of_nat (length values) < 2 ^ 31 ->
  handle_table_response (formatreply_simplelist values name body) = lines values.
Proof.
  intros Hb Hcol Hl. unfold formatreply_simplelist. set (column := default id.value name) in *.
  set (body1 := put_field (put_field body id.resptype id.table) id.synthetic id.scalarlist).
  assert (wf body1) as Hb1 by (unfold body1; auto with exio).
  set (gC := fun columns => put_child_with (put_field columns id.msgcount "1") (id.msg_prefix +:+ "0")
    (fun c => put_field c id.colname column)).
  set (gT := fun tabledescr => put_child_with tabledescr id.columns gC).
  set (gU := fun tableupdate => simplelist_rows column 0 values
    (put_field tableupdate id.rows (print_unsigned (Z.of_nat (length values))))).
  set (g0 := fun respdata => put_child (put_child respdata id.tabledescr) id.tableupdate).
  change (handle_table_response (put_child_with body1 id.respdata (fun respdata =>
    put_child_with (put_child_with (g0 respdata) id.tabledescr gT) id.tableupdate gU)) = lines values).
  assert (wf_update gC) as HgC
    by (apply (wf_update_compose (fun c => put_child_with c (id.msg_prefix +:+ "0") _)); auto with exio).
  assert (wf_update gT) as HgT by (by apply wf_update_put_child_with).
  assert (wf_update gU) as HgU
    by (apply (wf_update_compose (simplelist_rows column 0 values)); [apply wf_update_simplelist_rows|auto with exio]).
  assert (wf_update g0) as Hg0
    by (apply (wf_update_compose (fun r => put_child r id.tableupdate)); apply wf_update_put_child_with, wf_update_id).
  assert (wf_update (fun respdata => put_child_with (put_child_with (g0 respdata) id.tabledescr gT) id.tableupdate gU)) as HgR.
  { apply (wf_update_compose (fun r => put_child_with r id.tableupdate gU)); [by apply wf_update_put_child_with|].
    by apply (wf_update_compose (fun r => put_child_with r id.tabledescr gT)); [apply wf_update_put_child_with|]. }
  assert (find_field body1 id.synthetic = Some (TxField id.synthetic id.scalarlist)) as Hsyn.
  { unfold body1. rewrite find_field_put_field by auto with exio. by rewrite decide_True. }
  unfold handle_table_response. rewrite find_field_put_child_with, Hsyn by auto with exio.
  rewrite (bool_decide_eq_true_2 (is_Some (Some _))) by (by eexists).
  rewrite find_child_put by done. set (r0 := g0 (child_or_new body1 id.respdata)).
  assert (wf r0) as Hr0 by (by apply Hg0, wf_child_or_new).
  assert (wf (put_child_with r0 id.tabledescr gT)) as Hr1 by (by apply wf_put_child_with).
  rewrite (find_child_put (put_child_with r0 id.tabledescr gT) id.tableupdate) by done.
  rewrite (find_child_put_child_with _ id.tableupdate gU id.tabledescr)
    by (auto with exio || apply HgU; apply wf_new_container).
  rewrite decide_False by done. rewrite (find_child_put r0 id.tabledescr) by done. cbn [mbind option_bind].
  assert (find_child (gT (child_or_new r0 id.tabledescr)) id.columns =
    Some (gC (child_or_new (child_or_new r0 id.tabledescr) id.columns))) as ->
    by (apply find_child_put; [by apply wf_child_or_new|done]).
  unfold gC. rewrite simplelist_column; [|by do 2 apply wf_child_or_new|done].
  rewrite orb_true_r. cbn [String.append].
  apply simplelist_lines; [by apply wf_child_or_new|done].
Qed.

(** ** The request, as the server takes it apart *)

Lemma tool_request_reads (o : ProgramOptions) (sid : Z) :
  o_cmd o <> EmptyString -> Z.of_nat (length (o_cmdargs o)) < 2 ^ 31 ->
  msg_type (tool_request o) = id.msg_request /\ command_of (tool_request o) = Some (o_cmd o) /\
  exists r, make_request (tool_request o) sid = Ok r /\ req_args r = o_cmdargs o /\
    req_id r = sid /\ req_reqseqno r = "0".
Proof.
  intros Hc Hl. set (body := put_field (new_container id.body) id.command (o_cmd o)).
  assert (wf body) as Hb by (apply wf_put_field, wf_new_container).
  set (root0 := put_child_with (put_field_qn (new_container id.msg_request) id.QN_command (o_cmd o)) id.head
    (fun head => put_field (put_field (put_field (put_field head id.dest (o_addr o +:+ ":" +:+ o_port o))
      id.source (o_serviceid o)) id.user (o_user o)) id.reqseqno "0")).
  pose proof (tool_request_wf o) as Hw. pose proof (wf_update_add_arguments (o_cmdargs o)) as Hga.
  assert (wf_update (fun b => add_arguments (o_cmdargs o) (put_field b id.command (o_cmd o)))) as Hg
    by (apply (wf_update_compose (add_arguments (o_cmdargs o))); auto with exio).
  assert (wf root0) as Hw0.
  { apply wf_put_child_with; [apply wf_put_field_qn, wf_new_container|].
    apply (wf_update_compose (fun h => put_field h id.reqseqno "0")); [auto with exio|].
    apply (wf_update_compose (fun h => put_field h id.user (o_user o))); [auto with exio|].
    apply (wf_update_compose (fun h => put_field h id.source (o_serviceid o))); auto with exio. }
  assert (m_root (tool_request o) = put_child_with root0 id.body
    (fun b => add_arguments (o_cmdargs o) (put_field b id.command (o_cmd o)))) as Hroot by done.
  assert (exists head, find_child root0 id.head = Some head /\ f_value <$> find_field head id.command = Some (o_cmd o)
    /\ f_value <$> find_field head id.reqseqno = Some "0") as (head & Hh & Hcmd & Hseq).
  { eexists. split; [vm_compute; reflexivity|]. split; vm_compute; reflexivity. }
  assert (find_child (m_root (tool_request o)) id.head = Some head) as Hhead.
  { rewrite Hroot, find_child_put_child_with by (auto with exio || apply Hg; apply wf_new_container).
    by rewrite decide_False. }
  split; [unfold msg_type; rewrite Hroot, m_name_put_child_with; vm_compute; reflexivity|]. split.
  { unfold command_of, command_at, find_field_qn. cbn [id.QN_command removelast find_tree_const].
    rewrite Hhead. cbn [mbind option_bind]. change (qname_last id.QN_command) with id.command.
    destruct (find_field head id.command) as [f|]; [|done]. injection Hcmd as Hv.
    rewrite bool_decide_eq_false_2 by congruence. by rewrite Hv. }
  destruct (make_request_args (o_cmdargs o) sid (tool_request o) head body Hw Hhead) as (r & E & Ha & _ & Hid);
    [|done|done|].
  { rewrite Hroot, find_child_put by done.
    replace (child_or_new root0 id.body) with (new_container id.body) by (vm_compute; reflexivity). done. }
  exists r. split; [done|]. split; [done|]. split; [done|].
  rewrite (make_request_seqno _ _ _ Hw E). unfold find_field_qn.
  cbn [id.QN_head_reqseqno removelast find_tree_const]. rewrite Hhead. cbn [mbind option_bind].
  change (qname_last id.QN_head_reqseqno) with id.reqseqno.
  destruct (find_field head id.reqseqno) as [f|]; [|done]. by injection Hseq.
Qed.

Lemma list_reply_shown (values : list string) (column seq : string) (l : AdminListener) :
  column <> id.row_key -> Z.of_nat (length values) < 2 ^ 31 ->
  handle_reponse (resp_msg (on_body (formatreply_simplelist values (Some column)) (plain_response seq))) l =
  trigger_close 0 (print (lines values) l).
Proof.
  intros Hc Hl. set (r0 := m_root (resp_msg (plain_response seq))).
  assert (wf r0) as Hw by apply (echoes_plain seq).
  set (g := formatreply_simplelist values (Some column)). assert (wf_update g) as Hg by apply wf_update_simplelist.
  unfold handle_reponse. cbn [on_body resp_msg on_root m_root]. fold r0.
  assert (forall x, find_field_qn (put_child_with r0 id.body g) [id.head; x] = find_field_qn r0 [id.head; x]) as Hhead.
  { intros x. unfold find_field_qn. cbn [removelast find_tree_const].
    rewrite find_child_put_child_with by (auto with exio || apply Hg; apply wf_new_container).
    by rewrite decide_False. }
  unfold has_pending, check_field_qn. cbn [m_root]. unfold id.QN_rescode, id.QN_restext, qn_pending. rewrite !Hhead.
  replace (find_field_qn r0 [id.head; id.rescode]) with (Some (TxField id.rescode "0")) by (vm_compute; reflexivity).
  replace (find_field_qn r0 [id.head; id.restext]) with (@None txField) by (vm_compute; reflexivity).
  replace (find_field_qn r0 [id.head; id.pending]) with (Some (TxField id.pending "0")) by (vm_compute; reflexivity).
  rewrite find_child_put by done.
  assert (wf (child_or_new r0 id.body)) as Hb by (by apply wf_child_or_new).
  assert (check_field (g (child_or_new r0 id.body)) id.resptype id.table = true) as ->.
  { unfold check_field, g, formatreply_simplelist.
    rewrite find_field_put_child_with by (apply wf_indexed; auto with exio).
    rewrite find_field_put_field by (apply wf_indexed; auto with exio). rewrite decide_False by done.
    rewrite find_field_put_field by auto with exio. rewrite decide_True by done. reflexivity. }
  unfold g. rewrite simplelist_shown by done. reflexivity.
Qed.

(** What the tool reads of a reply: the fields of its head but one, and its
    body. *)
Lemma handle_reponse_ext m m' l :
  (forall x, x <> id.msgtype -> find_field_qn (m_root m) [id.head; x] = find_field_qn (m_root m') [id.head; x]) ->
  find_child (m_root m) id.body = find_child (m_root m') id.body -> handle_reponse m l = handle_reponse m' l.
Proof.
  intros Hh Hb. unfold handle_reponse, has_pending, check_field_qn, id.QN_rescode, id.QN_restext, qn_pending.
  by rewrite !Hh, Hb by done.
Qed.

(** * Properties *)

(** The request the tool sends is the one the server understands: the
    server finds the command the user gave, reads back exactly the user's
    arguments, in order, and the tool's sequence number. *)
Theorem tool_request_understood (o : ProgramOptions) (sid : Z) :
  o_cmd o <> EmptyString -> Z.of_nat (length (o_cmdargs o)) < 2 ^ 31 ->
  msg_type (tool_request o) = id.msg_request /\ command_of (tool_request o) = Some (o_cmd o) /\
  exists r, make_request (tool_request o) sid = Ok r /\ req_args r = o_cmdargs o /\
    req_id r = sid /\ req_reqseqno r = "0".
Proof. apply tool_request_reads. Qed.

Definition test_options : ProgramOptions :=
  MkOptions "localhost" "5555" "table" ["show"; "prices"] 0 "1/admin:me@here" "me".

Lemma tool_request_understood_witness : exists r,
  make_request (tool_request test_options) 3 = Ok r /\ req_args r = ["show"; "prices"].
Proof.
  destruct (tool_request_understood test_options 3) as (_ & _ & r & E & Ha & _).
  - discriminate.
  - vm_compute. reflexivity.
  - exists r. split; [exact E|exact Ha].
Defined.

(** From the server's lists to the terminal: the reply to a command that
    lists names (as [help] and [table list] make it) makes the tool print each
    name on its own line, and nothing else, and end with exit code 0. *)
Theorem list_reply_displayed (values : list string) (column seq : string) (l : AdminListener) :
  column <> id.row_key -> Z.of_nat (length values) < 2 ^ 31 ->
  handle_reponse (resp_msg (on_body (formatreply_simplelist values (Some column)) (plain_response seq))) l =
  trigger_close 0 (print (lines values) l).
Proof. apply list_reply_shown. Qed.

Lemma list_reply_displayed_witness :
  handle_reponse (resp_msg (on_body (formatreply_simplelist ["orders"; "prices"] (Some "table")) (plain_response "0")))
    new_listener = trigger_close 0 (print (lines ["orders"; "prices"]) new_listener).
Proof.
  apply (list_reply_displayed ["orders"; "prices"] "table" "0" new_listener).
  - discriminate.
  - vm_compute. reflexivity.
Defined.

(** * Delivery to the tool's session *)

Definition test_tool : Tool :=
  MkTool new_listener (io_init (new_session 5 1 1000 true "here")) (new_client 5 1000 true).

Definition test_messages : list txMessage := [heartbeat_msg; logon_msg "svc"].

Lemma test_messages_ok :
  deliverable (SCB := session_sam_callback (SL := tool_listener test_options)) [] test_messages.
Proof.
  apply deliverable_Forall; [|done].
  apply Forall_cons. split; [|apply Forall_cons; split; [|constructor]];
    (split; [vm_compute; reflexivity|split; [apply wf_put_field_qn, wf_new_container|vm_compute; discriminate]]).
Qed.

(** The bytes of both messages, cut in the middle of the first one. *)
Definition test_events : list in_event :=
  [EvRead 1001 (take 20 (stream test_messages)); EvWork; EvSend 1001 [SendOk 3];
   EvRead 1002 (drop 20 (stream test_messages))].

Lemma test_events_ok : Forall read_ok test_events.
Proof. repeat constructor; vm_compute; discriminate. Qed.

Lemma test_tool_ready :
  session_after (SL := tool_listener test_options) [] (new_client 5 1000 true) (tool_session, test_tool).
Proof.
  split; [apply out_inv_new|]. split; [|reflexivity]. split; [exact I|].
  exists (t_session test_tool), (t_client test_tool). split; reflexivity.
Qed.

Lemma messages_delivered_witness : exists c' s',
  run_events (CB := session_callback (SL := tool_listener test_options)) (test_events ++ [EvWork])
    (new_client 5 1000 true, (tool_session, test_tool)) = Ok (c', s') /\
  session_received (SL := tool_listener test_options) s' = test_messages.
Proof.
  destruct (messages_delivered (SCB := session_sam_callback (SL := tool_listener test_options))
    (new_client 5 1000 true) (tool_session, test_tool) [] test_messages test_events) as (c' & s' & E & H).
  - reflexivity.
  - exact test_tool_ready.
  - exact test_messages_ok.
  - exact test_events_ok.
  - vm_compute. reflexivity.
  - vm_compute. reflexivity.
  - exists c', s'. split; [exact E|]. destruct H as (_ & _ & H). exact H.
Defined.
