(* ===== verification/Messages.v ===== *)
(** Messages the protocol carries unchanged, by how they are built.

    SAM writes names without escaping, so a message survives the trip when its
    names are clean.  The operations of [txContainer] keep a tree tidy (well
    formed, with clean names) when they are given clean names; the messages
    the library and the [admin] tool build are shown to be tidy for any texts
    they carry. *)

From S2P Require Import Prelude Decimal Utils TxContainer SamBuffer SamProtocol MsgIDs AdminCommand ReadBuffer Client Delivery Session AdminInterface Interface AdminTool.

Local Open Scope Z_scope.

(** * Tidy trees *)

Definition tidy (c : txContainer) : Prop := wf c /\ clean_contents c = true.

(** [g] keeps the name and the tidiness of what it modifies. *)
Definition tidy_update (g : txContainer -> txContainer) : Prop :=
  forall d, tidy d -> tidy (g d) /\ m_name (g d) = m_name d.

Lemma tidy_new n : tidy (new_container n).
Proof. split; [apply wf_new_container|done]. Qed.

Lemma clean_contents_items c : clean_contents c = true <-> Forall (fun it => clean_item it = true) (m_items c).
Proof.
  destruct c as [n items fm cm]. cbn [clean_contents m_items]. rewrite forallb_forall, Forall_forall.
  by setoid_rewrite list_elem_of_In.
Qed.

Lemma clean_add_internally it c : clean_contents c = true -> clean_item it = true ->
  clean_contents (add_internally it c) = true.
Proof.
  rewrite !clean_contents_items, m_items_add_internally. intros Hc Hi. apply Forall_app. split; [done|].
  by repeat constructor.
Qed.

Lemma tidy_update_put_field n v : clean_name n = true -> tidy_update (fun c => put_field c n v).
Proof.
  intros Hn c [Hw Hc]. split; [|apply m_name_put_field]. split; [by apply wf_put_field|]. unfold put_field.
  destruct (m_field_map c !! n) as [i|].
  - rewrite clean_contents_items in *. apply Forall_alter; [done|]. by intros [f|d] _ Hx.
  - apply clean_add_internally; [done|]. cbn. by rewrite Hn.
Qed.

Lemma tidy_update_wf g n : tidy_update g -> wf (g (new_container n)) /\ m_name (g (new_container n)) = n.
Proof. intros Hg. by destruct (Hg _ (tidy_new n)) as [[? _] ?]. Qed.

Lemma tidy_update_put_child n g : clean_name n = true -> tidy_update g -> tidy_update (fun c => put_child_with c n g).
Proof.
  intros Hn Hg c [Hw Hc]. split; [|apply m_name_put_child_with]. unfold put_child_with.
  destruct (m_child_map c !! n) as [i|] eqn:Ei.
  - assert (forall d, m_items c !! i = Some (ItemContainer d) -> tidy d) as Hd.
    { intros d Hd. split; [by eapply wf_child|]. rewrite clean_contents_items in Hc.
      pose proof (Forall_lookup_1 _ _ _ _ Hc Hd) as Hx. by apply andb_true_iff in Hx as [_ Hx]. }
    split.
    + apply wf_alter_child; [done|]. intros d Hx. by destruct (Hg d (Hd d Hx)) as [[? _] ?].
    + rewrite clean_contents_items in *. apply Forall_alter; [done|]. intros [f|d] Hx Hit; [done|].
      destruct (Hg d (Hd d Hx)) as [[_ Hcd] Hnd]. cbn in *. rewrite Hnd, Hcd. by apply andb_true_iff in Hit as [-> _].
  - destruct (Hg (new_container n) (tidy_new n)) as [[Hw1 Hc1] Hn1]. split.
    + apply wf_add_internally; [done| |done]. cbn. by rewrite Hn1.
    + apply clean_add_internally; [done|]. cbn. cbn in Hn1. by rewrite Hn1, Hn, Hc1.
Qed.

Lemma tidy_put_field c n v : clean_name n = true -> tidy c -> tidy (put_field c n v).
Proof. intros Hn Hc. by apply tidy_update_put_field. Qed.
Lemma tidy_put_child c n g : clean_name n = true -> tidy_update g -> tidy c -> tidy (put_child_with c n g).
Proof. intros Hn Hg Hc. by apply tidy_update_put_child. Qed.
Lemma tidy_update_tidy g c : tidy_update g -> tidy c -> tidy (g c).
Proof. intros Hg Hc. by apply Hg. Qed.
Lemma tidy_update_name g c : tidy_update g -> tidy c -> m_name (g c) = m_name c.
Proof. intros Hg Hc. by apply Hg. Qed.

(** Builds the tidiness of a tree along the calls that made it. *)
Ltac tidy_step :=
  first [ assumption
        | apply tidy_new
        | apply tidy_put_field; [reflexivity|]
        | apply tidy_put_child; [reflexivity| |]
        | match goal with |- tidy_update _ => intros ? ?; cbv beta zeta; split; [|repeat first [rewrite m_name_put_field|rewrite m_name_put_child_with]; reflexivity] end ].
Ltac tidy := repeat tidy_step.

(** ** Numbered names *)

Lemma digit_not_special c : isdigit c = true -> c <> VALUE_DELIM /\ c <> ESCAPE /\ c <> SEQ_END.
Proof. intros Hc. split_and!; intros ->; by vm_compute in Hc. Qed.

Lemma clean_numbered prefix i : clean_name prefix = true -> prefix <> EmptyString -> 0 <= i ->
  clean_name (prefix +:+ print_unsigned i) = true.
Proof.
  intros Hp Hne Hi. pose proof (dec_digits i Hi) as Hd. rewrite Forall_forall in Hd.
  unfold clean_name in *. rewrite !andb_true_iff, !bool_decide_eq_true in *. destruct Hp as [[Hv He] Hh].
  unfold print_unsigned. rewrite str_app, str_unstr. split; [split|].
  - rewrite elem_of_app. intros [?|Hx%Hd]; [done|]. by apply digit_not_special in Hx as (? & _).
  - rewrite elem_of_app. intros [?|Hx%Hd]; [done|]. by apply digit_not_special in Hx as (_ & ? & _).
  - by destruct prefix.
Qed.

(** * The messages of the tool *)

Lemma tidy_update_add_args i args : 0 <= i -> tidy_update (add_args_from i args).
Proof.
  revert i. induction args as [|a args IH]; intros i Hi c Hc; cbn [add_args_from]; [done|].
  assert (tidy_update (fun c => put_field c ("args_" +:+ print_unsigned i) a)) as Hg
    by (by apply tidy_update_put_field, clean_numbered).
  destruct (Hg c Hc) as [Hc' <-]. apply (IH (i + 1)); [lia|done].
Qed.

Lemma tidy_tool_request o : tidy (m_root (tool_request o)).
Proof.
  unfold tool_request, on_root, put_field_qn. cbn [m_root new_message id.QN_command removelast buid_tree qname_last].
  tidy. intros c Hc. assert (tidy (put_field (put_field c id.command (o_cmd o)) "args_COUNT"
    (print_unsigned (Z.of_nat (length (o_cmdargs o)))))) as H by tidy.
  destruct (tidy_update_add_args 0 (o_cmdargs o) ltac:(lia) _ H) as [H1 H2]. split; [done|].
  unfold add_arguments. by rewrite H2, !m_name_put_field.
Qed.

Lemma tidy_tool_logon o : tidy (m_root (tool_logon o)).
Proof.
  unfold tool_logon, on_root, put_field_qn. cbn [m_root new_message].
  case_bool_decide; cbn [m_root id.QN_serviceid id.QN_head_user id.QN_noautosub removelast buid_tree qname_last]; tidy.
Qed.

(** * The messages of the library *)

Lemma tidy_logon_msg serviceid : tidy (m_root (logon_msg serviceid)).
Proof.
  unfold logon_msg, on_root, put_field_qn. cbn [m_root new_message id.QN_serviceid removelast buid_tree qname_last]. tidy.
Qed.

(** The attributes of the commands have clean names. *)
Definition clean_attrs (admins : gmap string (AdminCommand Target)) : Prop :=
  forall name ac k v, admins !! name = Some ac -> ac_attrs ac !! k = Some v -> clean_name k = true.

Lemma tidy_put_fields l c : (forall kv, kv ∈ l -> clean_name kv.1 = true) -> tidy c ->
  tidy (foldl (fun b (kv : string * string) => put_field b kv.1 kv.2) c l) /\
  m_name (foldl (fun b (kv : string * string) => put_field b kv.1 kv.2) c l) = m_name c.
Proof.
  revert c. induction l as [|[k v] l IH]; intros c Hl Hc; [done|]. cbn [foldl fst snd].
  destruct (IH (put_field c k v)) as [H1 H2].
  - intros kv Hkv. apply Hl. by right.
  - apply tidy_put_field; [|done]. apply (Hl (k, v)). by left.
  - split; [done|]. by rewrite H2, m_name_put_field.
Qed.

Lemma tidy_admin_box adminset n ac : 0 <= n -> (forall k v, ac_attrs ac !! k = Some v -> clean_name k = true) ->
  tidy adminset -> tidy (admin_box adminset n ac) /\ m_name (admin_box adminset n ac) = m_name adminset.
Proof.
  intros Hn Ha Hc. unfold admin_box. apply tidy_update_put_child; [|clear -Ha|done].
  - unfold print_signed. destruct (Z.ltb_spec n 0); [lia|]. by apply clean_numbered.
  - intros box Hb. cbv zeta. match goal with |- context [foldl _ ?b0 _] => set (b := b0) end.
    destruct (tidy_put_fields (map_iter (ac_attrs ac)) b) as [H1 H2].
    + intros [k v] Hkv%elem_of_map_iter. by eapply Ha.
    + unfold b. tidy.
    + split; [done|]. rewrite H2. unfold b. by rewrite !m_name_put_field.
Qed.

Lemma tidy_admin_boxes acs n adminset : 0 <= n ->
  (forall ac, ac ∈ acs -> forall k v, ac_attrs ac !! k = Some v -> clean_name k = true) -> tidy adminset ->
  tidy (admin_boxes n acs adminset) /\ m_name (admin_boxes n acs adminset) = m_name adminset.
Proof.
  revert n adminset. induction acs as [|ac acs IH]; intros n adminset Hn Ha Hc; cbn [admin_boxes].
  { by apply tidy_update_put_field. }
  destruct (tidy_admin_box adminset n ac Hn (Ha ac ltac:(by left)) Hc) as [H1 <-].
  apply IH; [lia| |done]. intros ac' Hac. apply Ha. by right.
Qed.

Lemma tidy_serialise_admins w : clean_attrs (ai_admins w) -> tidy (m_root (serialise_admins w)).
Proof.
  intros Ha. unfold serialise_admins, on_root, put_field_qn, set_type. cbn [m_root id.QN_msgtype removelast buid_tree qname_last].
  tidy. intros c Hc. apply tidy_admin_boxes; [lia| |done].
  intros ac [[name ac'] [-> Hin]]%list_elem_of_fmap k v. apply elem_of_map_iter in Hin. by apply (Ha name).
Qed.

(** ** Responses *)

Lemma tidy_plain_response seq : tidy (m_root (resp_msg (plain_response seq))).
Proof.
  unfold plain_response, on_msg, set_pending, add_rescode, new_response, on_root, put_field_qn, put_child.
  cbn [resp_msg m_root qn_pending id.QN_rescode id.QN_head_reqseqno removelast buid_tree qname_last]. tidy.
Qed.

Lemma tidy_on_body g r : tidy_update g -> tidy (m_root (resp_msg r)) -> tidy (m_root (resp_msg (on_body g r))).
Proof. intros Hg Hr. by apply tidy_put_child. Qed.

Lemma tidy_update_string s : tidy_update (formatreply_string s).
Proof. unfold formatreply_string. tidy. Qed.

Lemma tidy_simplelist_rows column i values c : 0 <= i -> clean_name column = true -> tidy c ->
  tidy (simplelist_rows column i values c) /\ m_name (simplelist_rows column i values c) = m_name c.
Proof.
  revert i c. induction values as [|v values IH]; intros i c Hi Hcol Hc; cbn [simplelist_rows]; [done|]. cbv zeta.
  match goal with |- context [simplelist_rows _ _ _ ?d] => set (c1 := d) end.
  assert (tidy c1 /\ m_name c1 = m_name c) as [Hc1 <-].
  { apply tidy_update_put_child; [by apply clean_numbered| |done]. intros row Hr.
    split; [|by rewrite !m_name_put_field]. apply tidy_put_field; [done|]. tidy. }
  apply IH; [lia|done|done].
Qed.

Lemma tidy_update_simplelist values name : clean_name (default id.value name) = true ->
  tidy_update (formatreply_simplelist values name).
Proof.
  intros Hn. unfold formatreply_simplelist, put_child. tidy. intros t Ht.
  destruct (tidy_simplelist_rows (default id.value name) 0 values
    (put_field t id.rows (print_unsigned (Z.of_nat (length values))))) as [H1 H2]; [lia|done|tidy|].
  split; [done|]. by rewrite H2, m_name_put_field.
Qed.

(** A response as it is sent. *)
Lemma tidy_sent_form resp : tidy (m_root (resp_msg resp)) -> tidy (m_root (sent_form resp)).
Proof.
  intros Hr. unfold sent_form, copy_response, copy_message, on_root, put_field_qn, put_child.
  cbn [resp_msg m_root id.QN_msgtype removelast buid_tree qname_last]. rewrite clone_wf by apply Hr. tidy.
Qed.

Lemma tidy_sendable m : tidy (m_root m) -> clean_type (msg_type m) = true -> wire_length m <= max_msglen -> sendable m.
Proof. intros [Hw Hc] Ht Hl. split; [|done]. unfold clean. by rewrite Ht, Hc. Qed.
