(* ===== verification/TableMessages.v ===== *)
(** The messages of tables on the wire: that a table whose column names and
    attributes are clean only makes messages the protocol carries unchanged,
    and to which sessions it sends them. *)

From S2P Require Import Prelude Decimal Utils TxContainer SamBuffer SamProtocol MsgIDs TableEvents Table TableFacts Snapshot TableProps ReadBuffer Client Delivery Monitor MonitorView Messages.

Local Open Scope Z_scope.

(** * Messages *)

Definition tidy_message (m : txMessage) : Prop := tidy (m_root m) /\ clean_type (msg_type m) = true.

Definition clean_keys (m : gmap string string) : Prop := forall k v, m !! k = Some v -> clean_name k = true.

Definition clean_child (c : txContainer) : Prop := tidy c /\ clean_name (m_name c) = true.

Lemma tidy_update_put_fields l : (forall kv, kv ∈ l -> clean_name kv.1 = true) ->
  tidy_update (fun c => foldl (fun b (kv : string * string) => put_field b kv.1 kv.2) c l).
Proof. intros Hl c Hc. by apply tidy_put_fields. Qed.

Lemma tidy_update_put_copy d : clean_child d -> tidy_update (fun c => put_child_copy c d).
Proof.
  intros [[Hw Hc] Hn] c [Hcw Hcc]. unfold put_child_copy, put_child_copy_with. destruct (m_child_map c !! m_name d) as [i|] eqn:Ei.
  - split; [|done]. split.
    + apply wf_alter_child; [done|]. intros e He. unfold id. rewrite assign_clone, clone_wf by done.
      split; [done|]. destruct (idx_child c (wf_indexed _ Hcw) _ _ Ei) as (e' & He' & Hne). rewrite He in He'.
      by injection He' as <-.
    + rewrite clean_contents_items in Hcc |- *. apply Forall_alter; [done|]. intros [f|e] Hx Hit; [done|].
      cbn. unfold id. rewrite assign_clone, clone_wf by done. by rewrite Hn, Hc.
  - split; [|done]. unfold id. rewrite clone_wf by done. split; [by apply wf_add_internally|].
    apply clean_add_internally; [done|]. cbn. by rewrite Hn, Hc.
Qed.

Lemma tidy_update_foldl {A} (g : A -> txContainer -> txContainer) l : (forall a, a ∈ l -> tidy_update (g a)) ->
  tidy_update (fun c => foldl (fun c a => g a c) c l).
Proof.
  induction l as [|a l IH]; intros Hg c Hc; [done|]. cbn [foldl].
  destruct (Hg a ltac:(by left) c Hc) as [Hc1 <-]. apply IH; [|done]. intros b Hb. apply Hg. by right.
Qed.

(** ** Updates *)

Lemma tidy_init_msg n k : tidy (m_root (UpdateSerialiser_init_msg (new_message EmptyString) n k)).
Proof.
  unfold UpdateSerialiser_init_msg, on_root, set_type, put_field_qn.
  cbn [m_root new_message id.QN_tablename id.QN_msgtype removelast buid_tree qname_last]. tidy.
Qed.

Lemma tidy_add_update c v m : clean_name c = true -> tidy (m_root m) ->
  tidy (m_root (UpdateSerialiser_add_update c v m).1).
Proof.
  intros Hc Hm. cbn [UpdateSerialiser_add_update fst on_root m_root].
  apply tidy_put_child; [done| |done]. apply tidy_update_put_child; [done|]. by apply tidy_update_put_field.
Qed.

Lemma update_message_tidy n k fields msglist m : clean_keys fields ->
  RowMultiUpdate_serialise n k fields msglist = Ok (msglist ++ [m]) -> tidy_message m.
Proof.
  intros Hf E. destruct (update_message_one n k fields msglist m E) as (row & _ & [Ht _] & _).
  split; [|by rewrite Ht]. destruct (RowMultiUpdate_serialise_one n k fields msglist) as (m' & E' & Hm').
  rewrite E in E'. injection E' as E'. apply app_inj_tail in E' as [_ <-]. rewrite Hm'.
  assert (forall kv, kv ∈ map_iter fields -> clean_name kv.1 = true) as Hl.
  { intros [c v] Hkv%elem_of_map_iter. by eapply Hf. }
  clear Hm' E Ht. pose proof (tidy_init_msg n k) as H. revert H Hl.
  generalize (UpdateSerialiser_init_msg (new_message EmptyString) n k).
  induction (map_iter fields) as [|[c v] l IH]; intros m0 Hm Hl; [done|]. cbn [foldl fst snd]. apply IH.
  - apply tidy_add_update; [|done]. apply (Hl (c, v)). by left.
  - intros kv Hkv. apply Hl. by right.
Qed.

Lemma clear_message_tidy n : tidy_message (TableClearSerialise_init_msg (new_message EmptyString) n).
Proof.
  split; [|reflexivity]. unfold TableClearSerialise_init_msg, on_root, set_type, put_field_qn.
  cbn [m_root new_message id.QN_tablename id.QN_msgtype removelast buid_tree qname_last]. tidy.
Qed.

Lemma rowdel_message_tidy n k msglist : exists m, RowRemoved_serialise n k msglist = msglist ++ [m] /\ tidy_message m.
Proof.
  eexists. split; [reflexivity|]. split; [|reflexivity]. unfold on_root, set_type, put_field_qn.
  cbn [m_root new_message id.QN_tablename id.QN_msgtype removelast buid_tree qname_last]. tidy.
Qed.

(** Events whose names are clean. *)
Definition clean_event (ev : TableEvent) : Prop :=
  match ev with
  | RowMultiUpdate _ _ fields => clean_keys fields
  | PCMDEvent _ _ _ _ => False
  | _ => True
  end.

Lemma serialise_tidy ev msglist : clean_event ev -> exists msgs,
  serialise ev msglist = Ok (msglist ++ msgs) /\ Forall tidy_message msgs.
Proof.
  intros Hev. destruct ev as [t c|t k|t k|t k evf|t|t k c meta]; cbn [serialise clean_event] in *; try done.
  - exists []. by rewrite app_nil_r.
  - exists []. by rewrite app_nil_r.
  - destruct (rowdel_message_tidy t k msglist) as (m & -> & Hm). exists [m]. split; [done|]. by apply Forall_singleton.
  - destruct (RowMultiUpdate_serialise_one t k evf msglist) as (m & E & _). exists [m]. split; [done|].
    apply Forall_singleton. by eapply update_message_tidy.
  - eexists [_]. split; [reflexivity|]. apply Forall_singleton, clear_message_tidy.
Qed.

Lemma serialise_all_tidy evs : Forall clean_event evs -> forall msglist, exists msgs,
  serialise_all evs msglist = Ok (msglist ++ msgs) /\ Forall tidy_message msgs.
Proof.
  induction 1 as [|ev evs Hev Hevs IH]; intros msglist; cbn [serialise_all].
  { exists []. by rewrite app_nil_r. }
  destruct (serialise_tidy ev msglist Hev) as (m1 & -> & H1). cbn [mbind result_bind].
  destruct (IH (msglist ++ m1)) as (m2 & -> & H2). exists (m1 ++ m2). rewrite app_assoc. split; [done|].
  by apply Forall_app.
Qed.


(** ** Snapshots and descriptions *)

(** A table whose rows, metas and attributes have clean names. *)
Record clean_table (t : DataTable) : Prop := {
  ct_rows : Forall (fun row => clean_keys (m_fields row)) (m_rows t);
  ct_attrs : forall c l a, m_column_attrs t !! c = Some l -> a ∈ l -> clean_child a;
  ct_metas : forall k metas f a, m_pcmd t !! k = Some metas -> metas !! f = Some a -> clean_child a }.

Lemma clean_table_metas t : clean_table t -> metas_wf t.
Proof. intros Ht k metas f c Hk Hf. by destruct (ct_metas t Ht k metas f c Hk Hf) as [[? _] _]. Qed.

Lemma tidy_update_body_add row meta : clean_keys (m_fields row) ->
  (forall metas f a, meta = Some metas -> metas !! f = Some a -> clean_child a) ->
  tidy_update (snapshot_body_add row meta).
Proof.
  intros Hr Hm body Hb. unfold snapshot_body_add. cbv zeta. set (rowname := _ +:+ _).
  assert (clean_name rowname = true) as Hn by (apply clean_numbered; [done|done|lia]).
  set (g := fun c => match meta with Some _ => _ | None => _ end).
  assert (tidy_update g) as Hg.
  { unfold g. intros c Hc.
    destruct (tidy_update_put_fields (map_iter (m_fields row)) ltac:(intros [k v] Hkv%elem_of_map_iter; by eapply Hr) c Hc)
      as [H1 H2].
    destruct meta as [metas|]; [|done]. rewrite <-H2.
    apply (tidy_update_foldl (fun (kv : string * txContainer) c => put_child_copy c kv.2) (map_iter metas)); [|done].
    intros [f a] Hkv%elem_of_map_iter. by apply tidy_update_put_copy, (Hm metas f). }
  destruct (tidy_update_put_child rowname g Hn Hg body Hb) as [H1 H2].
  split; [by apply tidy_put_field|]. by rewrite m_name_put_field, H2.
Qed.

Lemma snapshot_batch_tidy t rows : clean_table t -> Forall (fun row => clean_keys (m_fields row)) rows ->
  tidy (m_root (snapshot_batch t rows)).
Proof.
  intros Ht Hr. unfold snapshot_batch.
  assert (tidy (m_root (snapshot_set_table_name (m_table_name t) snapshot_empty_msg))) as H0.
  { unfold snapshot_set_table_name, snapshot_empty_msg, on_root, put_field_qn.
    cbn [m_root new_message id.QN_tablename id.QN_msgtype id.QN_body_rows removelast buid_tree qname_last]. tidy. }
  revert H0. generalize (snapshot_set_table_name (m_table_name t) snapshot_empty_msg).
  induction Hr as [|row rows Hrow Hr IH]; intros m Hm; [done|]. cbn [foldl]. apply IH.
  cbn [snapshot_add_row on_root m_root]. apply tidy_put_child; [done| |done].
  apply tidy_update_body_add; [done|]. intros metas f a Hk Ha. by apply (ct_metas t Ht (m_rowkey row) metas f a).
Qed.

Lemma number_one_tidy i n m : tidy (m_root m) -> tidy (m_root (number_one i n m)).
Proof.
  intros Hm. unfold number_one, on_root, put_field_qn.
  cbn [m_root id.QN_head_snapi id.QN_head_snapn removelast buid_tree qname_last]. tidy.
Qed.

Lemma snapshot_tidy t i n batches : clean_table t -> Forall (Forall (fun row => clean_keys (m_fields row))) batches ->
  Forall tidy_message (number_snapshot i n (map (snapshot_batch t) batches)).
Proof.
  intros Ht Hb. revert i. induction Hb as [|rows batches Hr Hb IH]; intros i; cbn [map number_snapshot]; [done|].
  apply Forall_cons. split; [|apply IH]. fold (number_one i n (snapshot_batch t rows)).
  pose proof (clean_table_metas t Ht) as Hm.
  split; [by apply number_one_tidy, snapshot_batch_tidy|].
  destruct (number_one_about (m_table_name t) i n (snapshot_batch t rows)) as [-> _]; [|by apply snapshot_batch_about|done].
  apply (snapshot_batch_holds t rows Hm).
Qed.

Lemma tidy_update_add_column column : (forall l a, column.2 = Some l -> a ∈ l -> clean_child a) ->
  tidy_update (fun columns =>
    let ncols := Z.of_nat (count_child columns) in
    let columns := put_child_with columns (id.msg_prefix +:+ print_unsigned ncols) (fun colcont =>
      let colcont := put_field colcont id.colname (column : string * option (list txContainer)).1 in
      foldl put_child_copy colcont (default [] column.2)) in
    put_field columns id.msgcount (to_str (ncols + 1))).
Proof.
  intros Ha columns Hc. cbv zeta. set (name := _ +:+ _). set (g := fun colcont => foldl _ _ _).
  assert (clean_name name = true) as Hn by (apply clean_numbered; [done|done|lia]).
  assert (tidy_update g) as Hg.
  { intros c Hcc. unfold g. pose proof (tidy_put_field c id.colname column.1 eq_refl Hcc) as H1.
    pose proof (m_name_put_field c id.colname column.1) as <-.
    apply (tidy_update_foldl (fun a c => put_child_copy c a) (default [] column.2)); [|done].
    intros a Ha'. apply tidy_update_put_copy. destruct (column.2) as [l|] eqn:El; [by eapply Ha|]. by apply not_elem_of_nil in Ha'. }
  destruct (tidy_update_put_child name g Hn Hg columns Hc) as [H1 H2].
  split; [by apply tidy_put_field|]. by rewrite m_name_put_field, H2.
Qed.

Lemma table_description_tidy t : clean_table t -> tidy_message (table_description t).
Proof.
  intros Ht. destruct (table_description_about t) as [Hty _]. split; [|by rewrite Hty]. unfold table_description.
  assert (tidy (m_root (tabledescr_new (m_table_name t)))) as H0.
  { unfold tabledescr_new, on_root, put_field_qn, put_child_qn_with.
    cbn [m_root new_message id.QN_tablename id.QN_msgtype id.QN_columns removelast buid_tree qname_last]. tidy. }
  revert H0. generalize (tabledescr_new (m_table_name t)).
  induction (known_columns t) as [|c cols IH]; intros m Hm; [done|]. cbn [fmap list_fmap foldl]. apply IH.
  unfold tabledescr_add_column, on_root, put_child_qn_with. cbn [m_root id.QN_columns removelast buid_tree qname_last].
  apply tidy_put_child; [done| |done]. apply tidy_update_put_child; [done|].
  apply (tidy_update_add_column (c, m_column_attrs t !! c)). intros l a Hl Ha. by eapply ct_attrs.
Qed.

(** * What the operations of a table send *)

Definition target (o : send) : Z := match o with SendOne _ s | SendList _ s => s end.
Definition send_msgs (o : send) : list txMessage := match o with SendOne m _ => [m] | SendList ms _ => ms end.

(** To a session in [P], and only messages that survive the trip. *)
Definition good_send (P : Z -> Prop) (o : send) : Prop := P (target o) /\ Forall tidy_message (send_msgs o).

(** [op] keeps [C] of the table, makes only calls in [G], and ends with a value
    or an exception. *)
Definition guards (C : DataTable -> Prop) (G : send -> Prop) (op : table_op unit) : Prop :=
  forall t, table_inv t -> C t ->
  C (state_after (op t)) /\ Forall G (outputs (op t)) /\ SamProtocol.defined (outcome (op t)).

(** [op] keeps the table clean and makes good calls only. *)
Definition emits (P : Z -> Prop) : table_op unit -> Prop := guards clean_table (good_send P).

Section emits.
Context (e : env) (P : Z -> Prop) (HP : forall s, Table.session_exists e s = true -> P s).

Lemma clean_keys_insert k v m : clean_name k = true -> clean_keys m -> clean_keys (<[k := v]> m).
Proof. intros Hk Hm k' v'. rewrite lookup_insert_Some. intros [[<- _]|[_ ?]]; [done|by eapply Hm]. Qed.

Lemma update_fold_clean l ours ev : (forall kv, kv ∈ l -> clean_name kv.1 = true) -> clean_keys ours ->
  clean_keys (default ∅ ev) ->
  clean_keys (foldl update_one (ours, ev) l).1 /\ clean_keys (default ∅ (foldl update_one (ours, ev) l).2).
Proof.
  revert ours ev. induction l as [|[k v] l IH]; intros ours ev Hl Ho He; [done|]. cbn [foldl update_one fst snd].
  assert (clean_name k = true) as Hk by (apply (Hl (k, v)); by left).
  assert (forall kv, kv ∈ l -> clean_name kv.1 = true) as Hl' by (intros kv Hkv; apply Hl; by right).
  destruct (reserved k); [by apply IH|]. case_bool_decide; [by apply IH|].
  apply IH; [done|by apply clean_keys_insert|]. cbn. by apply clean_keys_insert.
Qed.

Lemma update_fields_clean now fields row : clean_keys fields -> clean_keys (m_fields row) ->
  clean_keys (m_fields (update_fields now fields row).1.1) /\ Forall clean_event (update_fields now fields row).1.2.
Proof.
  intros Hf Hr. unfold update_fields.
  destruct (update_fold_clean (map_iter fields) (m_fields row) None) as [H1 H2];
    [intros [k v] Hkv%elem_of_map_iter; by eapply Hf|done|done|].
  destruct (foldl update_one (m_fields row, None) (map_iter fields)) as [ours [ev|]]; cbn [fst snd default] in *; [|done].
  split; [by apply clean_keys_insert|]. apply Forall_singleton. by apply clean_keys_insert.
Qed.

Lemma update_rows_clean fields rows : clean_keys fields -> Forall (fun row => clean_keys (m_fields row)) rows ->
  Forall (fun row => clean_keys (m_fields row)) (update_rows e fields rows).1 /\
  Forall clean_event (update_rows e fields rows).2.
Proof.
  intros Hf. induction 1 as [|row rows Hr Hrs [IH1 IH2]]; cbn [update_rows]; [done|].
  destruct (update_fields_clean (local_time e) fields row Hf Hr) as [H1 H2].
  destruct (update_fields (local_time e) fields row) as [[row' ev] ch]. destruct (update_rows e fields rows) as [rows' evs].
  cbn [fst snd] in *. split; [by constructor|]. by apply Forall_app.
Qed.

Lemma clean_table_rows rows ix t : Forall (fun row => clean_keys (m_fields row)) rows -> clean_table t ->
  clean_table (set_rows rows ix t).
Proof. intros Hr Ht. split; [done|apply Ht|apply Ht]. Qed.

Lemma add_column_clean c t : clean_name c = true -> clean_table t ->
  clean_table (add_column_NOLOCK e c t).1 /\ Forall clean_event (add_column_NOLOCK e c t).2.
Proof.
  intros Hc Ht. unfold add_column_NOLOCK. destruct (m_column_index t !! c); [done|].
  destruct (update_rows_clean {[c := EmptyString]} (m_rows t)) as [H1 H2];
    [intros k v [<- _]%lookup_singleton_Some; done|apply Ht|].
  destruct (update_rows e _ (m_rows t)) as [rows evs]. cbn [fst snd] in *. split; [|by constructor].
  apply clean_table_rows; [done|]. split; apply Ht.
Qed.

Lemma add_columns_clean cols t : Forall (fun c => clean_name c = true) cols -> clean_table t ->
  clean_table (add_columns_NOLOCK e cols t).1 /\ Forall clean_event (add_columns_NOLOCK e cols t).2.
Proof.
  intros Hc. revert t. induction Hc as [|c cols Hc Hcs IH]; intros t Ht; cbn [add_columns_NOLOCK]; [done|].
  destruct (add_column_clean c t Hc Ht) as [H1 H2]. destruct (add_column_NOLOCK e c t) as [t1 ev]. cbn [fst snd] in *.
  destruct (IH t1 H1) as [H3 H4]. destruct (add_columns_NOLOCK e cols t1) as [t2 evs]. cbn [fst snd] in *.
  split; [done|]. by apply Forall_app.
Qed.

Lemma published_good t msgs : Forall tidy_message msgs -> Forall (good_send P) (published e t msgs).
Proof.
  intros Hm. unfold published. apply Forall_forall. intros o (m & Hin & Ho)%list_elem_of_In%in_flat_map.
  apply in_map_iff in Ho as (s & <- & Hs). rewrite Forall_forall in Hm. split; cbn [target send_msgs].
  - apply list_elem_of_In, list_elem_of_filter in Hs as [Hs _]. by apply HP.
  - apply Forall_singleton, Hm. by apply list_elem_of_In.
Qed.

Lemma publish_good evs t : Forall clean_event evs -> exists outs,
  nolock_publish_update e evs t = (t, outs, Ok ()) /\ Forall (good_send P) outs.
Proof.
  intros Hev. destruct (publish_spec e evs t) as (msgs & Es & ->). eexists. split; [done|].
  destruct (serialise_all_tidy evs Hev []) as (msgs' & Es' & Hm). rewrite Es in Es'. injection Es' as ->.
  by apply published_good.
Qed.

(** Publishing the events of a change. *)
Lemma emits_publish (op : DataTable -> DataTable * list TableEvent) :
  (forall t, clean_table t -> clean_table (op t).1 /\ Forall clean_event (op t).2) ->
  emits P (t ← get; let '(t, evs) := op t in put t;;
    if bool_decide (length evs = 0%nat) then mret () else nolock_publish_update e evs).
Proof.
  intros Hop t _ Ht. destruct (Hop t Ht) as [H1 H2]. unfold mbind, eff_bind, get, put.
  destruct (op t) as [t' evs]. cbn [fst snd] in *. case_bool_decide; [done|].
  by destruct (publish_good evs t' H2) as (outs & -> & Ho).
Qed.

Lemma emits_add_columns cols : Forall (fun c => clean_name c = true) cols -> emits P (Table.add_columns e cols).
Proof. intros Hc. apply (emits_publish (add_columns_NOLOCK e cols)). intros t. by apply add_columns_clean. Qed.

Lemma update_indexed_clean k fields t t' evs : clean_keys fields -> clean_table t ->
  update_indexed_row e k fields t = Ok (t', evs) -> clean_table t' /\ Forall clean_event evs.
Proof.
  intros Hf Ht E. unfold update_indexed_row in E. destruct (m_rows t !! _) as [row|] eqn:Er; [|done].
  assert (clean_keys (m_fields row)) as Hr by (exact (Forall_lookup_1 _ _ _ _ (ct_rows t Ht) Er)).
  destruct (update_fields_clean (local_time e) fields row Hf Hr) as [H1 H2].
  destruct (update_fields (local_time e) fields row) as [[row' ev] ch]. cbn [fst snd] in *. injection E as <- <-.
  split; [|done]. apply clean_table_rows; [|done]. apply Forall_insert; [apply Ht|done].
Qed.

Lemma emits_update_row k fields : clean_keys fields -> emits P (Table.update_row e k fields).
Proof.
  intros Hf t Hi Ht. destruct (update_row_spec e k fields t Hi) as (t' & evs' & msgs & Eu & _).
  assert (SamProtocol.defined (outcome (Table.update_row e k fields t))) as Hd by (by rewrite Eu). clear Eu.
  unfold Table.update_row, mbind, eff_bind, get, put in *.
  set (p := if nolock_has_row t k then (t, []) else nolock_add_row k t) in *.
  assert (clean_table p.1 /\ Forall clean_event p.2) as [Hp1 Hp2].
  { unfold p. destruct (nolock_has_row t k); [done|]. cbn [nolock_add_row fst snd]. split; [|by constructor].
    apply clean_table_rows; [|done]. apply Forall_app. split; [apply Ht|]. apply Forall_singleton.
    intros f v Hv. unfold new_row in Hv. cbn [m_fields] in Hv. by apply lookup_singleton_Some in Hv as [<- _]. }
  destruct p as [t1 ev1]. cbn [fst snd] in *.
  destruct (add_columns_clean (filter (fun c => reserved c = false) (map_iter fields).*1) t1) as [H3 H4]; [|done|].
  { apply Forall_forall. intros c [_ Hc]%list_elem_of_filter. apply map_iter_fst_elem in Hc as [v Hv]. by eapply Hf. }
  destruct (add_columns_NOLOCK e _ t1) as [t2 ev2]. cbn [fst snd] in *.
  destruct (update_indexed_row e k fields t2) as [[t3 ev3]|ex] eqn:E; cbn [of_result] in *; [|done].
  destruct (update_indexed_clean k fields t2 t3 ev3 Hf H3 E) as [H5 H6].
  case_bool_decide; [done|]. destruct (publish_good (ev1 ++ ev2 ++ ev3) t3) as (outs & -> & Ho); [|done].
  by repeat (apply Forall_app; split).
Qed.

Lemma emits_clear : emits P (Table.clear_table e).
Proof.
  intros t _ Ht. unfold Table.clear_table, mbind, eff_bind, modify, get.
  set (t' := set_rows [] ∅ t). destruct (publish_good [TableCleared (m_table_name t')] t') as (outs & -> & Ho).
  - by repeat constructor.
  - split; [by apply clean_table_rows|done].
Qed.

End emits.

Lemma emits_column_attr P c a : clean_child a -> emits P (modify (Table.add_column_attr c a)).
Proof.
  intros Ha t _ Ht. split; [|by split; constructor]. split; [apply Ht| |apply Ht]. cbn. intros c' l x.
  rewrite lookup_insert_Some. intros [[<- <-]|[_ Hl]] Hx; [|by eapply ct_attrs].
  apply elem_of_app in Hx as [Hx| ->%list_elem_of_singleton].
  - destruct (m_column_attrs t !! c) as [l|] eqn:El; [by eapply ct_attrs|]. by apply not_elem_of_nil in Hx.
  - destruct Ha as [[Hw Hc] Hn]. by rewrite clone_wf.
Qed.

(** ** Joining *)

Lemma clean_table_batchsize b t : clean_table t -> clean_table (set_batchsize b t).
Proof. intros Ht. split; apply Ht. Qed.

Lemma concat_Forall {A} (Q : A -> Prop) (ls : list (list A)) : Forall Q (concat ls) -> Forall (Forall Q) ls.
Proof.
  induction ls as [|l ls IH]; cbn [concat]; [constructor|]. intros [H1 H2]%Forall_app. constructor; auto.
Qed.

Lemma emits_add_subscriber (P : Z -> Prop) s : P s -> emits P (add_subscriber s).
Proof.
  intros Hs t Hi Ht. unfold add_subscriber, mbind, eff_bind, modify, get, emit.
  set (t1 := set_subscribers (m_subscribers t ++ [s]) t).
  assert (clean_table t1) as Ht1 by (split; apply Ht). assert (table_inv t1) as Hi1 by (split; apply Hi).
  assert (good_send P (SendOne (table_description t1) s)) as Hd
    by (split; [done|]; apply Forall_singleton, table_description_tidy, Ht1).
  unfold nolock_send_snapshopt, mbind, eff_bind, get, of_result, emit, modify.
  pose proof (snapshot_loop_spec (length (m_rows t1) + Z.to_nat (m_batchsize t1)) t1 (m_batchsize t1) (m_rows t1)) as Hl.
  pose proof (ti_batch t1 Hi1). specialize (Hl ltac:(lia) ltac:(lia)).
  destruct (snapshot_loop _ t1 (m_batchsize t1) (m_rows t1)) as [[msgs b]|ex]; cbn [state_after outputs fst snd app].
  - destruct Hl as (batches & Hcat & -> & _). split; [by apply clean_table_batchsize|]. split; [|done].
    constructor; [done|]. apply Forall_singleton. split; [done|]. cbn [send_msgs]. apply snapshot_tidy; [done|].
    apply concat_Forall. rewrite Hcat. apply Ht1.
  - destruct Hl as [-> _]. split; [done|]. split; [by apply Forall_singleton|done].
Qed.

(** * Guarded operations of the monitor *)

Definition tables_are (C : DataTable -> Prop) (M : Monitor) : Prop := forall n t, M !! n = Some t -> C t.

Definition clean_monitor : Monitor -> Prop := tables_are clean_table.

Definition monitor_guards (C : DataTable -> Prop) (G : send -> Prop) (op : monitor_op unit) : Prop :=
  forall M, monitor_inv M -> tables_are C M ->
  tables_are C (state_after (op M)) /\ Forall G (outputs (op M)) /\ SamProtocol.defined (outcome (op M)).

Definition monitor_emits (P : Z -> Prop) : monitor_op unit -> Prop := monitor_guards clean_table (good_send P).

Section guards.
Context (C : DataTable -> Prop) (G : send -> Prop).

Lemma guards_catch op : guards C G op -> guards C G (catch_std op).
Proof.
  intros Hop t Hi Ht. specialize (Hop t Hi Ht) as (H1 & H2 & H3). unfold catch_std. destruct (op t) as [[t' w] r].
  cbn [state_after outputs outcome fst snd] in *. split_and!; [done|done|]. by destruct r as [|[]].
Qed.

Lemma guards_for_each {A} (f : A -> table_op unit) l : (forall a, a ∈ l -> guards C G (f a)) -> (forall a, keeps (f a)) ->
  guards C G (for_each f l).
Proof.
  intros Hf Hk. induction l as [|a l IH]; intros t Hi Ht; [split_and!; [done|constructor|done]|]. cbn [for_each]. unfold mbind, eff_bind.
  destruct (Hf a ltac:(by left) t Hi Ht) as (H1 & H2 & Hd). destruct (Hk a t Hi) as [Hi1 _].
  destruct (f a t) as [[t1 w1] [[]|ex]]; cbn [state_after outputs outcome fst snd] in *; [|done].
  destruct (IH ltac:(intros b Hb; apply Hf; by right) t1 Hi1 H1) as (H3 & H4 & Hd').
  destruct (for_each f l t1) as [[t2 w2] r]. cbn [state_after outputs outcome fst snd] in *. split_and!; [done| |done].
  by apply Forall_app.
Qed.

Lemma on_table_guards n op M : guards C G op -> monitor_inv M -> tables_are C M -> is_Some (M !! n) ->
  let r := on_table n op M in
  tables_are C (state_after r) /\ Forall G (outputs r) /\ SamProtocol.defined (outcome r) /\
  forall n', is_Some (M !! n') -> is_Some (state_after r !! n').
Proof.
  intros Hop HM Hc [t E]. unfold on_table. rewrite E. destruct (HM n t E) as [_ Hi].
  destruct (Hop t Hi (Hc n t E)) as (H1 & H2 & H3). destruct (op t) as [[t' w] r].
  cbn [state_after outputs outcome fst snd] in *. split_and!; [|done|done|].
  - intros n' u. rewrite lookup_insert_Some. intros [[_ <-]|[_ Hu]]; [done|by eapply Hc].
  - intros n' Hn'. rewrite lookup_insert_is_Some'. by right.
Qed.

Lemma for_names_guards op l M : keeps op -> guards C G op -> monitor_inv M -> tables_are C M ->
  (forall n, n ∈ l -> is_Some (M !! n)) ->
  let r := for_each (fun n => on_table n op) l M in
  tables_are C (state_after r) /\ Forall G (outputs r) /\ SamProtocol.defined (outcome r).
Proof.
  intros Hk Hop. revert M. induction l as [|n l IH]; intros M HM Hc Hl; [split_and!; [done|constructor|done]|].
  cbn [for_each]. unfold mbind, eff_bind.
  destruct (on_table_guards n op M Hop HM Hc (Hl n ltac:(by left))) as (H1 & H2 & H3 & H4).
  pose proof (on_table_inv n op M Hk HM) as HM1.
  destruct (on_table n op M) as [[M1 w1] [[]|ex]]; cbn [state_after outputs outcome fst snd] in *; [|done].
  destruct (IH M1 HM1 H1 ltac:(intros n' Hn'; apply H4, Hl; by right)) as (H5 & H6 & H7).
  destruct (for_each _ l M1) as [[M2 w2] r]. cbn [state_after outputs outcome fst snd] in *. split_and!; [done| |done].
  by apply Forall_app.
Qed.

Lemma for_tables_guards op : keeps op -> guards C G op -> monitor_guards C G (for_tables op).
Proof.
  intros Hk Hop M HM Hc. unfold for_tables. rewrite (eff_bind_quiet get _ M M M eq_refl).
  apply for_names_guards; [done..|]. intros n Hn. by apply map_iter_fst_elem.
Qed.

Lemma on_existing_guards n op : guards C G op -> monitor_guards C G (on_existing n op).
Proof.
  intros Hop M HM Hc. unfold on_existing. rewrite (eff_bind_quiet get _ M M M eq_refl).
  destruct (M !! n) eqn:E; [|split_and!; [done|constructor|done]].
  destruct (on_table_guards n op M Hop HM Hc (mk_is_Some _ _ E)) as (H1 & H2 & H3 & _). done.
Qed.

Lemma on_or_create_guards sessions n op : C (new_table n) -> (forall s, s ∈ sessions -> guards C G (add_subscriber s)) ->
  guards C G op -> monitor_guards C G (on_or_create sessions n op).
Proof.
  intros Hnew Hs Hop M HM Hc. unfold on_or_create. rewrite (eff_bind_quiet get _ M M M eq_refl).
  destruct (M !! n) as [t|] eqn:E.
  { destruct (on_table_guards n op M Hop HM Hc (mk_is_Some _ _ E)) as (H1 & H2 & H3 & _). done. }
  unfold mbind, eff_bind, create_table_NOLOCK.
  destruct (guards_for_each add_subscriber sessions Hs keeps_add_subscriber (new_table n) (table_inv_new n) Hnew)
    as (Hc1 & Ho1 & Hd1).
  destruct (keeps_for_each add_subscriber sessions keeps_add_subscriber _ (table_inv_new n)) as [Hi1 Hn1].
  destruct (for_each add_subscriber sessions (new_table n)) as [[t w] [[]|ex]];
    cbn [state_after outputs outcome fst snd] in *; [|done].
  assert (monitor_inv (<[n := t]> M) /\ tables_are C (<[n := t]> M)) as [HM1 HC1].
  { split; intros n' u; rewrite lookup_insert_Some; intros [[<- <-]|[_ Hu]]; eauto. }
  assert (is_Some (<[n := t]> M !! n)) as Hin by (rewrite lookup_insert_eq; by eexists).
  destruct (on_table_guards n op _ Hop HM1 HC1 Hin) as (H1 & H2 & H3 & _). destruct (on_table n op _) as [[M1 w1] r].
  cbn [state_after outputs outcome fst snd] in *. split_and!; [done| |done]. by apply Forall_app.
Qed.

End guards.

(** * What the monitor sends *)

Lemma clean_new_table n : clean_table (new_table n).
Proof. split; cbn [new_table m_rows m_column_attrs m_pcmd]; [done|..]; intros *; by rewrite lookup_empty. Qed.

Lemma on_or_create_emits (P : Z -> Prop) sessions n op : emits P op -> Forall P sessions ->
  monitor_emits P (on_or_create sessions n op).
Proof.
  intros Hop Hs. apply on_or_create_guards; [apply clean_new_table| |done]. rewrite Forall_forall in Hs.
  intros s Hin. by apply emits_add_subscriber, Hs.
Qed.

(** Calls with clean names. *)
Definition clean_call (call : monitor_call) : Prop :=
  match call with
  | CallUpdate _ _ fields => clean_keys fields
  | CallAddColumns _ cols => Forall (fun c => clean_name c = true) cols
  | CallColumnAttr _ _ a => clean_child a
  | _ => True
  end.

Lemma run_call_emits (P : Z -> Prop) e sessions call : (forall s, Table.session_exists e s = true -> P s) ->
  Forall P sessions -> clean_call call -> monitor_emits P (run_call e sessions call).
Proof.
  intros HP Hs Hc. destruct call as [n k fields|n cols|n c a|n|]; cbn [run_call clean_call] in *.
  - apply on_or_create_emits; [by apply emits_update_row|done].
  - apply on_or_create_emits; [by apply emits_add_columns|done].
  - apply on_or_create_emits; [by apply emits_column_attr|done].
  - by apply on_existing_guards, emits_clear.
  - apply for_tables_guards; [apply keeps_clear|by apply emits_clear].
Qed.

Lemma subscribe_all_emits (P : Z -> Prop) s : P s -> monitor_emits P (subscribe_all s).
Proof.
  intros Hs. apply for_tables_guards; [apply keeps_catch, keeps_add_subscriber|].
  by apply guards_catch, emits_add_subscriber.
Qed.

Lemma run_call_inv e sessions call M : monitor_inv M -> monitor_inv (state_after (run_call e sessions call M)).
Proof.
  intros HM. destruct call; cbn [run_call]; first
    [apply on_or_create_inv|apply on_existing_inv|apply for_tables_inv]; eauto with monitor.
Qed.
