(* ===== verification/CommandLine.v ===== *)
(** The rest of the command line client [src/admin.cc]: the options, the
    connection, the identification of the user, and [main] with its exit
    codes.  The listener and the messages are in AdminTool.v.

    [getopt_long] is modelled as GNU documents it: options may follow other
    arguments, which keep their order; [--] ends the options; long options may
    be abbreviated.  Name resolution, the environment and the answers of
    [socket] and [connect] are arguments. *)

From S2P Require Import Prelude Decimal Utils Logging TxContainer SamBuffer SamProtocol MsgIDs AdminCommand ReadBuffer Client Delivery Session AdminInterface Interface Sync ServerSocket AdminTool.

Local Open Scope Z_scope.

(** * Options *)

(** An option as [getopt_long] returns it; [O_invalid] is ['?']. *)
Inductive option_char := O_debug | O_help | O_version | O_invalid.

Definition short_option (c : ascii) : option_char :=
  if bool_decide (c = "d"%char) then O_debug
  else if bool_decide (c = "h"%char) then O_help
  else if bool_decide (c = "v"%char) then O_version
  else O_invalid.

Definition longopts : list (string * option_char) := [("help", O_help); ("version", O_version)].

(** A long option [name] or [name=value]; an abbreviation has to be
    unambiguous, and no option takes a value. *)
Definition long_option (text : bytes) : option_char :=
  let '(name, value) := strchr_split "="%char text in
  match filter (fun o => bool_decide (name `prefix_of` str o.1) = true) longopts with
  | [o] => match value with None => o.2 | Some _ => O_invalid end
  | _ => O_invalid
  end.

(** The options in one argument; [None]: it is not an option. *)
Definition options_of (arg : string) : option (list option_char) :=
  match str arg with
  | "-"%char :: "-"%char :: text => Some [long_option text]
  | "-"%char :: c :: cs => Some (short_option <$> c :: cs)
  | _ => None
  end.

Definition usage (version : string) : string :=
  "Usage: admin [OPTION]... ADDRESS PORT [COMMAND] [ARG]..." +:+ newline +:+
  "exio admin command-line client, version " +:+ version +:+ newline +:+ newline +:+
  "Options:" +:+ newline +:+ newline +:+
  "  -d" +:+ String "009"%char "log exio problems; repeat twice for info, thrice for debug" +:+ newline +:+
  "  -v,--version" +:+ String "009"%char "version info" +:+ newline.

(** How the program goes on: with the arguments that are not options and the
    number of [-d], or it prints a text and ends. *)
Inductive cmd_line (A : Type) := Continue (a : A) | Exit (code : Z) (cout : string).
Arguments Continue {A} a.
Arguments Exit {A} code cout.

Section command_line.
Context (PACKAGE_VERSION : string).

(** The options of one argument, in turn.  [shown] is [argv[optind]] before
    the call that met the option. *)
Fixpoint apply_options (opts : list option_char) (shown arg : string) (verbose : Z) : cmd_line Z :=
  match opts with
  | [] => Continue verbose
  | O_debug :: opts => apply_options opts arg arg (verbose + 1)
  | O_help :: _ => Exit 0 (usage PACKAGE_VERSION)
  | O_version :: _ => Exit 0 (PACKAGE_VERSION +:+ newline)
  | O_invalid :: _ => Exit 1 ("invalid option: '" +:+ shown +:+ "'" +:+ newline)
  end.

(** The [while (true)] loop over [getopt_long]: [skipped] are the other
    arguments met so far, [shown] the first of those passed over in the call
    at hand. *)
Fixpoint getopt_loop (args skipped : list string) (shown : option string) (verbose : Z)
    : cmd_line (Z * list string) :=
  match args with
  | [] => Continue (verbose, skipped)
  | arg :: args =>
      if bool_decide (arg = "--") then Continue (verbose, skipped ++ args)
      else
        match options_of arg with
        | Some opts =>
            match apply_options opts (default arg shown) arg verbose with
            | Continue verbose => getopt_loop args skipped None verbose
            | Exit code cout => Exit code cout
            end
        | None => getopt_loop args (skipped ++ [arg]) (Some (default arg shown)) verbose
        end
  end.

Definition die {A} (e : string) : cmd_line A := Exit 1 (e +:+ newline).

(** [process_cmd_line], on the arguments after [argv[0]]; the service id and
    the user are found later. *)
Definition process_cmd_line (serviceid user : string) (args : list string) : cmd_line ProgramOptions :=
  match getopt_loop args [] None 0 with
  | Exit code cout => Exit code cout
  | Continue (verbose, rest) =>
      let addr := default EmptyString (rest !! 0%nat) in
      let port := default EmptyString (rest !! 1%nat) in
      let cmd := default EmptyString (rest !! 2%nat) in
      if bool_decide (addr = EmptyString) || bool_decide (addr = EmptyString)
      then die "please specify address and port"
      else Continue (MkOptions addr port cmd (drop 3 rest) verbose serviceid user)
  end.

End command_line.

(** * Who is asking *)

(** [strncpy] into [username], whose last byte is then cleared. *)
Definition name_buffer (s : string) : string := unstr (take 255 (c_str (str s))).

(** The next source is used while the buffer is empty. *)
Definition or_else (username : string) (next : option string) : string :=
  if bool_decide (username = EmptyString)
  then match next with Some s => name_buffer s | None => username end else username.

(** [getlogin_r] ([None] if it failed), [cuserid] and the environment. *)
Definition build_user_id (getlogin_r : option string) (cuserid : string) (LOGNAME USER : option string) : string :=
  let username := name_buffer (default EmptyString getlogin_r) in
  let username := or_else username (Some cuserid) in
  let username := or_else username LOGNAME in
  let username := or_else username USER in
  or_else username (Some "unknown").

(** [gethostname] and [prctl] give [None] when they fail. *)
Definition build_service_id (pid : Z) (procname hostname : option string) (user : string) : string :=
  print_signed pid +:+ "/" +:+ name_buffer (default "unknown" procname) +:+ ":" +:+ user +:+ "@" +:+
  name_buffer (default "unknown" hostname).

(** * Connecting *)

Section connecting.
(** [inet_addr], [gethostbyname] and [getservbyname]. *)
Context (inet_addr : string -> option Z) (gethostbyname : string -> option (list Z))
  (getservbyname : string -> option Z).

(** What the function does to the outside: text on standard output; [perror]
    with a prefix, and the report of a refused address, on standard error; the
    calls on sockets (their options are left out). *)
Inductive net_call :=
| Net_print (text : string)
| Net_perror (prefix : string)
| Net_refused (addr : Z)
| Net_socket
| Net_connect (fd addr port : Z)
| Net_close (fd : Z).

(** The answers to one [socket] and the [connect] after it. *)
Record attempt := Attempt { at_socket : Z; at_connect : Z }.

Abbreviation net_op A := (eff net_call (list attempt) A).

(** The answers to the next attempt. *)
Definition next_attempt : net_op attempt := fun l =>
  match l with
  | a :: l => (l, [], Ok a)
  | [] => ([], [], Throw out_of_fuel)
  end.

(** The [do ... while (connected == 0)] loop: [addr] is tried, then the
    others. *)
Fixpoint connect_loop (port addr : Z) (others : list Z) : net_op Z :=
  emit Net_socket;;
  a ← next_attempt;
  if at_socket a <? 0 then emit (Net_perror "admin: socket");; mret 0
  else
    emit (Net_connect (at_socket a) addr port);;
    if at_connect a <? 0 then
      match others with
      | addr' :: others =>
          emit (Net_refused addr);;
          emit (Net_close (at_socket a));;
          connect_loop port addr' others
      | [] => emit (Net_perror "admin: Unable to connect to remote host");; mret 0
      end
    else mret (at_socket a).

(** [sin_port] is an unsigned 16-bit number. *)
Definition find_port (portp : string) : option Z :=
  let p := wrap 16 (atoi portp) in
  if p =? 0 then getservbyname portp else Some p.

Definition connect_ipv4 (hostp portp : string) : net_op Z :=
  match (match inet_addr hostp with
         | Some a => Some [a]
         | None => gethostbyname hostp
         end) with
  | None => emit (Net_print ("Can't lookup hostname " +:+ hostp +:+ newline));; mret 0
  | Some [] => throw (undefined_behaviour "h_addr_list is empty")
  | Some (addr :: others) =>
      match find_port portp with
      | None => emit (Net_print ("tcp/" +:+ portp +:+ ": unknown service" +:+ newline));; mret 0
      | Some port => connect_loop port addr others
      end
  end.

End connecting.

(** * The program *)

(** [wait_for_session_closure]. *)
Definition wait_for_session_closure (l : AdminListener) : call Z :=
  if l_session_open l then Blocks else Returns (l_retval l).

Definition log_level (verbose : Z) : Z :=
  let loglevel := eNone in
  let loglevel := if 0 <? verbose then eWarn else loglevel in
  let loglevel := if 1 <? verbose then eInfo else loglevel in
  if 2 <? verbose then eAll else loglevel.

Definition tool_logger (verbose : Z) : ConsoleLogger :=
  new_ConsoleLogger eStdout (log_level verbose) (3 <? verbose).

Definition tool_config : Config := MkConfig "admin" EXIO_NO_SERVER.

(** [AdminSessionGuard]: [None] after [reset]. *)
Definition guard_delete (now : Z) (m_p : option (AdminSession * Client)) : option Client :=
  match m_p with
  | Some (s, c) => Some (destroy_session now s (session_close s c))
  | None => None
  end.

(** The end of [__main], once the session is closed. *)
Definition tool_finish (now : Z) (w : Tool) : call (Z * Client) :=
  match wait_for_session_closure (t_listener w) with
  | Blocks => Blocks
  | Returns retval =>
      Returns (retval, destroy_session now (t_session w) (session_close (t_session w) (t_client w)))
  end.

(** [main]: the exit code, from how [__main] ended. *)
Definition main_exit (run : result Z) : Z :=
  match run with
  | Ok retval => retval
  | Throw _ => 126
  end.

(** How a run of the program goes on: it has ended, with a code and the text
    on standard output; or it waits for the answer; or it has done something
    without a meaning. *)
Inductive tool_run :=
| Ended (code : Z) (cout : string)
| Waiting (o : ProgramOptions) (w : Tool)
| Undefined (e : exn).

(** The text a list of calls prints on standard output. *)
Definition printed (outs : list net_call) : string :=
  foldr (fun o acc => match o with Net_print t => t +:+ acc | _ => acc end) EmptyString outs.

Section program.
Context (PACKAGE_VERSION : string) (inet_addr : string -> option Z) (gethostbyname : string -> option (list Z))
  (getservbyname : string -> option Z).

(** An exception that reaches [main] ends the program with 126. *)
Definition uncaught (cout : string) (e : exn) : tool_run :=
  if catchable e then Ended (main_exit (Throw e)) (cout +:+ "exception: " +:+ exn_what e +:+ newline)
  else Undefined e.

(** [main] and [__main] up to the wait. *)
Definition tool_main (serviceid user : string) (args : list string) (answers : list attempt) (now : Z)
    (peeraddr : string) : tool_run :=
  match process_cmd_line PACKAGE_VERSION serviceid user args with
  | Exit code cout => Ended code cout
  | Continue o =>
      let '(_, outs, fd) := connect_ipv4 inet_addr gethostbyname getservbyname (o_addr o) (o_port o) answers in
      match fd with
      | Throw e => uncaught (printed outs) e
      | Ok fd =>
          if fd =? 0 then Ended (main_exit (Ok 1)) (printed outs)
          else
            match tool_start o fd now peeraddr with
            | Throw e => uncaught (printed outs) e
            | Ok None => Ended 1 (printed outs)
            | Ok (Some w) => Waiting o w
            end
      end
  end.

(** * The options are found wherever they are *)

(** An argument that is a [-d] or no option at all. *)
Definition plain (arg : string) : Prop := arg = "-d" \/ (options_of arg = None /\ arg <> "--").
Definition words (args : list string) : list string := filter (fun a => a <> "-d") args.
Definition debugs (args : list string) : Z := Z.of_nat (length (filter (fun a => a = "-d") args)).

(** What remains of the arguments once the options are taken out. *)
Lemma getopt_loop_words args rest skipped shown verbose : Forall plain args ->
  getopt_loop PACKAGE_VERSION (args ++ "--" :: rest) skipped shown verbose =
    Continue (verbose + debugs args, skipped ++ words args ++ rest) /\
  getopt_loop PACKAGE_VERSION args skipped shown verbose =
    Continue (verbose + debugs args, skipped ++ words args).
Proof.
  intros Hall. revert skipped shown verbose. induction Hall as [|a args Ha Hall IH]; intros skipped shown verbose.
  { unfold debugs, words. cbn. by rewrite Z.add_0_r, app_nil_r. }
  unfold debugs, words. rewrite !filter_cons. cbn [app getopt_loop].
  destruct Ha as [->|[Hn Hd]].
  - rewrite (bool_decide_eq_false_2 ("-d" = "--")) by done. change (options_of "-d") with (Some [O_debug]).
    cbn [apply_options]. rewrite decide_True, decide_False by (done || by intros []).
    destruct (IH skipped None (verbose + 1)) as [-> ->]. unfold debugs, words. cbn [length].
    replace (verbose + 1 + Z.of_nat (length (filter (fun a => a = "-d") args)))
      with (verbose + Z.of_nat (S (length (filter (fun a => a = "-d") args)))) by lia. done.
  - rewrite (bool_decide_eq_false_2 (a = "--")) by done. rewrite Hn.
    assert (a <> "-d") as Hnd by (intros ->; done). rewrite (decide_False (P := a = "-d")), decide_True by done.
    destruct (IH (skipped ++ [a]) (Some (default a shown)) verbose) as [-> ->]. unfold debugs, words.
    by rewrite <-!app_assoc.
Qed.


(** An argument of the command that looks like an option is not sent. *)
Theorem command_option_swallowed serviceid user :
  process_cmd_line PACKAGE_VERSION serviceid user ["host"; "5000"; "help"; "-v"] = Exit 0 (PACKAGE_VERSION +:+ newline).
Proof. reflexivity. Qed.

(** The port may be missing, against the text of the error message. *)
Theorem missing_port_accepted serviceid user :
  process_cmd_line PACKAGE_VERSION serviceid user ["host"] =
    Continue (MkOptions "host" EmptyString EmptyString [] 0 serviceid user).
Proof. reflexivity. Qed.

(** The argument named in the error message need not be the wrong one. *)
Theorem invalid_option_misreported serviceid user :
  process_cmd_line PACKAGE_VERSION serviceid user ["host"; "-x"] =
    Exit 1 ("invalid option: 'host'" +:+ newline).
Proof. reflexivity. Qed.

End program.

(** * The first address that answers is used *)

Section connections.
Context (inet_addr : string -> option Z) (gethostbyname : string -> option (list Z))
  (getservbyname : string -> option Z).

Definition refused (a : attempt) : Prop := 0 <= at_socket a /\ at_connect a < 0.
Definition answered (a : attempt) : Prop := 0 <= at_socket a /\ 0 <= at_connect a.

Definition net_closed (outs : list net_call) : list Z :=
  omap (fun o => match o with Net_close fd => Some fd | _ => None end) outs.
Definition net_tried (outs : list net_call) : list (Z * Z * Z) :=
  omap (fun o => match o with Net_connect fd a p => Some (fd, a, p) | _ => None end) outs.

Lemma net_closed_app k l : net_closed (k ++ l) = net_closed k ++ net_closed l.
Proof. apply omap_app. Qed.
Lemma net_tried_app k l : net_tried (k ++ l) = net_tried k ++ net_tried l.
Proof. apply omap_app. Qed.

(** Sockets in use, the addresses they are connected to, and the port. *)
Definition tried (port : Z) (addrs : list Z) (l : list attempt) : list (Z * Z * Z) :=
  zip_with (fun a addr => (at_socket a, addr, port)) l addrs.

Lemma connect_loop_step port addr others a rest : 0 <= at_socket a ->
  connect_loop port addr others (a :: rest) =
    let first := [Net_socket; Net_connect (at_socket a) addr port] in
    if at_connect a <? 0 then
      match others with
      | addr' :: others' =>
          let '(l, outs, r) := connect_loop port addr' others' rest in
          (l, first ++ Net_refused addr :: Net_close (at_socket a) :: outs, r)
      | [] => (rest, first ++ [Net_perror "admin: Unable to connect to remote host"], Ok 0)
      end
    else (rest, first, Ok (at_socket a)).
Proof.
  intros Hs. destruct others as [|addr' others']; cbn [connect_loop]; unfold mbind, eff_bind, emit, next_attempt, mret, eff_ret;
    (destruct (Z.ltb_spec (at_socket a) 0); [lia|]); destruct (at_connect a <? 0); try done.
  by destruct (connect_loop port addr' others' rest) as [[l outs] r].
Qed.

Lemma connect_loop_answered port addr others fails a rest : Forall refused fails -> answered a ->
  (length fails <= length others)%nat -> exists outs,
  connect_loop port addr others (fails ++ a :: rest) = (rest, outs, Ok (at_socket a)) /\
  net_closed outs = at_socket <$> fails /\ net_tried outs = tried port (addr :: others) (fails ++ [a]).
Proof.
  intros Hf [Ha1 Ha2]. revert addr others. induction Hf as [|b fails [Hb1 Hb2] Hf IH]; intros addr others Hl; cbn [app].
  - rewrite connect_loop_step by done. cbv zeta. destruct (Z.ltb_spec (at_connect a) 0); [lia|].
    eexists. split; [done|]. by destruct others.
  - destruct others as [|addr' others']; [cbn in Hl; lia|]. rewrite connect_loop_step by done. cbv zeta.
    destruct (Z.ltb_spec (at_connect b) 0); [|lia].
    destruct (IH addr' others' ltac:(cbn in Hl; lia)) as (outs & -> & Hc & Ht).
    eexists. split; [done|]. split.
    + change (at_socket b :: net_closed outs = at_socket b :: (at_socket <$> fails)). by rewrite Hc.
    + change ((at_socket b, addr, port) :: net_tried outs =
        (at_socket b, addr, port) :: tried port (addr' :: others') (fails ++ [a])). by rewrite Ht.
Qed.

Lemma connect_loop_refused port addr others fails a rest : Forall refused fails -> refused a ->
  length fails = length others -> exists outs,
  connect_loop port addr others (fails ++ a :: rest) = (rest, outs, Ok 0) /\
  net_closed outs = at_socket <$> fails.
Proof.
  intros Hf [Ha1 Ha2]. revert addr others. induction Hf as [|b fails [Hb1 Hb2] Hf IH]; intros addr others Hl; cbn [app].
  - destruct others; [|done]. rewrite connect_loop_step by done. cbv zeta.
    destruct (Z.ltb_spec (at_connect a) 0); [|lia]. eexists. by split.
  - destruct others as [|addr' others']; [done|]. rewrite connect_loop_step by done. cbv zeta.
    destruct (Z.ltb_spec (at_connect b) 0); [|lia].
    destruct (IH addr' others' ltac:(cbn in Hl; lia)) as (outs & -> & Hc).
    eexists. split; [done|].
    change (at_socket b :: net_closed outs = at_socket b :: (at_socket <$> fails)). by rewrite Hc.
Qed.

(** The addresses a host name stands for. *)
Definition addresses (hostp : string) : option (list Z) :=
  match inet_addr hostp with Some a => Some [a] | None => gethostbyname hostp end.

(** [connect_ipv4] ends and uses the first address that accepts the
    connection: the addresses are tried in order at the port given, each
    socket that was refused before is closed; when every address refuses, the
    result is 0 (and the last socket stays open); an unknown host or port is
    reported without any attempt. *)
Theorem connect_uses_first_answer hostp portp :
  (addresses hostp = None -> forall answers, exists text,
     connect_ipv4 inet_addr gethostbyname getservbyname hostp portp answers = (answers, [Net_print text], Ok 0)) /\
  (forall addr others, addresses hostp = Some (addr :: others) ->
     find_port getservbyname portp = None -> forall answers, exists text,
     connect_ipv4 inet_addr gethostbyname getservbyname hostp portp answers = (answers, [Net_print text], Ok 0)) /\
  (forall addr others port fails a rest, addresses hostp = Some (addr :: others) ->
     find_port getservbyname portp = Some port -> Forall refused fails ->
     (answered a -> (length fails <= length others)%nat -> exists outs,
        connect_ipv4 inet_addr gethostbyname getservbyname hostp portp (fails ++ a :: rest) =
          (rest, outs, Ok (at_socket a)) /\
        net_closed outs = at_socket <$> fails /\ net_tried outs = tried port (addr :: others) (fails ++ [a])) /\
     (refused a -> length fails = length others -> exists outs,
        connect_ipv4 inet_addr gethostbyname getservbyname hostp portp (fails ++ a :: rest) = (rest, outs, Ok 0) /\
        net_closed outs = at_socket <$> fails)).
Proof.
  unfold connect_ipv4, addresses. split; [|split].
  - intros -> answers. by eexists.
  - intros addr others -> -> answers. by eexists.
  - intros addr others port fails a rest -> -> Hf. split; intros Ha Hl.
    + by apply connect_loop_answered.
    + by apply connect_loop_refused.
Qed.

End connections.

(** The user's name is never empty and fits its buffer. *)
Lemma build_user_id_ok getlogin cuserid LOGNAME USER :
  build_user_id getlogin cuserid LOGNAME USER <> EmptyString /\
  (String.length (build_user_id getlogin cuserid LOGNAME USER) <= 255)%nat.
Proof.
  assert (forall s, (String.length (name_buffer s) <= 255)%nat) as Hn.
  { intros s. unfold name_buffer. rewrite <-length_str, str_unstr, length_take. lia. }
  assert (forall x next, (String.length x <= 255)%nat -> (String.length (or_else x next) <= 255)%nat) as Hor.
  { intros x [y|] Hx; unfold or_else; case_bool_decide; auto. }
  unfold build_user_id. split; [|by repeat apply Hor].
  unfold or_else at 1. case_bool_decide; done.
Qed.

(** * Runs *)


(** The first of two addresses refuses the connection. *)
Lemma connect_uses_first_answer_witness : exists outs,
  connect_ipv4 (fun _ => None) (fun _ => Some [10; 11]) (fun _ => None) "host" "5000" [Attempt 3 (-1); Attempt 4 0] =
    ([], outs, Ok 4) /\ net_closed outs = [3] /\ net_tried outs = [(3, 10, 5000); (4, 11, 5000)].
Proof.
  destruct (connect_uses_first_answer (fun _ => None) (fun _ => Some [10; 11]) (fun _ => None) "host" "5000")
    as (_ & _ & H).
  destruct (H 10 [11] 5000 [Attempt 3 (-1)] (Attempt 4 0) []) as [Ha _].
  - reflexivity.
  - vm_compute. reflexivity.
  - apply Forall_cons. split; [|constructor]. split; vm_compute; [discriminate|reflexivity].
  - apply Ha; [split; vm_compute; discriminate|apply le_n].
Defined.
