(* ===== verification/SlowConsumer.v ===== *)
(** A client that is slow to read: the test program [test/slow_consumer.cc].

    Its listener prints every message it is given and sleeps, in the worker
    thread that called it.  The program uses the library as the [admin] tool
    does; [connect_ipv4] is the same as in CommandLine.v. *)

From S2P Require Import Prelude Decimal Utils TxContainer SamBuffer SamProtocol MsgIDs AdminCommand ReadBuffer Client Delivery Session Hostile AdminInterface ServerSocket AdminTool CommandLine.

Local Open Scope Z_scope.

(** * Running a command *)

(** What [popen] gives: the pieces [fgets] returns and the status [pclose]
    returns; [None] when it fails. *)
Definition popen_answer : Type := option (list string * Z).

(** The command line; a NULL [quotes] is only used when there are arguments. *)
Fixpoint exec_args (quotes : option string) (args : list string) : result string :=
  match args with
  | [] => Ok EmptyString
  | a :: args =>
      match quotes with
      | None => Throw (undefined_behaviour "NULL inserted in a stream")
      | Some q => rest ← exec_args quotes args; Ok (" " +:+ q +:+ a +:+ q +:+ rest)
      end
  end.

(** The text and [retval]. *)
Definition exec (popen : string -> popen_answer) (path cmd : string) (args : list string) (quotes : option string)
    : result (string * Z) :=
  rest ← exec_args quotes args;
  let cmdline := (if bool_decide (path = EmptyString) then EmptyString else path +:+ "/") +:+ cmd +:+ rest in
  Ok match popen cmdline with
     | None => ("popen error", -1)
     | Some (lines, status) =>
         (String.concat EmptyString lines, if 0 <? status then Z.shiftr status 8 else status)
     end.

(** * The listener *)

Record SlowListener := MkSlowListener {
  sl_session_open : bool; sl_peername : string; sl_sockname : string; sl_cout : string;
  sl_messages : list txMessage  (** the messages printed; not in the code *) }.

Definition new_slow_listener (peername sockname : string) : SlowListener :=
  MkSlowListener true peername sockname EmptyString [].

Definition slow_closed (l : SlowListener) : SlowListener :=
  MkSlowListener false (sl_peername l) (sl_sockname l) (sl_cout l) (sl_messages l).

Section program.
Context (pid : Z) (popen : string -> popen_answer).

Definition netstat (l : SlowListener) : string :=
  "netstat -n" +:+ "|\grep tcp" +:+ "|\grep " +:+ sl_sockname l +:+ "|\grep " +:+ sl_peername l.

(** [session_msg_received], but for the ten seconds of sleep. *)
Definition slow_message (msg : txMessage) (l : SlowListener) : SlowListener * result unit :=
  let text := (format (new_formatter true) msg).2 +:+ newline +:+ "sleeping..." +:+ newline +:+
    "this process " +:+ print_signed pid +:+ " owns tcp: " +:+ sl_sockname l +:+ " --> " +:+ sl_peername l +:+
    " (local / foreign)" +:+ newline +:+ newline +:+
    "Proto Recv-Q Send-Q Local Address           Foreign Address" +:+ newline in
  let said more := MkSlowListener (sl_session_open l) (sl_peername l) (sl_sockname l) (sl_cout l +:+ text +:+ more)
                     (sl_messages l ++ [msg]) in
  match exec popen EmptyString (netstat l) [] None with
  | Ok (results, _) => (said (results +:+ newline), Ok ())
  | Throw e => (said EmptyString, Throw e)
  end.

(** The program: its listener, its session and the connection. *)
Record SlowConsumer := MkSlow { sc_listener : SlowListener; sc_session : AdminSession; sc_client : Client }.

(** The address of the session. *)
Definition slow_session : Z := 1.

#[global] Instance slow_listener : SessionListener SlowConsumer := {
  host_get := fun w p => if decide (p = slow_session) then Some (sc_session w, sc_client w) else None;
  host_set := fun w p x => if decide (p = slow_session) then MkSlow (sc_listener w) x.1 x.2 else w;
  session_msg_received := fun m p w =>
    let '(l, r) := slow_message m (sc_listener w) in (MkSlow l (sc_session w) (sc_client w), r);
  session_closed := fun p w => (MkSlow (slow_closed (sc_listener w)) (sc_session w) (sc_client w), Ok ()) }.

(** ** [main] *)

(** The first two arguments that are not empty; [None]: [die]. *)
Fixpoint address_args (addr port : string) (args : list string) : string * string :=
  match args with
  | [] => (addr, port)
  | a :: args =>
      if bool_decide (addr = EmptyString) then address_args a port args
      else if bool_decide (port = EmptyString) then address_args addr a args
      else address_args addr port args
  end.
Definition slow_cmd_line (args : list string) : option (string * string) :=
  let '(addr, port) := address_args EmptyString EmptyString args in
  if bool_decide (addr = EmptyString) || bool_decide (port = EmptyString) then None else Some (addr, port).

Definition slow_logon (serviceid user : string) : txMessage :=
  on_root (fun r => put_field_qn (put_field_qn r id.QN_serviceid serviceid) id.QN_head_user user) (new_message id.msg_logon).

(** From the connected socket to the wait. *)
Definition slow_start (serviceid user peername sockname : string) (fd now : Z) : result SlowConsumer :=
  let s := io_init (new_session fd 1 now true peername) in
  '(c, _) ← enqueueToSend (slow_logon serviceid user) s (new_client fd now true);
  Ok (MkSlow (new_slow_listener peername sockname) s c).

(** [getlogin_r], [gethostname] and [prctl] give [None] when they fail. *)
Definition slow_build_user_id (getlogin_r : option string) : string := name_buffer (default "unknown" getlogin_r).
Definition slow_build_service_id (procname hostname : option string) (user : string) : string :=
  print_signed pid +:+ "/" +:+ name_buffer (default "unknown" procname) +:+ ":" +:+ user +:+ "@" +:+
  name_buffer (default "unknown" hostname).

(** How a run goes on: it has ended, or waits for the session to close, after
    which it ends with 0. *)
Inductive slow_run :=
| SlowEnded (code : Z) (cout : string)
| SlowWaiting (w : SlowConsumer)
| SlowUndefined (e : exn).

Definition slow_uncaught (cout : string) (e : exn) : slow_run :=
  if catchable e then SlowEnded 1 (cout +:+ exn_what e +:+ newline) else SlowUndefined e.

Definition slow_main (inet_addr : string -> option Z) (gethostbyname : string -> option (list Z))
    (getservbyname : string -> option Z) (getlogin_r procname hostname : option string) (peername sockname : string)
    (args : list string) (answers : list attempt) (now : Z) : slow_run :=
  match slow_cmd_line args with
  | None => SlowEnded 1 ("please specify address and port" +:+ newline)
  | Some (addr, port) =>
      let '(_, outs, fd) := connect_ipv4 inet_addr gethostbyname getservbyname addr port answers in
      match fd with
      | Throw e => slow_uncaught (printed outs) e
      | Ok fd =>
          if fd =? 0 then SlowEnded 1 (printed outs)
          else
            let user := slow_build_user_id getlogin_r in
            match slow_start (slow_build_service_id procname hostname user) user peername sockname fd now with
            | Ok w => SlowWaiting w
            | Throw e => slow_uncaught (printed outs) e
            end
      end
  end.

(** * It prints every message and outlives any server *)

Lemma slow_message_prints m l : exists text, slow_message m l =
  (MkSlowListener (sl_session_open l) (sl_peername l) (sl_sockname l) (sl_cout l +:+ text) (sl_messages l ++ [m]), Ok ()).
Proof.
  unfold slow_message, exec. cbn [exec_args mbind result_bind].
  destruct (popen _) as [[lines status]|]; eexists; reflexivity.
Qed.

#[global] Instance slow_listener_laws : SessionListenerLaws SlowConsumer.
Proof.
  refine {| host_inv := fun _ => True; host_accepts := fun _ => True |}.
  - intros w p x y. cbn. destruct (decide (p = slow_session)); [|done]. intros _. by destruct y.
  - done.
  - intros w p s c m _ Hg _. cbn [session_msg_received slow_listener].
    destruct (slow_message_prints m (sc_listener w)) as [text ->]. split; [done|]. split; [done|]. exists s, c. cbn in *. done.
Defined.

#[local] Instance slow_sturdy : Sturdy SlowConsumer.
Proof.
  refine {| st_inv := fun _ => True; st_knows := fun _ p => p = slow_session;
    st_gone := fun _ _ => True; st_flaw := fun _ => False |}.
  - intros w p x y. cbn. destruct (decide (p = slow_session)); [|done]. intros _. by destruct y.
  - done.
  - intros w p s c m _ Hg Hk. cbn [session_msg_received slow_listener].
    destruct (slow_message_prints m (sc_listener w)) as [text ->]. cbn in *. split_and!; try done. by exists s, c.
  - intros w p s c _ Hg Hk. cbn in *. split_and!; try done. by exists s, c.
Defined.

(** Whatever the server sends and however it ends, the consumer runs into
    nothing but the decoder's read after the data. *)
Theorem slow_consumer_survives serviceid user peername sockname fd now w (evs : list (peer_event (Z * SlowConsumer))) :
  slow_start serviceid user peername sockname fd now = Ok w -> Forall event_ok evs -> peer_bytes evs < 2 ^ 31 ->
  match run_peer evs (sc_client w, (slow_session, w)) with
  | Ok cs => out_inv cs.1
  | Throw e => e = undefined_behaviour "read outside the buffer"
  end.
Proof.
  intros Hs Hev Hb. apply result_bind_Ok in Hs as ([c f] & E & Hs). injection Hs as <-. cbn [sc_client].
  set (w := MkSlow _ _ c). assert (calm 0 (c, (slow_session, w))) as Hc.
  { apply calm_new.
    - split; [done|]. split; [exact (enqueue_out _ _ _ _ _ E (out_inv_new _ _ _))|]. split; [|intros _; exact I]. intros _. exact (ex_intro _ (sc_session w) (ex_intro _ c (conj eq_refl (conj eq_refl eq_refl)))).
    - exact (enqueue_inbound _ _ _ _ _ E). }
  pose proof (peer_calm evs Hev 0 _ Hc ltac:(lia) ltac:(lia)) as H. destruct (run_peer evs _) as [cs|e].
  - apply (en_out _ _ (ca_inv _ _ H)).
  - by destruct H as [|[]].
Qed.

End program.
