(* ===== verification/EndToEnd.v ===== *)
(** The [admin] tool and the library, end to end: what the tool sends is read
    by the interface through a session and its connection, and the answer is
    read and shown by the tool.

    Both ends are instances of the [SamCallback] contract of Delivery.v, so
    the result holds however the bytes are cut into reads, work items and
    partial sends on either side. *)

From S2P Require Import Prelude Decimal Utils TxContainer SamBuffer SamProtocol MsgIDs AdminCommand TableEvents Table TableProps ReadBuffer Client Delivery Monitor Session AdminInterface Interface Sync ServerSocket AdminTool Messages CommandLine.

Local Open Scope Z_scope.

(** * The tool's side *)

Section tool_side.
Context (o : ProgramOptions) (l0 : AdminListener).

(** The listener has seen the messages [ms], and the session takes more. *)
Definition tool_after (ms : list txMessage) (c : Client) (pw : Z * Tool) : Prop :=
  out_inv c /\ pw.1 = tool_session /\ s_session_valid (t_session pw.2) = true /\
  s_listener (t_session pw.2) = true /\
  t_listener pw.2 = foldl (fun l m => listener_message (o_verbose o) m l) l0 ms.

#[local] Instance tool_side_listener : SessionListener Tool := tool_listener o.
#[local] Instance tool_side_laws : SessionListenerLaws Tool := tool_listener_laws o.

Lemma tool_input_message ms c pw m rest junk : tool_after ms c pw -> sendable m -> True ->
  Z.of_nat (length (wire m ++ rest)) < 2 ^ 31 ->
  exists c' pw', process_input c pw ((wire m ++ rest) ++ junk) (Z.of_nat (length (wire m ++ rest))) =
      Ok (c', pw', Some (wire_length m)) /\
    tool_after (ms ++ [m]) c' pw' /\ inbound c' = inbound c.
Proof.
  destruct pw as [p [l s c0]]. intros (Ho & Hp & Hv & Hls & Hl) Hm _ Hlen. cbn [fst snd t_session t_listener] in *.
  subst p. set (s1 := take_message m s).
  set (s2 := if bool_decide (msg_type m = id.msg_logon) then note_logon m s1 else s1).
  assert (s_listener s2 = true /\ s_session_valid s2 = true) as [Hls2 Hv2].
  { unfold s2, note_logon. destruct (bool_decide _), (s_logon_received s1); done. }
  exists c, (tool_session, MkTool (listener_message (o_verbose o) m l) s2 c). split; [|split; [|done]].
  - eapply (session_input_runs c tool_session _ s c0 m rest junk _ (Ok ())); [done|done|done| |done|done].
    change (host_set (MkTool l s c0) tool_session (s, c)) with (MkTool l s c). unfold io_onmsg.
    change (host_get (MkTool l s c) tool_session) with (Some (s, c)). cbv iota beta. rewrite Hv. cbn [negb]. fold s1 s2.
    change (host_set (MkTool l s c) tool_session (s2, c)) with (MkTool l s2 c). by rewrite Hls2.
  - split; [done|]. cbn [fst snd t_session t_listener]. rewrite foldl_app. cbn [foldl]. by rewrite <-Hl.
Qed.

Lemma tool_input_incomplete ms c pw m part junk : tool_after ms c pw -> sendable m ->
  part `prefix_of` wire m -> (length part < length (wire m))%nat -> Z.of_nat (length part) < 2 ^ 31 ->
  exists c' pw', process_input c pw (part ++ junk) (Z.of_nat (length part)) = Ok (c', pw', Some 0) /\
    tool_after ms c' pw' /\ inbound c' = inbound c.
Proof.
  destruct pw as [p [l s c0]]. intros (Ho & Hp & Hv & Hls & Hl) Hm Hpre Hlt Hlen. cbn [fst snd] in Hp. subst p.
  exists c, (tool_session, MkTool l s c). split; [|done].
  change (MkTool l s c) with (host_set (MkTool l s c0) tool_session (s, c)).
  by apply (session_input_waits c tool_session (MkTool l s c0) s c0 m).
Qed.

Lemma tool_after_inbound ms c c' pw : tool_after ms c pw -> outbound c' = outbound c -> tool_after ms c' pw.
Proof.
  intros (Ho & Hr) Hout. unfold outbound in Hout. injection Hout as Hq Hm _.
  split; [by apply (out_inv_ext c)|done].
Qed.

Lemma tool_after_output ms c pw now sends : tool_after ms c pw ->
  exists c' st, handle_output now sends c = Ok (c', st) /\ tool_after ms c' pw.
Proof.
  intros (Ho & Hr). destruct (handle_output_out now sends c Ho) as (c' & st & E & Ho' & _). by exists c', st.
Qed.

Definition tool_sam_callback : SamCallback (Z * Tool) := {|
  cb_after := tool_after;
  cb_accepts := fun _ _ => True;
  cb_inbound := tool_after_inbound;
  cb_output := tool_after_output;
  cb_message := tool_input_message;
  cb_incomplete := tool_input_incomplete |}.

End tool_side.

(** What the tool sends when it has a command. *)
Definition tool_messages (o : ProgramOptions) : list txMessage := [tool_logon o; tool_request o].

(** A session of the program made by [tool_start]. *)
Lemma tool_start_sends o fd now peeraddr : o_cmd o <> EmptyString ->
  Z.of_nat (length (stream (tool_messages o))) <= 100 * 1024 * 1024 ->
  exists t, tool_start o fd now peeraddr = Ok (Some t) /\ outbox true (stream (tool_messages o)) (t_client t) /\
    fresh_inbound (t_client t) /\ tool_after o new_listener [] (t_client t) (tool_session, t).
Proof.
  intros Hc Hl. unfold tool_start. rewrite bool_decide_eq_false_2 by done.
  set (s := io_init (new_session fd 1 now true peeraddr)). unfold stream, tool_messages in *. cbn [flat_map] in *.
  rewrite app_nil_r in *. rewrite length_app in Hl.
  destruct (enqueue_outbox (tool_logon o) s (new_client fd now true) [] (outbox_new fd now true))
    as (c1 & -> & Hb1 & Hi1); [done|done|cbn [app]; lia|]. cbn [mbind result_bind app] in *.
  destruct (enqueue_outbox (tool_request o) s c1 (wire (tool_logon o)) Hb1) as (c2 & -> & Hb2 & Hi2);
    [done|done|rewrite length_app; lia|]. cbn [mbind result_bind].
  eexists. split; [done|]. split; [done|]. split; [|by split; [apply Hb2|]].
  unfold fresh_inbound. cbn [t_client]. by rewrite Hi2, Hi1.
Qed.

(** * The library's side *)

(** The commands that answer with a list of names: the names and the title of
    their column. *)
Definition listing (t : Target) (args : list string) (admins : gmap string (AdminCommand Target)) (M : Monitor)
    : option (list string * string) :=
  match t, args with
  | T_list_tables, cmd :: _ => if bool_decide (cmd = "list") then Some (tables M, "table") else None
  | T_help, [] => Some (list_sort (map_iter admins).*1, "admin")
  | _, _ => None
  end.

Definition list_response (values : list string) (column seqno : string) : AdminResponse :=
  on_body (formatreply_simplelist values (Some column)) (plain_response seqno).

(** The reply to the tool's request. *)
Definition list_reply (values : list string) (column : string) : txMessage :=
  sent_form (list_response values column "0").

(** What sending a response leaves as it is. *)
Lemma put_child_same c n d : wf c -> find_child c n = Some d -> forall k, find_child (put_child_with c n id) k = find_child c k.
Proof.
  intros Hc Hd k. rewrite find_child_put_child_with by (done || by apply wf_indexed).
  case_decide; [subst|done]. by rewrite Hd.
Qed.

Lemma sent_form_reads resp head body : wf (m_root (resp_msg resp)) ->
  find_child (m_root (resp_msg resp)) id.head = Some head -> find_child (m_root (resp_msg resp)) id.body = Some body ->
  (forall x, x <> id.msgtype -> find_field_qn (m_root (sent_form resp)) [id.head; x] =
     find_field_qn (m_root (resp_msg resp)) [id.head; x]) /\
  find_child (m_root (sent_form resp)) id.body = Some body.
Proof.
  intros Hw Hh Hb. unfold sent_form, copy_response, copy_message, on_root, put_field_qn, put_child.
  cbn [resp_msg m_root id.QN_msgtype removelast buid_tree qname_last]. rewrite clone_wf by done.
  set (r0 := m_root (resp_msg resp)) in *.
  pose proof (put_child_same r0 id.head head Hw Hh) as Hs1. set (r1 := put_child_with r0 id.head id) in *.
  assert (wf r1) as Hw1 by (by apply wf_put_child_with; [|apply wf_update_id]).
  assert (find_child r1 id.body = Some body) as Hb1 by (by rewrite Hs1).
  pose proof (put_child_same r1 id.body body Hw1 Hb1) as Hs2. set (r2 := put_child_with r1 id.body id) in *.
  assert (wf r2) as Hw2 by (by apply wf_put_child_with; [|apply wf_update_id]).
  change (List.last [id.head; id.msgtype] EmptyString) with id.msgtype.
  assert (forall k, find_child (put_child_with r2 id.head (fun h => put_field h id.msgtype id.msg_response)) k =
    if decide (id.head = k) then Some (put_field head id.msgtype id.msg_response) else find_child r0 k) as Hk.
  { intros k. rewrite find_child_put_child_with by (done || by apply wf_indexed).
    case_decide; [|by rewrite Hs2, Hs1]. by rewrite Hs2, Hs1, Hh. }
  split; [|rewrite Hk; by rewrite decide_False].
  intros x Hx. unfold find_field_qn. cbn [removelast find_tree_const]. rewrite Hk, Hh, decide_True by done.
  cbn [mbind option_bind]. rewrite find_field_put_field by (apply wf_indexed; exact (find_child_wf r0 _ _ Hw Hh)).
  change (qname_last [id.head; x]) with x. by rewrite decide_False.
Qed.

(** The response to a list command, before and after it is sent. *)
Lemma list_response_parts values column seqno : exists head body,
  let root := m_root (resp_msg (list_response values column seqno)) in
  wf root /\ find_child root id.head = Some head /\ find_child root id.body = Some body /\
  f_value <$> find_field head id.pending = Some id.False_.
Proof.
  set (r0 := m_root (resp_msg (plain_response seqno))).
  assert (wf r0) as Hw by apply (echoes_plain seqno).
  pose proof (wf_update_simplelist values (Some column)) as Hg.
  assert (exists head, find_child r0 id.head = Some head /\ f_value <$> find_field head id.pending = Some id.False_)
    as (head & Hh & Hp) by (eexists; split; vm_compute; reflexivity).
  exists head, (formatreply_simplelist values (Some column) (child_or_new r0 id.body)). cbv zeta.
  change (m_root (resp_msg (list_response values column seqno)))
    with (put_child_with r0 id.body (formatreply_simplelist values (Some column))).
  split; [by apply wf_put_child_with|]. split; [|by rewrite find_child_put].
  rewrite find_child_put_child_with by (auto with exio || apply Hg; apply wf_new_container). by rewrite decide_False.
Qed.

Lemma list_reply_facts values column : echoes "0" (list_reply values column) /\
  has_pending (list_reply values column) = false /\
  (clean_name column = true -> tidy (m_root (list_reply values column))).
Proof.
  split; [|split].
  - apply echoes_sent_form, echoes_body; [apply echoes_plain|apply wf_update_simplelist].
  - destruct (list_response_parts values column "0") as (head & body & Hw & Hh & Hb & Hp).
    destruct (sent_form_reads (list_response values column "0") head body Hw Hh Hb) as [Hf _].
    unfold has_pending, check_field_qn, qn_pending, list_reply. rewrite Hf by done.
    unfold find_field_qn. cbn [removelast find_tree_const]. rewrite Hh. cbn [mbind option_bind].
    change (qname_last [id.head; id.pending]) with id.pending.
    destruct (find_field head id.pending) as [f|]; [|done]. injection Hp as ->. reflexivity.
  - intros Hn. apply tidy_sent_form, tidy_on_body; [by apply tidy_update_simplelist|apply tidy_plain_response].
Qed.

Lemma list_reply_handled values column l : column <> id.row_key -> Z.of_nat (length values) < 2 ^ 31 ->
  handle_reponse (list_reply values column) l = trigger_close 0 (print (lines values) l).
Proof.
  intros Hc Hl. rewrite <-(list_reply_shown values column "0" l Hc Hl).
  destruct (list_response_parts values column "0") as (head & body & Hw & Hh & Hb & _).
  destruct (sent_form_reads (list_response values column "0") head body Hw Hh Hb) as [Hf Hbody].
  apply handle_reponse_ext; [exact Hf|]. unfold list_reply. rewrite Hbody. by rewrite <-Hb.
Qed.

Section library_side.
Context (now : Z) (localtime : Z -> tm) (info : system_info) (user_target : Z -> AdminRequest -> ai_op AdminResponse).

Lemma listing_invoke ac t req w values column : ac_target ac = Some t ->
  listing t (req_args req) (ai_admins w) (ai_monitor w) = Some (values, column) ->
  invoke now localtime info user_target ac req w = (w, [], Ok (list_response values column (req_reqseqno req))).
Proof.
  intros Ht Hl. unfold invoke. rewrite Ht. destruct t; try discriminate Hl.
  - cbn [listing] in Hl. unfold admincmd_list_tables, mbind, eff_bind, get.
    destruct (req_args req) as [|cmd args]; [done|]. destruct (bool_decide (cmd = "list")); [|done]. by simplify_eq.
  - cbn [listing] in Hl. unfold admincmd_help, mbind, eff_bind, get. destruct (req_args req); [|done]. by simplify_eq.
Qed.

(** A member function of the session at [p] that succeeds. *)
Lemma on_session_ok {A} (f : AdminSession -> Client -> result (AdminSession * Client * A)) p w s c s' c' a :
  get_object w p = Some (s, c) -> f s c = Ok (s', c', a) -> on_session p f w = (set_object p s' c' w, [], Ok a).
Proof. intros Hg Hf. unfold on_session. by rewrite Hg, Hf. Qed.

Lemma get_object_set p s c w : get_object (set_object p s c w) p = Some (s, c).
Proof. by rewrite get_set_object, decide_True. Qed.

(** [send_one] to an open session. *)
Lemma send_one_ok m i p w s c c' : ai_reg w !! Z.to_nat i = Some (Some p) -> 1 <= i <= MAX_SESSIONS ->
  get_object w p = Some (s, c) -> s_session_valid s = true -> enqueueToSend m s c = Ok (c', false) ->
  send_one m i w = (set_object p s c' (set_object p s c w), [], Ok ()).
Proof.
  intros Hreg Hi Hg Hv He. unfold send_one. rewrite (eff_bind_quiet _ _ w w (Some p)).
  2: { unfold reg_at. destruct (Z.leb_spec 0 i), (Z.ltb_spec i SESSION_REG_SIZE); unfold SESSION_REG_SIZE in *; try lia.
    cbn [andb]. by rewrite Hreg. }
  rewrite (eff_bind_quiet _ _ w (set_object p s c w) true);
    [|unfold is_open; by rewrite (on_session_ok _ p w s c s c true Hg) by (by rewrite Hv)].
  rewrite (eff_bind_quiet _ _ _ (set_object p s c' (set_object p s c w)) false); [done|].
  unfold enqueue_to. rewrite (on_session_ok _ p _ s c s c' false (get_object_set p s c w)); [done|]. by rewrite He.
Qed.

(** ** The logon *)

Lemma tool_logon_asks o : o_cmd o <> EmptyString -> msg_type (tool_logon o) = id.msg_logon /\
  check_field_qn (m_root (tool_logon o)) id.QN_noautosub id.True_ = true /\
  check_field_qn (m_root (tool_logon o)) [id.head; id.autoclose] id.True_ = true.
Proof. intros Hc. unfold tool_logon. rewrite bool_decide_eq_false_2 by done. split_and!; vm_compute; reflexivity. Qed.

(** The parts of the interface that serving the tool does not touch. *)
Definition same_service (w w' : AdminInterfaceImpl) : Prop :=
  ai_reg w' = ai_reg w /\ ai_admins w' = ai_admins w /\ ai_monitor w' = ai_monitor w.

Lemma logon_answered o p i w s c c' : o_cmd o <> EmptyString -> get_object w p = Some (s, c) -> s_id s = i ->
  ai_reg w !! Z.to_nat i = Some (Some p) -> 1 <= i <= MAX_SESSIONS -> s_session_valid s = true ->
  enqueueToSend (serialise_admins w) (set_autoclose true s) c = Ok (c', false) ->
  exists w', on_session_message now localtime info user_target (tool_logon o) p w = (w', [], Ok ()) /\
    get_object w' p = Some (set_autoclose true s, c') /\ same_service w w'.
Proof.
  intros Hc Hg Hi Hreg Hir Hv He. destruct (tool_logon_asks o Hc) as (Ht & Hns & Hac).
  unfold on_session_message. rewrite Ht, bool_decide_eq_true_2 by done. unfold handle_logon_msg.
  rewrite (eff_bind_quiet _ _ w (set_object p s c w) i) by (apply (on_session_ok _ p w s c); [done|by rewrite Hi]).
  rewrite Hns, Hac. set (w1 := set_object p s c w). set (s1 := set_autoclose true s).
  rewrite (eff_bind_quiet _ _ w1 w1 ()) by done.
  rewrite (eff_bind_quiet _ _ w1 (set_object p s1 c w1) ())
    by (apply (on_session_ok _ p w1 s c); [apply get_object_set|done]).
  set (w2 := set_object p s1 c w1). rewrite (eff_bind_quiet _ _ w2 w2 w2) by done.
  change (serialise_admins w2) with (serialise_admins w).
  rewrite (send_one_ok (serialise_admins w) i p w2 s1 c c'); [|done|done|apply get_object_set|done|done].
  eexists. split; [done|]. split; [apply get_object_set|done].
Qed.

(** ** The request *)

Lemma request_dispatched o p w s c ac t values column : o_cmd o <> EmptyString ->
  Z.of_nat (length (o_cmdargs o)) < 2 ^ 31 -> get_object w p = Some (s, c) ->
  ai_admins w !! o_cmd o = Some ac -> ac_target ac = Some t ->
  listing t (o_cmdargs o) (ai_admins w) (ai_monitor w) = Some (values, column) ->
  try_catch (dispatch now localtime info user_target (tool_request o) p)
    (error_reply (request_seqno (tool_request o))) w =
  (set_object p s c w, [], Ok (list_response values column "0")).
Proof.
  intros Hc Ha Hg Hac Ht Hl. destruct (tool_request_reads o (s_id s) Hc Ha) as (_ & Hcmd & r & Er & Hargs & _ & Hseq).
  unfold try_catch, dispatch. fold (command_of (tool_request o)). rewrite Hcmd.
  rewrite (eff_bind_quiet _ _ w w w) by done. unfold admin_find. rewrite Hac.
  rewrite (eff_bind_quiet _ _ w (set_object p s c w) (s_id s)) by (by apply (on_session_ok _ p w s c)).
  rewrite (eff_bind_quiet _ _ _ (set_object p s c w) r) by (unfold of_result; by rewrite Er).
  rewrite (listing_invoke ac t r _ values column Ht); [by rewrite Hseq|]. by rewrite Hargs.
Qed.

(** ** The session that serves the tool *)

Context (o : ProgramOptions) (ac : AdminCommand Target) (t : Target) (values : list string) (column : string).
Context (serviceid : string) (i p : Z) (w0 : AdminInterfaceImpl).

(** What the interface sends in the course of the session. *)
Definition greeting : list txMessage := [logon_msg serviceid].
Definition welcome : list txMessage := [logon_msg serviceid; serialise_admins w0].
Definition answer : list txMessage := [logon_msg serviceid; serialise_admins w0; list_reply values column].

(** The session at slot [i] is open; nothing else of the service changed. *)
Definition desk (auto : bool) (w : AdminInterfaceImpl) : Prop :=
  same_service w0 w /\ exists s c, get_object w p = Some (s, c) /\ s_id s = i /\ s_session_valid s = true /\
    s_io_handle s = true /\ s_listener s = true /\ s_autoclose s = auto.

(** How far the conversation is. *)
Inductive served : list txMessage -> Client -> Z * AdminInterfaceImpl -> Prop :=
| served_none c w : desk false w -> outbox true (stream greeting) c -> served [] c (p, w)
| served_logon c w : desk true w -> outbox true (stream welcome) c -> served [tool_logon o] c (p, w)
| served_request c w s c0 : get_object w p = Some (s, c0) -> outbox false (stream answer) c -> served (tool_messages o) c (p, w).

Definition in_turn (ms : list txMessage) (m : txMessage) : Prop :=
  (ms = [] /\ m = tool_logon o) \/ (ms = [tool_logon o] /\ m = tool_request o).

Context (Hcmd : o_cmd o <> EmptyString) (Hargs : Z.of_nat (length (o_cmdargs o)) < 2 ^ 31)
  (Hac : ai_admins w0 !! o_cmd o = Some ac) (Ht : ac_target ac = Some t)
  (Hlist : listing t (o_cmdargs o) (ai_admins w0) (ai_monitor w0) = Some (values, column))
  (Hreg : ai_reg w0 !! Z.to_nat i = Some (Some p)) (Hi : 1 <= i <= MAX_SESSIONS)
  (Hroom : Z.of_nat (length (stream answer)) <= 100 * 1024 * 1024).

#[local] Instance library_listener : SessionListener AdminInterfaceImpl :=
  interface_listener now localtime info user_target.

(** A message reaches the interface, with the session at its slot. *)
Lemma desk_message auto w c m : desk auto w -> exists s c0 s2 w2,
  get_object w p = Some (s, c0) /\
  io_onmsg p m (set_object p s c w) = pair_of (on_session_message now localtime info user_target m p w2) /\
  get_object w2 p = Some (s2, c) /\ s_id s2 = i /\ s_session_valid s2 = true /\ s_io_handle s2 = true /\
  s_listener s2 = true /\ s_autoclose s2 = auto /\ same_service w0 w2.
Proof.
  intros [Hs (s & c0 & Hg & Hid & Hv & Hio & Hls & Ha)]. set (s1 := take_message m s).
  set (s2 := if bool_decide (msg_type m = id.msg_logon) then note_logon m s1 else s1).
  assert (s_id s2 = s_id s /\ s_session_valid s2 = s_session_valid s /\ s_io_handle s2 = s_io_handle s /\
    s_listener s2 = s_listener s /\ s_autoclose s2 = s_autoclose s) as (E1 & E2 & E3 & E4 & E5).
  { unfold s2, note_logon. destruct (bool_decide _), (s_logon_received s1); done. }
  exists s, c0, s2, (set_object p s2 c (set_object p s c w)). split; [done|]. split.
  - unfold io_onmsg. cbn [host_get host_set library_listener interface_listener fst snd]. rewrite get_object_set, Hv.
    cbn [negb]. fold s1 s2. by rewrite E4, Hls.
  - split; [apply get_object_set|]. split_and!; try congruence. done.
Qed.

Lemma same_service_trans w1 w2 w3 : same_service w1 w2 -> same_service w2 w3 -> same_service w1 w3.
Proof. unfold same_service. intuition congruence. Qed.

Lemma same_service_admins w w' : same_service w w' -> serialise_admins w' = serialise_admins w.
Proof. intros (_ & Ha & _). unfold serialise_admins. by rewrite Ha. Qed.

Lemma serve_logon c w rest junk : desk false w -> outbox true (stream greeting) c -> sendable (tool_logon o) ->
  Z.of_nat (length (wire (tool_logon o) ++ rest)) < 2 ^ 31 ->
  exists c' w', process_input c (p, w) ((wire (tool_logon o) ++ rest) ++ junk)
      (Z.of_nat (length (wire (tool_logon o) ++ rest))) = Ok (c', (p, w'), Some (wire_length (tool_logon o))) /\
    desk true w' /\ outbox true (stream welcome) c' /\ inbound c' = inbound c.
Proof.
  unfold stream, answer, greeting, welcome in *. cbn [flat_map] in *. rewrite !app_nil_r in *. rewrite !length_app in Hroom.
  intros Hd Hb Hm Hlen. destruct (desk_message false w c (tool_logon o) Hd)
    as (s & c0 & s2 & w2 & Hg & Eio & Hg2 & Hid & Hv & Hio & Hls & Ha & Hsame).
  pose proof (same_service_admins _ _ Hsame) as Hadm.
  destruct (enqueue_outbox (serialise_admins w2) (set_autoclose true s2) c _ Hb Hv Hio) as (c' & Eq & Hb' & Hin).
  { rewrite Hadm, length_app. lia. }
  destruct (logon_answered o p i w2 s2 c c' Hcmd Hg2 Hid) as (w3 & E3 & Hg3 & Hs3); [|done|done|done|].
  { by rewrite (proj1 Hsame). }
  exists c', w3. rewrite Hadm in Hb'. split; [|split; [|done]].
  - eapply (session_input_runs c p w s c0 _ rest junk w3 (Ok ())); [done|done|done| |done|done].
    cbn [host_set library_listener interface_listener fst snd]. rewrite Eio, E3. done.
  - split; [by eapply same_service_trans|]. by exists (set_autoclose true s2), c'.
Qed.

Lemma serve_request c w rest junk : desk true w -> outbox true (stream welcome) c -> sendable (tool_request o) ->
  Z.of_nat (length (wire (tool_request o) ++ rest)) < 2 ^ 31 ->
  exists c' w' s', process_input c (p, w) ((wire (tool_request o) ++ rest) ++ junk)
      (Z.of_nat (length (wire (tool_request o) ++ rest))) = Ok (c', (p, w'), Some (wire_length (tool_request o))) /\
    get_object w' p = Some (s', c') /\ outbox false (stream answer) c' /\ inbound c' = inbound c.
Proof.
  unfold stream, answer, welcome in *. cbn [flat_map] in *. rewrite !app_nil_r in *. rewrite !length_app in Hroom.
  intros Hd Hb Hm Hlen. destruct (desk_message true w c (tool_request o) Hd)
    as (s & c0 & s2 & w2 & Hg & Eio & Hg2 & Hid & Hv & Hio & Hls & Ha & Hsame & Hadm & Hmon).
  pose proof (request_dispatched o p w2 s2 c ac t values column Hcmd Hargs Hg2) as Ed.
  rewrite Hadm, Hmon in Ed. specialize (Ed Hac Ht Hlist).
  destruct (enqueue_outbox (list_reply values column) s2 c _ Hb Hv Hio) as (c1 & Eq & Hb1 & Hin1).
  { rewrite !length_app. lia. }
  destruct (reply_steps now localtime info user_target (tool_request o) p w2 (list_response values column "0") _ s2 c c1
    Ed (get_object_set p s2 c w2) eq_refl Eq) as (w3 & E3 & Hg3 & _).
  change (sent_form (list_response values column "0")) with (list_reply values column) in Hg3.
  destruct (list_reply_facts values column) as (_ & Hpend & _). rewrite Hpend, Ha in Hg3. cbn [negb andb] in Hg3.
  destruct (close_outbox s2 c1 _ Hb1 Hio) as [Hb2 Hin2].
  exists (session_close s2 c1), w3, s2. rewrite <-app_assoc in Hb2. split; [|split; [done|split; [done|congruence]]].
  eapply (session_input_runs c p w s c0 _ rest junk w3 (Ok ())); [done|done|done| |done|done].
  cbn [host_set library_listener interface_listener fst snd]. rewrite Eio. unfold on_session_message.
  destruct (tool_request_reads o 0 Hcmd Hargs) as (Hty & _). rewrite Hty.
  rewrite (bool_decide_eq_false_2 (id.msg_request = id.msg_logon)), bool_decide_eq_true_2 by done. by rewrite E3.
Qed.

Lemma served_message ms c pw m rest junk : served ms c pw -> sendable m -> in_turn ms m ->
  Z.of_nat (length (wire m ++ rest)) < 2 ^ 31 ->
  exists c' pw', process_input c pw ((wire m ++ rest) ++ junk) (Z.of_nat (length (wire m ++ rest))) =
      Ok (c', pw', Some (wire_length m)) /\
    served (ms ++ [m]) c' pw' /\ inbound c' = inbound c.
Proof.
  intros [c1 w Hd Hb|c1 w Hd Hb|c1 w s c0 Hd Hb] Hm [[? ->]|[? ->]] Hlen; simplify_eq.
  - destruct (serve_logon c1 w rest junk Hd Hb Hm Hlen) as (c' & w' & E & Hd' & Hb' & Hin).
    exists c', (p, w'). split; [done|]. split; [by apply served_logon|done].
  - destruct (serve_request c1 w rest junk Hd Hb Hm Hlen) as (c' & w' & s' & E & Hd' & Hb' & Hin).
    exists c', (p, w'). split; [done|]. split; [by eapply served_request|done].
Qed.

Lemma served_object ms c pw : served ms c pw -> pw.1 = p /\ exists s c0, get_object pw.2 p = Some (s, c0).
Proof.
  intros [c1 w [_ (s & c0 & Hd & _)] Hb|c1 w [_ (s & c0 & Hd & _)] Hb|c1 w s c0 Hd Hb]; (split; [done|]);
    by exists s, c0.
Qed.

Lemma served_set ms c w s c0 c1 : served ms c (p, w) -> get_object w p = Some (s, c0) ->
  served ms c (p, set_object p s c1 w).
Proof.
  assert (forall auto, desk auto w -> get_object w p = Some (s, c0) -> desk auto (set_object p s c1 w)) as Hset.
  { intros auto [Hs (s' & c' & Hg & H)] Hg'. rewrite Hg in Hg'. injection Hg' as -> ->. split; [done|].
    exists s, c1. by rewrite get_object_set. }
  intros Hsv Hg. inversion Hsv; subst.
  - apply served_none; eauto.
  - apply served_logon; eauto.
  - eapply served_request; [apply get_object_set|done].
Qed.

Lemma served_outbox ms c c' pw : served ms c pw ->
  (forall more l, outbox more l c -> outbox more l c') -> served ms c' pw.
Proof.
  intros Hsv Hall. destruct Hsv.
  - apply served_none; auto.
  - apply served_logon; auto.
  - eapply served_request; eauto.
Qed.

Lemma served_incomplete ms c pw m part junk : served ms c pw -> sendable m ->
  part `prefix_of` wire m -> (length part < length (wire m))%nat -> Z.of_nat (length part) < 2 ^ 31 ->
  exists c' pw', process_input c pw (part ++ junk) (Z.of_nat (length part)) = Ok (c', pw', Some 0) /\
    served ms c' pw' /\ inbound c' = inbound c.
Proof.
  intros Hsv Hm Hpre Hlt Hlen. destruct (served_object _ _ _ Hsv) as [Hp (s & c0 & Hg)].
  destruct pw as [p' w]. cbn [fst snd] in *. subst p'. exists c, (p, set_object p s c w).
  split; [|split; [by eapply served_set|done]].
  change (set_object p s c w) with (host_set w p (s, c)).
  apply (session_input_waits c p w s c0 m); [done|apply get_object_set|done..].
Qed.

Lemma served_inbound ms c c' pw : served ms c pw -> outbound c' = outbound c -> served ms c' pw.
Proof. intros Hsv Ho. apply (served_outbox _ _ _ _ Hsv). intros more l Hb. by apply (outbox_ext more l c). Qed.

Lemma served_output ms c pw clock sends : served ms c pw ->
  exists c' st, handle_output clock sends c = Ok (c', st) /\ served ms c' pw.
Proof.
  intros Hsv. assert (out_inv c) as Ho by (by destruct Hsv as [??? []|??? []|????? []]).
  destruct (handle_output_out clock sends c Ho) as (c' & st & E & _). exists c', st. split; [done|].
  apply (served_outbox _ _ _ _ Hsv). intros more l Hb.
  destruct (outbox_output more l c clock sends Hb) as (c1 & st1 & E1 & Hb1). rewrite E in E1. by injection E1 as <- <-.
Qed.

Definition library_sam_callback : SamCallback (Z * AdminInterfaceImpl) := {|
  cb_after := served;
  cb_accepts := in_turn;
  cb_inbound := served_inbound;
  cb_output := served_output;
  cb_message := served_message;
  cb_incomplete := served_incomplete |}.

End library_side.

(** * Both sides together *)

(** A free slot gives a session that is ready to serve. *)
Lemma create_serves now peer serviceid fd w : registry_inv w ->
  (exists i, 1 <= i <= MAX_SESSIONS /\ ai_reg w !! Z.to_nat i = Some None) ->
  Z.of_nat (length (wire (logon_msg serviceid))) <= 100 * 1024 * 1024 ->
  exists i p c w0, createNewSession now peer serviceid fd w = (w0, [], Ok ()) /\ 1 <= i <= MAX_SESSIONS /\
    ai_reg w !! Z.to_nat i = Some None /\ ai_reg w0 !! Z.to_nat i = Some (Some p) /\ ai_admins w0 = ai_admins w /\ ai_monitor w0 = ai_monitor w /\
    desk i p w0 false w0 /\ get_object w0 p = Some (io_init (new_session fd i now true (peer fd)), c) /\
    outbox true (wire (logon_msg serviceid)) c /\ fresh_inbound c.
Proof.
  intros Hw (j & Hj & Hfree) Hl.
  destruct (find_slot_complete (ai_reg w) (ai_next w) (ri_size w Hw) (ri_next w Hw)) as (i & next & E & Hn & H0 & H1).
  destruct (decide (i = 0)) as [->|Hi]; [destruct (H0 eq_refl j Hj) as [q Hq]; congruence|].
  destruct (H1 Hi) as [Hr Hfi]. rewrite (create_steps _ _ _ _ _ _ _ E Hi).
  set (s := io_init (new_session fd i now true (peer fd))). set (p := ai_alloc w).
  set (w1 := with_new_session i next s (new_client fd now true) w).
  destruct (enqueue_outbox (logon_msg serviceid) s (new_client fd now true) [] (outbox_new fd now true))
    as (c & Eq & Hb & Hin); [done|done|done|].
  assert (enqueue_to p (logon_msg serviceid) w1 = (set_object p s c w1, [], Ok false)) as Ee.
  { unfold enqueue_to. apply (on_session_ok _ p w1 s (new_client fd now true)); [apply get_object_set|by rewrite Eq]. }
  exists i, p, c, (set_object p s c w1). rewrite (eff_bind_quiet _ _ _ _ _ Ee).
  pose proof (lookup_lt_Some _ _ _ Hfi) as Hlt.
  do 3 (split; [done|]). split; [by apply list_lookup_insert_eq|]. do 2 (split; [done|]).
  split; [|split; [apply get_object_set|split; [done|]]].
  - split; [split_and!; reflexivity|]. exists s, c. split; [apply get_object_set|]. split_and!; reflexivity.
  - unfold fresh_inbound. by rewrite Hin.
Qed.

Lemma listing_column t args admins M values column : listing t args admins M = Some (values, column) ->
  clean_name column = true /\ column <> id.row_key.
Proof. destruct t; cbn; try done; destruct args; try done; [case_bool_decide; [|done]|]; intros [= <- <-]; done. Qed.

Lemma stream_wire_length ms m : m ∈ ms -> wire_length m <= Z.of_nat (length (stream ms)).
Proof.
  intros Hm. rewrite <-length_wire. induction Hm as [|? ? ? ? IH]; unfold stream in *; cbn [flat_map]; rewrite length_app; lia.
Qed.

Lemma fitting_sendable ms m : Z.of_nat (length (stream ms)) <= 100 * 1024 * 1024 -> m ∈ ms -> tidy (m_root m) ->
  clean_type (msg_type m) = true -> sendable m.
Proof.
  intros Hl Hm Ht Hc. apply tidy_sendable; [done|done|]. pose proof (stream_wire_length ms m Hm). unfold max_msglen. lia.
Qed.

Lemma tool_messages_sendable o : Z.of_nat (length (stream (tool_messages o))) <= 100 * 1024 * 1024 ->
  sendable (tool_logon o) /\ sendable (tool_request o).
Proof.
  intros Hl. split; (apply (fitting_sendable _ _ Hl); [unfold tool_messages; rewrite !elem_of_cons; auto| |]).
  - apply tidy_tool_logon.
  - unfold tool_logon. by case_bool_decide.
  - apply tidy_tool_request.
  - reflexivity.
Qed.

Lemma answer_sendable values column serviceid w0 : clean_attrs (ai_admins w0) -> clean_name column = true ->
  Z.of_nat (length (stream (answer values column serviceid w0))) <= 100 * 1024 * 1024 ->
  Forall sendable (answer values column serviceid w0).
Proof.
  intros Ha Hc Hl. destruct (list_reply_facts values column) as (He & _ & Ht).
  destruct (echoes_seqno _ _ He) as [Hty _].
  repeat (apply Forall_cons; split); [..|constructor];
    (apply (fitting_sendable _ _ Hl); [unfold answer; rewrite !elem_of_cons; auto| |]).
  - apply tidy_logon_msg.
  - reflexivity.
  - by apply tidy_serialise_admins.
  - reflexivity.
  - by apply Ht.
  - rewrite Hty. reflexivity.
Qed.

(** The tool shows the list and nothing else. *)
Lemma answer_shown o values column serviceid w0 : o_verbose o <= 2 -> column <> id.row_key ->
  Z.of_nat (length values) < 2 ^ 31 ->
  foldl (fun l m => listener_message (o_verbose o) m l) new_listener (answer values column serviceid w0) =
    trigger_close 0 (print (lines values) new_listener).
Proof.
  intros Hv Hc Hl. unfold answer. cbn [foldl]. unfold listener_message.
  destruct (Z.ltb_spec 2 (o_verbose o)); [lia|].
  destruct (list_reply_facts values column) as (He & _ & _). destruct (echoes_seqno _ _ He) as [Hty _]. rewrite Hty.
  change (msg_type (logon_msg serviceid)) with id.msg_logon.
  change (msg_type (serialise_admins w0)) with id.admindescr.
  change (bool_decide (id.msg_logon = id.msg_bye)) with false. change (bool_decide (id.msg_logon = id.msg_response)) with false.
  change (bool_decide (id.msg_logon = id.msg_logon)) with true. cbn [orb].
  change (bool_decide (id.admindescr = id.msg_bye)) with false. change (bool_decide (id.admindescr = id.msg_response)) with false.
  change (bool_decide (id.admindescr = id.msg_logon)) with false. change (bool_decide (id.admindescr = id.heartbeat)) with false.
  change (bool_decide (id.msg_response = id.msg_bye)) with false.
  change (bool_decide (id.msg_response = id.msg_response)) with true. cbn [orb l_show_unsol new_listener].
  by apply list_reply_handled.
Qed.

(** * Properties *)

Section conversation.
Context (now : Z) (localtime : Z -> tm) (info : system_info) (user_target : Z -> AdminRequest -> ai_op AdminResponse).
Context (PACKAGE_VERSION : string) (inet_addr : string -> option Z) (gethostbyname : string -> option (list Z))
  (getservbyname : string -> option Z).

(** The program reaches the point where it waits for the answer. *)
Lemma tool_main_waits tserviceid user args answers tnow peeraddr o rest outs tfd tool :
  process_cmd_line PACKAGE_VERSION tserviceid user args = Continue o ->
  connect_ipv4 inet_addr gethostbyname getservbyname (o_addr o) (o_port o) answers = (rest, outs, Ok tfd) -> tfd <> 0 ->
  tool_start o tfd tnow peeraddr = Ok (Some tool) ->
  tool_main PACKAGE_VERSION inet_addr gethostbyname getservbyname tserviceid user args answers tnow peeraddr =
    Waiting o tool.
Proof.
  intros Ep Ec Hfd Es. unfold tool_main. rewrite Ep, Ec, (proj2 (Z.eqb_neq tfd 0) Hfd). by rewrite Es.
Qed.

(** C5. A command that lists names, from the terminal and back: for [table list]
    and [help], with options anywhere on the command line, the program starts
    and connects, a session is made for its connection, and when the interface has read what the program sent and the program has read
    what the interface sent, both in pieces of any size and with work items
    and partial sends at any points, the terminal shows exactly the names, one
    per line, and the program ends with code 0. *)
Theorem command_shown_end_to_end (peer : Z -> string) (serviceid : string) (fd : Z) (w : AdminInterfaceImpl)
    (tserviceid user : string) (args : list string) (o : ProgramOptions) (answers rest : list attempt)
    (outs : list net_call) (tfd tnow : Z) (peeraddr : string) (ac : AdminCommand Target) (t : Target)
    (values : list string) (column : string) :
  process_cmd_line PACKAGE_VERSION tserviceid user args = Continue o ->
  connect_ipv4 inet_addr gethostbyname getservbyname (o_addr o) (o_port o) answers = (rest, outs, Ok tfd) -> tfd <> 0 ->
  registry_inv w -> (exists i, 1 <= i <= MAX_SESSIONS /\ ai_reg w !! Z.to_nat i = Some None) ->
  o_cmd o <> EmptyString -> o_verbose o <= 2 -> Z.of_nat (length (o_cmdargs o)) < 2 ^ 31 ->
  ai_admins w !! o_cmd o = Some ac -> ac_target ac = Some t ->
  listing t (o_cmdargs o) (ai_admins w) (ai_monitor w) = Some (values, column) ->
  Z.of_nat (length values) < 2 ^ 31 -> clean_attrs (ai_admins w) ->
  Z.of_nat (length (stream (tool_messages o))) <= 100 * 1024 * 1024 ->
  Z.of_nat (length (stream (answer values column serviceid w))) <= 100 * 1024 * 1024 ->
  exists tool w0 p s c,
    tool_main PACKAGE_VERSION inet_addr gethostbyname getservbyname tserviceid user args answers tnow peeraddr =
      Waiting o tool /\
    createNewSession now peer serviceid fd w = (w0, [], Ok ()) /\ get_object w0 p = Some (s, c) /\
    forall evs, Forall read_ok evs -> bytes_read evs = sent (t_client tool) ++ queued (t_client tool) ->
    exists c' w',
      run_events (CB := session_callback (SL := interface_listener now localtime info user_target))
        (evs ++ [EvWork]) (c, (p, w0)) = Ok (c', (p, w')) /\
      forall evs', Forall read_ok evs' -> bytes_read evs' = sent c' ++ queued c' ->
      exists tc tool',
        run_events (CB := session_callback (SL := tool_listener o))
          (evs' ++ [EvWork]) (t_client tool, (tool_session, tool)) = Ok (tc, (tool_session, tool')) /\
        l_cout (t_listener tool') = lines values /\
        forall later, exists closed, tool_finish later tool' = Returns (0, closed).
Proof.
  intros Ep Econn Hfd Hw Hfree Hcmd Hverb Hargs Hac Ht Hlist Hvals Hattrs Hfit Hfits.
  destruct (listing_column _ _ _ _ _ _ Hlist) as [Hcol Hkey].
  destruct (tool_start_sends o tfd tnow peeraddr Hcmd Hfit) as (tool & Est & Htout & Htin & Htool).
  destruct (create_serves now peer serviceid fd w Hw Hfree)
    as (i & p & c & w0 & Ec & Hi & _ & Hreg & Hadm & Hmon & Hdesk & Hg & Hout & Hin).
  { unfold answer, stream in Hfits. cbn [flat_map] in Hfits. rewrite length_app in Hfits. lia. }
  assert (serialise_admins w0 = serialise_admins w) as Hser by (unfold serialise_admins; by rewrite Hadm).
  assert (answer values column serviceid w0 = answer values column serviceid w) as Hans
    by (unfold answer; by rewrite Hser).
  rewrite <-Hans in Hfits. rewrite <-Hadm in Hac, Hlist, Hattrs. rewrite <-Hmon in Hlist.
  exists tool, w0, p, (io_init (new_session fd i now true (peer fd))), c. split; [by eapply tool_main_waits|].
  do 2 (split; [done|]).
  intros evs Hev Hb. rewrite (proj2 (proj2 (proj2 Htout))) in Hb.
  destruct (tool_messages_sendable o Hfit) as [Hs1 Hs2].
  destruct (deliver_all (SCB := library_sam_callback now localtime info user_target o ac t values column serviceid
      i p w0 Hcmd Hargs Hac Ht Hlist Hreg Hi Hfits) c (p, w0) [] (tool_messages o) evs)
    as (c' & pw' & Erun & Hserved); [done| | |done|done|lia|].
  { apply served_none; [done|]. unfold greeting, stream. cbn [flat_map]. by rewrite app_nil_r. }
  { unfold tool_messages. intros [|m1 [|m2 [|m3 ms1]]] m ms2 E; cbn [app] in *; [| |done|done].
    - injection E as <- _. split; [exact Hs1|left; split; reflexivity].
    - injection E as <- <- _. split; [exact Hs2|right; split; reflexivity]. }
  cbn [app cb_after library_sam_callback] in Hserved.
  inversion Hserved as [| |c1 w' s1 c0 Hg1 Hb1]; subst. exists c', w'. split; [done|].
  intros evs' Hev' Hb'. rewrite (proj2 (proj2 (proj2 Hb1))) in Hb'.
  pose proof (answer_sendable values column serviceid w0 Hattrs Hcol Hfits) as Hsend.
  destruct (deliver_all (SCB := tool_sam_callback o new_listener) (t_client tool) (tool_session, tool) []
      (answer values column serviceid w0) evs') as (tc & [p' tool'] & Et & _ & Hp' & _ & _ & Hl);
    [done|done|by apply deliverable_Forall|done|done|lia|].
  cbn [app fst snd] in Hp', Hl. subst p'. rewrite (answer_shown o) in Hl by done.
  exists tc, tool'. split; [done|]. rewrite Hl. split; [done|]. intros later.
  unfold tool_finish, wait_for_session_closure. rewrite Hl. by eexists.
Qed.

End conversation.

(** ** A run *)

Lemma clean_attrs_decided (admins : gmap string (AdminCommand Target)) :
  map_Forall (fun _ ac => map_Forall (fun k _ => clean_name k = true) (ac_attrs ac)) admins -> clean_attrs admins.
Proof. intros H name ac k v Hac. by apply (H name ac Hac). Qed.

(** An interface with one table, and a user who asks for the tables. *)
Definition demo_world : AdminInterfaceImpl :=
  state_after (monitor_update 1000 test_localtime "prices" "VOD.L" {[ "bid" := "101" ]} new_interface).
Definition demo_options : ProgramOptions :=
  MkOptions "localhost" "5555" "table" ["list"] 1 "1/admin:me@here" "me".

Lemma demo_world_inv : registry_inv demo_world.
Proof. apply keeps_on_monitor, registry_inv_new. Qed.

Lemma command_shown_end_to_end_witness : exists tool w0 p s c,
  tool_main "1.0" (fun _ => Some 127) (fun _ => None) (fun _ => None) "1/admin:me@here" "me"
    ["localhost"; "5555"; "-d"; "table"; "list"] [Attempt 5 0] 1000 "here" = Waiting demo_options tool /\
  createNewSession 1000 test_peer "svc" 7 demo_world = (w0, [], Ok ()) /\ get_object w0 p = Some (s, c) /\
  forall evs, Forall read_ok evs -> bytes_read evs = sent (t_client tool) ++ queued (t_client tool) ->
  exists c' w',
    run_events (CB := session_callback (SL := interface_listener 1000 test_localtime test_info no_callbacks))
      (evs ++ [EvWork]) (c, (p, w0)) = Ok (c', (p, w')) /\
    forall evs', Forall read_ok evs' -> bytes_read evs' = sent c' ++ queued c' ->
    exists tc tool',
      run_events (CB := session_callback (SL := tool_listener demo_options))
        (evs' ++ [EvWork]) (t_client tool, (tool_session, tool)) = Ok (tc, (tool_session, tool')) /\
      l_cout (t_listener tool') = "prices" +:+ newline /\
      forall later, exists closed, tool_finish later tool' = Returns (0, closed).
Proof.
  apply (command_shown_end_to_end 1000 test_localtime test_info no_callbacks "1.0" (fun _ => Some 127) (fun _ => None)
    (fun _ => None) test_peer "svc" 7 demo_world "1/admin:me@here" "me" ["localhost"; "5555"; "-d"; "table"; "list"]
    demo_options [Attempt 5 0] [] [Net_socket; Net_connect 5 127 5555] 5 1000 "here" (MkAdminCommand "table" "query table information" "table [list|show] [tablename]"
     (Some T_list_tables) {[ "hidden" := "false" ]}) T_list_tables ["prices"] "table").
  - reflexivity.
  - vm_compute. reflexivity.
  - discriminate.
  - exact demo_world_inv.
  - exists 1. split; [unfold MAX_SESSIONS; lia|]. vm_compute. reflexivity.
  - discriminate.
  - vm_compute. discriminate.
  - vm_compute. reflexivity.
  - vm_compute. reflexivity.
  - reflexivity.
  - vm_compute. reflexivity.
  - vm_compute. reflexivity.
  - apply clean_attrs_decided. refine (bool_decide_eq_true_1 (map_Forall _ _) _). vm_compute. reflexivity.
  - vm_compute. discriminate.
  - vm_compute. discriminate.
Defined.
