(* ===== verification/Wakeups.v ===== *)
(** The server notifies the event loop of all it queues: no session of
    [AdminInterfaceImpl] is left with output that [poll] does not report.

    ReactorOutput.v shows this for any callback that uses its connection through
    its member functions ([WakingCallback]).  Here a session is shown to be such
    a callback when its listener is ([WakingListener]), and the interface to be
    such a listener, whatever state it is in and whatever the message. *)

From S2P Require Import Prelude Utils TxContainer SamBuffer SamProtocol MsgIDs AdminCommand TableEvents Table TableFacts TableProps ReadBuffer Client Reactor ReactorProps ReactorLoop ReactorOutput Monitor MonitorView Session AdminInterface Interface.

Local Open Scope Z_scope.

Create HintDb wakeups.

(** * Sessions *)

Lemma enqueue_notified m s c c' f : enqueueToSend m s c = Ok (c', f) -> notified c c'.
Proof.
  unfold enqueueToSend. destruct (negb (s_session_valid s)); [by intros [= <- _]|].
  destruct (encodeMsg m _) as [[size sb]|e]; [|by destruct (catchable e); intros [= <- _]].
  destruct (s_io_handle s); [|by intros [= <- _]].
  pose proof (queue_notified (Some (take (Z.to_nat size) (DynamicSamBuffer.msg_bytes sb))) false c) as H.
  destruct (queue _ false c) as [c1 r]. by destruct (r =? -1); intros [= <- _].
Qed.

Lemma session_close_notified s c : notified c (session_close s c).
Proof. unfold session_close. destruct (s_io_handle s); [apply queue_notified|done]. Qed.

Lemma housekeeping_notified now s c s' c' : session_housekeeping now s c = Ok (s', c') -> notified c c'.
Proof.
  unfold session_housekeeping. destruct (_ || _); [by intros [= _ <-]|]. destruct (_ <=? _); [|by intros [= _ <-]].
  intros ([c1 f] & E & [= _ <-])%result_bind_Ok. by eapply enqueue_notified.
Qed.

(** What a listener promises of the connections it is called for. *)
Class WakingListener (W : Type) {SL : SessionListener W} := {
  wl_get_set : forall w p x, host_get (host_set w p x) p = Some x;
  wl_message : forall m p w x, host_get w p = Some x ->
    exists y, host_get (session_msg_received m p w).1 p = Some y /\ notified x.2 y.2;
  wl_closed : forall p w x, host_get w p = Some x ->
    exists y, host_get (session_closed p w).1 p = Some y /\ notified x.2 y.2 }.

Section sessions.
Context {W : Type} {SL : SessionListener W} {WL : WakingListener W}.

Lemma io_onmsg_notified p m w x : host_get w p = Some x ->
  exists y, host_get (io_onmsg p m w).1 p = Some y /\ notified x.2 y.2.
Proof.
  intros Hg. unfold io_onmsg. rewrite Hg. destruct x as [s c]. destruct (negb (s_session_valid s)); [by exists (s, c)|].
  match goal with |- context [host_set w p ?x] => set (x1 := x) end.
  pose proof (wl_get_set w p x1) as Hg1. destruct (s_listener _); [|by exists x1]. exact (wl_message m p _ x1 Hg1).
Qed.

Lemma session_input_notified p src n w w' k x : session_process_input p src n w = Ok (w', k) -> host_get w p = Some x ->
  exists y, host_get w' p = Some y /\ notified x.2 y.2.
Proof.
  intros E Hg. unfold session_process_input in E. rewrite Hg in E. destruct x as [s c].
  destruct (decodeMsg _ _ _) as [[consumed m]|e].
  - destruct (consumed =? 0); [injection E as <- _; by exists (s, c)|].
    destruct (io_onmsg_notified p m w (s, c) Hg) as (y & Hy & Hw). destruct (io_onmsg p m w) as [w1 r]. exists y.
    destruct r as [|e]; [by injection E as <- _|]. destruct (catchable e); [by injection E as <- _|done].
  - destruct (catchable e); [|done]. apply result_bind_Ok in E as ([c1 f] & E1 & [= <- _]). eexists. split; [apply wl_get_set|].
    cbn [snd]. etransitivity; [by eapply enqueue_notified|apply session_close_notified].
Qed.

Lemma session_close_input_notified p w x : host_get w p = Some x ->
  exists y, host_get (session_process_close p w).1 p = Some y /\ notified x.2 y.2.
Proof.
  intros Hg. unfold session_process_close. rewrite Hg. destruct x as [s c].
  pose proof (wl_get_set w p (set_valid false s, c)) as Hg1. destruct (s_listener s); [|by eexists].
  destruct (wl_closed p _ _ Hg1) as ([s2 c2] & Hy & Hw). destruct (session_closed p _) as [w2 r]. cbn [fst] in Hy.
  destruct r; [|by eexists]. rewrite Hy. exists (forget_listener s2, c2). by split; [apply wl_get_set|].
Qed.

Lemma with_client_get c p w w' : with_client c p w = Ok w' -> exists s, host_get w' p = Some (s, c).
Proof.
  unfold with_client. destruct (host_get w p) as [[s c0]|]; [|done]. intros [= <-]. exists s. apply wl_get_set.
Qed.

Lemma client_of_get p w c y : client_of p w = Ok c -> host_get w p = Some y -> c = y.2.
Proof. unfold client_of. intros E Hg. rewrite Hg in E. destruct y. by injection E as ->. Qed.

#[export] Instance session_waking : WakingCallback (Z * W).
Proof.
  split.
  - intros c [p w] src n c' [p' w'] r E. cbn [process_input session_callback] in E.
    apply result_bind_Ok in E as (w1 & E1 & E). destruct (with_client_get _ _ _ _ E1) as [s Hg].
    apply result_bind_Ok in E as ([w2 k] & E2 & E). destruct (session_input_notified _ _ _ _ _ _ _ E2 Hg) as (y & Hy & Hw).
    apply result_bind_Ok in E as (c2 & E3 & [= <- _ _ _]). by rewrite (client_of_get _ _ _ _ E3 Hy).
  - intros c [p w] c' [p' w'] E. cbn [process_close session_callback] in E.
    apply result_bind_Ok in E as (w1 & E1 & E). destruct (with_client_get _ _ _ _ E1) as [s Hg].
    destruct (session_close_input_notified p w1 _ Hg) as (y & Hy & Hw). destruct (session_process_close p w1) as [w2 r].
    cbn [fst snd] in *. assert (exists c2, client_of p w2 = Ok c2 /\ c' = c2) as (c2 & E3 & ->).
    { destruct r as [[]|[]]; try done; by apply result_bind_Ok in E as (c2 & E3 & [= <- _ _]); exists c2. }
    by rewrite (client_of_get _ _ _ _ E3 Hy).
Qed.

End sessions.

(** * The interface *)

(** An operation leaves every session where it is, and its connection with what
    it queued notified. *)
Definition wakeful {A} (m : ai_op A) : Prop := forall w p x, get_object w p = Some x ->
  exists y, get_object (state_after (m w)) p = Some y /\ notified x.2 y.2.

Lemma wakeful_same {A} (m : ai_op A) : (forall w p, get_object (state_after (m w)) p = get_object w p) -> wakeful m.
Proof. intros H w p x Hx. exists x. by rewrite H. Qed.

Lemma wakeful_ret {A} (a : A) : wakeful (mret a).
Proof. by apply wakeful_same. Qed.
Lemma wakeful_throw {A} e : wakeful (throw (A := A) e).
Proof. by apply wakeful_same. Qed.
Lemma wakeful_result {A} (r : result A) : wakeful (of_result r).
Proof. by apply wakeful_same. Qed.
Lemma wakeful_get : wakeful get.
Proof. by apply wakeful_same. Qed.

Lemma wakeful_bind {A B} (m : ai_op A) (f : A -> ai_op B) : wakeful m -> (forall a, wakeful (f a)) -> wakeful (m ≫= f).
Proof.
  intros Hm Hf w p x Hx. destruct (Hm w p x Hx) as (y & Hy & Hw). unfold mbind, eff_bind.
  destruct (m w) as [[w1 o1] [a|e]]; cbn [state_after fst] in *; [|by exists y].
  destruct (Hf a w1 p y Hy) as (z & Hz & Hw'). destruct (f a w1) as [[w2 o2] r]. exists z.
  split; [exact Hz|by etransitivity].
Qed.

Lemma wakeful_for {A} (f : A -> ai_op unit) l : (forall a, wakeful (f a)) -> wakeful (for_each f l).
Proof. intros Hf. induction l as [|a l IH]; cbn [for_each]; [apply wakeful_ret|by apply wakeful_bind]. Qed.

Lemma wakeful_try {A} (m : ai_op A) h : wakeful m -> wakeful (try_catch m h).
Proof.
  intros Hm w p x Hx. destruct (Hm w p x Hx) as (y & Hy & Hw). exists y. split; [|done]. unfold try_catch.
  destruct (m w) as [[w1 o1] [a|e]]; [done|]. by destruct (catchable e).
Qed.

Lemma wakeful_on_session {A} q (f : AdminSession -> Client -> result (AdminSession * Client * A)) :
  (forall s c s' c' a, f s c = Ok (s', c', a) -> notified c c') -> wakeful (on_session q f).
Proof.
  intros Hf w p x Hx. unfold on_session. destruct (get_object w q) as [[s c]|] eqn:Hq; [|by exists x].
  destruct (f s c) as [[[s' c'] a]|e] eqn:E; cbn [state_after fst]; [|by exists x]. rewrite get_set_object.
  destruct (decide (q = p)) as [->|]; [|by exists x]. exists (s', c'). split; [done|].
  rewrite Hq in Hx. injection Hx as <-. by eapply Hf.
Qed.

Lemma wakeful_read {A} q (f : AdminSession -> A) : wakeful (on_session q (fun s c => Ok (s, c, f s))).
Proof. apply wakeful_on_session. by intros s c s' c' a [= _ <- _]. Qed.

Lemma wakeful_autoclose q : wakeful (on_session q (fun s c => Ok (set_autoclose true s, c, ()))).
Proof. apply wakeful_on_session. by intros s c s' c' a [= _ <- _]. Qed.

Lemma wakeful_enqueue q m : wakeful (enqueue_to q m).
Proof.
  apply wakeful_on_session. intros s c s' c' a ([c1 f] & E & [= _ <- _])%result_bind_Ok. by eapply enqueue_notified.
Qed.

Lemma wakeful_close q : wakeful (close_session q).
Proof. apply wakeful_on_session. intros s c s' c' a [= _ <- _]. apply session_close_notified. Qed.

Lemma wakeful_housekeep now q : wakeful (housekeep now q).
Proof.
  apply wakeful_on_session. intros s c s' c' a ([s1 c1] & E & [= _ <- _])%result_bind_Ok. by eapply housekeeping_notified.
Qed.

Lemma wakeful_reg_at i : wakeful (reg_at i).
Proof. apply wakeful_same. intros w p. unfold reg_at. by case_match. Qed.

#[export] Hint Resolve wakeful_ret wakeful_throw wakeful_result wakeful_get wakeful_try wakeful_read wakeful_autoclose wakeful_enqueue
  wakeful_close wakeful_housekeep wakeful_reg_at : wakeups.

(** An operation made of such operations. *)
Ltac wakes := repeat first
  [ solve [eauto 2 with wakeups]
  | progress intros
  | apply wakeful_bind
  | apply wakeful_for
  | apply wakeful_try
  | match goal with |- wakeful (match ?x with _ => _ end) => destruct x end ].

Lemma wakeful_is_open q : wakeful (is_open q).
Proof. apply wakeful_read. Qed.
#[export] Hint Resolve wakeful_is_open : wakeups.

Lemma wakeful_send_one m sid : wakeful (send_one m sid).
Proof. unfold send_one. wakes. Qed.
Lemma wakeful_send_list ms sid : wakeful (send_one_list ms sid).
Proof. unfold send_one_list. wakes. Qed.
Lemma wakeful_send_all m : wakeful (send_all m).
Proof. unfold send_all, for_registered. wakes. Qed.
#[export] Hint Resolve wakeful_send_one wakeful_send_list wakeful_send_all : wakeups.

Lemma wakeful_run_send o : wakeful (run_send o).
Proof. destruct o; cbn [run_send]; wakes. Qed.

(** Whatever an operation of the monitor does, what it sends goes through the
    sessions. *)
Lemma wakeful_on_monitor now lt op : wakeful (on_monitor now lt op).
Proof.
  intros w p x Hx. unfold on_monitor. destruct (op _ _ (ai_monitor w)) as [[M outs] r].
  assert (wakeful (for_each run_send outs;; of_result r)) as H
    by (apply wakeful_bind; [apply wakeful_for, wakeful_run_send|intros; apply wakeful_result]).
  exact (H (set_monitor M w) p x Hx).
Qed.
#[export] Hint Resolve wakeful_run_send wakeful_on_monitor : wakeups.

Section interface.
Context (now : Z) (localtime : Z -> tm) (info : system_info)
  (user_target : Z -> AdminRequest -> ai_op AdminResponse)
  (** The callbacks of the application only use the interface. *)
  (Huser : forall k req, wakeful (user_target k req)).

Lemma wakeful_session_rows sids : forall tb, wakeful (session_rows sids tb).
Proof.
  induction sids as [|sid sids IH]; intros tb; cbn [session_rows]; [apply wakeful_ret|]. unfold session_row, session_info.
  wakes; apply IH.
Qed.

Lemma wakeful_stop_sessions args : wakeful (stop_sessions args).
Proof.
  induction args as [|arg args IH]; cbn [stop_sessions]; [apply wakeful_ret|].
  unfold AdminInterface.session_exists, session_stop_one. wakes; apply IH.
Qed.
#[local] Hint Resolve wakeful_session_rows wakeful_stop_sessions : wakeups.

Lemma wakeful_invoke ac req : wakeful (invoke now localtime info user_target ac req).
Proof.
  unfold invoke, admincmd_list_tables, admincmd_sessions, admincmd_help, admincmd_info, admincmd_snapshot, admincmd_diags,
    admincmd_del_session, admincmd_subscribe, admincmd_table_subs. wakes.
Qed.
#[local] Hint Resolve wakeful_invoke : wakeups.

(** Whatever message arrives for whatever session, and when a session ends, the
    interface leaves every session where it was, with the event loop
    notified of all the output that was queued for it meanwhile. *)
Lemma interface_wakeful (m : txMessage) (q : Z) :
  wakeful (on_session_message now localtime info user_target m q) /\ wakeful (on_session_closed now localtime q).
Proof.
  split.
  - unfold on_session_message, handle_logon_msg, handle_admin_request, dispatch. wakes.
  - unfold on_session_closed. wakes; by apply wakeful_same.
Qed.

#[local] Instance notifying_listener : SessionListener AdminInterfaceImpl := interface_listener now localtime info user_target.

#[local] Instance interface_waking : WakingListener AdminInterfaceImpl.
Proof.
  split; cbn [host_get host_set session_msg_received session_closed notifying_listener interface_listener]; unfold pair_of; cbn [fst].
  - intros w p [s c]. by rewrite get_set_object, decide_True.
  - intros m p w x. apply (proj1 (interface_wakeful m p)).
  - intros p w x. apply (proj2 (interface_wakeful (new_message EmptyString) p)).
Qed.

(** So a connection of the server may be worked on by the reactor's threads. *)
Lemma server_waking : WakingCallback (Z * AdminInterfaceImpl).
Proof. exact session_waking. Qed.

End interface.

(** What the application does is notified too, in every thread that calls it. *)
Lemma application_wakeful now lt (name row : string) fields (source : string) sid :
  wakeful (monitor_update now lt name row fields) /\ wakeful (ai_delete_row now lt name row) /\
  wakeful (monitor_snapshot_all now lt) /\ wakeful (monitor_alert source source source source source source) /\
  wakeful (session_stop_one sid).
Proof. unfold monitor_alert, session_stop_one. split_and!; wakes. Qed.

(** * The loop waits while a thread queues *)

(** The callback of the connections: a session of the interface. *)
#[local] Instance demo_callback : ClientCallback (Z * AdminInterfaceImpl) :=
  session_callback (SL := interface_listener 1000 test_localtime test_info no_callbacks).

#[local] Instance demo_waking : WakingCallback (Z * AdminInterfaceImpl).
Proof. apply server_waking. intros k req. apply wakeful_ret. Defined.

(** A connection has been registered, and the IO thread waits in [poll], which
    reports no output; then another thread queues a byte. *)
Definition demo_world : Z * AdminInterfaceImpl := (1, new_interface).
Definition demo_object : object := Object (new_client 7 0 true) RS_N.
Definition demo_registered : Reactor (T := Z * AdminInterfaceImpl) :=
  handle_messages_now (set_io IoEvents (add_client 1 (set_object_at 1 demo_object (new_reactor 1 demo_world)))).
Definition demo_waits : Reactor (T := Z * AdminInterfaceImpl) :=
  let r := set_io (IoSearch (r_clients demo_registered)) demo_registered in
  let r := set_io IoPoll (set_io (IoSearch []) (search_client 1 r)) in
  set_io (IoWait (poll_asks r (r_clients r))) r.
Definition demo_queues : Reactor (T := Z * AdminInterfaceImpl) :=
  client_call 1 demo_object (queue (Some (str "x")) false (ob_client demo_object)).1 demo_waits.

Lemma demo_queues_reachable : reachable 1 demo_world demo_queues.
Proof.
  apply (reach_step _ _ demo_waits); [|by apply step_app, app_queue].
  eapply reach_steps; [|apply through_asks; reflexivity].
  eapply reach_step; [|apply step_io, (io_loop _ 100); reflexivity].
  eapply reach_step; [|apply step_io, io_search; reflexivity].
  eapply reach_step; [|apply step_io, io_search_start; reflexivity].
  eapply reach_step; [|apply step_io, io_messages; reflexivity].
  eapply reach_poll; [|reflexivity..].
  eapply reach_step; [|by apply step_app, app_new_client]. apply reach_new.
Qed.

