(* ===== verification/HostileServer.v ===== *)
(** The server against any peer: the interface keeps the contract of
    Hostile.v, so a connection made by [createNewSession] survives whatever
    its peer sends, up to the flaws that are listed. *)

From S2P Require Import Prelude Decimal Utils TxContainer SamBuffer SamProtocol MsgIDs AdminCommand TableEvents Table TableFacts Snapshot TableProps ReadBuffer Client Delivery Monitor MonitorView Session Hostile AdminInterface Interface Messages TableMessages AdminTool Sync ServerSocket CommandLine EndToEnd.

Local Open Scope Z_scope.

(** * Session numbers within the registry *)

Definition in_range (sid : Z) : Prop := 0 <= sid < SESSION_REG_SIZE.
Definition table_in_range (t : DataTable) : Prop := Forall in_range (m_subscribers t).
Definition send_in_range (o : send) : Prop := in_range (target o).

Lemma slot_in_range w i p : registry_inv w -> ai_reg w !! i = Some (Some p) -> in_range (Z.of_nat i).
Proof.
  intros Hw Hi. apply lookup_lt_Some in Hi. rewrite (ri_size w Hw) in Hi. unfold in_range, SESSION_REG_SIZE, MAX_SESSIONS in *. lia.
Qed.

Lemma session_list_in_range w : registry_inv w -> Forall in_range (session_list w).
Proof.
  intros Hw. apply Forall_forall. intros j (q & Hq & Hj)%list_elem_of_omap. apply registered_spec in Hq as [k Hk].
  destruct (ri_slot w Hw k q Hk) as (s & c & [Hs _]%get_object_Some & Hid & _). rewrite Hs in Hj. injection Hj as <-.
  rewrite Hid. by eapply slot_in_range.
Qed.

(** ** Tables only call sessions within the registry *)

Abbreviation stays_in_range := (guards table_in_range send_in_range).

Lemma send_snapshot_in_range s : in_range s -> stays_in_range (nolock_send_snapshopt s).
Proof.
  intros Hs t Hi Ht. pose proof (ti_batch t Hi). unfold nolock_send_snapshopt, mbind, eff_bind, get, of_result, emit, modify.
  pose proof (snapshot_loop_spec (length (m_rows t) + Z.to_nat (m_batchsize t)) t (m_batchsize t) (m_rows t)) as Hl.
  specialize (Hl ltac:(lia) ltac:(lia)).
  destruct (snapshot_loop _ t (m_batchsize t) (m_rows t)) as [[msgs b]|ex]; cbn [state_after outputs outcome fst snd app].
  - split_and!; [done| |done]. by apply Forall_singleton.
  - destruct Hl as [-> _]. split_and!; [done|constructor|done].
Qed.

Lemma add_subscriber_in_range s : in_range s -> stays_in_range (add_subscriber s).
Proof.
  intros Hs t Hi Ht. unfold add_subscriber, mbind, eff_bind, modify, get, emit.
  set (t1 := set_subscribers (m_subscribers t ++ [s]) t).
  assert (table_inv t1) as Hi1 by (split; apply Hi).
  assert (table_in_range t1) as Ht1 by (apply Forall_app; split; [done|by apply Forall_singleton]).
  destruct (send_snapshot_in_range s Hs t1 Hi1 Ht1) as (H1 & H2 & H3).
  destruct (nolock_send_snapshopt s t1) as [[t2 o2] r]. cbn [state_after outputs outcome fst snd app] in *.
  split_and!; [done| |done]. by constructor.
Qed.

Lemma copy_subscribers_in_range e t : table_in_range t -> Forall in_range (copy_subscribers e t).
Proof.
  unfold table_in_range. rewrite !Forall_forall. intros Ht s [_ Hs]%list_elem_of_filter. by apply Ht.
Qed.

Lemma snapshot_in_range e : stays_in_range (Table.snapshot e).
Proof.
  intros t Hi Ht. unfold Table.snapshot. rewrite (eff_bind_quiet get _ t t t eq_refl).
  apply guards_for_each; [|intros; apply keeps_send_snapshot|done|done]. intros s Hs. apply send_snapshot_in_range.
  pose proof (copy_subscribers_in_range e t Ht) as H. rewrite Forall_forall in H. by apply H.
Qed.

Lemma published_in_range e t msgs : table_in_range t -> Forall send_in_range (published e t msgs).
Proof.
  intros Ht. pose proof (copy_subscribers_in_range e t Ht) as H. rewrite Forall_forall in H.
  apply Forall_forall. intros o (m & _ & Ho)%list_elem_of_In%in_flat_map.
  apply in_map_iff in Ho as (s & <- & Hs). by apply H, list_elem_of_In.
Qed.

Lemma update_row_in_range e k fields : stays_in_range (Table.update_row e k fields).
Proof.
  intros t Hi Ht. destruct (update_row_spec e k fields t Hi) as (t' & evs & msgs & -> & _ & _ & _ & _ & Hs & _).
  assert (table_in_range t') by (unfold table_in_range; by rewrite Hs).
  split_and!; [done|by apply published_in_range|done].
Qed.

(** * What an operation of the interface keeps *)

(** A session and its connection as the server may leave them while a message
    is handled. *)
Definition session_like (x y : AdminSession * Client) : Prop :=
  s_id y.1 = s_id x.1 /\ s_io_handle y.1 = s_io_handle x.1 /\ s_listener y.1 = s_listener x.1 /\
  inbound y.2 = inbound x.2 /\ (out_inv x.2 -> out_inv y.2).

#[global] Instance session_like_preorder : PreOrder session_like.
Proof. split; [done|]. unfold session_like. intros x y z; intuition congruence. Qed.

(** The session at [p] is there, is registered. *)
Definition present (p : Z) (w : AdminInterfaceImpl) : Prop := is_Some (get_object w p).
Definition known (p : Z) (w : AdminInterfaceImpl) : Prop := exists i, ai_reg w !! i = Some (Some p).

(** Registered sessions stay registered, objects stay, and one that is not
    registered is not entered again. *)
Record follows (w w' : AdminInterfaceImpl) : Prop := Follows {
  fw_reg : forall i p, ai_reg w !! i = Some (Some p) -> ai_reg w' !! i = Some (Some p);
  fw_new : forall p, present p w -> known p w' -> known p w;
  fw_obj : forall p x, get_object w p = Some x -> exists y, get_object w' p = Some y /\ session_like x y }.

#[global] Instance follows_preorder : PreOrder follows.
Proof.
  split; [intros w; split; [done|done|]; intros p x Hx; by exists x|].
  intros w1 w2 w3 [Hr1 Hn1 Ho1] [Hr2 Hn2 Ho2].
  split; [auto|intros p [x Hx] Hk; destruct (Ho1 p x Hx) as (y & Hy & _); apply Hn1, Hn2; [by exists x|by exists y|done]|].
  intros p x Hx. destruct (Ho1 p x Hx) as (y & Hy & Hxy). destruct (Ho2 p y Hy) as (z & Hz & Hyz).
  exists z. split; [done|by etransitivity].
Qed.

Lemma follows_present p w w' : follows w w' -> present p w -> present p w'.
Proof. intros Hf [x Hx]. destruct (fw_obj _ _ Hf p x Hx) as (y & Hy & _). by exists y. Qed.

Section server.
(** Whether some command may call [admincmd_del_session]. *)
Context (drops : bool).

Record good (w : AdminInterfaceImpl) : Prop := Good {
  gd_reg : registry_inv w;
  gd_monitor : monitor_inv (ai_monitor w);
  gd_subs : tables_are table_in_range (ai_monitor w);
  gd_admins : drops = false -> forall n ac, ai_admins w !! n = Some ac -> ac_target ac <> Some T_del_session }.

(** The index of [drop_session] is not checked; a message of 4 GB and more
    overflows the encoder's counters. *)
Definition server_flaw (e : exn) : Prop :=
  (drops = true /\ e = undefined_behaviour "session registry index") \/
  exists m, ~ encodable m /\ encodeMsg m (DynamicSamBuffer.new 512) = Throw e /\ catchable e = false.

(** How a run may end: the server is sound and [P] holds, or one of the flaws. *)
Definition survived (P : Client * (Z * AdminInterfaceImpl) -> Prop) (r : result (Client * (Z * AdminInterfaceImpl))) : Prop :=
  match r with
  | Ok cs => good cs.2.2 /\ out_inv cs.1 /\ P cs
  | Throw e => e = undefined_behaviour "read outside the buffer" \/ server_flaw e
  end.

Lemma survived_mono (P Q : Client * (Z * AdminInterfaceImpl) -> Prop) r :
  (forall cs, P cs -> Q cs) -> survived P r -> survived Q r.
Proof. intros HPQ. destruct r; [|done]. cbn. intuition. Qed.

Definition safe {A} (m : ai_op A) (w : AdminInterfaceImpl) : Prop :=
  good (state_after (m w)) /\ follows w (state_after (m w)) /\ tolerated server_flaw (outcome (m w)).

Lemma safe_ret {A} (a : A) w : good w -> safe (mret a) w.
Proof. done. Qed.

Lemma safe_throw {A} e w : catchable e = true -> good w -> safe (throw (A := A) e) w.
Proof. intros He Hw. split; [done|]. split; [done|]. by left. Qed.

Lemma safe_bind {A B} (m : ai_op A) (f : A -> ai_op B) w : safe m w ->
  (forall a w', outcome (m w) = Ok a -> good w' -> follows w w' -> safe (f a) w') -> safe (m ≫= f) w.
Proof.
  unfold safe, mbind, eff_bind. intros (Hg & Hf & Ht) Hk. destruct (m w) as [[w1 o1] [a|e]]; [|done].
  cbn [state_after outcome fst snd] in *. destruct (Hk a w1 eq_refl Hg Hf) as (Hg2 & Hf2 & Ht2).
  destruct (f a w1) as [[w2 o2] r]. cbn [state_after outcome fst snd] in *. split_and!; [done|by etransitivity|done].
Qed.

(** After a step that cannot fail. *)
Lemma safe_after {A B} (m : ai_op A) (f : A -> ai_op B) w w1 a : m w = (w1, [], Ok a) -> follows w w1 ->
  safe (f a) w1 -> safe (m ≫= f) w.
Proof.
  intros E Hf (Hg2 & Hf2 & Ht2). unfold safe. rewrite (eff_bind_quiet _ _ _ _ _ E). split_and!; [done|by etransitivity|done].
Qed.

Lemma safe_get {B} (f : AdminInterfaceImpl -> ai_op B) w : safe (f w) w -> safe (get ≫= f) w.
Proof. by apply safe_after. Qed.

Lemma safe_for {A} (f : A -> ai_op unit) l w : good w ->
  (forall a w', a ∈ l -> good w' -> follows w w' -> safe (f a) w') -> safe (for_each f l) w.
Proof.
  revert w. induction l as [|a l IH]; intros w Hw Hf; cbn [for_each]; [by apply safe_ret|].
  apply safe_bind; [apply Hf; [by left|done|done]|]. intros _ w' _ Hg Hww'.
  apply IH; [done|]. intros b w2 Hb Hg2 Hf2. apply Hf; [by right|done|by etransitivity].
Qed.

Lemma safe_try {A} (m : ai_op A) h w : safe m w -> safe (try_catch m h) w.
Proof.
  unfold safe, try_catch. intros (Hg & Hf & Ht). destruct (m w) as [[w1 o1] [a|e]]; [done|].
  destruct (catchable e) eqn:E; cbn [state_after outcome fst snd tolerated] in *; done.
Qed.

(** ** Sessions *)

Lemma good_set_object w p s c s' c' : good w -> get_object w p = Some (s, c) -> s_id s' = s_id s ->
  s_io_handle s' = s_io_handle s -> good (set_object p s' c' w).
Proof. intros [H1 H2 H3 H4] Hg Hid Hio. split; [by apply (inv_set_object w p s c)|done..]. Qed.

Lemma follows_set_object w p x s' c' : get_object w p = Some x -> session_like x (s', c') ->
  follows w (set_object p s' c' w).
Proof.
  intros Hg Hl. split; [done|done|]. intros q y Hy. rewrite get_set_object. destruct (decide (p = q)) as [->|]; [|by exists y].
  exists (s', c'). split; [done|]. rewrite Hg in Hy. by injection Hy as <-.
Qed.

Lemma safe_on_session {A} p (f : AdminSession -> Client -> result (AdminSession * Client * A)) w : good w -> present p w ->
  (forall s c, match f s c with Ok (s', c', _) => session_like (s, c) (s', c') | Throw e => tolerated (A := unit) server_flaw (Throw e) end) ->
  safe (on_session p f) w.
Proof.
  intros Hw [[s c] Hg] Hf. unfold safe, on_session. rewrite Hg. specialize (Hf s c).
  destruct (f s c) as [[[s' c'] a]|e]; cbn [state_after outcome fst snd]; [|done].
  split; [by eapply good_set_object; [done|done|apply Hf..]|]. split; [by eapply follows_set_object|done].
Qed.

Lemma enqueue_tolerated m s c : match enqueueToSend m s c with
  | Ok (c', _) => inbound c' = inbound c /\ (out_inv c -> out_inv c')
  | Throw e => server_flaw e
  end.
Proof.
  destruct (enqueueToSend m s c) as [[c' f]|e] eqn:E.
  { split; [by eapply enqueue_inbound|by eapply enqueue_out]. }
  right. exists m. split.
  - intros Hm. destruct (enqueue_total m s c Hm) as (c' & f & E'). congruence.
  - unfold enqueueToSend in E. destruct (negb (s_session_valid s)); [done|].
    destruct (encodeMsg m _) as [[size sb]|e']; [|by destruct (catchable e') eqn:Ec; simplify_eq].
    destruct (s_io_handle s); [|done]. destruct (queue _ false c) as [c2 r]. by destruct (r =? -1).
Qed.

Lemma safe_enqueue_to p m w : good w -> present p w -> safe (enqueue_to p m) w.
Proof.
  intros Hw Hp. apply safe_on_session; [done..|]. intros s c. pose proof (enqueue_tolerated m s c) as H.
  destruct (enqueueToSend m s c) as [[c' f]|e]; cbn [mbind result_bind]; [destruct H; by split_and!|by right].
Qed.

Lemma safe_close_session p w : good w -> present p w -> safe (close_session p) w.
Proof. intros Hw Hp. apply safe_on_session; [done..|]. intros s c. destruct (close_keeps s c). by split_and!. Qed.

Lemma safe_is_open p w : good w -> present p w -> safe (is_open p) w.
Proof. intros Hw Hp. by apply safe_on_session. Qed.

(** An index within the registry. *)
Lemma safe_reg_at {B} i (f : option Z -> ai_op B) w : good w -> in_range i -> safe (f None) w ->
  (forall p, ai_reg w !! Z.to_nat i = Some (Some p) -> present p w -> safe (f (Some p)) w) -> safe (reg_at i ≫= f) w.
Proof.
  intros Hw Hi Hn Hs. pose proof (gd_reg w Hw) as Hr. unfold in_range in Hi.
  destruct (lookup_lt_is_Some_2 (ai_reg w) (Z.to_nat i)) as [slot E]; [rewrite (ri_size w Hr); lia|].
  apply (safe_after _ _ w w slot); [|done|].
  - unfold reg_at. destruct (Z.leb_spec 0 i), (Z.ltb_spec i SESSION_REG_SIZE); try lia. cbn [andb]. by rewrite E.
  - destruct slot as [p|]; [|done]. apply Hs; [done|]. destruct (ri_slot w Hr _ p E) as (s & c & Hg & _). by exists (s, c).
Qed.

(** ** Sending *)

Lemma safe_send_open {B} p (m : ai_op B) (b : B) w : good w -> present p w ->
  (forall w', good w' -> present p w' -> safe m w') ->
  safe (opened ← is_open p; if (opened : bool) then m else mret b) w.
Proof.
  intros Hw Hp Hm. apply safe_bind; [by apply safe_is_open|]. intros [] w' _ Hg Hf; [|by apply safe_ret].
  apply Hm; [done|by eapply follows_present].
Qed.

Lemma safe_enqueue_unit p m w : good w -> present p w -> safe (enqueue_to p m;; mret ()) w.
Proof. intros Hw Hp. apply safe_bind; [by apply safe_enqueue_to|]. intros; by apply safe_ret. Qed.

Lemma safe_send_one m sid w : good w -> in_range sid -> safe (send_one m sid) w.
Proof.
  intros Hw Hi. apply safe_reg_at; [done|done|by apply safe_ret|]. intros p _ Hp.
  apply safe_send_open; [done|done|]. intros. by apply safe_enqueue_unit.
Qed.

Lemma safe_send_list ms sid w : good w -> in_range sid -> safe (send_one_list ms sid) w.
Proof.
  intros Hw Hi. apply safe_reg_at; [done|done|by apply safe_ret|]. intros p _ Hp.
  apply safe_send_open; [done|done|]. intros w1 Hw1 Hp1. apply safe_for; [done|]. intros m w2 _ Hg Hf.
  apply safe_enqueue_unit; [done|by eapply follows_present].
Qed.

Lemma registered_present w p : good w -> p ∈ registered w -> present p w.
Proof. intros Hw [i Hi]%registered_spec. destruct (ri_slot w (gd_reg w Hw) i p Hi) as (s & c & Hg & _). by exists (s, c). Qed.

Lemma safe_send_all m w : good w -> safe (send_all m) w.
Proof.
  intros Hw. apply safe_get. apply safe_for; [done|]. intros p w1 Hp Hg Hf.
  assert (present p w1) by (eapply follows_present; [done|by apply registered_present]).
  apply safe_send_open; [done|done|]. intros. by apply safe_enqueue_unit.
Qed.

Lemma safe_run_send o w : good w -> send_in_range o -> safe (run_send o) w.
Proof. intros Hw Ho. destruct o; [by apply safe_send_one|by apply safe_send_list]. Qed.

(** An operation of the monitor. *)
Lemma safe_on_monitor now lt op w : good w ->
  monitor_guards table_in_range send_in_range (op (table_env now lt w) (session_list w)) ->
  monitor_inv (state_after (op (table_env now lt w) (session_list w) (ai_monitor w))) ->
  safe (on_monitor now lt op) w.
Proof.
  intros Hw Hop Hinv. destruct (Hop _ (gd_monitor w Hw) (gd_subs w Hw)) as (H1 & H2 & H3).
  unfold on_monitor, safe. destruct (op _ _ (ai_monitor w)) as [[M outs] r]. cbn [state_after outputs outcome fst snd] in *.
  assert (good (set_monitor M w)) as Hg.
  { split; [apply (keeps_set_monitor M w), Hw|done|done|apply Hw]. }
  assert (follows w (set_monitor M w)) as Hf by (split; [done|done|]; intros p x Hx; by exists x).
  assert (safe (for_each run_send outs;; of_result r) (set_monitor M w)) as (Hs1 & Hs2 & Hs3).
  { apply safe_bind.
    - apply safe_for; [done|]. intros o w' Ho Hg' _. apply safe_run_send; [done|]. rewrite Forall_forall in H2. by apply H2.
    - intros _ w' _ Hg' _. split; [done|]. split; [done|]. unfold of_result. cbn [outcome snd].
      destruct r as [|e]; [done|]. left. by destruct e. }
  split_and!; [done|by etransitivity|done].
Qed.

(** The application updates a table, which is made if there is none. *)
Lemma safe_monitor_update now lt name k fields w : good w -> safe (monitor_update now lt name k fields) w.
Proof.
  intros Hw. pose proof (session_list_in_range w (gd_reg w Hw)) as Hs. rewrite Forall_forall in Hs.
  apply safe_on_monitor; [done| |].
  - apply on_or_create_guards; [by constructor| |apply update_row_in_range]. intros s Hin. by apply add_subscriber_in_range, Hs.
  - apply on_or_create_inv; [apply keeps_update_row|apply Hw].
Qed.

(** ** Commands *)

Section commands.
Context (now : Z) (localtime : Z -> tm) (info : system_info)
  (user_target : Z -> AdminRequest -> ai_op AdminResponse)
  (** The callbacks of the application keep the server sound. *)
  (Huser : forall k req w, good w -> in_range (req_id req) -> safe (user_target k req) w).

Lemma safe_subscribe_all (f : env -> list Z -> Z) w : good w ->
  in_range (f (table_env now localtime w) (session_list w)) ->
  safe (on_monitor now localtime (fun e l => subscribe_all (f e l))) w.
Proof.
  intros Hw Hi. apply safe_on_monitor; [done| |].
  - apply for_tables_guards; [apply keeps_catch, keeps_add_subscriber|]. by apply guards_catch, add_subscriber_in_range.
  - apply for_tables_inv; [apply keeps_catch, keeps_add_subscriber|apply Hw].
Qed.

Lemma safe_broadcast w : good w -> safe (on_monitor now localtime (fun e _ => broadcast_snapshot_all e)) w.
Proof.
  intros Hw. apply safe_on_monitor; [done| |].
  - apply for_tables_guards; [apply keeps_snapshot|apply snapshot_in_range].
  - apply for_tables_inv; [apply keeps_snapshot|apply Hw].
Qed.

Lemma safe_session_row sid w : good w -> in_range sid -> safe (session_row sid) w.
Proof.
  intros Hw Hi. unfold session_row. apply safe_bind.
  - apply safe_reg_at; [done|done|by apply safe_ret|]. intros p _ Hp. by apply safe_on_session.
  - intros [[u addr] b] w1 _ Hg _. apply safe_reg_at; [done|done| |].
    + apply (safe_after _ _ w1 w1 EmptyString); [done|done|by apply safe_ret].
    + intros p _ Hp. apply safe_bind; [by apply safe_on_session|]. intros; by apply safe_ret.
Qed.

Lemma safe_session_rows sids : forall tb w, good w -> Forall in_range sids -> safe (session_rows sids tb) w.
Proof.
  induction sids as [|sid sids IH]; intros tb w Hw Hi; cbn [session_rows]; [by apply safe_ret|].
  apply Forall_cons in Hi as [Hi His]. apply safe_bind; [by apply safe_session_row|].
  intros [k v] w1 _ Hg _. by apply IH.
Qed.

(** The index of the registry is checked by nobody. *)
Lemma safe_stop_sessions args w : drops = true -> good w -> safe (stop_sessions args) w.
Proof.
  intros Hd. revert w. induction args as [|arg args IH]; intros w Hw; cbn [stop_sessions]; [by apply safe_ret|].
  assert (forall i w, good w -> ~ in_range i -> forall A B (f : option Z -> ai_op A) (g : A -> ai_op B),
    safe ((reg_at i ≫= f) ≫= g) w) as Hout.
  { clear - Hd. intros i w Hw Hi A B f g.
    assert (reg_at i w = (w, [], Throw (undefined_behaviour "session registry index"))) as E.
    { unfold reg_at. unfold in_range in Hi. destruct (Z.leb_spec 0 i), (Z.ltb_spec i SESSION_REG_SIZE); try done; lia. }
    unfold safe, mbind, eff_bind. rewrite E. split; [done|]. split; [done|]. right. by left. }
  destruct (decide (in_range (sid_fromString arg))) as [Hi|Hi].
  2: { destruct (Z.eqb_spec (sid_fromString arg) no_session) as [Hz|]; [|by apply Hout].
       apply (safe_after _ _ w w false); [done|done|by apply IH]. }
  apply safe_bind.
  { destruct (_ =? no_session); [by apply safe_ret|]. apply safe_reg_at; [done|done|by apply safe_ret|]. intros; by apply safe_ret. }
  intros [] w1 _ Hg _; [|by apply IH]. apply safe_bind.
  { apply safe_reg_at; [done|done|by apply safe_ret|]. intros; by apply safe_close_session. }
  intros _ w2 _ Hg2 _. apply safe_bind; [by apply IH|]. intros; by apply safe_ret.
Qed.

Lemma safe_invoke n ac req w : good w -> in_range (req_id req) -> ai_admins w !! n = Some ac -> safe (invoke now localtime info user_target ac req) w.
Proof.
  intros Hw Hi Ha. unfold invoke. destruct (ac_target ac) as [[]|] eqn:Et; [..|by apply safe_throw].
  - unfold admincmd_list_tables. apply safe_get. repeat case_match; by apply safe_ret.
  - unfold admincmd_sessions. apply safe_get. apply safe_bind; [|intros; by apply safe_ret].
    apply safe_session_rows; [done|apply session_list_in_range, Hw].
  - unfold admincmd_help. apply safe_get. repeat case_match; by apply safe_ret.
  - by apply safe_ret.
  - apply safe_bind; [by apply safe_broadcast|]. intros; by apply safe_ret.
  - unfold admincmd_diags. apply safe_get. by apply safe_ret.
  - unfold admincmd_del_session. destruct (req_args req); [by apply safe_throw|].
    apply safe_bind; [|intros; by apply safe_ret]. apply safe_stop_sessions; [|done].
    destruct drops eqn:Ed; [done|]. by destruct (gd_admins w Hw Ed n ac Ha).
  - apply safe_bind; [by apply (safe_subscribe_all (fun _ _ => req_id req))|]. intros; by apply safe_ret.
  - unfold admincmd_table_subs. apply safe_get. by apply safe_ret.
  - by apply Huser.
Qed.

(** ** Messages *)

Lemma known_present p w : good w -> known p w -> present p w.
Proof. intros Hw Hk. apply registered_present; [done|]. by apply registered_spec. Qed.

Lemma follows_known p w w' : follows w w' -> known p w -> known p w'.
Proof. intros Hf [i Hi]. exists i. by apply (fw_reg w w'). Qed.

(** Its number is the number of its slot. *)
Lemma safe_session_id {B} p (f : Z -> ai_op B) w : good w -> known p w ->
  (forall sid w', good w' -> follows w w' -> ai_admins w' = ai_admins w -> in_range sid -> safe (f sid) w') ->
  safe (on_session p (fun s c => Ok (s, c, s_id s)) ≫= f) w.
Proof.
  intros Hw [i Hi] Hf. destruct (ri_slot w (gd_reg w Hw) i p Hi) as (s & c & Hg & Hid & _).
  assert (follows w (set_object p s c w)) as Hfw by (by eapply follows_set_object).
  apply (safe_after _ _ w (set_object p s c w) (s_id s)); [by apply (on_session_ok _ p w s c)|done|].
  apply Hf; [by apply (good_set_object w p s c)|done|done|]. rewrite Hid. by eapply slot_in_range, Hi; apply Hw.
Qed.

Lemma make_request_id m sid req : make_request m sid = Ok req -> req_id req = sid.
Proof.
  unfold make_request. destruct (find_child _ id.head); [|done]. destruct (find_child _ id.body); [|done].
  intros E. apply result_bind_Ok in E as (args & _ & E). by injection E as <-.
Qed.

Lemma safe_dispatch m p w : good w -> known p w -> safe (dispatch now localtime info user_target m p) w.
Proof.
  intros Hw Hk. unfold dispatch. destruct (match command_at m id.QN_command with Some c => Some c | None => _ end) as [command|];
    [|by apply safe_throw].
  apply safe_get. destruct (admin_find w command) as [ac|] eqn:Ea; [|by apply safe_throw].
  apply safe_session_id; [done|done|]. intros sid w1 Hg Hf Hadm Hi. unfold admin_find in Ea. rewrite <-Hadm in Ea.
  destruct (make_request m sid) as [req|e] eqn:Er.
  - apply (safe_after _ _ w1 w1 req); [done|done|]. eapply safe_invoke; [done| |done]. by rewrite (make_request_id _ _ _ Er).
  - destruct (make_request_throws _ _ _ Er) as [what ->]. apply safe_bind; [|by intros ?? [=]].
    split; [done|]. split; [done|]. by left.
Qed.

Lemma safe_admin_request m p w : good w -> known p w -> safe (handle_admin_request now localtime info user_target m p) w.
Proof.
  intros Hw Hk. unfold handle_admin_request. apply safe_bind; [by apply safe_try, safe_dispatch|].
  intros assigned w1 _ Hg1 Hf1. assert (present p w1) as Hp1 by (eapply follows_present; [done|by apply known_present]).
  apply safe_bind.
  - destruct (resp_send _); [|by apply safe_ret]. apply safe_bind; [by apply safe_enqueue_to|].
    intros failed w2 _ Hg2 Hf2. apply safe_bind; [|intros; by apply safe_ret].
    destruct failed; [|by apply safe_ret]. apply safe_enqueue_unit; [done|by eapply follows_present].
  - intros resp w2 _ Hg2 Hf2. assert (present p w2) as Hp2 by (by eapply follows_present).
    apply safe_bind; [by apply safe_on_session|]. intros autoclose w3 _ Hg3 Hf3. destruct (_ && _); [|by apply safe_ret].
    apply safe_close_session; [done|by eapply follows_present].
Qed.

Lemma safe_logon m p w : good w -> known p w -> safe (handle_logon_msg now localtime m p) w.
Proof.
  intros Hw Hk. unfold handle_logon_msg. apply safe_session_id; [done|done|]. intros sid w1 Hg1 Hf1 _ Hi.
  apply safe_bind.
  { destruct (check_field_qn _ _ _); [by apply safe_ret|by apply (safe_subscribe_all (fun _ _ => sid))]. }
  intros _ w2 _ Hg2 Hf2. apply safe_bind.
  { destruct (check_field_qn _ _ _); [|by apply safe_ret]. apply safe_on_session; [done| |done].
    apply (follows_present p w w2); [by transitivity w1|by apply known_present]. }
  intros _ w3 _ Hg3 _. apply safe_get. by apply safe_send_one.
Qed.

Lemma safe_message m p w : good w -> known p w -> safe (on_session_message now localtime info user_target m p) w.
Proof.
  intros Hw Hk. unfold on_session_message. case_bool_decide; [by apply safe_logon|].
  case_bool_decide; [by apply safe_admin_request|by apply safe_ret].
Qed.

(** ** The end of a session *)

Lemma closed_good p w : good w -> known p w -> let r := on_session_closed now localtime p w in
  outcome r = Ok () /\ good (state_after r) /\ ~ known p (state_after r) /\
  forall q, get_object (state_after r) q = get_object w q.
Proof.
  intros Hw [i Hi]. destruct (session_closed_spec now localtime w i p (gd_reg w Hw) Hi)
    as (w' & E & Hw' & _ & Hexp & Hmon & Hobj & Hadm). cbv zeta.
  rewrite E in *. cbn [outcome state_after fst snd] in *.
  split; [done|]. split; [|split; [|done]].
  2: { intros Hk%registered_spec. apply (ri_expired w' Hw' p); [|done]. rewrite Hexp. apply elem_of_app. right. by left. } split; [done| | |].
  - rewrite Hmon. intros n t. rewrite lookup_fmap_Some. intros (t0 & <- & Ht0).
    destruct (gd_monitor w Hw n t0 Ht0) as [Hn Hi0]. split; [done|]. split; apply Hi0.
  - rewrite Hmon. intros n t. rewrite lookup_fmap_Some. intros (t0 & <- & Ht0). pose proof (gd_subs w Hw n t0 Ht0) as Hs.
    unfold table_in_range in *. rewrite Forall_forall in *. intros s Hin. apply Hs. exact (remove_first_subset _ _ _ Hin).
  - rewrite Hadm. apply Hw.
Qed.

(** * The interface as a listener that survives *)

#[local] Instance server_listener : SessionListener AdminInterfaceImpl := interface_listener now localtime info user_target.

#[local] Instance server_sturdy : Sturdy AdminInterfaceImpl.
Proof.
  refine {| st_inv := good; st_knows := fun w p => known p w; st_gone := fun w p => present p w /\ ~ known p w;
    st_flaw := server_flaw |}; cbn [host_get host_set
    server_listener interface_listener fst snd session_msg_received session_closed].
  - intros w p x [s c] _. apply get_object_set.
  - intros w p s c s' c' Hw Hg Hid Hio. split; [by apply (good_set_object w p s c)|].
    split; [done|]. intros [_ Hn]. split; [|done]. exists (s', c'). apply get_object_set.
  - intros w p s c m Hw Hg Hk. cbv zeta. destruct (safe_message m p w Hw Hk) as (H1 & H2 & H3).
    split; [exact H3|]. split; [exact H1|]. split; [by eapply follows_known|].
    destruct (fw_obj _ _ H2 p (s, c) Hg) as ([s' c'] & Hg' & _ & _ & Hl & Hi & Ho). by exists s', c'.
  - intros w p s c Hw Hg Hk. cbv zeta. destruct (closed_good p w Hw Hk) as (H1 & H2 & H4 & H3).
    split; [unfold pair_of; cbn [snd]; change (tolerated server_flaw (outcome (on_session_closed now localtime p w))); by rewrite H1|].
    assert (get_object (state_after (on_session_closed now localtime p w)) p = Some (s, c)) as Hg' by exact (eq_trans (H3 p) Hg).
    split; [exact H2|]. split; [split; [exact (ex_intro _ _ Hg')|exact H4]|]. exists s, c. by split; [exact Hg'|].
Defined.

(** An operation of another thread, seen from the connection of a session. *)
Definition other_op (m : ai_op unit) (cs : Client * (Z * AdminInterfaceImpl)) : Client * (Z * AdminInterfaceImpl) :=
  let '(c, (p, w)) := cs in
  let w1 := match get_object w p with Some (s, _) => set_object p s c w | None => w end in
  let w2 := state_after (m w1) in
  match get_object w1 p, get_object w2 p with
  | Some _, Some (_, c') => (c', (p, w2))
  | _, _ => (c, (p, w2))
  end.

Lemma other_op_harmless m : (forall w, good w -> safe m w) -> harmless (other_op m).
Proof.
  intros Hm [c [p w]] (Hw & Ho & Hs & Hn).
  cbn [fst snd st_inv st_knows st_gone host_get server_sturdy server_listener interface_listener] in *.
  unfold other_op. destruct (get_object w p) as [[s c0]|] eqn:Hg.
  - rewrite get_object_set. destruct (Hm (set_object p s c w)) as (H1 & H2 & _); [by apply (good_set_object w p s c0)|].
    destruct (fw_obj _ _ H2 p (s, c) (get_object_set _ _ _ _)) as ([s' c'] & Hg' & _ & _ & Hl & Hi & Ho').
    rewrite Hg'. cbn [fst snd] in *. pose proof (inbound_cb _ _ Hi) as Ecb.
    split; [|split; [by apply inbound_received|by rewrite Ecb]]. split; [done|]. split; [auto|]. rewrite Ecb. split.
    + intros Hcb. destruct (Hs Hcb) as (s1 & c1 & [= <- <-] & Hls & Hk). exists s', c'. split; [done|]. split; [congruence|].
      by apply (follows_known p (set_object p s c w)).
    + intros Hcb. destruct (Hn Hcb) as [_ Hnk]. split; [by exists (s', c')|]. intros Hk. apply Hnk.
      apply (fw_new _ _ H2 p); [|done]. exists (s, c). apply get_object_set.
  - rewrite Hg. destruct (Hm w Hw) as (H1 & _). cbn [fst snd]. split; [|done]. split; [done|]. split; [done|]. split.
    + intros Hcb. by destruct (Hs Hcb) as (s1 & c1 & [=] & _).
    + intros Hcb. destruct (Hn Hcb) as [[x Hx] _]. unfold present in Hx. congruence.
Qed.

(** What may happen: other threads run operations that keep the server sound. *)
Definition server_event (e : peer_event (Z * AdminInterfaceImpl)) : Prop :=
  match e with PE_other f => exists m, f = other_op m /\ forall w, good w -> safe m w | _ => True end.

Lemma server_event_ok e : server_event e -> event_ok e.
Proof. destruct e; try done. intros (m & -> & Hm). by apply other_op_harmless. Qed.

(** The connection stays that of its session. *)
Lemma server_keeps_session evs cs cs' : Forall server_event evs -> run_peer evs cs = Ok cs' -> cs'.2.1 = cs.2.1.
Proof.
  intros Hev. apply (run_peer_keeps fst).
  - intros c [q w] l n c' s' r E. cbn [process_input session_callback] in E.
    apply result_bind_Ok in E as (w1 & _ & E).
    apply result_bind_Ok in E as ([w2 k] & _ & E). by apply result_bind_Ok in E as (c2 & _ & [= _ <- _]).
  - intros c [q w] c' s' E. cbn [process_close session_callback] in E. apply result_bind_Ok in E as (w1 & _ & E).
    destruct (session_process_close q w1) as [w2 [[]|[]]]; try done;
      by apply result_bind_Ok in E as (c2 & _ & [= _ <-]).
  - apply (Forall_impl _ _ _ Hev). intros [| | | |f]; try done. intros (m & -> & _) [c [q w]]. unfold other_op.
    by repeat case_match.
Qed.

Lemma server_survives evs p w s c : good w -> known p w -> get_object w p = Some (s, c) -> s_listener s = true ->
  fresh_inbound c -> out_inv c -> Forall server_event evs -> peer_bytes evs < 2 ^ 31 ->
  survived (fun _ => True) (run_peer evs (c, (p, w))) /\
  survived (fun cs => ~ known p cs.2.2) (run_peer (evs ++ [PE_close; PE_work]) (c, (p, w))).
Proof.
  intros Hw Hk Hg Hl Hf Ho Hev Hb. pose proof (Forall_impl _ _ _ Hev server_event_ok) as Hok.
  assert (calm 0 (c, (p, w))) as Hc.
  { apply calm_new; [|done]. split; [done|]. split; [done|]. split; [intros _; by exists s, c|].
    intros Hcb. unfold fresh_inbound, inbound in Hf. injection Hf as _ _ Ecb _. congruence. }
  split.
  - pose proof (peer_calm evs Hok 0 _ Hc ltac:(lia) ltac:(lia)) as H.
    destruct (run_peer evs _) as [cs|e]; [|done]. split; [|split; [|done]]; apply (ca_inv _ _ H).
  - pose proof (peer_closed evs _ Hok Hc Hb) as H.
    destruct (run_peer (evs ++ _) _) as [cs|e] eqn:E; [|done]. destruct H as [H Hcb].
    destruct (ca_inv _ _ H) as (Hg' & Ho' & _ & Hgone). split; [done|]. split; [done|].
    apply server_keeps_session in E; [|apply Forall_app; by repeat constructor]. cbn [fst snd] in E.
    destruct (Hgone Hcb) as [_ Hnk]. by rewrite E in Hnk.
Qed.

End commands.

End server.

(** The connection's callback is a session of the interface. *)
Definition serving now localtime info user_target : ClientCallback (Z * AdminInterfaceImpl) :=
  session_callback (SL := interface_listener now localtime info user_target).

(** From the making of the connection on. *)
Lemma server_ready_survives now localtime peer info user_target drops serviceid fd w evs :
  (forall k req w, good drops w -> in_range (req_id req) -> safe drops (user_target k req) w) ->
  good drops w -> (exists i, 1 <= i <= MAX_SESSIONS /\ ai_reg w !! Z.to_nat i = Some None) ->
  Z.of_nat (length (wire (logon_msg serviceid))) <= 100 * 1024 * 1024 ->
  Forall (server_event drops) evs -> peer_bytes evs < 2 ^ 31 ->
  exists i p s c w0, createNewSession now peer serviceid fd w = (w0, [], Ok ()) /\
    ai_reg w0 !! Z.to_nat i = Some (Some p) /\ get_object w0 p = Some (s, c) /\
    survived drops (fun _ => True) (run_peer (CB := serving now localtime info user_target) evs (c, (p, w0))) /\
    survived drops (fun cs => forall j, ai_reg cs.2.2 !! j <> Some (Some p))
      (run_peer (CB := serving now localtime info user_target) (evs ++ [PE_close; PE_work]) (c, (p, w0))).
Proof.
  intros Hu Hw Hfree Hl Hev Hb. destruct (create_serves now peer serviceid fd w (gd_reg _ w Hw) Hfree Hl)
    as (i & p & c & w0 & Ec & Hi & _ & Hreg & Hadm & Hmon & _ & Hg & Ho & Hf).
  set (s := io_init (new_session fd i now true (peer fd))) in Hg. exists i, p, s, c, w0. do 3 (split; [done|]).
  destruct (server_survives drops now localtime info user_target Hu evs p w0 s c) as [H1 H2]; try done.
  - split; rewrite ?Hmon, ?Hadm; try apply Hw. pose proof (keeps_create now peer serviceid fd w (gd_reg _ w Hw)) as H.
    by rewrite Ec in H.
  - by eexists.
  - apply Ho.
  - split; [exact H1|]. revert H2. apply survived_mono. intros cs Hn j Hj. apply Hn. by exists j.
Qed.

(** * Properties *)

(** C6. The server against any peer: a connection is made; then, whatever bytes
    (less than 2 GB) the peer sends, in whatever pieces, however it closes, and
    however sends, work items and sound operations of other threads alternate
    with it, the server keeps a consistent registry, sound tables and an exact
    outbound queue, and no exception escapes: only the decoder's read of the
    byte after a full buffer, the unchecked index of [drop_session] (when a
    command calls it) and a message of 4 GB can go wrong.  And no peer can keep
    its slot: once the socket has been closed and a worker has run, the session
    is in no slot of the registry. *)
Theorem server_survives_any_peer (now : Z) (localtime : Z -> tm) (peer : Z -> string) (info : system_info)
    (user_target : Z -> AdminRequest -> ai_op AdminResponse) (drops : bool) (serviceid : string) (fd : Z)
    (w : AdminInterfaceImpl) (evs : list (peer_event (Z * AdminInterfaceImpl))) :
  (forall k req w, good drops w -> in_range (req_id req) -> safe drops (user_target k req) w) ->
  good drops w -> (exists i, 1 <= i <= MAX_SESSIONS /\ ai_reg w !! Z.to_nat i = Some None) ->
  Z.of_nat (length (wire (logon_msg serviceid))) <= 100 * 1024 * 1024 ->
  Forall (server_event drops) evs -> peer_bytes evs < 2 ^ 31 ->
  exists i p s c w0, createNewSession now peer serviceid fd w = (w0, [], Ok ()) /\
    ai_reg w0 !! Z.to_nat i = Some (Some p) /\ get_object w0 p = Some (s, c) /\
    survived drops (fun _ => True) (run_peer (CB := serving now localtime info user_target) evs (c, (p, w0))) /\
    survived drops (fun cs => forall j, ai_reg cs.2.2 !! j <> Some (Some p))
      (run_peer (CB := serving now localtime info user_target) (evs ++ [PE_close; PE_work]) (c, (p, w0))).
Proof. apply server_ready_survives. Qed.

(** The commands of the library alone, with a user callback that only answers. *)
Lemma good_new_interface : good true new_interface.
Proof.
  split; [apply registry_inv_new| | |done]; intros n t Ht; change (ai_monitor new_interface) with (∅ : Monitor) in Ht;
    by rewrite lookup_empty in Ht.
Qed.

Lemma no_callbacks_safe k req w : good true w -> in_range (req_id req) -> safe true (no_callbacks k req) w.
Proof. intros Hw _. by apply safe_ret. Qed.

(** A request cut in two with a table update in between, noise that is no message,
    a failing send and a failing read, and the end of the connection. *)
Definition hostile_events_of (request : bytes) : list (peer_event (Z * AdminInterfaceImpl)) :=
  [PE_read 1001 (ReadOk (take 20 request)); PE_work;
   PE_other (other_op (monitor_update 1001 test_localtime "prices" "IBM" {["bid" := "10"]}));
   PE_read 1002 (ReadOk (drop 20 request)); PE_work;
   PE_read 1003 (ReadOk (str "<SAM0100 noise")); PE_work; PE_send 1004 [SendOk 10%nat; SendError];
   PE_read 1005 ReadError; PE_close; PE_work].

Definition hostile_events : list (peer_event (Z * AdminInterfaceImpl)) := hostile_events_of (wire (make_test_request "table" "1" ["list"])).

Lemma hostile_events_ok request : Forall (server_event true) (hostile_events_of request).
Proof.
  unfold hostile_events_of.
  repeat (apply Forall_cons; split; [first [exact I|exists (monitor_update 1001 test_localtime "prices" "IBM" {["bid" := "10"]}); split; [reflexivity|]]|]).
  - intros w. apply safe_monitor_update.
  - constructor.
Qed.

Lemma server_survives_any_peer_witness : exists i p s c w0,
  createNewSession 1000 test_peer "svc" 7 new_interface = (w0, [], Ok ()) /\
  ai_reg w0 !! Z.to_nat i = Some (Some p) /\ get_object w0 p = Some (s, c) /\
  survived true (fun _ => True) (run_peer (CB := serving 1000 test_localtime test_info no_callbacks) hostile_events (c, (p, w0))) /\
  survived true (fun cs => forall j, ai_reg cs.2.2 !! j <> Some (Some p))
    (run_peer (CB := serving 1000 test_localtime test_info no_callbacks) (hostile_events ++ [PE_close; PE_work]) (c, (p, w0))).
Proof.
  apply (server_survives_any_peer 1000 test_localtime test_peer test_info no_callbacks true "svc" 7 new_interface
    hostile_events no_callbacks_safe good_new_interface).
  - exists 1. split; [vm_compute; split; discriminate|]. vm_compute. reflexivity.
  - vm_compute. discriminate.
  - apply hostile_events_ok.
  - vm_compute. reflexivity.
Defined.
