(* ===== verification/ExampleServer.v ===== *)
(** An application of the library: the example server [test/example.cc].

    Its four commands are callbacks of the interface, and its main loop updates
    a table of prices.  The floating-point prices are arguments, as texts; the
    lines written to the console are left out.  The theorem instantiates the
    server of HostileServer.v with this application. *)

From S2P Require Import Prelude Decimal Utils TxContainer SamBuffer SamProtocol MsgIDs AdminCommand TableEvents Table TableProps ReadBuffer Client Delivery Monitor MonitorView Session Hostile AdminInterface Interface ServerSocket SelfDelete HostileServer.

Local Open Scope Z_scope.

Definition SEV_HIGH : string := "70-high".

(** The callback objects of the program. *)
Definition K_AdminObject : Z := 0.
Definition K_LargeReply : Z := 1.
Definition K_LotsOfNumbers : Z := 2.
Definition K_SendAlert : Z := 3.

(** * Replies *)

(** ['a' + (i%26)] for the [n] values of [i] from [i] on. *)
Fixpoint letters (n : nat) (i : Z) : string :=
  match n with
  | O => EmptyString
  | S n => String (ascii_of_N (Z.to_N (97 + i mod 26))) (letters n (i + 1))
  end.

(** [i] and a newline, for the [n] values from [i] on. *)
Fixpoint numbers (n : nat) (i : Z) : string :=
  match n with
  | O => EmptyString
  | S n => print_unsigned i +:+ newline +:+ numbers n (i + 1)
  end.

(** The first argument, as [size_t]. *)
Definition reply_length (args : list string) : Z :=
  match args with [] => 100 | arg :: _ => size_t (atoi arg) end.

Section example.
(** The time, and how many characters a string stream holds before it fails
    (a stream that has failed ignores what is written to it). *)
Context (now : Z) (localtime : Z -> tm) (serviceid : string) (stream_max : nat).

(** What is left of [text]. *)
Definition streamed (text : string) : string := String.substring 0 stream_max text.

Definition LargeReply_invoke (req : AdminRequest) : ai_op AdminResponse :=
  let data := letters (Z.to_nat (Z.min (reply_length (req_args req)) (Z.of_nat stream_max))) 0 in
  mret (response_success (req_reqseqno req) data 0).

(** Every number takes two characters at least. *)
Definition LotsOfNumbers_invoke (req : AdminRequest) : ai_op AdminResponse :=
  let data := streamed (numbers (Z.to_nat (Z.min (reply_length (req_args req)) (Z.of_nat stream_max))) 0) in
  mret (response_success (req_reqseqno req) data 0).

Definition SendAlert_invoke (req : AdminRequest) : ai_op AdminResponse :=
  let arg n missing := default missing (req_args req !! n) in
  monitor_alert serviceid "example-server" (arg 0%nat EmptyString) (arg 1%nat EmptyString)
    (arg 2%nat EmptyString) (arg 3%nat SEV_HIGH);;
  mret (response_success (req_reqseqno req) EmptyString 0).

(** The row of [test_admin]: a field for each argument after the first. *)
Definition object_update (names : list string) : gmap string string :=
  foldl (fun update name => <[name := name +:+ "_" +:+ print_signed (int32 now)]> update) ∅ names.

Definition AdminObject_invoke (req : AdminRequest) : ai_op AdminResponse :=
  (match req_args req with
   | [] => mret ()
   | rowkey :: names =>
       if bool_decide (rowkey = EmptyString) then mret ()
       else monitor_update now localtime "table" rowkey (object_update names)
   end);;
  mret (response_success (req_reqseqno req) EmptyString 0).

(** The callbacks by number. *)
Definition example_target (k : Z) (req : AdminRequest) : ai_op AdminResponse :=
  if k =? K_LargeReply then LargeReply_invoke req
  else if k =? K_LotsOfNumbers then LotsOfNumbers_invoke req
  else if k =? K_SendAlert then SendAlert_invoke req
  else AdminObject_invoke req.

(** * The program *)

Definition example_admins : list (AdminCommand Target) :=
  [MkAdminCommand "test_admin" "a test" "a test help" (Some (T_user K_AdminObject)) ∅;
   MkAdminCommand "LargeReply" "send a large reply" "Generate a large message to test the exio layer"
     (Some (T_user K_LargeReply)) ∅;
   MkAdminCommand "LotsOfNumbers" "send a large reply" "Generate a large message to test the exio layer"
     (Some (T_user K_LotsOfNumbers)) ∅;
   MkAdminCommand "send_alert" "send a test alert" "args: error_string type id severity"
     (Some (T_user K_SendAlert)) ∅].

(** Up to [ai->start()]. *)
Definition example_interface : AdminInterfaceImpl := foldl (fun w ac => admin_add ac w) new_interface example_admins.

Definition example_names : list string := ["VOD.L"; "BT.L"; "HSBC.L"; "RIO.L"; "BA.L"].

(** The numbers of a [StockPrice], as [table] prints them. *)
Record StockPrice := MkStockPrice { bbp1 : string; bap1 : string; bbs1 : string; bas1 : string }.

Definition price_fields (name : string) (p : StockPrice) : gmap string string :=
  <["ric" := name]> (<["bas1" := bas1 p]> (<["bbs1" := bbs1 p]> (<["bap1" := bap1 p]> {["bbp1" := bbp1 p]}))).

(** One round of the main loop; [price] are the prices after [update]. *)
Definition price_round (price : string -> StockPrice) : ai_op unit :=
  for_each (fun name => monitor_update now localtime "lse" name (price_fields name (price name))) example_names.

(** * The application keeps the server sound *)

Lemma example_target_safe drops k req w : good drops w -> in_range (req_id req) -> safe drops (example_target k req) w.
Proof.
  intros Hw _. unfold example_target, LargeReply_invoke, LotsOfNumbers_invoke, SendAlert_invoke, AdminObject_invoke, monitor_alert.
  destruct (k =? K_LargeReply); [by apply safe_ret|]. destruct (k =? K_LotsOfNumbers); [by apply safe_ret|].
  destruct (k =? K_SendAlert); apply safe_bind; intros; try by apply safe_ret.
  - by apply safe_send_all.
  - destruct (req_args req) as [|rowkey names]; [by apply safe_ret|]. case_bool_decide; [by apply safe_ret|by apply safe_monitor_update].
Qed.

Lemma price_round_safe drops price w : good drops w -> safe drops (price_round price) w.
Proof. intros Hw. apply safe_for; [done|]. intros name w' _ Hw' _. by apply safe_monitor_update. Qed.

Lemma good_admin_add drops ac w : good drops w -> (drops = false -> ac_target ac <> Some T_del_session) -> good drops (admin_add ac w).
Proof.
  intros [H1 H2 H3 H4] Ha. unfold admin_add. destruct (ai_admins w !! ac_name ac); [done|].
  split; [split; apply H1|done|done|]. intros Hd n ac'. cbn. rewrite lookup_insert_Some.
  intros [[_ <-]|[_ Hn]]; [auto|by eapply H4].
Qed.

Lemma good_example : good true example_interface.
Proof.
  unfold example_interface. assert (forall l w, good true w -> good true (foldl (fun w ac => admin_add ac w) w l)) as H.
  { induction l as [|ac l IH]; intros w Hw; [done|]. apply IH. by apply good_admin_add. }
  apply H, good_new_interface.
Qed.

(** ** What the replies hold *)

Lemma letters_spec n i k : (k < n)%nat -> String.get k (letters n i) = Some (ascii_of_N (Z.to_N (97 + (i + Z.of_nat k) mod 26))).
Proof.
  revert n i. induction k as [|k IH]; intros [|n] i Hk; try lia; cbn [letters String.get].
  - by rewrite Z.add_0_r.
  - rewrite IH by lia. by replace (i + 1 + Z.of_nat k) with (i + Z.of_nat (S k)) by lia.
Qed.

Lemma letters_length n i : String.length (letters n i) = n.
Proof. revert i. induction n as [|n IH]; intros i; cbn; [done|]. by rewrite IH. Qed.

(** What a request for [LargeReply] is answered: the alphabet over and over,
    as long as asked for, when the stream holds it. *)
Theorem large_reply req w : reply_length (req_args req) <= Z.of_nat stream_max -> 0 <= reply_length (req_args req) ->
  exists data, example_target K_LargeReply req w = (w, [], Ok (response_success (req_reqseqno req) data 0)) /\
    Z.of_nat (String.length data) = reply_length (req_args req) /\
    forall k, (k < String.length data)%nat -> String.get k data = Some (ascii_of_N (Z.to_N (97 + Z.of_nat k mod 26))).
Proof.
  intros Hm H0. eexists. split; [reflexivity|]. rewrite letters_length. split; [lia|]. intros k Hk. by rewrite letters_spec.
Qed.

(** The row of [test_admin] has a field for every name, with the time. *)
Lemma object_update_spec names f : object_update names !! f =
  if bool_decide (f ∈ names) then Some (f +:+ "_" +:+ print_signed (int32 now)) else None.
Proof.
  unfold object_update. induction names as [|n l IH] using rev_ind; [done|]. rewrite foldl_app. cbn [foldl].
  destruct (decide (n = f)) as [->|Hne].
  - rewrite lookup_insert_eq, bool_decide_eq_true_2; [done|]. set_solver.
  - rewrite lookup_insert_ne, IH by done. repeat case_bool_decide; set_solver.
Qed.

End example.

(** * The server of the example *)

(** Whatever a peer of the example server sends, also while the prices change
    and whatever its commands are asked for, nothing goes wrong but the known
    flaws of the library; and when the peer has gone its slot is free. *)
Theorem example_server_survives (now : Z) (localtime : Z -> tm) (peer : Z -> string) (info : system_info)
    (stream_max : nat) (fd : Z) (evs : list (peer_event (Z * AdminInterfaceImpl))) :
  Forall (server_event true) evs -> peer_bytes evs < 2 ^ 31 ->
  exists i p s c w0, createNewSession now peer "test" fd example_interface = (w0, [], Ok ()) /\
    ai_reg w0 !! Z.to_nat i = Some (Some p) /\ get_object w0 p = Some (s, c) /\
    let run := run_peer (CB := serving now localtime info (example_target now localtime "test" stream_max)) in
    survived true (fun _ => True) (run evs (c, (p, w0))) /\
    survived true (fun cs => forall j, ai_reg cs.2.2 !! j <> Some (Some p)) (run (evs ++ [PE_close; PE_work]) (c, (p, w0))).
Proof.
  intros Hev Hb. apply server_ready_survives; [intros k req w; by apply example_target_safe|by apply good_example| | |done|done].
  - exists 1. split; [vm_compute; split; discriminate|]. vm_compute. reflexivity.
  - vm_compute. discriminate.
Qed.

(** The main loop of the example is one of the operations allowed. *)
Lemma price_round_event now localtime price : server_event true (PE_other (other_op (price_round now localtime price))).
Proof. exists (price_round now localtime price). split; [reflexivity|]. intros w. apply price_round_safe. Qed.
