(* ===== verification/Replica.v ===== *)
(** A remote copy of the tables, end to end: the calls of the application
    change the monitor's tables, the tables' messages go through [send_one] to
    the sessions and their connections, and whoever reads such a connection
    can rebuild the tables.

    The theorem composes MonitorView.v (what the messages say), Messages.v and
    TableMessages.v (that the protocol carries them), Interface.v and
    Session.v (that they are queued on the connection) and Delivery.v (that
    they arrive). *)

From S2P Require Import Prelude Decimal Utils TxContainer SamBuffer SamProtocol MsgIDs AdminCommand TableEvents Table TableFacts Snapshot TableProps ReadBuffer Client Delivery Monitor MonitorView Session AdminInterface Interface Sync ServerSocket AdminTool Messages TableMessages CommandLine EndToEnd.

Local Open Scope Z_scope.

(** * Sending to a session *)

(** Session [i] at [p] is open, and [l] is what its connection was given. *)
Record linked (i p : Z) (l : bytes) (w : AdminInterfaceImpl) : Prop := {
  lk_inv : registry_inv w;
  lk_range : 1 <= i <= MAX_SESSIONS;
  lk_slot : ai_reg w !! Z.to_nat i = Some (Some p);
  lk_conn : exists s c, get_object w p = Some (s, c) /\ s_session_valid s = true /\ s_io_handle s = true /\
    outbox true l c }.

(** A slot in use. *)
Definition live (w : AdminInterfaceImpl) (j : Z) : Prop := exists q, 1 <= j /\ ai_reg w !! Z.to_nat j = Some (Some q).

Lemma live_range w j : registry_inv w -> live w j -> 1 <= j <= MAX_SESSIONS.
Proof.
  intros Hw (q & Hj & Hq). apply lookup_lt_Some in Hq. rewrite (ri_size w Hw) in Hq.
  unfold SESSION_REG_SIZE, MAX_SESSIONS in *. lia.
Qed.

(** What sending leaves alone. *)
Definition same_places (w w' : AdminInterfaceImpl) : Prop :=
  ai_reg w' = ai_reg w /\ ai_admins w' = ai_admins w /\ ai_monitor w' = ai_monitor w.

Lemma same_places_refl w : same_places w w.
Proof. done. Qed.
Lemma same_places_trans w1 w2 w3 : same_places w1 w2 -> same_places w2 w3 -> same_places w1 w3.
Proof. unfold same_places. intuition congruence. Qed.

(** The connection of one session gets a message, or another session's does. *)
Lemma enqueue_linked i p l q m w s c : linked i p l w -> get_object w q = Some (s, c) -> s_session_valid s = true ->
  encodable m -> (q = p -> Z.of_nat (length (l ++ wire m)) <= 100 * 1024 * 1024) ->
  exists w' f, enqueue_to q m w = (w', [], Ok f) /\ linked i p (if decide (q = p) then l ++ wire m else l) w' /\
    same_places w w' /\ exists c', get_object w' q = Some (s, c').
Proof.
  intros [Hi Hr Hs (sp & cp & Hg & Hv & Hio & Ho)] Hgq Hvq Hm Hl. destruct (decide (q = p)) as [->|Hne].
  - rewrite Hg in Hgq. injection Hgq as <- <-.
    destruct (enqueue_outbox m sp cp l Ho Hv Hio (Hl eq_refl)) as (c' & E & Ho' & _).
    exists (set_object p sp c' w), false. split.
    { unfold enqueue_to. apply (on_session_ok _ p w sp cp); [done|by rewrite E]. }
    split; [|split; [done|exists c'; apply get_object_set]].
    split; [by apply (inv_set_object w p sp cp)|done|done|]. exists sp, c'. by rewrite get_object_set.
  - destruct (enqueue_total m s c Hm) as (c' & f & E). exists (set_object q s c' w), f. split.
    { unfold enqueue_to. apply (on_session_ok _ q w s c); [done|by rewrite E]. }
    split; [|split; [done|exists c'; apply get_object_set]].
    split; [by apply (inv_set_object w q s c)|done|done|]. exists sp, cp. by rewrite get_set_object, decide_False.
Qed.

(** Asking whether a session is open changes nothing. *)
Lemma is_open_linked i p l q w s c : linked i p l w -> get_object w q = Some (s, c) ->
  exists w', is_open q w = (w', [], Ok (s_session_valid s)) /\ linked i p l w' /\ same_places w w' /\
    get_object w' q = Some (s, c).
Proof.
  intros [Hi Hr Hs (sp & cp & Hg & Hc)] Hgq. exists (set_object q s c w). split; [by apply (on_session_ok _ q w s c)|].
  split; [|split; [done|apply get_object_set]]. split; [by apply (inv_set_object w q s c)|done|done|].
  exists sp, cp. rewrite get_set_object. destruct (decide (q = p)) as [->|]; [|done]. rewrite Hg in Hgq. by injection Hgq as <- <-.
Qed.

(** The messages of a call to session [i]. *)
Definition to_session (i : Z) (o : send) : list txMessage := messages_to i [o].

Lemma to_session_eq i o : to_session i o = if decide (target o = i) then send_msgs o else [].
Proof. unfold to_session, messages_to. cbn [flat_map]. rewrite app_nil_r. by destruct o. Qed.

Lemma messages_to_app i k l : messages_to i (k ++ l) = messages_to i k ++ messages_to i l.
Proof. apply flat_map_app. Qed.

Lemma messages_to_cons i o outs : messages_to i (o :: outs) = to_session i o ++ messages_to i outs.
Proof. rewrite to_session_eq. unfold messages_to. cbn [flat_map]. by destruct o. Qed.

(** A used slot finds its session. *)
Lemma reg_at_live w j q : registry_inv w -> 1 <= j -> ai_reg w !! Z.to_nat j = Some (Some q) ->
  reg_at j w = (w, [], Ok (Some q)).
Proof.
  intros Hw Hj Hq. assert (1 <= j <= MAX_SESSIONS) by (apply (live_range w j Hw); by exists q).
  unfold reg_at. destruct (Z.leb_spec 0 j), (Z.ltb_spec j SESSION_REG_SIZE); unfold SESSION_REG_SIZE, MAX_SESSIONS in *; try lia.
  cbn [andb]. by rewrite Hq.
Qed.

Lemma slot_pointer i p l w j q : linked i p l w -> 1 <= j -> ai_reg w !! Z.to_nat j = Some (Some q) -> (q = p <-> j = i).
Proof.
  intros [Hi Hr Hs _] Hj Hq. split; [intros ->|intros ->; congruence].
  pose proof (registered_once w _ _ p Hi Hs Hq). lia.
Qed.

Lemma stream_app ms ms' : stream (ms ++ ms') = stream ms ++ stream ms'.
Proof. apply flat_map_app. Qed.

(** Several messages to an open session. *)
Lemma enqueue_list_linked i p q ms : forall l w s c, linked i p l w -> get_object w q = Some (s, c) -> s_session_valid s = true ->
  Forall encodable ms -> (q = p -> Z.of_nat (length (l ++ stream ms)) <= 100 * 1024 * 1024) ->
  exists w', for_each (fun m => enqueue_to q m;; mret ()) ms w = (w', [], Ok ()) /\
    linked i p (if decide (q = p) then l ++ stream ms else l) w' /\ same_places w w'.
Proof.
  induction ms as [|m ms IH]; intros l w s c Hl Hg Hv Hm Hroom.
  { exists w. split; [done|]. cbn [stream flat_map]. rewrite app_nil_r. split; [by destruct (decide (q = p))|done]. }
  apply Forall_cons in Hm as [Hm Hms]. cbn [for_each stream flat_map] in *. fold (stream ms) in *.
  destruct (enqueue_linked i p l q m w s c Hl Hg Hv Hm) as (w1 & f & E1 & Hl1 & Hs1 & c1 & Hg1).
  { intros Hq. specialize (Hroom Hq). rewrite !length_app in *. lia. }
  destruct (IH _ w1 s c1 Hl1 Hg1 Hv Hms) as (w2 & E2 & Hl2 & Hs2).
  { intros Hq. rewrite decide_True by done. rewrite <-app_assoc. auto. }
  exists w2. split.
  - assert ((enqueue_to q m;; mret ()) w = (w1, [], Ok ())) as E by (unfold mbind, eff_bind; by rewrite E1).
    rewrite (eff_bind_quiet _ _ _ _ _ E). exact E2.
  - split; [|by eapply same_places_trans]. destruct (decide (q = p)); [by rewrite app_assoc|done].
Qed.

(** One call of a table. *)
Lemma run_send_linked i p l o w : linked i p l w -> live w (target o) -> Forall encodable (send_msgs o) ->
  Z.of_nat (length (l ++ stream (to_session i o))) <= 100 * 1024 * 1024 ->
  exists w', run_send o w = (w', [], Ok ()) /\ linked i p (l ++ stream (to_session i o)) w' /\ same_places w w'.
Proof.
  intros Hl (q & Hj & Hq) Hm Hroom. pose proof (slot_pointer i p l w _ q Hl Hj Hq) as Hqp.
  pose proof (lk_inv _ _ _ _ Hl) as Hw. destruct (ri_slot w Hw _ q Hq) as (s & c & Hg & _).
  destruct (is_open_linked i p l q w s c Hl Hg) as (w1 & E1 & Hl1 & Hs1 & Hg1).
  rewrite to_session_eq in *.
  assert (run_send o w = (if s_session_valid s then for_each (fun m => enqueue_to q m;; mret ()) (send_msgs o) else mret ()) w1) as ->.
  { destruct o as [m j|ms j]; cbn [run_send target send_msgs] in *; [unfold send_one|unfold send_one_list];
      rewrite (eff_bind_quiet _ _ _ _ _ (reg_at_live w j q Hw Hj Hq)), (eff_bind_quiet _ _ _ _ _ E1);
      (destruct (s_session_valid s); [|done]); [|done].
    cbn [for_each]. unfold mbind, eff_bind. destruct (enqueue_to q m w1) as [[w2 o2] [f|e]]; [|done]. cbn. by rewrite ?app_nil_r. }
  destruct (s_session_valid s) eqn:Ev.
  - destruct (enqueue_list_linked i p q (send_msgs o) l w1 s c Hl1 Hg1 Ev Hm) as (w2 & E2 & Hl2 & Hs2).
    { intros Hqe. apply Hqp in Hqe. by rewrite decide_True in Hroom. }
    exists w2. split; [exact E2|]. split; [|by eapply same_places_trans].
    destruct (decide (q = p)) as [He|He], (decide (target o = i)) as [Ht|Ht]; try tauto. by rewrite app_nil_r.
  - exists w1. split; [done|]. split; [|done]. rewrite decide_False; [by rewrite app_nil_r|].
    intros Ht. apply Hqp in Ht as ->. destruct (lk_conn _ _ _ _ Hl) as (sp & cp & Hgp & Hvp & _). congruence.
Qed.

(** All calls of an operation. *)
Lemma run_sends_linked i p outs : forall l w, linked i p l w -> Forall (live w) (target <$> outs) ->
  Forall (fun o => Forall encodable (send_msgs o)) outs ->
  Z.of_nat (length (l ++ stream (messages_to i outs))) <= 100 * 1024 * 1024 ->
  exists w', for_each run_send outs w = (w', [], Ok ()) /\ linked i p (l ++ stream (messages_to i outs)) w' /\
    same_places w w'.
Proof.
  induction outs as [|o outs IH]; intros l w Hl Ht Hm Hroom.
  { exists w. cbn. rewrite app_nil_r. done. }
  rewrite fmap_cons in Ht. apply Forall_cons in Ht as [Ht Hts]. apply Forall_cons in Hm as [Hm Hms].
  rewrite messages_to_cons, stream_app, app_assoc in *.
  destruct (run_send_linked i p l o w Hl Ht Hm) as (w1 & E1 & Hl1 & Hs1); [rewrite length_app in Hroom; lia|].
  destruct (IH _ w1 Hl1) as (w2 & E2 & Hl2 & Hs2); [|done|done|].
  { eapply Forall_impl; [exact Hts|]. intros j (q & Hj & Hq). exists q. by rewrite (proj1 Hs1). }
  exists w2. split; [|split; [done|by eapply same_places_trans]].
  cbn [for_each]. by rewrite (eff_bind_quiet _ _ _ _ _ E1).
Qed.

(** ** The sessions a table sees *)

Lemma env_live now lt w j : registry_inv w -> Table.session_exists (table_env now lt w) j = true -> live w j.
Proof.
  intros Hw. unfold table_env. cbn [Table.session_exists]. destruct (ai_reg w !! Z.to_nat j) as [[q|]|] eqn:E; try done.
  intros _. exists q. split; [|done]. destruct (decide (1 <= j)) as [|Hj]; [done|].
  replace (Z.to_nat j) with 0%nat in E by lia. by rewrite (ri_zero w Hw) in E.
Qed.

Lemma numbered_NoDup (f : Z -> option Z) reg k :
  (forall n q, reg !! n = Some (Some q) -> f q = Some (k + Z.of_nat n)) ->
  NoDup (omap f (omap id reg)) /\ Forall (Z.le k) (omap f (omap id reg)).
Proof.
  revert k. induction reg as [|[q|] reg IH]; intros k Hf; cbn [omap list_omap id]; [by repeat constructor| |].
  - destruct (IH (k + 1)) as [H1 H2].
    { intros n q' Hn. rewrite (Hf (S n) q' Hn). f_equal. lia. }
    rewrite (Hf 0%nat q eq_refl), Z.add_0_r. split; constructor; [|done|lia|eapply Forall_impl; [exact H2|]; intros; cbn in *; lia].
    intros Hin. rewrite Forall_forall in H2. specialize (H2 _ Hin). lia.
  - destruct (IH (k + 1)) as [H1 H2].
    { intros n q' Hn. rewrite (Hf (S n) q' Hn). f_equal. lia. }
    split; [done|]. eapply Forall_impl; [exact H2|]. intros; cbn in *; lia.
Qed.

Lemma session_list_NoDup w : registry_inv w -> NoDup (session_list w).
Proof.
  intros Hw. apply (numbered_NoDup _ _ 0). intros n q Hq.
  destruct (ri_slot w Hw n q Hq) as (s & c & [Hs _]%get_object_Some & Hid & _). rewrite Hs. cbn. by rewrite Hid.
Qed.

Lemma session_list_live w : registry_inv w -> Forall (live w) (session_list w).
Proof.
  intros Hw. apply Forall_forall. intros j (q & Hq & Hj)%list_elem_of_omap. apply registered_spec in Hq as [k Hk].
  destruct (ri_slot w Hw k q Hk) as (s & c & [Hs _]%get_object_Some & Hid & _). rewrite Hs in Hj. injection Hj as <-.
  exists q. rewrite Hid, Nat2Z.id. split; [|done]. destruct k; [by rewrite (ri_zero w Hw) in Hk|lia].
Qed.

Lemma linked_listed i p l w : linked i p l w -> i ∈ session_list w.
Proof.
  intros [Hw Hr Hs _]. destruct (ri_slot w Hw _ p Hs) as (s & c & [Hsp _]%get_object_Some & Hid & _).
  apply list_elem_of_omap. exists p. split; [apply registered_spec; by exists (Z.to_nat i)|]. rewrite Hsp. cbn. f_equal. lia.
Qed.

(** * A subscribed session *)

(** The session's connection was given the messages [ms], its subscriptions are
    complete and the tables are clean. *)
Record subscribed (i p : Z) (ms : list txMessage) (w : AdminInterfaceImpl) : Prop := {
  sb_linked : linked i p (stream ms) w;
  sb_tracked : all_tracked i (ai_monitor w);
  sb_clean : clean_monitor (ai_monitor w);
  sb_tidy : Forall tidy_message ms }.

Lemma tracked_monitor_inv i M : all_tracked i M -> monitor_inv M.
Proof. intros HM n t Ht. destruct (HM n t Ht). done. Qed.

(** Everything sent, to whomever. *)
Definition all_messages (outs : list send) : list txMessage := flat_map send_msgs outs.

Lemma stream_messages_to i outs : (length (stream (messages_to i outs)) <= length (stream (all_messages outs)))%nat.
Proof.
  induction outs as [|o outs IH]; [done|]. rewrite messages_to_cons, to_session_eq. unfold all_messages in *. cbn [flat_map].
  rewrite !stream_app, !length_app. case_decide; cbn [stream flat_map length]; lia.
Qed.

Lemma stream_encodable outs : Z.of_nat (length (stream (all_messages outs))) <= 100 * 1024 * 1024 ->
  Forall (fun o => Forall encodable (send_msgs o)) outs.
Proof.
  intros Hl. apply Forall_forall. intros o Ho. apply Forall_forall. intros m Hm. unfold encodable.
  assert (m ∈ all_messages outs) as Hin.
  { apply list_elem_of_In, in_flat_map. exists o. by rewrite <-!list_elem_of_In. }
  pose proof (stream_wire_length _ _ Hin). pose proof (wire_length_body m). unfold max_content. lia.
Qed.

Lemma messages_to_tidy (P : Z -> Prop) i outs : Forall (good_send P) outs -> Forall tidy_message (messages_to i outs).
Proof.
  induction 1 as [|o outs [_ Ho] _ IH]; [done|]. rewrite messages_to_cons, to_session_eq. apply Forall_app.
  split; [by case_decide|done].
Qed.

Section interface.
Context (localtime : Z -> tm).

(** An operation of the monitor, in the interface. *)
Lemma on_monitor_linked now i p l w op : linked i p l w -> Forall (good_send (live w)) (outputs (op (table_env now localtime w) (session_list w) (ai_monitor w))) ->
  outcome (op (table_env now localtime w) (session_list w) (ai_monitor w)) = Ok () ->
  Z.of_nat (length l) + Z.of_nat (length (stream (all_messages (outputs (op (table_env now localtime w) (session_list w) (ai_monitor w))))))
    <= 100 * 1024 * 1024 ->
  exists w', on_monitor now localtime op w = (w', [], Ok ()) /\
    linked i p (l ++ stream (messages_to i (outputs (op (table_env now localtime w) (session_list w) (ai_monitor w))))) w' /\
    ai_monitor w' = state_after (op (table_env now localtime w) (session_list w) (ai_monitor w)) /\
    ai_reg w' = ai_reg w /\ ai_admins w' = ai_admins w.
Proof.
  intros Hl Hg Hok Hroom. unfold on_monitor. destruct (op _ _ (ai_monitor w)) as [[M outs] r].
  cbn [outputs outcome state_after fst snd] in *. subst r.
  pose proof (stream_messages_to i outs) as Hle.
  assert (linked i p l (set_monitor M w)) as Hl0 by (destruct Hl as [Hw Hr Hs Hc]; split; [by apply keeps_set_monitor|done..]).
  destruct (run_sends_linked i p outs l (set_monitor M w) Hl0) as (w' & E & Hl' & Hreg & Hadm & Hmon).
  - apply Forall_fmap. eapply Forall_impl; [exact Hg|]. by intros o [Ho _].
  - apply stream_encodable. lia.
  - rewrite length_app. lia.
  - exists w'. split; [|done]. by rewrite (eff_bind_quiet _ _ _ _ _ E).
Qed.

(** ** Calls of the application *)

Definition app_call (now : Z) (call : monitor_call) : ai_op unit :=
  match call with
  | CallUpdate n k fields => monitor_update now localtime n k fields
  | CallAddColumns n cols => ai_add_columns now localtime n cols
  | CallColumnAttr n c a => ai_table_column_attr now localtime n c a
  | CallClear n => ai_clear_table now localtime n
  | CallClearAll => on_monitor now localtime (fun e _ => clear_all_tables e)
  end.

Lemma app_call_eq now call : app_call now call = on_monitor now localtime (fun e l => run_call e l call).
Proof. by destruct call. Qed.

(** What happens to the session: the application changes tables, the event
    loop writes to the socket. *)
Inductive live_event :=
| LiveCall (now : Z) (call : monitor_call)
| LiveFlush (clock : Z) (sends : list send_result).

Definition run_live (p : Z) (ev : live_event) : ai_op unit :=
  match ev with
  | LiveCall now call => app_call now call
  | LiveFlush clock sends => on_session p (fun s c => '(c, _) ← handle_output clock sends c; Ok (s, c, ()))
  end.

(** The calls of [send_one] an event makes. *)
Definition live_outputs (ev : live_event) (w : AdminInterfaceImpl) : list send :=
  match ev with
  | LiveCall now call => outputs (run_call (table_env now localtime w) (session_list w) call (ai_monitor w))
  | LiveFlush _ _ => []
  end.

Fixpoint all_outputs (p : Z) (evs : list live_event) (w : AdminInterfaceImpl) : list send :=
  match evs with
  | [] => []
  | ev :: evs => live_outputs ev w ++ all_outputs p evs (state_after (run_live p ev w))
  end.

Definition event_ok (ev : live_event) : Prop :=
  match ev with LiveCall _ call => announces call /\ clean_call call | LiveFlush _ _ => True end.

Lemma live_call i p ms w now call : subscribed i p ms w -> announces call -> clean_call call ->
  Z.of_nat (length (stream ms)) + Z.of_nat (length (stream (all_messages (live_outputs (LiveCall now call) w)))) <= 100 * 1024 * 1024 ->
  exists w', run_live p (LiveCall now call) w = (w', [], Ok ()) /\
    subscribed i p (ms ++ messages_to i (live_outputs (LiveCall now call) w)) w' /\
    observe i (contents_of (ai_monitor w)) (live_outputs (LiveCall now call) w) = contents_of (ai_monitor w').
Proof.
  intros [Hl Ht Hc Hms] Ha Hcl Hroom. pose proof (lk_inv _ _ _ _ Hl) as Hw. cbn [run_live live_outputs] in *.
  destruct (run_call_observed i (table_env now localtime w) (session_list w) call (ai_monitor w)) as (M & outs & E & HM & Hobs); [|done|].
  { split_and!; [|by eapply linked_listed|by apply session_list_NoDup|done]. cbn [table_env Table.session_exists fst].
    by rewrite (lk_slot _ _ _ _ Hl). }
  destruct (run_call_emits (live w) (table_env now localtime w) (session_list w) call
    (fun j => env_live now localtime w j Hw) (session_list_live w Hw) Hcl (ai_monitor w)
    (tracked_monitor_inv _ _ Ht) Hc) as (Hc' & Hg & _).
  destruct (on_monitor_linked now i p (stream ms) w (fun e l => run_call e l call) Hl Hg) as (w' & E' & Hl' & Hmon & _);
    [by rewrite E|done|].
  exists w'. rewrite app_call_eq. split; [exact E'|]. rewrite E in *. cbn [outputs state_after fst snd] in *. rewrite Hmon.
  split; [|done]. split; [by rewrite stream_app|by rewrite Hmon|by rewrite Hmon|].
  apply Forall_app. split; [done|]. by eapply messages_to_tidy.
Qed.

Lemma live_flush i p ms w clock sends : subscribed i p ms w ->
  exists w', run_live p (LiveFlush clock sends) w = (w', [], Ok ()) /\ subscribed i p ms w' /\ ai_monitor w' = ai_monitor w.
Proof.
  intros [[Hw Hr Hs (s & c & Hg & Hv & Hio & Ho)] Ht Hc Hms]. cbn [run_live].
  destruct (outbox_output true (stream ms) c clock sends Ho) as (c' & st & E & Ho').
  exists (set_object p s c' w). split; [apply (on_session_ok _ p w s c); [done|by rewrite E]|]. split; [|done].
  split; [|done..]. split; [by apply (inv_set_object w p s c)|done|done|]. exists s, c'. by rewrite get_object_set.
Qed.

(** Any sequence of events. *)
Lemma live_run i p evs : forall ms w, Forall event_ok evs -> subscribed i p ms w ->
  Z.of_nat (length (stream ms)) + Z.of_nat (length (stream (all_messages (all_outputs p evs w)))) <= 100 * 1024 * 1024 ->
  exists w', for_each (run_live p) evs w = (w', [], Ok ()) /\
    subscribed i p (ms ++ messages_to i (all_outputs p evs w)) w' /\
    observe i (contents_of (ai_monitor w)) (all_outputs p evs w) = contents_of (ai_monitor w').
Proof.
  induction evs as [|ev evs IH]; intros ms w Hok Hsb Hroom; cbn [for_each all_outputs] in *.
  { exists w. unfold messages_to. cbn [flat_map]. by rewrite app_nil_r. }
  apply Forall_cons in Hok as [Hev Hok]. unfold all_messages in Hroom. rewrite flat_map_app, stream_app, length_app in Hroom.
  pose proof (stream_messages_to i (live_outputs ev w)) as Hle. unfold all_messages in Hle.
  assert (exists w1, run_live p ev w = (w1, [], Ok ()) /\ subscribed i p (ms ++ messages_to i (live_outputs ev w)) w1 /\
    observe i (contents_of (ai_monitor w)) (live_outputs ev w) = contents_of (ai_monitor w1)) as (w1 & E1 & Hsb1 & Hob1).
  { destruct ev as [now call|clock sends].
    - destruct Hev. apply live_call; [done|done|done|]. unfold all_messages. lia.
    - destruct (live_flush i p ms w clock sends Hsb) as (w1 & E1 & Hsb1 & Hm1). exists w1. cbn [live_outputs].
      unfold messages_to. cbn [flat_map]. rewrite app_nil_r, Hm1. done. }
  rewrite E1 in *. cbn [state_after fst] in *.
  destruct (IH _ w1 Hok Hsb1) as (w2 & E2 & Hsb2 & Hob2).
  { unfold all_messages. rewrite stream_app, length_app. lia. }
  exists w2. split; [by rewrite (eff_bind_quiet _ _ _ _ _ E1)|]. split.
  - rewrite messages_to_app, app_assoc. done.
  - by rewrite observe_app, Hob1.
Qed.

End interface.

(** * Joining *)

Lemma linked_set i p l w s c s' : linked i p l w -> get_object w p = Some (s, c) -> s_id s' = s_id s ->
  s_session_valid s' = s_session_valid s -> s_io_handle s' = s_io_handle s -> linked i p l (set_object p s' c w).
Proof.
  intros [Hw Hr Hs (s0 & c0 & Hg0 & Hv & Hio & Ho)] Hg Eid Ev Eio. rewrite Hg in Hg0. injection Hg0 as <- <-.
  split; [by apply (inv_set_object w p s c)|done|done|]. exists s', c. rewrite get_object_set. split_and!; congruence || done.
Qed.

Lemma logon_msg_no_table serviceid : message_table (logon_msg serviceid) = None.
Proof. reflexivity. Qed.

Lemma serialise_admins_no_table w : message_table (serialise_admins w) = None.
Proof.
  unfold serialise_admins. rewrite message_table_eq. cbn [on_root m_root set_type].
  match goal with |- context [put_child_with ?r id.body ?g] => set (r0 := r); set (g0 := g) end.
  assert (indexed r0) as Hr by (apply wf_indexed; apply wf_put_field_qn; apply wf_new_container).
  assert (m_name (g0 (new_container id.body)) = id.body) as Hn by (apply m_name_put_child_with).
  rewrite find_child_put_child_with by done. rewrite decide_False by done. reflexivity.
Qed.

Lemma view_apply_other V m : message_table m = None -> view_apply V m = V.
Proof. intros Hm. unfold view_apply. by rewrite Hm. Qed.

Section join.
Context (localtime : Z -> tm) (info : system_info) (user_target : Z -> AdminRequest -> ai_op AdminResponse).

(** The calls of [subscribe_all] on logon. *)
Definition join_outputs (i : Z) (w : AdminInterfaceImpl) : list send := outputs (subscribe_all i (ai_monitor w)).

(** What the session is sent when it logs on. *)
Definition join_messages (i : Z) (w : AdminInterfaceImpl) : list txMessage :=
  messages_to i (join_outputs i w) ++ [serialise_admins w].

(** Every table can be joined by a new session: its rows fit the frame, and
    its subscribers are sessions of the registry, each once. *)
Definition open_tables (w : AdminInterfaceImpl) : Prop := forall n t, ai_monitor w !! n = Some t ->
  rows_fit t /\ NoDup (m_subscribers t) /\ Forall (live w) (m_subscribers t).

Lemma autoclose_linked i p l (auto : bool) w : linked i p l w -> exists w',
  (if auto then on_session p (fun s c => Ok (set_autoclose true s, c, ())) else mret ()) w = (w', [], Ok ()) /\
  linked i p l w' /\ same_places w w'.
Proof.
  intros Hl. destruct auto; [|exists w; split; [done|]; split; [done|apply same_places_refl]].
  destruct (lk_conn _ _ _ _ Hl) as (s & c & Hg & _). exists (set_object p (set_autoclose true s) c w).
  split; [by apply (on_session_ok _ p w s c)|]. split; [by apply (linked_set i p _ w s c)|done].
Qed.

(** A logon that does not decline the subscription, for a session whose slot
    no table knows. *)
Lemma logon_subscribes now i p ms w m : linked i p (stream ms) w -> monitor_inv (ai_monitor w) ->
  clean_monitor (ai_monitor w) -> (forall n t, ai_monitor w !! n = Some t -> MonitorView.joinable i t) -> clean_attrs (ai_admins w) ->
  Forall tidy_message ms -> msg_type m = id.msg_logon -> check_field_qn (m_root m) id.QN_noautosub id.True_ = false ->
  Z.of_nat (length (stream ms)) + Z.of_nat (length (stream (all_messages (join_outputs i w)))) +
    Z.of_nat (length (wire (serialise_admins w))) <= 100 * 1024 * 1024 ->
  exists w', on_session_message now localtime info user_target m p w = (w', [], Ok ()) /\
    subscribed i p (ms ++ join_messages i w) w' /\ observe i ∅ (join_outputs i w) = contents_of (ai_monitor w').
Proof.
  intros Hl HM Hcl Hj Ha Hms Hty Hns Hroom. pose proof Hl as [Hw Hr Hs (s & c & Hg & Hv & Hio & Ho)].
  destruct (ri_slot w Hw _ p Hs) as (s0 & c0 & Hg0 & Hid & _). rewrite Hg in Hg0. injection Hg0 as <- <-.
  unfold on_session_message. rewrite Hty, bool_decide_eq_true_2 by done. unfold handle_logon_msg. rewrite Hns.
  set (w1 := set_object p s c w). assert (linked i p (stream ms) w1) as Hl1 by (by apply (linked_set i p _ w s c)).
  rewrite (eff_bind_quiet _ _ w w1 i)
    by (apply (on_session_ok _ p w s c); [done|]; do 2 f_equal; lia).
  destruct (subscribe_all_observed i (ai_monitor w) HM Hj) as (M & outs & E & Htr & Hob).
  destruct (subscribe_all_emits (live w1) i (ex_intro _ p (conj (proj1 Hr) Hs)) (ai_monitor w) HM Hcl) as (Hcl' & Hg' & _).
  unfold join_messages, join_outputs in *. rewrite E in *. cbn [outputs outcome state_after fst snd] in *.
  destruct (on_monitor_linked localtime now i p (stream ms) w1 (fun _ _ => subscribe_all i) Hl1)
    as (w2 & E2 & Hl2 & Hmon & Hreg & Hadm); change (ai_monitor w1) with (ai_monitor w); rewrite ?E; [done|done|cbn [outputs fst snd]; lia|].
  change (ai_monitor w1) with (ai_monitor w) in Hl2, Hmon. rewrite E in Hl2, Hmon. cbn [outputs state_after fst snd] in *.
  rewrite (eff_bind_quiet _ _ w1 w2 ()) by exact E2.
  destruct (autoclose_linked i p _ (check_field_qn (m_root m) [id.head; id.autoclose] id.True_) w2 Hl2)
    as (w3 & E3 & Hl3 & Hs3 & Ha3 & Hm3).
  rewrite (eff_bind_quiet _ _ _ _ _ E3). rewrite (eff_bind_quiet get _ w3 w3 w3) by done.
  assert (serialise_admins w3 = serialise_admins w) as Hser by (unfold serialise_admins; by rewrite Ha3, Hadm).
  rewrite Hser. pose proof (stream_messages_to i outs) as Hle.
  destruct (run_send_linked i p (stream ms ++ stream (messages_to i outs)) (SendOne (serialise_admins w) i) w3 Hl3)
    as (w4 & E4 & Hl4 & Hs4 & Ha4 & Hm4).
  - exists p. split; [apply Hr|apply Hl3].
  - apply Forall_singleton. unfold encodable. pose proof (wire_length_body (serialise_admins w)).
    rewrite <-length_wire in *. unfold max_content. lia.
  - rewrite to_session_eq, decide_True by done. cbn [send_msgs stream flat_map]. rewrite !length_app, length_nil. lia.
  - exists w4. split; [exact E4|]. rewrite to_session_eq, decide_True in Hl4 by done. cbn [send_msgs] in Hl4.
    assert (ai_monitor w4 = M) as EM by congruence. split; [|by rewrite EM]. split; rewrite ?EM; [|done|done|].
    + by rewrite !stream_app, app_assoc.
    + apply Forall_app. split; [done|]. apply Forall_app. split; [by eapply messages_to_tidy|].
      apply Forall_singleton. split; [by apply tidy_serialise_admins|reflexivity].
Qed.

End join.

(** * From the application to the reader *)

Section replica.
Context (localtime : Z -> tm) (info : system_info) (user_target : Z -> AdminRequest -> ai_op AdminResponse).

(** A message from the connection of the session at [p]. *)
Lemma io_onmsg_message now w p m s c : get_object w p = Some (s, c) -> s_session_valid s = true -> s_listener s = true ->
  exists s', identity s' = identity (take_message m s) /\
    io_onmsg (SL := interface_listener now localtime info user_target) p m w =
      pair_of (on_session_message now localtime info user_target m p (set_object p s' c w)).
Proof.
  intros Hg Hv Hls. unfold io_onmsg. cbn [host_get host_set interface_listener fst snd]. rewrite Hg, Hv. cbn [negb].
  set (s1 := if bool_decide (msg_type m = id.msg_logon) then note_logon m (take_message m s) else take_message m s).
  assert (identity s1 = identity (take_message m s)) as Hs1 by (unfold s1; case_bool_decide; [apply note_logon_identity|done]).
  exists s1. split; [done|]. assert (s_listener s1 = true) as ->; [|done].
  unfold identity in Hs1. injection Hs1 as _ _ E _ _. by rewrite E.
Qed.

(** Everything that is sent, to any session, from the logon on. *)
Definition replica_traffic (now i p : Z) (serviceid : string) (logon : txMessage) (evs : list live_event)
    (w : AdminInterfaceImpl) : list txMessage :=
  let w1 := (io_onmsg (SL := interface_listener now localtime info user_target) p logon w).1 in
  logon_msg serviceid :: serialise_admins w :: all_messages (join_outputs i w) ++ all_messages (all_outputs localtime p evs w1).

(** The logon over the connection of a new session. *)
Lemma session_joins now i p serviceid logon evs w s c : linked i p (wire (logon_msg serviceid)) w ->
  get_object w p = Some (s, c) -> s_listener s = true -> monitor_inv (ai_monitor w) -> clean_monitor (ai_monitor w) ->
  (forall n t, ai_monitor w !! n = Some t -> MonitorView.joinable i t) -> clean_attrs (ai_admins w) ->
  msg_type logon = id.msg_logon -> check_field_qn (m_root logon) id.QN_noautosub id.True_ = false ->
  Z.of_nat (length (stream (replica_traffic now i p serviceid logon evs w))) <= 100 * 1024 * 1024 ->
  exists w1, io_onmsg (SL := interface_listener now localtime info user_target) p logon w = (w1, Ok ()) /\
    subscribed i p (logon_msg serviceid :: join_messages i w) w1 /\
    observe i ∅ (join_outputs i w) = contents_of (ai_monitor w1).
Proof.
  intros Hl Hg Hls HM Hcl Hj Ha Hty Hns Hroom. pose proof (lk_conn _ _ _ _ Hl) as (s0 & c0 & Hg0 & Hv & Hio & _).
  rewrite Hg in Hg0. injection Hg0 as <- <-.
  destruct (io_onmsg_message now w p logon s c Hg Hv Hls) as (s1 & Hid & E).
  unfold identity in Hid. cbn [take_message s_id s_session_valid s_listener s_io_handle s_inbox] in Hid.
  injection Hid as Eid Ev _ Eio _.
  assert (wire (logon_msg serviceid) = stream [logon_msg serviceid]) as Es by (cbn; by rewrite app_nil_r).
  destruct (logon_subscribes localtime info user_target now i p [logon_msg serviceid] (set_object p s1 c w) logon)
    as (w1 & E1 & Hsb & Hob); [|done|done|done|done| |done|done| |].
  - rewrite <-Es. by apply (linked_set i p _ w s c).
  - apply Forall_singleton. split; [apply tidy_logon_msg|reflexivity].
  - unfold replica_traffic in Hroom. cbn [stream flat_map] in Hroom. change (flat_map wire) with stream in Hroom.
    rewrite stream_app, !length_app in Hroom. rewrite <-Es.
    change (join_outputs i (set_object p s1 c w)) with (join_outputs i w).
    change (serialise_admins (set_object p s1 c w)) with (serialise_admins w). lia.
  - exists w1. rewrite E, E1. done.
Qed.

(** The messages of a subscribed session arrive, whoever reads them. *)
Lemma messages_arrive ms l : Forall tidy_message ms -> l = stream ms -> Z.of_nat (length l) <= 100 * 1024 * 1024 ->
  forall (T : Type) (CB : ClientCallback T) (SCB : SamCallback T) (c0 : Client) (r0 : T) (reads : list in_event),
  fresh_inbound c0 -> cb_after [] c0 r0 -> (forall r m, cb_accepts r m) ->
  Forall read_ok reads -> bytes_read reads = l ->
  exists c1 r1, run_events (reads ++ [EvWork]) (c0, r0) = Ok (c1, r1) /\ cb_after ms c1 r1.
Proof.
  intros Hms -> Hl T CB SCB c0 r0 reads Hf Hr Hacc Hev Hb.
  apply (deliver_all c0 r0 [] ms); [done|done| |done|done|lia].
  apply deliverable_Forall; [|intros; apply Hacc]. rewrite Forall_forall in *. intros m Hm.
  destruct (Hms m Hm) as [Ht Hc]. by apply (fitting_sendable ms).
Qed.

(** From the messages of the logon on. *)
Lemma replica_follows i p ms w1 evs : subscribed i p ms w1 -> Forall event_ok evs ->
  foldl view_apply ∅ ms = contents_of (ai_monitor w1) ->
  Z.of_nat (length (stream ms)) + Z.of_nat (length (stream (all_messages (all_outputs localtime p evs w1)))) <= 100 * 1024 * 1024 ->
  exists w2 s c ms', for_each (run_live localtime p) evs w1 = (w2, [], Ok ()) /\ get_object w2 p = Some (s, c) /\
    Forall tidy_message ms' /\ sent c ++ queued c = stream ms' /\
    Z.of_nat (length (sent c ++ queued c)) <= 100 * 1024 * 1024 /\
    forall n, foldl view_apply ∅ ms' !! n =
      if table_exists (ai_monitor w2) n then Some (copy_table (ai_monitor w2) n ∅) else None.
Proof.
  intros Hsb Hevs Hv Hroom. destruct (live_run localtime i p evs ms w1 Hevs Hsb Hroom) as (w2 & E2 & Hsb2 & Hob2).
  pose proof (stream_messages_to i (all_outputs localtime p evs w1)) as Hle.
  destruct Hsb2 as [Hl2 Htr2 _ Htidy]. destruct (lk_conn _ _ _ _ Hl2) as (s2 & c2 & Hg2 & _ & _ & Ho2).
  exists w2, s2, c2, (ms ++ messages_to i (all_outputs localtime p evs w1)).
  pose proof (proj2 (proj2 (proj2 Ho2))) as Hq. do 4 (split; [done|]).
  split; [rewrite Hq, stream_app, length_app; lia|]. intros n.
  rewrite foldl_app, Hv. fold (observe i (contents_of (ai_monitor w1)) (all_outputs localtime p evs w1)). rewrite Hob2.
  unfold contents_of, table_exists, copy_table. rewrite lookup_fmap.
  destruct (ai_monitor w2 !! n) as [t|] eqn:E; [|done]. cbn.
  by rewrite copy_table_contents by apply (Htr2 n t E).
Qed.

(** The new session of a free slot, ready to join. *)
Lemma create_joins now peer serviceid fd w : registry_inv w ->
  (exists j, 1 <= j <= MAX_SESSIONS /\ ai_reg w !! Z.to_nat j = Some None) -> clean_monitor (ai_monitor w) -> open_tables w ->
  Z.of_nat (length (wire (logon_msg serviceid))) <= 100 * 1024 * 1024 ->
  exists i p c w0 s, createNewSession now peer serviceid fd w = (w0, [], Ok ()) /\ ai_reg w0 !! Z.to_nat i = Some (Some p) /\
    linked i p (wire (logon_msg serviceid)) w0 /\ get_object w0 p = Some (s, c) /\ s_listener s = true /\
    ai_monitor w0 = ai_monitor w /\ ai_admins w0 = ai_admins w /\
    forall n t, ai_monitor w !! n = Some t -> MonitorView.joinable i t.
Proof.
  intros Hw Hfree Hcl Hopen Hlen. destruct (create_serves now peer serviceid fd w Hw Hfree Hlen)
    as (i & p & c & w0 & Ec & Hi & Hnone & Hreg & Hadm & Hmon & _ & Hg & Hout & _).
  set (s := io_init (new_session fd i now true (peer fd))) in *.
  assert (registry_inv w0) as Hw0.
  { pose proof (keeps_create now peer serviceid fd w Hw) as H. by rewrite Ec in H. }
  exists i, p, c, w0, s. do 2 (split; [done|]). split.
  { split; [done|done|done|]. exists s, c. do 3 (split; [done|]). exact Hout. }
  do 4 (split; [done|]). intros n t Ht. destruct (Hopen n t Ht) as (Hf & Hnd & Hlive).
  split; [by eapply clean_table_metas, Hcl|]. split; [done|]. split; [|done]. intros Hin. rewrite Forall_forall in Hlive.
  destruct (Hlive i Hin) as (q & _ & Hq). congruence.
Qed.

Lemma stream_cons m ms : stream (m :: ms) = wire m ++ stream ms.
Proof. done. Qed.


End replica.

(** ** A run *)

(** A user who logs on; the application then adds a row, a column, an
    attribute and a second table, while the socket is written in two parts. *)
Definition demo_logon : txMessage := tool_logon (MkOptions "localhost" "5555" EmptyString [] 0 "1/admin:me@here" "me").
Definition demo_events : list live_event :=
  [ LiveCall 1001 (CallUpdate "prices" "BT.L" {[ "bid" := "7"; "ask" := "8" ]});
    LiveFlush 1002 [SendOk 100; SendAgain];
    LiveCall 1003 (CallAddColumns "prices" ["last"]);
    LiveCall 1004 (CallUpdate "orders" "1" {[ "qty" := "5" ]});
    LiveCall 1005 (CallClear "orders");
    LiveFlush 1006 [SendOk 5000] ].

Definition demo_w0 : AdminInterfaceImpl := state_after (createNewSession 1000 test_peer "svc" 7 demo_world).
Lemma demo_created : createNewSession 1000 test_peer "svc" 7 demo_world = (demo_w0, [], Ok ()).
Proof. vm_compute. reflexivity. Qed.
Definition demo_pointer : Z := default 0 (default None (ai_reg demo_w0 !! 1%nat)).

Lemma demo_reg : exists n, ai_reg demo_w0 = None :: Some demo_pointer :: replicate n None.
Proof. exists (length (drop 2 (ai_reg demo_w0))). vm_compute. reflexivity. Qed.

Lemma one_slot (p0 : Z) n k (p : Z) : (None :: Some p0 :: replicate n None) !! k = Some (Some p) -> k = 1%nat /\ p = p0.
Proof.
  destruct k as [|[|k]]; cbn [lookup list_lookup]; [done|by intros [= <-]|]. by intros [H _]%lookup_replicate_1.
Qed.

Lemma demo_slot i p : ai_reg demo_w0 !! Z.to_nat i = Some (Some p) -> i = 1 /\ p = demo_pointer.
Proof.
  destruct demo_reg as [n E]. rewrite E. generalize demo_pointer. intros p0 H.
  destruct (one_slot p0 n (Z.to_nat i) p H) as [Hi Hp]. split; [lia|exact Hp].
Qed.

(** The table of the world comes from a call of the application. *)
Definition demo_call : monitor_call := CallUpdate "prices" "VOD.L" {[ "bid" := "101" ]}.
Lemma demo_monitor : ai_monitor demo_world =
  state_after (run_call (table_env 1000 test_localtime new_interface) [] demo_call (ai_monitor new_interface)).
Proof. vm_compute. reflexivity. Qed.

Lemma clean_singleton k v : clean_name k = true -> clean_keys {[ k := v ]}.
Proof. intros Hk k' v' [<- _]%lookup_singleton_Some. done. Qed.

Lemma demo_clean : clean_monitor (ai_monitor demo_world).
Proof.
  rewrite demo_monitor. apply (run_call_emits (fun _ => True)); [done|by constructor| |by intros n t|by intros n t].
  by apply clean_singleton.
Qed.

Lemma demo_monitor_inv : monitor_inv (ai_monitor demo_world).
Proof. rewrite demo_monitor. apply run_call_inv. by intros n t. Qed.

Definition demo_table : DataTable := default (new_table EmptyString) (ai_monitor demo_world !! "prices").
Lemma demo_table_only : ai_monitor demo_world = {[ "prices" := demo_table ]}.
Proof. vm_compute. reflexivity. Qed.

Lemma rows_fit_decided t :
  forallb (fun row => check_enc_size (snapshot_batch t [row]) room_for_snap_fields) (m_rows t) = true -> rows_fit t.
Proof. intros H. apply Forall_forall. intros row Hrow. rewrite forallb_forall in H. by apply H, list_elem_of_In. Qed.

Lemma demo_open : open_tables demo_world.
Proof.
  assert (rows_fit demo_table) as Hf by (apply rows_fit_decided; vm_compute; reflexivity).
  assert (m_subscribers demo_table = []) as Hs by (vm_compute; reflexivity).
  intros n t. rewrite demo_table_only. intros [_ <-]%lookup_singleton_Some. rewrite Hs.
  split; [exact Hf|split; constructor].
Qed.

Lemma demo_attrs : clean_attrs (ai_admins demo_world).
Proof. apply clean_attrs_decided. apply (bool_decide_unpack _). vm_compute. exact I. Qed.

Lemma clean_keys_decided m : bool_decide (map_Forall (fun k (_ : string) => clean_name k = true) m) = true -> clean_keys m.
Proof. by intros H%bool_decide_eq_true_1. Qed.

Lemma demo_events_ok : Forall event_ok demo_events.
Proof.
  unfold demo_events. rewrite !Forall_cons, Forall_nil. cbn [event_ok announces clean_call].
  split_and!; try exact I.
  - exists "bid", "7". done.
  - apply clean_keys_decided. vm_compute. reflexivity.
  - by constructor.
  - exists "qty", "5". done.
  - apply clean_keys_decided. vm_compute. reflexivity.
Qed.

Lemma same_end {S O A} (x : S * list O * result A) w w' a : x = (w, [], Ok a) -> x = (w', [], Ok a) -> w' = w.
Proof. congruence. Qed.

